(* ===== verification/_CoqProject ===== *)
-Q . S2P
Prelude.v
Conc.v
Atomic.v
Clist.v
Malloc.v
Hash.v
Time.v
HeapSpec.v
Heap.v
Hashtable.v
HashtableThms.v
HashConc.v
Pbuf.v
PbufTypes.v
PbufConc.v
Signal.v
Timer.v
TimerQueue.v
TimerRace.v
TimerMod.v
TimerFini.v
TimerConc.v
Rbtree.v
RbtreeThms.v
RbtreeInsert.v
RbtreeColor.v
RbtreeRotate.v
Event.v
Epoll.v
Kqueue.v
Log.v
Debug.v
