(* ===== verification/Prelude.v ===== *)
(** * libckit: a verification development

    libckit is a small C library of the data structures and services an
    event-driven network daemon is built from. This directory models its
    implementation under src/src and src/include/ckit and proves what the parts
    do, alone and together.

    ** The parts and where they are

    - Prelude.v (this file): outcomes of a C computation, the state monad with
      its total-correctness predicate [wp], typed stores, machine integers,
      [get_enclosing] of ckit.h, and generic lemmas.
    - Conc.v: threads over a shared store: runs, sums over threads, invariants.
    - Atomic.v: atomic.h, the counters behind reference counts.
    - Clist.v: list.h, circular doubly linked lists in a store of nodes; [is_list]
      relates a ring to the sequence of its nodes.
    - Malloc.v: the C library's allocator, as an interface ([Allocator],
      [AllocatorLaws]) with one implementation for the witnesses.
    - Hash.v: hash.h, the sdbm hash.
    - Time.v: time.h, arithmetic on [timespec] and [timeval].
    - HeapSpec.v, Heap.v: heap.c and heap.h, a binary heap of items embedded in
      client objects. HeapSpec.v has the reference functions [sift_up] and
      [sift_down] on sequences; [HeapItem] is what a client promises about the
      embedding and [CmpOk] about the comparison. In [heap_wf] every item knows
      its position; [heap_loose] is what is left when [heap_remove] has not
      corrected one, and enough for every operation but removal by index.
    - Hashtable.v, HashtableThms.v: hashtable.c and hashtable.h, chains of
      reference-counted elements over Clist.v and Atomic.v, one lock per slot;
      [rep] relates a table to the map from keys to elements it implements.
      HashConc.v has several threads that use one table, and what happens when
      they break the rules the code leaves to them.
    - Pbuf.v: pbuf.c and pbuf.h, packet buffers and the pool they come from.
      PbufTypes.v has the values of the C types and that every call keeps to
      them; PbufConc.v has the pool under several threads.
    - Signal.v: signal.c and signal.h, a wake-up flag kept in a pipe; [Pipe] and
      [PipeLaws] are the system calls.
    - Timer.v, TimerQueue.v, TimerRace.v, TimerMod.v, TimerFini.v, TimerConc.v:
      timer.c and timer.h, a heap of timers under a mutex with a signal, over
      Heap.v, Signal.v and Time.v. Timer.v has the functions one by one,
      TimerQueue.v what they make of one another, TimerMod.v timers that are
      moved and what a wrong position in the heap leads to, TimerFini.v the end
      of a queue, TimerRace.v what another thread can do in the middle of one
      function, TimerConc.v any number of threads that use one queue.
    - Rbtree.v, RbtreeThms.v, RbtreeInsert.v, RbtreeColor.v, RbtreeRotate.v:
      rbtree.c and rbtree.h. Rbtree.v has the functions; RbtreeThms.v relates the
      nodes to a tree of addresses ([shape], [parents], [inorder]) and has
      traversal and destruction; RbtreeInsert.v has [bst_insert], one rotation,
      and insertions that fail; RbtreeColor.v has red-black trees ([rb]) and the
      fix-up where it recolours; RbtreeRotate.v the fix-up where it rotates below
      the root.
    - Event.v, Epoll.v, Kqueue.v: event.h and its two implementations,
      event_epoll.c and event_kqueue.c. [Epoll] and [Kqueue] are the system
      calls, with laws that say what epoll(7) and kqueue(2) document.
    - Log.v, Debug.v: log.c and log.h, debug.c and debug.h, over the streams of
      the C library; the hex dump.

    Definitions keep the names of the code. A function that changes state is a
    computation of type [M S A]: from a store to a value and a new store, or
    [Fault] where the C standard leaves the behaviour undefined, [Aborted] where
    an assertion fails, [OutOfFuel] where a loop has not ended. Objects of one C
    type live in a finite map from addresses, so that aliasing and dangling
    pointers are those of the code. An operation of one component that works on
    a part of another's state is lifted with [zoom]. Function pointers, foreign
    functions and client callbacks are parameters with their contracts.

    ** What the theorems show

    - Refinement: every sequence of list operations refines a sequence of nodes;
      hashing, unhashing and lookup refine a finite map; buffer operations
      refine the three parts of a buffer; event control over epoll refines a
      table of registrations.
    - Invariants: [heap_wf], [rep] of a hash table, [pool_wf] and [filled] are
      established by the initialisation functions, and they and the tree's
      [tree_ok] kept by the operations the theorems name. The red-black
      invariant [rb] is kept by insertions that only recolour, and by those that
      rotate below the root where case 5 has the side right
      ([rb_tree_insert_rotates]).
    - Types: whatever is called, the fields of packet buffers have values of
      their C types ([pbuf_calls_typed]).
    - Threads: under every interleaving the pool, the hash table and the timer
      queue keep their books, references stay valid, nothing is freed twice, and
      there is no data race in the pool; every call of the pool returns whatever
      the schedule ([pool_calls_return]). Two threads that hash one element
      corrupt the table, two that add one timer can put it into the queue twice,
      and a timer can be added without waking the thread that waits.
    - Timers: [timer_add] and [timer_mod] set the time-out they are asked for and
      leave the other timers as they are, and wake the queue's thread when the
      front is concerned.
    - Memory: [hashtable_fini], [timer_queue_fini] and [rb_tree_destroy] release
      every element, timer or node once, and [timer_queue_fini] the array of the
      heap; [pbuf_alloc] and [pbuf_free] move one entry.
    - Termination: every theorem that runs a loop gives fuel that is enough and
      concludes that the run returns. The threaded traversal of the tree restores
      the tree it changes on the way.
    - Arithmetic: time arithmetic is exact and normalised; hashes wrap around at
      64 bits; [hexdump] stays within its buffer or, when that is too small, does
      not, and the theorem says which.
    - Errors: where the code does not do what it is for, the theorem says what it
      does instead: timers fire latest first, [timer_del] of a timer that is not
      scheduled removes another, and one timer deleted can leave another that
      cannot be; insertion under the only child of the root, a red one,
      dereferences a null pointer, a rotation on the wrong side or after one that
      left a parent pointer stale loses keys, and [rb_tree_insert] never inserts.

    ** Bounds and fuel

    Widths are those of an LP64 machine: [int] 32 bits, [long], pointers and
    [size_t] 64. Sizes of structures are written out where [malloc] or pointer
    arithmetic needs them. Loops are bounded by the length of what they go over:
    the number of nodes for lists, chains and trees (twice for the threaded
    traversal), the size for heaps, the capacity of the pipe and the number of
    failing reads for signals, the room of the allocator for [rb_tree_insert].
    The bounds in hypotheses (time-outs within 2^40 seconds, heaps of fewer than
    2^31 - 102 items) keep arithmetic of the code within its types.

    ** Not modelled

    - Interleavings of threads inside the heap, the lists, the signal and the
      tree, which have no locks of their own. In PbufConc.v a step is one
      statement, of which [pool_threads_race_free] shows that no other thread can
      look inside; in HashConc.v a step is an operation, whose
      work on the chains is done under the lock of its slot, and [hashtable_hash]
      is cut at the lock where the order matters. In TimerConc.v a step is a
      critical section of timer.c, or an access to a timer of one's own; what
      [timer_add], [timer_mod] and a macro read from a timer before they take the
      lock is left open, and so is [was_first]. [pbuf_copy] is, to other
      threads, an allocation and then writes to a buffer of one's own. Which of
      the threads that wait for a lock gets it is not fixed, so that one of them
      may wait while others go on calling. While [poll] waits in Signal.v other
      threads may write to the pipe. Weak memory: accesses to one object are
      taken in one order.
    - Log messages (LOG_DBG, LOG_ERR and the like) inside other components, with
      the exception of [rb_tree_print_in_order], which consists of them. Formatting
      itself: a formatted text is an argument.
    - The Android branches of debug.c and event_epoll.c, and the macros of heap.h,
      list.h and hashtable.h that only name [get_enclosing].
    - Failing writes to a stream, two streams on one file, and descriptors that
      other processes close.
    - The build files.

    ** What is left

    An insertion that recolours first and rotates further up moves a subtree that
    is not empty, whose parent pointer the rotation leaves as it was
    ([rb_tree_rotations_turn]); that a later insertion can lose keys then is shown
    by an example ([stale_parent_loses_keys]), and not described in general.
    Removals from the front keep a heap that is in order; which order insertions
    and removals leave together is not described beyond the contents. Liveness of the timer queue under several
    threads comes down to its steps, all of which return; that a thread which
    waits for the lock gets it is left to the scheduler. *)
From Stdlib Require Export ZArith Lia.
From stdpp Require Export base tactics numbers list gmap.

#[global] Open Scope Z_scope.

(** ** Outcomes of a C computation

    A call returns ([Ok]), performs an access the C standard leaves undefined
    ([Fault]: dereferencing [NULL], an unmapped or freed address, or reading an
    indeterminate pointer), fails an [assert] ([Aborted]), or does not return
    within the fuel that bounds a loop ([OutOfFuel]). *)
Inductive outcome (A : Type) : Type :=
| Ok (a : A)
| Fault
| Aborted
| OutOfFuel.
Arguments Ok {A} a.
Arguments Fault {A}.
Arguments Aborted {A}.
Arguments OutOfFuel {A}.

#[export] Instance outcome_ret : MRet outcome := fun A a => Ok a.
#[export] Instance outcome_bind : MBind outcome := fun A B f o =>
  match o with
  | Ok a => f a
  | Fault => Fault
  | Aborted => Aborted
  | OutOfFuel => OutOfFuel
  end.

(** Stateful code: a function of the store that returns a value and the new
    store. *)
Definition M (S A : Type) : Type := S -> outcome (A * S).

#[export] Instance M_ret {S} : MRet (M S) := fun A a s => Ok (a, s).
#[export] Instance M_bind {S} : MBind (M S) := fun A B f m s =>
  match m s with
  | Ok (a, s') => f a s'
  | Fault => Fault
  | Aborted => Aborted
  | OutOfFuel => OutOfFuel
  end.

Definition get {S} : M S S := fun s => Ok (s, s).
Definition gets {S A} (f : S -> A) : M S A := fun s => Ok (f s, s).
Definition modify {S} (f : S -> S) : M S unit := fun s => Ok (tt, f s).
Definition fault {S A} : M S A := fun _ => Fault.
Definition out_of_fuel {S A} : M S A := fun _ => OutOfFuel.

(** [assert (b)] of <assert.h>: aborts the process when [b] is false. *)
Definition assert_c {S} (b : bool) : M S unit :=
  fun s => if b then Ok (tt, s) else Aborted.

(** Reading a partial result, as when a pointer is dereferenced. *)
Definition of_option {S A} (o : option A) : M S A :=
  match o with Some a => mret a | None => fault end.

Definition lift {S A} (o : outcome A) : M S A := fun s =>
  match o with
  | Ok a => Ok (a, s)
  | Fault => Fault
  | Aborted => Aborted
  | OutOfFuel => OutOfFuel
  end.

(** Run code over one field [T] of a larger store [S]. *)
Definition zoom {S T A} (pr : S -> T) (put : T -> S -> S) (m : M T A) : M S A :=
  fun s =>
    match m (pr s) with
    | Ok (a, t) => Ok (a, put t s)
    | Fault => Fault
    | Aborted => Aborted
    | OutOfFuel => OutOfFuel
    end.

(** ** Total correctness

    [wp m Q s]: started in [s], [m] returns (no fault, no failed assertion,
    enough fuel) and [Q] holds of its value and final store. *)
Definition wp {S A} (m : M S A) (Q : A -> S -> Prop) (s : S) : Prop :=
  match m s with
  | Ok (a, s') => Q a s'
  | _ => False
  end.

Section Wp.
Context {S : Type}.
Implicit Types s : S.

Lemma wp_run {A} (m : M S A) Q s :
  wp m Q s <-> exists a s', m s = Ok (a, s') /\ Q a s'.
Proof.
  unfold wp. split.
  - destruct (m s) as [[a s']| | |]; [|done..]. eauto.
  - intros (a & s' & -> & HQ). done.
Qed.

Lemma wp_run_tt (m : M S unit) (Q : S -> Prop) s :
  wp m (fun _ => Q) s -> exists s', m s = Ok (tt, s') /\ Q s'.
Proof. intros ([] & s' & ? & ?)%wp_run. eauto. Qed.

Lemma wp_eq {A} (m : M S A) a s s' :
  wp m (fun b s1 => b = a /\ s1 = s') s -> m s = Ok (a, s').
Proof. by intros (b & s1 & ? & -> & ->)%wp_run. Qed.

Lemma wp_ret {A} (a : A) Q s : wp (mret a) Q s <-> Q a s.
Proof. done. Qed.

Lemma wp_bind {A B} (m : M S A) (k : A -> M S B) Q s :
  wp (m ≫= k) Q s <-> wp m (fun a => wp (k a) Q) s.
Proof.
  unfold wp, mbind, M_bind. by destruct (m s) as [[a s']| | |].
Qed.

(** The first two of three statements as a unit. *)
Lemma wp_seq {A B C} (m : M S A) (n : M S B) (k : M S C) Q s :
  wp (m;; n;; k) Q s <-> wp (m;; n) (fun _ => wp k Q) s.
Proof.
  unfold wp, mbind, M_bind. destruct (m s) as [[a s']| | |]; [|done..].
  by destruct (n s') as [[b s'']| | |].
Qed.

Lemma wp_mono {A} (m : M S A) (Q Q' : A -> S -> Prop) s :
  wp m Q s -> (forall a s', Q a s' -> Q' a s') -> wp m Q' s.
Proof. unfold wp. destruct (m s) as [[a s']| | |]; naive_solver. Qed.

Lemma wp_get Q s : wp get Q s <-> Q s s.
Proof. done. Qed.

Lemma wp_gets {A} (f : S -> A) Q s : wp (gets f) Q s <-> Q (f s) s.
Proof. done. Qed.

Lemma wp_modify (f : S -> S) Q s : wp (modify f) Q s <-> Q tt (f s).
Proof. done. Qed.

Lemma wp_assert (b : bool) Q s : wp (assert_c b) Q s <-> b = true /\ Q tt s.
Proof. unfold wp, assert_c. destruct b; naive_solver. Qed.

Lemma wp_of_option {A} (o : option A) Q s :
  wp (of_option o) Q s <-> exists a, o = Some a /\ Q a s.
Proof. unfold wp, of_option. destruct o; simpl; naive_solver. Qed.

Lemma wp_lift {A} (o : outcome A) Q s :
  wp (lift o) Q s <-> exists a, o = Ok a /\ Q a s.
Proof. unfold wp, lift. destruct o; naive_solver. Qed.

Lemma wp_if {A} (b : bool) (m1 m2 : M S A) Q s :
  wp (if b then m1 else m2) Q s <->
  (if b then wp m1 Q s else wp m2 Q s).
Proof. by destruct b. Qed.

Lemma wp_zoom {T A} (pr : S -> T) put (m : M T A) Q s :
  wp (zoom pr put m) Q s <-> wp m (fun a t => Q a (put t s)) (pr s).
Proof. unfold wp, zoom. by destruct (m (pr s)) as [[a t]| | |]. Qed.
End Wp.

(** One step of a computed run. *)
Lemma run_bind {S A B} (m : M S A) (k : A -> M S B) s a s' :
  m s = Ok (a, s') -> (m ≫= k) s = k a s'.
Proof. unfold mbind, M_bind. by intros ->. Qed.

Lemma run_bind_inv {S A B} (m : M S A) (k : A -> M S B) s b s' :
  (m ≫= k) s = Ok (b, s') -> exists a s1, m s = Ok (a, s1) /\ k a s1 = Ok (b, s').
Proof. unfold mbind, M_bind. destruct (m s) as [[a s1]| | |]; [eauto|done..]. Qed.

Lemma run_fault {S A B} (m : M S A) (k : A -> M S B) s : m s = Fault -> (m ≫= k) s = Fault.
Proof. unfold mbind, M_bind. by intros ->. Qed.

(** ** Typed stores

    The objects of one C type, by address. An access outside the store (an
    object that was never allocated, or was freed) faults. *)
Section Store.
Context {T : Type}.
Implicit Types m : gmap Z T.

Definition load (p : Z) : M (gmap Z T) T := fun m =>
  match m !! p with Some x => Ok (x, m) | None => Fault end.

(** Assign one field of the object at [p]: [f] builds the new object. *)
Definition update (p : Z) (f : T -> T) : M (gmap Z T) unit := fun m =>
  match m !! p with Some x => Ok (tt, <[p := f x]> m) | None => Fault end.

(** free(p). *)
Definition dealloc (p : Z) : M (gmap Z T) unit := fun m =>
  match m !! p with Some _ => Ok (tt, delete p m) | None => Fault end.

(** Run an operation of one field's type on that field of the object at [p]. *)
Definition on_field {F A} (p : Z) (pr : T -> F) (put : F -> T -> T) (op : M F A)
    : M (gmap Z T) A := fun m =>
  match m !! p with
  | Some x =>
      match op (pr x) with
      | Ok (a, v) => Ok (a, <[p := put v x]> m)
      | Fault => Fault
      | Aborted => Aborted
      | OutOfFuel => OutOfFuel
      end
  | None => Fault
  end.

Lemma wp_on_field {F A} p (pr : T -> F) put (op : M F A) Q m :
  wp (on_field p pr put op) Q m <->
  exists x, m !! p = Some x /\ wp op (fun a v => Q a (<[p := put v x]> m)) (pr x).
Proof.
  unfold wp, on_field. destruct (m !! p) as [x|]; cycle 1.
  { split; [done|]. by intros (? & ? & _). }
  split.
  - intros HQ. exists x. split; [done|]. by destruct (op (pr x)) as [[a v]| | |].
  - intros (y & [= <-] & HQ). by destruct (op (pr x)) as [[a v]| | |].
Qed.

Lemma wp_load p Q m :
  wp (load p) Q m <-> exists x, m !! p = Some x /\ Q x m.
Proof. unfold wp, load. destruct (m !! p); naive_solver. Qed.

Lemma wp_update p f Q m :
  wp (update p f) Q m <-> exists x, m !! p = Some x /\ Q tt (<[p := f x]> m).
Proof. unfold wp, update. destruct (m !! p); naive_solver. Qed.

Lemma alter_insert (f : T -> T) p x m :
  m !! p = Some x -> alter f p m = <[p := f x]> m.
Proof.
  intros Hp. apply map_eq. intros q. rewrite lookup_alter, lookup_insert.
  case_decide; subst; [by rewrite Hp | done].
Qed.

Lemma wp_dealloc p Q m :
  wp (dealloc p) Q m <-> exists x, m !! p = Some x /\ Q tt (delete p m).
Proof. unfold wp, dealloc. destruct (m !! p); naive_solver. Qed.
End Store.

Create Rewrite HintDb wp.
#[export] Hint Rewrite @wp_bind @wp_ret @wp_get @wp_gets @wp_modify
  @wp_assert @wp_of_option @wp_lift @wp_zoom @wp_load @wp_update @wp_dealloc @wp_on_field : wp.

(** Symbolic execution: push [wp] through the sequence of statements. *)
Ltac wp_simpl := repeat (progress (autorewrite with wp; cbn beta)).

(** Evaluate a lookup in an updated store. *)
Ltac store_lookup :=
  rewrite ?lookup_insert, ?lookup_delete;
  repeat (case_decide; simplify_eq/=; try done);
  first [eassumption | reflexivity | done].

(** Discharge the access a [load] or [update] makes, with the hypotheses about
    the store. *)
Ltac wp_access :=
  match goal with
  | |- exists _, _ !! _ = Some _ /\ _ =>
      eexists; split; [first [eassumption | by simplify_map_eq | solve [store_lookup]] |]
  end.
Ltac wp_go := repeat first [progress wp_simpl | wp_access]; cbn beta.

(** ** Machine integers *)
Definition u8 (z : Z) : Z := z mod 2 ^ 8.
Definition u32 (z : Z) : Z := z mod 2 ^ 32.
Definition u64 (z : Z) : Z := z mod 2 ^ 64.
Definition i32 (z : Z) : Z := (z + 2 ^ 31) mod 2 ^ 32 - 2 ^ 31.
Definition i64 (z : Z) : Z := (z + 2 ^ 63) mod 2 ^ 64 - 2 ^ 63.

Lemma u32_id z : 0 <= z < 2 ^ 32 -> u32 z = z.
Proof. apply Z.mod_small. Qed.
Lemma u64_id z : 0 <= z < 2 ^ 64 -> u64 z = z.
Proof. apply Z.mod_small. Qed.
Lemma i32_id z : - 2 ^ 31 <= z < 2 ^ 31 -> i32 z = z.
Proof. unfold i32. intros. rewrite Z.mod_small; lia. Qed.
Lemma i64_id z : - 2 ^ 63 <= z < 2 ^ 63 -> i64 z = z.
Proof. unfold i64. intros. rewrite Z.mod_small; lia. Qed.
Lemma u32_range z : 0 <= u32 z < 2 ^ 32.
Proof. apply Z.mod_pos_bound. lia. Qed.
Lemma u64_range z : 0 <= u64 z < 2 ^ 64.
Proof. apply Z.mod_pos_bound. lia. Qed.
Lemma i32_range z : - 2 ^ 31 <= i32 z < 2 ^ 31.
Proof.
  unfold i32. pose proof (Z.mod_pos_bound (z + 2 ^ 31) (2 ^ 32)). lia.
Qed.

(** Reductions inside a reduced expression are redundant. *)
Lemma u64_add_l a b : u64 (u64 a + b) = u64 (a + b).
Proof. apply Zplus_mod_idemp_l. Qed.
Lemma u64_add_r a b : u64 (a + u64 b) = u64 (a + b).
Proof. apply Zplus_mod_idemp_r. Qed.
Lemma u64_sub_l a b : u64 (u64 a - b) = u64 (a - b).
Proof. apply Zminus_mod_idemp_l. Qed.
Lemma u64_sub_r a b : u64 (a - u64 b) = u64 (a - b).
Proof. apply Zminus_mod_idemp_r. Qed.
Lemma u64_mul_l a b : u64 (u64 a * b) = u64 (a * b).
Proof. apply Zmult_mod_idemp_l. Qed.
Create Rewrite HintDb wrap.
#[export] Hint Rewrite u64_add_l u64_add_r u64_sub_l u64_sub_r u64_mul_l : wrap.

(** ** Addresses *)
Abbreviation addr := Z (only parsing).
Definition NULL : addr := 0.

(** get_enclosing of include/ckit/ckit.h: from the address of a member to the
    address of the object it is embedded in. *)
Definition get_enclosing (ptr : addr) (offset : Z) : addr := ptr - offset.

Lemma get_enclosing_member p off : get_enclosing (p + off) off = p.
Proof. unfold get_enclosing. lia. Qed.

(** ** Lists *)
Lemma NoDup_snoc {A} (l : list A) x : NoDup (l ++ [x]) ↔ x ∉ l ∧ NoDup l.
Proof. rewrite (Permutation_app_comm l [x]). apply NoDup_cons. Qed.

Lemma NoDup_middle {A} (l1 l2 : list A) x :
  NoDup (l1 ++ x :: l2) ↔ x ∉ l1 ++ l2 ∧ NoDup (l1 ++ l2).
Proof. by rewrite <-Permutation_middle, NoDup_cons. Qed.

Lemma filter_agree {A} (f g : A -> bool) (l : list A) :
  (forall y, y ∈ l -> f y = g y) ->
  filter (fun y => f y = true) l = filter (fun y => g y = true) l.
Proof.
  induction l as [|x l IH]; intros Hfg; [done|].
  rewrite !filter_cons, (Hfg x), IH by set_solver. done.
Qed.

Lemma omap_agree {A B} (f g : A -> option B) (l : list A) :
  (forall x, x ∈ l -> f x = g x) -> omap f l = omap g l.
Proof.
  induction l as [|x l IH]; intros Hfg; [done|]. cbn. rewrite Hfg by (by left).
  rewrite IH; [done|]. intros y Hy. apply Hfg. by right.
Qed.

(** ** Objects of a block

    The same object at each of the addresses [l], and none there. *)
Lemma lookup_fill {X} (l : list Z) (x : X) (m : gmap Z X) q :
  ((list_to_map ((., x) <$> l) : gmap Z X) ∪ m) !! q =
  if decide (q ∈ l) then Some x else m !! q.
Proof.
  rewrite lookup_union. case_decide as Hq.
  - rewrite (elem_of_list_to_map_1' _ q x); [by destruct (m !! q)| |].
    + intros y Hy. apply list_elem_of_fmap in Hy as (z & [= _ ->] & _). done.
    + apply list_elem_of_fmap. eauto.
  - rewrite not_elem_of_list_to_map_1; [by destruct (m !! q)|].
    rewrite <-list_fmap_compose. intros (z & -> & Hz)%list_elem_of_fmap. done.
Qed.

Lemma lookup_foldr_delete {X} (l : list Z) (m : gmap Z X) q :
  foldr delete m l !! q = if decide (q ∈ l) then None else m !! q.
Proof.
  induction l as [|x l IH].
  - done.
  - change (foldr delete m (x :: l)) with (delete x (foldr delete m l)).
    rewrite lookup_delete, IH. repeat case_decide; rewrite elem_of_cons in *; naive_solver.
Qed.
