(* ===== verification/Atomic.v ===== *)
(** Atomic integers (include/ckit/atomic.h): a 32-bit signed counter on which
    the __sync builtins wrap around; each operation is one indivisible step,
    modelled as a function from the old value to the result and new value. *)
From S2P Require Import Prelude.

Abbreviation atomic_t := Z (only parsing).

Definition atomic_set (val : Z) : M atomic_t unit := fun _ => Ok (tt, val).
Definition atomic_read : M atomic_t Z := fun a => Ok (a, a).
Definition atomic_inc : M atomic_t Z := fun a => Ok (i32 (a + 1), i32 (a + 1)).
Definition atomic_dec : M atomic_t Z := fun a => Ok (i32 (a - 1), i32 (a - 1)).
Definition atomic_dec_and_test : M atomic_t bool :=
  v ← atomic_dec; mret (v =? 0).

Lemma wp_atomic_inc Q a :
  - 2 ^ 31 <= a < 2 ^ 31 - 1 -> wp atomic_inc Q a <-> Q (a + 1) (a + 1).
Proof. intros. unfold wp, atomic_inc. by rewrite i32_id by lia. Qed.

Lemma wp_atomic_dec Q a :
  - 2 ^ 31 < a < 2 ^ 31 -> wp atomic_dec Q a <-> Q (a - 1) (a - 1).
Proof. intros. unfold wp, atomic_dec. by rewrite i32_id by lia. Qed.

Lemma wp_atomic_dec_and_test Q a :
  - 2 ^ 31 < a < 2 ^ 31 ->
  wp atomic_dec_and_test Q a <-> Q (a =? 1) (a - 1).
Proof.
  intros. unfold atomic_dec_and_test. rewrite wp_bind, wp_atomic_dec, wp_ret by done.
  by replace (a - 1 =? 0) with (a =? 1) by (apply eq_true_iff_eq; lia).
Qed.
