(* ===== verification/Clist.v ===== *)
(** Circular doubly linked lists (include/ckit/list.h).

    The nodes live in a store of [list_t]; a list is named by the address of
    its anchor. [is_list m a xs] says that the ring through [a] visits the
    nodes [xs], in order, and back. *)
From S2P Require Import Prelude.

(** ** Data and operations *)
Record list_t := mk_list { prev : addr; next : addr }.
Abbreviation lmem := (gmap Z list_t).

Definition set_prev (p q : addr) : M lmem unit :=
  update p (fun n => {| prev := q; next := next n |}).
Definition set_next (p q : addr) : M lmem unit :=
  update p (fun n => {| prev := prev n; next := q |}).

Definition INIT_LIST (list : addr) : M lmem unit :=
  set_prev list list;; set_next list list.

Definition list_add_front (anchor to_add : addr) : M lmem unit :=
  a ← load anchor;
  set_next to_add (next a);;
  set_prev to_add anchor;;
  a ← load anchor;
  set_prev (next a) to_add;;
  set_next anchor to_add.

Definition list_add_back (anchor to_add : addr) : M lmem unit :=
  set_next to_add anchor;;
  a ← load anchor;
  set_prev to_add (prev a);;
  a ← load anchor;
  set_next (prev a) to_add;;
  set_prev anchor to_add.

Definition list_del (to_del : addr) : M lmem unit :=
  d ← load to_del;
  set_next (prev d) (next d);;
  d ← load to_del;
  set_prev (next d) (prev d);;
  set_prev to_del to_del;;
  set_next to_del to_del.

Definition list_move (to_move anchor : addr) : M lmem unit :=
  list_del to_move;;
  list_add_front anchor to_move.

Definition list_empty (list : addr) : M lmem bool :=
  a ← load list; mret (next a =? list).

(** The address of the first node; the enclosing object is [get_enclosing] of
    it. *)
Definition list_front (list : addr) : M lmem addr :=
  a ← load list; mret (next a).

(** The loops run over a larger store [S] of which [pr] selects the nodes; the
    body returns [Some r] to leave the loop. The fuel bounds the iterations. *)
Section Foreach.
Context {S R : Type} (pr : S -> lmem).

Fixpoint foreach_from (fuel : nat) (anchor ptr : addr)
    (body : addr -> M S (option R)) : M S (option R) :=
  match fuel with
  | O => out_of_fuel
  | Datatypes.S fuel =>
      if ptr =? anchor then mret None
      else
        r ← body ptr;
        match r with
        | Some v => mret (Some v)
        | None =>
            s ← get;
            n ← of_option (pr s !! ptr);
            foreach_from fuel anchor (next n) body
        end
  end.

Definition list_foreach (fuel : nat) (anchor : addr)
    (body : addr -> M S (option R)) : M S (option R) :=
  s ← get;
  a ← of_option (pr s !! anchor);
  foreach_from fuel anchor (next a) body.

(** The safe variant reads the successor before it runs the body. *)
Fixpoint foreach_safe_from (fuel : nat) (anchor ptr tmp : addr)
    (body : addr -> M S (option R)) : M S (option R) :=
  match fuel with
  | O => out_of_fuel
  | Datatypes.S fuel =>
      if ptr =? anchor then mret None
      else
        r ← body ptr;
        match r with
        | Some v => mret (Some v)
        | None =>
            s ← get;
            n ← of_option (pr s !! tmp);
            foreach_safe_from fuel anchor tmp (next n) body
        end
  end.

Definition list_foreach_safe (fuel : nat) (anchor : addr)
    (body : addr -> M S (option R)) : M S (option R) :=
  s ← get;
  a ← of_option (pr s !! anchor);
  n ← of_option (pr s !! next a);
  foreach_safe_from fuel anchor (next a) (next n) body.
End Foreach.

(** ** The ring a store represents *)
Definition next_of (m : lmem) (p : addr) : option addr := next <$> m !! p.
Definition prev_of (m : lmem) (p : addr) : option addr := prev <$> m !! p.

Fixpoint dseg (m : lmem) (p : addr) (xs : list addr) (q : addr) : Prop :=
  match xs with
  | [] => next_of m p = Some q /\ prev_of m q = Some p
  | x :: xs => next_of m p = Some x /\ prev_of m x = Some p /\ dseg m x xs q
  end.

Definition is_list (m : lmem) (a : addr) (xs : list addr) : Prop :=
  NoDup (a :: xs) /\ dseg m a xs a.

Section Ring.
Implicit Types m : lmem.

Lemma dseg_app m p xs y ys q :
  dseg m p (xs ++ y :: ys) q <-> dseg m p xs y /\ dseg m y ys q.
Proof. revert p. induction xs as [|x xs IH]; intros p; simpl; [|rewrite IH]; tauto. Qed.

Lemma dseg_frame m m' p xs q :
  dseg m p xs q ->
  (forall y, y ∈ p :: xs -> next_of m' y = next_of m y) ->
  (forall y, y ∈ xs ++ [q] -> prev_of m' y = prev_of m y) ->
  dseg m' p xs q.
Proof.
  revert p. induction xs as [|x xs IH]; simpl; intros p Hd Hn Hp.
  - rewrite Hn, Hp by set_solver. done.
  - destruct Hd as (H1 & H2 & H3). rewrite Hn, Hp by set_solver.
    split_and!; [done..|]. apply IH; set_solver.
Qed.

Lemma dseg_next m p xs q : dseg m p xs q -> next_of m p = Some (hd q xs).
Proof. destruct xs; simpl; tauto. Qed.

Lemma dseg_prev m p xs q : dseg m p xs q -> prev_of m q = Some (List.last xs p).
Proof.
  destruct xs as [|x xs _] using rev_ind; simpl; [tauto|].
  rewrite dseg_app, List.last_last. simpl. tauto.
Qed.
End Ring.

Section Updates.
Implicit Types m : lmem.

Lemma next_of_insert m p n q :
  next_of (<[p := n]> m) q = if decide (p = q) then Some (next n) else next_of m q.
Proof. unfold next_of. rewrite lookup_insert. by case_decide. Qed.

Lemma prev_of_insert m p n q :
  prev_of (<[p := n]> m) q = if decide (p = q) then Some (prev n) else prev_of m q.
Proof. unfold prev_of. rewrite lookup_insert. by case_decide. Qed.

Lemma next_of_Some m p q : next_of m p = Some q <-> exists n, m !! p = Some n /\ next n = q.
Proof. unfold next_of. rewrite fmap_Some. naive_solver. Qed.

Lemma prev_of_Some m p q : prev_of m p = Some q <-> exists n, m !! p = Some n /\ prev n = q.
Proof. unfold prev_of. rewrite fmap_Some. naive_solver. Qed.

Lemma next_of_node m p n : m !! p = Some n -> next_of m p = Some (next n).
Proof. intros H. unfold next_of. by rewrite H. Qed.
Lemma prev_of_node m p n : m !! p = Some n -> prev_of m p = Some (prev n).
Proof. intros H. unfold prev_of. by rewrite H. Qed.
End Updates.

Create Rewrite HintDb ring.
#[export] Hint Rewrite next_of_insert prev_of_insert : ring.

(** What a straight-line update does to the links: split on the addresses
    involved and evaluate the lookups. *)
Ltac solve_links :=
  intros; autorewrite with ring; rewrite ?lookup_insert; cbn [prev next];
  repeat (case_decide; [simplify_eq | ]); try done;
  solve [eauto using next_of_node, prev_of_node
        | symmetry; eauto using next_of_node, prev_of_node
        | exfalso; set_solver].

(** The link structure of [m'] is that of [m] but for the given links. *)
Definition relinked (m m' : lmem) (nx pv : addr -> option addr) (touched : list addr) : Prop :=
  (forall p, next_of m' p = match nx p with Some q => Some q | None => next_of m p end) /\
  (forall p, prev_of m' p = match pv p with Some q => Some q | None => prev_of m p end) /\
  (forall p, p ∉ touched -> m' !! p = m !! p).

Definition at_ (p : addr) (v : addr) (f : addr -> option addr) : addr -> option addr :=
  fun q => if decide (q = p) then Some v else f q.
Definition none_ : addr -> option addr := fun _ => None.

Ltac solve_relinked :=
  unfold relinked, at_, none_; split_and!; solve_links.

Section Effects.
Implicit Types m : lmem.

Lemma wp_add_front_links m a x h :
  next_of m a = Some h -> is_Some (m !! h) -> is_Some (m !! x) -> x <> a -> x <> h ->
  wp (list_add_front a x) (fun _ m' =>
    relinked m m' (at_ a x (at_ x h none_)) (at_ h x (at_ x a none_)) [a; x; h]) m.
Proof.
  intros (na & Ha & <-)%next_of_Some [nh Hh] [nx Hx] Hxa Hxh.
  unfold list_add_front, set_next, set_prev. wp_go.
  destruct (decide (a = next na)) as [E|E].
  - rewrite <- E in *. wp_go. solve_relinked.
  - wp_go. solve_relinked.
Qed.

Lemma wp_add_back_links m a x l :
  prev_of m a = Some l -> is_Some (m !! l) -> is_Some (m !! x) -> x <> a -> x <> l ->
  wp (list_add_back a x) (fun _ m' =>
    relinked m m' (at_ l x (at_ x a none_)) (at_ a x (at_ x l none_)) [a; x; l]) m.
Proof.
  intros (na & Ha & <-)%prev_of_Some [nh Hh] [nx Hx] Hxa Hxh.
  unfold list_add_back, set_next, set_prev. wp_go.
  destruct (decide (a = prev na)) as [E|E].
  - rewrite <- E in *. wp_go. solve_relinked.
  - wp_go. solve_relinked.
Qed.

Lemma wp_del_links m x p n :
  next_of m x = Some n -> prev_of m x = Some p ->
  is_Some (m !! n) -> is_Some (m !! p) -> x <> p -> x <> n ->
  wp (list_del x) (fun _ m' =>
    relinked m m' (at_ p n (at_ x x none_)) (at_ n p (at_ x x none_)) [x; p; n]) m.
Proof.
  intros (nx & Hx & <-)%next_of_Some (nx' & Hx' & <-)%prev_of_Some [nn Hn] [np Hp] ??.
  unfold list_del, set_next, set_prev. simplify_eq. wp_go.
  destruct (decide (next nx = prev nx)) as [E|E].
  - rewrite E in *. wp_go. solve_relinked.
  - wp_go. solve_relinked.
Qed.
End Effects.

(** ** What each operation does to the ring *)
Ltac solve_at :=
  unfold at_, none_; intros; repeat case_decide; simplify_eq/=; try done; exfalso; set_solver.

Section Operations.
Implicit Types m : lmem.

Lemma dseg_relinked m m' nx pv t p xs q :
  relinked m m' nx pv t -> dseg m p xs q ->
  (forall y, y ∈ p :: xs -> nx y = None) -> (forall y, y ∈ xs ++ [q] -> pv y = None) ->
  dseg m' p xs q.
Proof.
  intros (Hn & Hp & _) Hd Hnx Hpv. eapply dseg_frame; [done| |].
  - intros y Hy. by rewrite Hn, (Hnx y Hy).
  - intros y Hy. by rewrite Hp, (Hpv y Hy).
Qed.

Lemma relinked_next m m' nx pv t p q :
  relinked m m' nx pv t -> nx p = Some q -> next_of m' p = Some q.
Proof. intros (Hn & _ & _) E. by rewrite Hn, E. Qed.
Lemma relinked_prev m m' nx pv t p q :
  relinked m m' nx pv t -> pv p = Some q -> prev_of m' p = Some q.
Proof. intros (_ & Hp & _) E. by rewrite Hp, E. Qed.
Lemma relinked_next_same m m' nx pv t p :
  relinked m m' nx pv t -> nx p = None -> next_of m' p = next_of m p.
Proof. intros (Hn & _ & _) E. by rewrite Hn, E. Qed.
Lemma relinked_prev_same m m' nx pv t p :
  relinked m m' nx pv t -> pv p = None -> prev_of m' p = prev_of m p.
Proof. intros (_ & Hp & _) E. by rewrite Hp, E. Qed.

Lemma is_list_node m a xs p : is_list m a xs -> p ∈ a :: xs -> is_Some (m !! p).
Proof.
  intros [_ Hd]. generalize dependent p.
  enough (forall b q, dseg m b xs q -> forall p, p ∈ b :: xs -> is_Some (m !! p)) by eauto.
  clear. induction xs as [|x xs IH]; simpl; intros b q.
  - intros [(? & ? & ?)%next_of_Some _] p ->%list_elem_of_singleton. eauto.
  - intros ((? & ? & ?)%next_of_Some & _ & Hd) p [->|Hp]%elem_of_cons; eauto.
Qed.

Ltac ring_links :=
  solve [ eapply relinked_next; [eassumption | solve_at]
        | eapply relinked_prev; [eassumption | solve_at]
        | eapply dseg_relinked; [eassumption | done | solve_at ..]
        | erewrite relinked_next_same; [done | eassumption | solve_at]
        | erewrite relinked_prev_same; [done | eassumption | solve_at] ].

(** A list none of whose nodes is touched keeps its contents. *)
Lemma is_list_frame m m' a xs :
  is_list m a xs -> (forall p, p ∈ a :: xs -> m' !! p = m !! p) -> is_list m' a xs.
Proof.
  intros [Hnd Hd] Hf. split; [done|]. eapply dseg_frame; [done|..];
    intros y Hy; unfold next_of, prev_of; rewrite Hf by set_solver; done.
Qed.

Lemma wp_list_add_front m a x xs :
  is_list m a xs -> x ∉ a :: xs -> is_Some (m !! x) ->
  wp (list_add_front a x)
    (fun _ m' => is_list m' a (x :: xs) /\
                 (forall p, p ∉ x :: a :: xs -> m' !! p = m !! p)) m.
Proof.
  intros Hl Hx Hmx. pose proof Hl as [Hnd Hd].
  assert (hd a xs ∈ a :: xs) as Hh by (destruct xs; set_solver).
  eapply wp_mono; [apply (wp_add_front_links m a x (hd a xs))|].
  - by eapply dseg_next.
  - by eapply is_list_node.
  - done.
  - set_solver.
  - set_solver.
  - intros [] m' Hr. split; [split|].
    + apply NoDup_cons in Hnd as [??]. rewrite !NoDup_cons. set_solver.
    + destruct xs as [|h t]; simpl in *.
      * split_and!; ring_links.
      * apply NoDup_cons in Hnd as [Ha [Hht Ht]%NoDup_cons].
        destruct Hd as (? & ? & Hd).
        split_and!; ring_links.
    + intros p Hp. apply Hr. set_solver.
Qed.

Lemma last_elem_of (l : list addr) d : List.last l d ∈ d :: l.
Proof.
  destruct l as [|x l _] using rev_ind; [set_solver|]. rewrite List.last_last. set_solver.
Qed.
Lemma hd_elem_of (l : list addr) d : hd d l ∈ d :: l.
Proof. destruct l; set_solver. Qed.

Lemma wp_list_add_back m a x xs :
  is_list m a xs -> x ∉ a :: xs -> is_Some (m !! x) ->
  wp (list_add_back a x)
    (fun _ m' => is_list m' a (xs ++ [x]) /\
                 (forall p, p ∉ x :: a :: xs -> m' !! p = m !! p)) m.
Proof.
  intros Hl Hx Hmx. pose proof Hl as [Hnd Hd].
  pose proof (last_elem_of xs a) as Hlast.
  eapply wp_mono; [apply (wp_add_back_links m a x (List.last xs a))|];
    [by eapply dseg_prev | by eapply is_list_node | done | set_solver.. |].
  intros [] m' Hr. split; [split|].
  - by rewrite app_comm_cons, NoDup_snoc.
  - rewrite dseg_app. destruct xs as [|y ys _] using rev_ind.
    + simpl in *. split_and!; ring_links.
    + rewrite List.last_last in Hr. rewrite dseg_app in Hd |- *. destruct Hd as (Hd & _ & _).
      rewrite app_comm_cons, NoDup_snoc, NoDup_cons in Hnd.
      destruct Hnd as (Hy & Ha & Hnd). clear Hl Hlast. simpl. split_and!; ring_links.
  - intros p Hp. apply Hr. set_solver.
Qed.

Lemma wp_list_del m a xs1 x xs2 :
  is_list m a (xs1 ++ x :: xs2) ->
  wp (list_del x)
    (fun _ m' => is_list m' a (xs1 ++ xs2) /\ is_list m' x [] /\
                 (forall p, p ∉ a :: xs1 ++ x :: xs2 -> m' !! p = m !! p)) m.
Proof.
  intros Hl. pose proof Hl as [Hnd [Hd1 Hd2]%dseg_app].
  pose proof (last_elem_of xs1 a) as Hlast. pose proof (hd_elem_of xs2 a) as Hhd.
  assert (x ∉ a :: xs1 ++ xs2 /\ NoDup (a :: xs1 ++ xs2)) as [Hx Hnd'].
  { by apply (NoDup_middle (a :: xs1)). }
  eapply wp_mono; [apply (wp_del_links m x (List.last xs1 a) (hd a xs2))|];
    [by eapply dseg_next | by eapply dseg_prev
    | eapply is_list_node; [done | set_solver].. | set_solver | set_solver |].
  intros [] m' Hr. split_and!; [split; [done|]|split; [apply NoDup_singleton|]|].
  - clear Hl Hnd Hlast Hhd. apply NoDup_cons in Hnd' as [Ha Hnd'].
    destruct xs1 as [|y ys _] using rev_ind; destruct xs2 as [|h t];
      rewrite ?List.last_last in Hr; simpl in *.
    + split_and!; ring_links.
    + rewrite NoDup_cons in Hnd'. destruct Hd2 as (_ & _ & Hd2).
      split_and!; ring_links.
    + rewrite app_nil_r, dseg_app in *. rewrite NoDup_snoc in Hnd'.
      destruct Hd1 as (Hd1 & _ & _). simpl. split_and!; ring_links.
    + rewrite <-app_assoc in *. simpl in *. rewrite !dseg_app in *. 
      rewrite !NoDup_middle in Hnd'.
      destruct Hd1 as (Hd1 & _ & _). destruct Hd2 as (_ & _ & Hd2).
      simpl. split_and!; ring_links.
  - split; ring_links.
  - intros p Hp. apply Hr. set_solver.
Qed.

(** Moving a node between two rings of one store. *)
Lemma wp_list_move m a xs1 x xs2 b ys :
  is_list m a (xs1 ++ x :: xs2) -> is_list m b ys ->
  (forall p, p ∈ b :: ys -> p ∉ a :: xs1 ++ x :: xs2) ->
  wp (list_move x b)
    (fun _ m' => is_list m' a (xs1 ++ xs2) /\ is_list m' b (x :: ys) /\
                 (forall p, p ∉ a :: b :: xs1 ++ x :: xs2 ++ ys -> m' !! p = m !! p)) m.
Proof.
  intros Ha Hb Hdis. unfold list_move. rewrite wp_bind.
  eapply wp_mono; [by apply wp_list_del|]. intros [] m1 (Ha1 & Hx1 & Hf1). cbn beta.
  assert (is_list m1 b ys) as Hb1 by (eapply is_list_frame; eauto).
  eapply wp_mono; [apply (wp_list_add_front m1 b x ys)|].
  - done.
  - intros ?%Hdis. set_solver.
  - eapply is_list_node; [apply Hx1 | set_solver].
  - intros [] m2 [Hb2 Hf2]. split_and!; [|done|].
    + eapply is_list_frame; [done|]. intros p Hp. apply Hf2.
      intros Hin. destruct (decide (p = x)) as [->|].
      * destruct Ha as [Hnd _]. apply (NoDup_middle (a :: xs1)) in Hnd as [Hnd _].
        set_solver.
      * specialize (Hdis p). set_solver.
    + intros p Hp. rewrite Hf2, Hf1; set_solver.
Qed.

Lemma wp_INIT_LIST m p :
  is_Some (m !! p) ->
  wp (INIT_LIST p)
    (fun _ m' => is_list m' p [] /\ (forall q, q <> p -> m' !! q = m !! q)) m.
Proof.
  intros [n Hn]. unfold INIT_LIST, set_prev, set_next. wp_go.
  split; [split; [apply NoDup_singleton|split; solve_links]|].
  intros q Hq. rewrite !lookup_insert_ne by done. done.
Qed.

Lemma wp_list_empty m a xs Q :
  is_list m a xs -> Q (bool_decide (xs = [])) m -> wp (list_empty a) Q m.
Proof.
  intros [Hnd Hd] HQ. unfold list_empty.
  pose proof (dseg_next _ _ _ _ Hd) as (na & Hma & Hna)%next_of_Some. wp_go.
  rewrite Hna. destruct xs as [|h t]; simpl; [by rewrite Z.eqb_refl|].
  rewrite (proj2 (Z.eqb_neq h a)) by (apply NoDup_cons in Hnd; set_solver). done.
Qed.

Lemma wp_list_front m a x xs Q :
  is_list m a (x :: xs) -> Q x m -> wp (list_front a) Q m.
Proof.
  intros [_ Hd] HQ. unfold list_front.
  pose proof (dseg_next _ _ _ _ Hd) as (na & Hma & Hna)%next_of_Some. wp_go.
  by rewrite Hna.
Qed.
End Operations.

(** ** Traversal *)
Section Traversal.
Context {S R : Type} (pr : S -> lmem).

Lemma is_list_elem_next m a xs1 x xs2 :
  is_list m a (xs1 ++ x :: xs2) ->
  exists n, m !! x = Some n /\ next n = hd a xs2.
Proof. intros [_ [_ Hd]%dseg_app]. by apply next_of_Some, (dseg_next _ _ _ _ Hd). Qed.

(** The loop visits the ring from front to back, once each: [I l s] is the
    loop invariant after the nodes [l]; the body may leave early with
    [Some r]. It returns as soon as the fuel exceeds the length. *)
Lemma wp_list_foreach (I : list addr -> S -> Prop) (Q : option R -> S -> Prop)
    a xs fuel (body : addr -> M S (option R)) s :
  is_list (pr s) a xs -> (length xs < fuel)%nat -> I [] s ->
  (forall l x r s, xs = l ++ x :: r -> is_list (pr s) a xs -> I l s ->
    wp (body x) (fun o s' => match o with
                             | Some v => Q (Some v) s'
                             | None => is_list (pr s') a xs /\ I (l ++ [x]) s'
                             end) s) ->
  (forall s, is_list (pr s) a xs -> I xs s -> Q None s) ->
  wp (list_foreach pr fuel a body) Q s.
Proof.
  intros Hl Hfuel HI Hbody Hend.
  enough (forall r l p fuel s, xs = l ++ r -> p = hd a r -> (length r < fuel)%nat ->
            is_list (pr s) a xs -> I l s ->
            wp (foreach_from pr fuel a p body) Q s) as Hgo.
  { unfold list_foreach. wp_simpl.
    pose proof Hl as [_ Hd].
    pose proof (dseg_next _ _ _ _ Hd) as (na & Hma & Hna)%next_of_Some.
    exists na. split; [done|]. by apply (Hgo xs []). }
  clear fuel s Hl Hfuel HI. induction r as [|x r IH];
    intros l p [|fuel] s -> -> Hfuel Hl HI; simpl in *; try lia.
  - rewrite Z.eqb_refl. wp_simpl. apply Hend; [done|]. by rewrite app_nil_r in *.
  - pose proof Hl as [[Ha _]%NoDup_cons _].
    rewrite (proj2 (Z.eqb_neq x a)) by set_solver.
    wp_simpl. eapply wp_mono; [by eapply Hbody|]. intros [v|] s'; [done|].
    intros [Hl' HI']. wp_simpl.
    destruct (is_list_elem_next _ _ _ _ _ Hl') as (n & Hn & Hnx).
    exists n. split; [done|]. apply (IH (l ++ [x])); [|done|lia|done|done].
    by rewrite <-app_assoc.
Qed.

(** The safe loop lets the body unlink the node it is run on: [J r s] is the
    invariant when the nodes [r] remain to be visited. *)
Lemma wp_list_foreach_safe (J : list addr -> S -> Prop) (Q : option R -> S -> Prop)
    a xs fuel (body : addr -> M S (option R)) s :
  is_list (pr s) a xs -> (length xs < fuel)%nat -> J xs s ->
  (forall r s, J r s -> exists l, is_list (pr s) a (l ++ r)) ->
  (forall x r s, J (x :: r) s ->
    wp (body x) (fun o s' => match o with
                             | Some v => Q (Some v) s'
                             | None => J r s'
                             end) s) ->
  (forall s, J [] s -> Q None s) ->
  wp (list_foreach_safe pr fuel a body) Q s.
Proof.
  intros Hl Hfuel HJ Hring Hbody Hend.
  enough (forall r p t fuel s, p = hd a r -> t = hd a (tail r) \/ r = [] ->
            (length r < fuel)%nat -> J r s ->
            wp (foreach_safe_from pr fuel a p t body) Q s) as Hgo.
  { unfold list_foreach_safe. wp_simpl. pose proof Hl as [_ Hd].
    pose proof (dseg_next _ _ _ _ Hd) as (na & Hma & Hna)%next_of_Some.
    exists na. split; [done|]. wp_simpl.
    destruct xs as [|x xs]; simpl in Hna; rewrite Hna.
    - exists na. split; [done|]. by apply (Hgo []); [done|right|simpl in *; lia|].
    - destruct (is_list_elem_next _ _ [] x xs Hl) as (n & Hn & Hnx).
      exists n. split; [done|]. apply (Hgo (x :: xs)); simpl; auto. }
  clear fuel s Hl Hfuel HJ. induction r as [|x r IH];
    intros p t [|fuel] s -> Ht Hfuel HJ; simpl in *; try lia.
  - rewrite Z.eqb_refl. wp_simpl. by apply Hend.
  - destruct Ht as [->|]; [|done]. destruct (Hring _ _ HJ) as (l & Hl).
    pose proof Hl as [[Ha _]%NoDup_cons _].
    rewrite (proj2 (Z.eqb_neq x a)) by set_solver.
    wp_simpl. eapply wp_mono; [by eapply Hbody|]. intros [v|] s'; [done|].
    intros HJ'. wp_simpl. destruct (Hring _ _ HJ') as (l' & Hl').
    destruct r as [|y r]; simpl.
    + pose proof Hl' as [_ Hd]. rewrite app_nil_r in Hd.
      pose proof (dseg_next _ _ _ _ Hd) as (na & Hma & Hna)%next_of_Some.
      exists na. split; [done|]. apply IH; auto with lia.
    + destruct (is_list_elem_next _ _ _ _ _ Hl') as (n & Hn & Hnx).
      exists n. split; [done|]. rewrite Hnx. apply IH; simpl in *; auto with lia.
Qed.
End Traversal.

(** ** The ring as a sequence

    A client's calls on one anchor, and the sequence they denote. A node may be
    linked in only when it is an allocated node outside the ring, and unlinked
    only when it is in it; the code does not check either. *)
Inductive list_op := AddFront (x : addr) | AddBack (x : addr) | Del (x : addr).

Definition exec_op (a : addr) (op : list_op) : M lmem unit :=
  match op with
  | AddFront x => list_add_front a x
  | AddBack x => list_add_back a x
  | Del x => list_del x
  end.

Fixpoint exec_ops (a : addr) (ops : list list_op) : M lmem unit :=
  match ops with
  | [] => mret tt
  | op :: ops => exec_op a op;; exec_ops a ops
  end.

Definition spec_op (nodes : gset addr) (a : addr) (xs : list addr) (op : list_op)
    : option (list addr) :=
  match op with
  | AddFront x =>
      if decide (x ∈ nodes /\ x ∉ a :: xs) then Some (x :: xs) else None
  | AddBack x =>
      if decide (x ∈ nodes /\ x ∉ a :: xs) then Some (xs ++ [x]) else None
  | Del x => if decide (x ∈ xs) then Some (filter (λ y, y <> x) xs) else None
  end.

Fixpoint spec_ops (nodes : gset addr) (a : addr) (xs : list addr) (ops : list list_op)
    : option (list addr) :=
  match ops with
  | [] => Some xs
  | op :: ops => ys ← spec_op nodes a xs op; spec_ops nodes a ys ops
  end.

Section Sequence.
Implicit Types m : lmem.

Lemma filter_ne_id (l : list addr) x : x ∉ l -> filter (λ y, y <> x) l = l.
Proof.
  induction l as [|y l IH]; intros Hl; [done|].
  rewrite filter_cons_True, IH by set_solver. done.
Qed.

Lemma filter_ne_middle (l1 l2 : list addr) x :
  x ∉ l1 ++ l2 -> filter (λ y, y <> x) (l1 ++ x :: l2) = l1 ++ l2.
Proof.
  intros Hx. rewrite filter_app, filter_cons_False by auto.
  rewrite !filter_ne_id by set_solver. done.
Qed.

Lemma dom_frame m m' (l : list addr) :
  (forall p, p ∈ l -> is_Some (m !! p)) -> (forall p, p ∈ l -> is_Some (m' !! p)) ->
  (forall p, p ∉ l -> m' !! p = m !! p) -> dom m' = dom m.
Proof.
  intros Hm Hm' Hf. apply set_eq. intros p. rewrite !elem_of_dom.
  destruct (decide (p ∈ l)); [naive_solver | by rewrite Hf].
Qed.

Lemma wp_exec_op m a xs ys op :
  is_list m a xs -> spec_op (dom m) a xs op = Some ys ->
  wp (exec_op a op) (fun _ m' => is_list m' a ys /\ dom m' = dom m) m.
Proof.
  intros Hl. destruct op as [x|x|x]; simpl; case_decide as Hx; intros [= <-].
  - destruct Hx as [Hd%elem_of_dom Hx].
    eapply wp_mono; [by apply wp_list_add_front|]. intros [] m' [Hl' Hf]. split; [done|].
    eapply (dom_frame _ _ (x :: a :: xs)); [|intros p Hp; eapply is_list_node; [done|set_solver]|done].
    intros p [->|Hp]%elem_of_cons; [done|]. by eapply is_list_node.
  - destruct Hx as [Hd%elem_of_dom Hx].
    eapply wp_mono; [by apply wp_list_add_back|]. intros [] m' [Hl' Hf]. split; [done|].
    eapply (dom_frame _ _ (x :: a :: xs)); [|intros p Hp; eapply is_list_node; [done|set_solver]|done].
    intros p [->|Hp]%elem_of_cons; [done|]. by eapply is_list_node.
  - apply list_elem_of_split in Hx as (l1 & l2 & ->).
    eapply wp_mono; [by eapply wp_list_del|]. intros [] m' (Hl' & Hx' & Hf). split.
    + rewrite filter_ne_middle; [done|]. pose proof Hl as [Hnd _].
      apply (NoDup_middle (a :: l1)) in Hnd. set_solver.
    + eapply (dom_frame _ _ (a :: l1 ++ x :: l2)); [by intros; eapply is_list_node| |done].
      intros p Hp. destruct (decide (p = x)) as [->|];
        [eapply is_list_node; [apply Hx'|set_solver]
        |eapply is_list_node; [apply Hl'|set_solver]].
Qed.

(** C15: for every sequence of [list_add_front], [list_add_back] and
    [list_del] calls that a client may make, the code runs without fault and
    the ring it leaves is exactly the sequence the calls denote, over the
    same nodes. *)
Theorem list_refines_sequence m a xs ops ys :
  is_list m a xs -> spec_ops (dom m) a xs ops = Some ys ->
  exists m', exec_ops a ops m = Ok (tt, m') /\ is_list m' a ys /\ dom m' = dom m.
Proof.
  intros Hl Hs. enough (wp (exec_ops a ops) (fun _ m' => is_list m' a ys /\ dom m' = dom m) m)
    as ([] & m' & ? & ?)%wp_run by eauto.
  revert m xs Hl Hs. induction ops as [|op ops IH]; simpl; intros m xs Hl Hs.
  - by simplify_eq.
  - apply bind_Some in Hs as (zs & Hop & Hs). wp_simpl.
    eapply wp_mono; [by eapply wp_exec_op|]. intros [] m1 [Hl1 Hd1]. rewrite <-Hd1 in Hs |- *.
    eapply wp_mono; [by eapply IH|]. naive_solver.
Qed.
End Sequence.

(** ** Loops over a ring *)
Section Loops.
Context {T : Type}.

(** A loop body that reads the current node's address into an accumulator. *)
Definition visit (act : addr -> T -> T) (p : addr) : M (lmem * T) (option unit) :=
  modify (λ s, (s.1, act p s.2));; mret None.

(** [list_foreach] over a ring applies its body to every node exactly
    once, from front to back, terminates within one iteration more than the
    number of nodes, and leaves the ring as it was. *)
Theorem list_foreach_visits m a xs (act : addr -> T -> T) t fuel :
  is_list m a xs -> (length xs < fuel)%nat ->
  list_foreach fst fuel a (visit act) (m, t) =
    Ok (None, (m, fold_left (flip act) xs t)).
Proof.
  intros Hl Hfuel.
  enough (wp (list_foreach fst fuel a (visit act))
            (λ o s, o = None /\ s = (m, fold_left (flip act) xs t)) (m, t))
    as (o & s & -> & -> & ->)%wp_run by done.
  apply (wp_list_foreach fst (λ l s, s = (m, fold_left (flip act) l t))
           _ a xs); [done..| |naive_solver].
  intros l x r s Hxs Hls ->. unfold visit. wp_simpl. split; [done|].
  by rewrite fold_left_app.
Qed.
End Loops.

(** The safe loop tolerates a body that unlinks its own node: deleting
    every node of a ring in a [list_foreach_safe] empties the ring and leaves
    each node linked to itself. *)
Theorem list_foreach_safe_delete_all m a xs fuel :
  is_list m a xs -> (length xs < fuel)%nat ->
  exists m', list_foreach_safe id fuel a (λ p, list_del p;; mret (@None unit)) m = Ok (None, m')
    /\ is_list m' a [] /\ (forall x, x ∈ xs -> is_list m' x []).
Proof.
  intros Hl Hfuel.
  enough (wp (list_foreach_safe id fuel a (λ p, list_del p;; mret (@None unit)))
            (λ o m', o = None /\ is_list m' a [] /\ (forall x, x ∈ xs -> is_list m' x [])) m)
    as (o & m' & ? & -> & ?)%wp_run by eauto.
  pose proof Hl as [[Ha Hnd]%NoDup_cons _].
  apply (wp_list_foreach_safe id (λ r m', is_list m' a r /\ exists l, xs = l ++ r /\
           (forall x, x ∈ l -> is_list m' x [])) _ a xs).
  - done.
  - done.
  - split; [done|]. exists []. set_solver.
  - intros r s [Hr _]. by exists [].
  - intros x r s [Hr (l & -> & Hself)]. wp_simpl.
    eapply wp_mono; [by apply (wp_list_del s a [] x r)|].
    intros [] m1 (Hr1 & Hx1 & Hf1). wp_simpl. split; [done|].
    exists (l ++ [x]). rewrite <-app_assoc. split; [done|].
    intros y [Hy| ->%list_elem_of_singleton]%elem_of_app; [|done].
    eapply is_list_frame; [by apply Hself|]. intros p ->%list_elem_of_singleton.
    apply Hf1. apply NoDup_app in Hnd as (_ & Hdis & _). specialize (Hdis y Hy). set_solver.
  - intros s [Hr (l & -> & Hself)]. rewrite app_nil_r. done.
Qed.

(** ** Witnesses *)

(** An anchor at 1 and nodes at 2, 3 and 4, each linked to itself. *)
Definition demo_nodes : lmem :=
  list_to_map ((λ p, (p, mk_list p p)) <$> [1; 2; 3; 4]).

Lemma demo_nodes_empty : is_list demo_nodes 1 [].
Proof. split; [apply NoDup_singleton | done]. Qed.

Lemma list_refines_sequence_witness :
  exists m', exec_ops 1 [AddFront 2; AddBack 3; AddFront 4; Del 2] demo_nodes = Ok (tt, m')
    /\ is_list m' 1 [4; 3] /\ dom m' = dom demo_nodes.
Proof.
  apply (list_refines_sequence demo_nodes 1 []).
  - exact demo_nodes_empty.
  - vm_compute. reflexivity.
Defined.

(** The ring 2, 3, 4 after anchor 1. *)
Definition demo_ring : lmem :=
  list_to_map [(1, mk_list 4 2); (2, mk_list 1 3); (3, mk_list 2 4); (4, mk_list 3 1)].

Lemma demo_ring_list : is_list demo_ring 1 [2; 3; 4].
Proof.
  split; [|done]. apply NoDup_ListNoDup. repeat constructor; simpl; lia.
Qed.

Lemma list_foreach_visits_witness :
  list_foreach fst 4 1 (visit cons) (demo_ring, []) = Ok (None, (demo_ring, [4; 3; 2])).
Proof. apply (list_foreach_visits demo_ring 1 [2; 3; 4]); [apply demo_ring_list | simpl; lia]. Defined.

Lemma list_foreach_safe_delete_all_witness :
  exists m', list_foreach_safe id 4 1 (λ p, list_del p;; mret (@None unit)) demo_ring = Ok (None, m')
    /\ is_list m' 1 [] /\ (forall x, x ∈ [2; 3; 4] -> is_list m' x []).
Proof.
  apply (list_foreach_safe_delete_all demo_ring 1 [2; 3; 4]); [apply demo_ring_list | simpl; lia].
Defined.
