(* ===== verification/Malloc.v ===== *)
(** The allocator of the C library, as the interface the components use.

    [malloc] returns [NULL] or the address of a block that is not live; each
    block it hands out uses up some of the finite address space, which [room]
    measures. [free] retires a live block, does nothing on [NULL] and is
    undefined on anything else. *)
From S2P Require Import Prelude.

Class Allocator (A : Type) := {
  malloc : Z -> M A addr;
  free : addr -> M A unit;
  blocks : A -> gset addr;
  room : A -> nat;
}.

Class AllocatorLaws (A : Type) `{Allocator A} := {
  malloc_law n a : 0 <= n ->
    exists p a', malloc n a = Ok (p, a') /\
      (p = NULL /\ blocks a' = blocks a /\ room a' = room a \/
       p <> NULL /\ p ∉ blocks a /\ blocks a' = {[p]} ∪ blocks a /\ (room a' < room a)%nat);
  free_law p a : p <> NULL -> p ∈ blocks a ->
    exists a', free p a = Ok (tt, a') /\ blocks a' = blocks a ∖ {[p]};
  free_null a : free NULL a = Ok (tt, a);
}.

(** The two outcomes of a [malloc]. *)
Lemma wp_malloc {A} `{AllocatorLaws A} n (Q : addr -> A -> Prop) a :
  0 <= n ->
  (forall a', blocks a' = blocks a -> room a' = room a -> Q NULL a') ->
  (forall p a', p <> NULL -> p ∉ blocks a -> blocks a' = {[p]} ∪ blocks a ->
     (room a' < room a)%nat -> Q p a') ->
  wp (malloc n) Q a.
Proof.
  intros Hn Hnull Hok. destruct (malloc_law n a Hn) as (p & a' & E & Hp).
  unfold wp. rewrite E. destruct Hp as [(-> & ? & ?)|(? & ? & ? & ?)]; auto.
Qed.

Lemma wp_free {A} `{AllocatorLaws A} p (Q : unit -> A -> Prop) a :
  p <> NULL -> p ∈ blocks a ->
  (forall a', blocks a' = blocks a ∖ {[p]} -> Q tt a') -> wp (free p) Q a.
Proof.
  intros Hn Hp HQ. destruct (free_law p a Hn Hp) as (a' & E & Hb).
  unfold wp. rewrite E. auto.
Qed.

(** ** An allocator

    An address space of [avail] bytes; a block takes its size and one byte of
    bookkeeping, and is never reused. *)
Record arena := mk_arena { avail : Z; live : gset addr }.

Definition arena_malloc (n : Z) : M arena addr := fun a =>
  if n <? avail a then
    let p := fresh ({[NULL]} ∪ live a) in
    Ok (p, mk_arena (avail a - n - 1) ({[p]} ∪ live a))
  else Ok (NULL, a).

Definition arena_free (p : addr) : M arena unit := fun a =>
  if decide (p = NULL) then Ok (tt, a)
  else if decide (p ∈ live a) then Ok (tt, mk_arena (avail a) (live a ∖ {[p]}))
  else Fault.

#[export] Instance arena_allocator : Allocator arena := {
  malloc := arena_malloc;
  free := arena_free;
  blocks := live;
  room a := Z.to_nat (avail a);
}.

#[export] Instance arena_laws : AllocatorLaws arena.
Proof.
  split.
  - intros n [av lv] Hn. simpl. unfold arena_malloc. simpl.
    destruct (Z.ltb_spec n av); [|eauto 8].
    pose proof (is_fresh ({[NULL]} ∪ lv)) as Hf. rewrite elem_of_union in Hf.
    eexists _, _. split; [done|]. right. simpl. split_and!; [set_solver|set_solver|done|lia].
  - intros p a Hn Hp. simpl in *. unfold arena_free.
    rewrite decide_False, decide_True by done. eauto.
  - intros a. simpl. unfold arena_free. by rewrite decide_True.
Qed.
