(* ===== verification/Hash.v ===== *)
(** The sdbm hash (include/ckit/hash.h), over [unsigned long] of 64 bits. *)
From S2P Require Import Prelude.

(** ** Definitions *)
Definition partial_byte_hash (c hash : Z) : Z :=
  u64 (u64 (u64 (c + u64 (Z.shiftl hash 6)) + u64 (Z.shiftl hash 16)) - hash).

(** [while (len--) hash = partial_byte_hash( *ptr++, hash)]: [ptr] is what is
    left of the object [bytes] points into; reading past its end faults. *)
Fixpoint byte_array_hash_loop (len : nat) (ptr : list Z) (hash : Z) : outcome Z :=
  match len with
  | O => Ok hash
  | S len =>
      match ptr with
      | [] => Fault
      | b :: ptr => byte_array_hash_loop len ptr (partial_byte_hash b hash)
      end
  end.

Definition byte_array_hash (bytes : list Z) (len : nat) : outcome Z :=
  byte_array_hash_loop len bytes 0.

(** The value of a [char] whose byte is [b], converted to [unsigned long]:
    whether [char] is signed is up to the implementation. *)
Definition char_value (char_signed : bool) (b : Z) : Z :=
  if char_signed && (128 <=? b) then u64 (b - 256) else b.

Fixpoint string_hash_loop (char_signed : bool) (str : list Z) (hash : Z) : outcome Z :=
  match str with
  | [] => Fault
  | b :: str =>
      if b =? 0 then Ok hash
      else string_hash_loop char_signed str
             (partial_byte_hash (char_value char_signed b) hash)
  end.

Definition string_hash (char_signed : bool) (str : list Z) : outcome Z :=
  string_hash_loop char_signed str 0.

(** ** The polynomial the loops evaluate *)
Fixpoint horner (h : Z) (bs : list Z) : Z :=
  match bs with
  | [] => h
  | b :: bs => horner (h * 65599 + b) bs
  end.

Lemma horner_app h bs1 bs2 : horner h (bs1 ++ bs2) = horner (horner h bs1) bs2.
Proof. revert h. induction bs1; simpl; auto. Qed.

Lemma horner_linear h bs :
  horner h bs = h * 65599 ^ Z.of_nat (length bs) + horner 0 bs.
Proof.
  revert h. induction bs as [|b bs IH]; intros h; cbn [horner length].
  - rewrite Z.pow_0_r. lia.
  - rewrite (IH (h * 65599 + b)), (IH (0 * 65599 + b)), Nat2Z.inj_succ, Z.pow_succ_r by lia.
    lia.
Qed.

Lemma partial_byte_hash_eq c hash : partial_byte_hash c hash = u64 (hash * 65599 + c).
Proof.
  unfold partial_byte_hash. rewrite !Z.shiftl_mul_pow2 by lia.
  rewrite (u64_add_r c), u64_add_l, u64_add_r, u64_sub_l. f_equal. lia.
Qed.

Lemma u64_horner h bs : u64 (horner (u64 h) bs) = u64 (horner h bs).
Proof.
  rewrite (horner_linear (u64 h)), (horner_linear h).
  rewrite <-u64_add_l, u64_mul_l, u64_add_l. done.
Qed.

(** One iteration of either loop. *)
Lemma hash_step h b bs :
  u64 (horner (u64 h * 65599 + b) bs) = u64 (horner (h * 65599 + b) bs).
Proof.
  rewrite <-(u64_horner (u64 h * _ + _)), <-(u64_horner (h * _ + _)).
  by rewrite <-u64_add_l, u64_mul_l, u64_add_l.
Qed.

Lemma byte_array_hash_loop_eq bs rest h :
  byte_array_hash_loop (length bs) (bs ++ rest) (u64 h) = Ok (u64 (horner h bs)).
Proof.
  revert h. induction bs as [|b bs IH]; intros h; simpl; [done|].
  by rewrite partial_byte_hash_eq, IH, hash_step.
Qed.

Lemma byte_array_hash_eq bs rest :
  byte_array_hash (bs ++ rest) (length bs) = Ok (u64 (horner 0 bs)).
Proof. apply (byte_array_hash_loop_eq bs rest 0). Qed.

Lemma string_hash_loop_eq sg bs rest h :
  Forall (λ b, b <> 0) bs ->
  string_hash_loop sg (bs ++ 0 :: rest) (u64 h) = Ok (u64 (horner h (char_value sg <$> bs))).
Proof.
  intros Hbs. revert h. induction Hbs as [|b bs Hb Hbs IH]; intros h; simpl; [done|].
  rewrite (proj2 (Z.eqb_neq b 0)) by done.
  by rewrite partial_byte_hash_eq, IH, hash_step.
Qed.

(** ** Properties *)

(** C40: the shift-and-subtract step computes multiplication by 65599, so
    [byte_array_hash] over [len] readable bytes is the polynomial of the bytes
    at 65599 modulo 2^64; with fewer readable bytes it reads out of bounds. *)
Theorem byte_array_hash_polynomial bytes len :
  byte_array_hash bytes len =
    if decide (len <= length bytes)%nat
    then Ok ((horner 0 (take len bytes)) mod 2 ^ 64)
    else Fault.
Proof.
  case_decide as Hlen.
  - pose proof (byte_array_hash_eq (take len bytes) (drop len bytes)) as E.
    by rewrite take_drop, length_take, Nat.min_l in E by lia.
  - unfold byte_array_hash. generalize 0. revert bytes Hlen.
    induction len as [|len IH]; intros [|b bs] Hlen h; simpl in *; try lia; [done|].
    apply IH. lia.
Qed.

(** Hashing is incremental: the hash of a concatenation is determined by
    the hashes of its parts and the length of the second. *)
Theorem byte_array_hash_app bs1 bs2 h1 h2 :
  byte_array_hash bs1 (length bs1) = Ok h1 ->
  byte_array_hash bs2 (length bs2) = Ok h2 ->
  byte_array_hash (bs1 ++ bs2) (length bs1 + length bs2) =
    Ok ((h1 * 65599 ^ Z.of_nat (length bs2) + h2) mod 2 ^ 64).
Proof.
  rewrite <-length_app. pose proof (λ bs, byte_array_hash_eq bs []) as E.
  setoid_rewrite app_nil_r in E. rewrite !E. intros [= <-] [= <-]. f_equal.
  rewrite horner_app, (horner_linear (horner 0 bs1)).
  change (u64 (horner 0 bs1 * 65599 ^ Z.of_nat (length bs2) + horner 0 bs2) =
    u64 (u64 (horner 0 bs1) * 65599 ^ Z.of_nat (length bs2) + u64 (horner 0 bs2))).
  by rewrite u64_add_r, <-(u64_add_l (u64 _ * _)), u64_mul_l, u64_add_l.
Qed.

(** [string_hash] of a NUL-terminated string stops at the terminator and,
    when every character is ASCII or [char] is unsigned, agrees with
    [byte_array_hash] of its characters. *)
Theorem string_hash_agrees sg bs rest :
  Forall (λ b, b <> 0) bs -> (sg = true -> Forall (λ b, b < 128) bs) ->
  string_hash sg (bs ++ 0 :: rest) = byte_array_hash bs (length bs).
Proof.
  intros Hnz Hsg. pose proof (byte_array_hash_eq bs []) as E.
  rewrite app_nil_r in E. rewrite E.
  unfold string_hash. rewrite (string_hash_loop_eq _ _ _ 0) by done. do 3 f_equal.
  rewrite <-(list_fmap_id bs) at 2. apply list_fmap_ext. intros i b Hb. simpl.
  unfold char_value. destruct sg; [|done]. specialize (Hsg eq_refl).
  rewrite Forall_lookup in Hsg. rewrite (proj2 (Z.leb_gt 128 b)) by eauto. done.
Qed.

Lemma byte_array_hash_app_witness :
  byte_array_hash ([104; 105] ++ [33]) (length [104; 105] + length [33]) =
    Ok ((6822401 * 65599 ^ 1 + 33) mod 2 ^ 64).
Proof. apply (byte_array_hash_app [104; 105] [33]); vm_compute; reflexivity. Defined.

Lemma string_hash_agrees_witness :
  string_hash true ([107; 101; 121] ++ [0]) = byte_array_hash [107; 101; 121] 3.
Proof.
  apply (string_hash_agrees true [107; 101; 121] []); [|intros _]; repeat constructor; lia.
Defined.
