(* ===== verification/Time.v ===== *)
(** Time arithmetic (include/ckit/time.h): the macros on [struct timespec] and
    [struct timeval]. [time_t], [long] and [suseconds_t] are 64-bit signed; an
    operation whose mathematical result does not fit is undefined in C and
    faults here. *)
From S2P Require Import Prelude.

Definition NSEC_PER_SEC : Z := 1000000000.
Definition USEC_PER_SEC : Z := 1000000.

(** A [long] result. *)
Definition in_long (z : Z) : bool := (- 2 ^ 63 <=? z) && (z <? 2 ^ 63).
Definition long (z : Z) : outcome Z := if in_long z then Ok z else Fault.

Lemma long_ok z : - 2 ^ 63 <= z < 2 ^ 63 -> long z = Ok z.
Proof.
  intros [H1 H2]. unfold long, in_long.
  by rewrite (proj2 (Z.leb_le _ _) H1), (proj2 (Z.ltb_lt _ _) H2).
Qed.

(** ** struct timespec *)
Record timespec := mk_timespec { tv_sec : Z; tv_nsec : Z }.

#[export] Instance timespec_eq_dec : EqDecision timespec.
Proof. solve_decision. Defined.

Definition timespec_normalize (t : timespec) : outcome timespec :=
  if NSEC_PER_SEC <=? tv_nsec t then
    nsec ← long (tv_nsec t - NSEC_PER_SEC);
    sec ← long (tv_sec t + 1);
    mret (mk_timespec sec nsec)
  else if tv_nsec t <? 0 then
    nsec ← long (tv_nsec t + NSEC_PER_SEC);
    sec ← long (tv_sec t - 1);
    mret (mk_timespec sec nsec)
  else mret t.

(** C division and remainder truncate towards zero. *)
Definition timespec_add_nsec (t1 : timespec) (nsec : Z) : outcome timespec :=
  sec ← long (tv_sec t1 + Z.quot nsec NSEC_PER_SEC);
  ns ← long (tv_nsec t1 + Z.rem nsec NSEC_PER_SEC);
  timespec_normalize (mk_timespec sec ns).

Definition timespec_add (t1 t2 : timespec) : outcome timespec :=
  ns ← long (tv_nsec t1 + tv_nsec t2);
  sec ← long (tv_sec t1 + tv_sec t2);
  timespec_normalize (mk_timespec sec ns).

Definition timespec_sub (t1 t2 : timespec) : outcome timespec :=
  ns ← long (tv_nsec t1 - tv_nsec t2);
  sec ← long (tv_sec t1 - tv_sec t2);
  timespec_normalize (mk_timespec sec ns).

Definition timespec_nz (t : timespec) : bool :=
  negb (tv_sec t =? 0) || negb (tv_nsec t =? 0).
Definition timespec_lt (t1 t2 : timespec) : bool :=
  (tv_sec t1 <? tv_sec t2) ||
  ((tv_sec t1 =? tv_sec t2) && (tv_nsec t1 <? tv_nsec t2)).
Definition timespec_gt (t1 t2 : timespec) : bool := timespec_lt t2 t1.
Definition timespec_ge (t1 t2 : timespec) : bool := negb (timespec_lt t1 t2).
Definition timespec_le (t1 t2 : timespec) : bool := negb (timespec_gt t1 t2).
Definition timespec_eq (t1 t2 : timespec) : bool :=
  (tv_sec t1 =? tv_sec t2) && (tv_nsec t1 =? tv_nsec t2).

(** ** struct timeval *)
Record timeval := mk_timeval { tvv_sec : Z; tvv_usec : Z }.

Definition timeval_normalize (t : timeval) : outcome timeval :=
  if USEC_PER_SEC <=? tvv_usec t then
    usec ← long (tvv_usec t - USEC_PER_SEC);
    sec ← long (tvv_sec t + 1);
    mret (mk_timeval sec usec)
  else if tvv_usec t <? 0 then
    usec ← long (tvv_usec t + USEC_PER_SEC);
    sec ← long (tvv_sec t - 1);
    mret (mk_timeval sec usec)
  else mret t.

Definition timeval_add_usec (t1 : timeval) (usec : Z) : outcome timeval :=
  sec ← long (tvv_sec t1 + Z.quot usec USEC_PER_SEC);
  us ← long (tvv_usec t1 + Z.rem usec USEC_PER_SEC);
  timeval_normalize (mk_timeval sec us).

Definition timeval_sub_usec (t1 : timeval) (usec : Z) : outcome timeval :=
  sec ← long (tvv_sec t1 - Z.quot usec USEC_PER_SEC);
  us ← long (tvv_usec t1 - Z.rem usec USEC_PER_SEC);
  timeval_normalize (mk_timeval sec us).

Definition timeval_add (t1 t2 : timeval) : outcome timeval :=
  us ← long (tvv_usec t1 + tvv_usec t2);
  sec ← long (tvv_sec t1 + tvv_sec t2);
  timeval_normalize (mk_timeval sec us).

Definition timeval_sub (t1 t2 : timeval) : outcome timeval :=
  us ← long (tvv_usec t1 - tvv_usec t2);
  sec ← long (tvv_sec t1 - tvv_sec t2);
  timeval_normalize (mk_timeval sec us).

Definition timeval_nz (t : timeval) : bool :=
  negb (tvv_sec t =? 0) || negb (tvv_usec t =? 0).
Definition timeval_lt (t1 t2 : timeval) : bool :=
  (tvv_sec t1 <? tvv_sec t2) ||
  ((tvv_sec t1 =? tvv_sec t2) && (tvv_usec t1 <? tvv_usec t2)).
Definition timeval_gt (t1 t2 : timeval) : bool := timeval_lt t2 t1.
Definition timeval_ge (t1 t2 : timeval) : bool := negb (timeval_lt t1 t2).
Definition timeval_le (t1 t2 : timeval) : bool := negb (timeval_gt t1 t2).
Definition timeval_eq (t1 t2 : timeval) : bool :=
  (tvv_sec t1 =? tvv_sec t2) && (tvv_usec t1 =? tvv_usec t2).

(** ** The instant a normalised structure denotes *)
Definition ns_of (t : timespec) : Z := tv_sec t * NSEC_PER_SEC + tv_nsec t.
Definition us_of (t : timeval) : Z := tvv_sec t * USEC_PER_SEC + tvv_usec t.

(** Normalised, and far enough from the ends of [time_t]. *)
Definition ts_ok (t : timespec) : Prop :=
  0 <= tv_nsec t < NSEC_PER_SEC /\ - 2 ^ 61 <= tv_sec t <= 2 ^ 61.
Definition tv_ok (t : timeval) : Prop :=
  0 <= tvv_usec t < USEC_PER_SEC /\ - 2 ^ 61 <= tvv_sec t <= 2 ^ 61.

Ltac time_unfold :=
  unfold ts_ok, tv_ok, ns_of, us_of, NSEC_PER_SEC, USEC_PER_SEC in *;
  cbn [tv_sec tv_nsec tvv_sec tvv_usec] in *.

(** Evaluate checked arithmetic whose results are in range. *)
Ltac long_step :=
  unfold mbind, outcome_bind;
  repeat (rewrite long_ok by (time_unfold; lia)); cbn [tv_sec tv_nsec tvv_sec tvv_usec].

Lemma timespec_normalize_spec sec ns :
  - NSEC_PER_SEC <= ns < 2 * NSEC_PER_SEC -> - 2 ^ 62 - 2 ^ 61 - 1 <= sec <= 2 ^ 62 + 2 ^ 61 + 1 ->
  exists t, timespec_normalize (mk_timespec sec ns) = Ok t /\
    0 <= tv_nsec t < NSEC_PER_SEC /\ ns_of t = sec * NSEC_PER_SEC + ns.
Proof.
  intros Hns Hsec. unfold timespec_normalize. cbn [tv_sec tv_nsec].
  destruct (Z.leb_spec NSEC_PER_SEC ns); [|destruct (Z.ltb_spec ns 0)];
    long_step; (eexists; split; [reflexivity | time_unfold; lia]).
Qed.

Lemma timeval_normalize_spec sec us :
  - USEC_PER_SEC <= us < 2 * USEC_PER_SEC -> - 2 ^ 62 - 2 ^ 61 - 1 <= sec <= 2 ^ 62 + 2 ^ 61 + 1 ->
  exists t, timeval_normalize (mk_timeval sec us) = Ok t /\
    0 <= tvv_usec t < USEC_PER_SEC /\ us_of t = sec * USEC_PER_SEC + us.
Proof.
  intros Hns Hsec. unfold timeval_normalize. cbn [tvv_sec tvv_usec].
  destruct (Z.leb_spec USEC_PER_SEC us); [|destruct (Z.ltb_spec us 0)];
    long_step; (eexists; split; [reflexivity | time_unfold; lia]).
Qed.

Lemma quot_rem_bounds a b :
  0 < b -> a = b * Z.quot a b + Z.rem a b /\ - b < Z.rem a b < b /\
  (- 2 ^ 63 <= a < 2 ^ 63 -> 2 ^ 4 <= b -> - 2 ^ 59 <= Z.quot a b <= 2 ^ 59).
Proof.
  intros Hb. pose proof (Z.quot_rem' a b). pose proof (Z.rem_bound_abs a b). 
  split_and!; [done|lia|lia|]. intros. nia.
Qed.

(** Close a goal about an operation that ends by normalising. *)
Ltac normalized spec :=
  edestruct spec as (t & Ht & ? & E); cycle 2;
    [exists t; rewrite E; split_and!; [done|lia..|] | ..]; time_unfold; lia.

Lemma timespec_lt_ns t1 t2 :
  0 <= tv_nsec t1 < NSEC_PER_SEC -> 0 <= tv_nsec t2 < NSEC_PER_SEC ->
  timespec_lt t1 t2 = bool_decide (ns_of t1 < ns_of t2).
Proof.
  intros H1 H2. apply eq_true_iff_eq. rewrite bool_decide_eq_true. unfold timespec_lt.
  rewrite orb_true_iff, andb_true_iff, Z.eqb_eq, !Z.ltb_lt. time_unfold. lia.
Qed.

Lemma ns_of_inj t1 t2 :
  0 <= tv_nsec t1 < NSEC_PER_SEC -> 0 <= tv_nsec t2 < NSEC_PER_SEC ->
  ns_of t1 = ns_of t2 -> t1 = t2.
Proof. destruct t1, t2. time_unfold. intros. f_equal; lia. Qed.

(** Operands within 2^62 seconds, as the results of operations on [ts_ok]
    operands are. *)
Definition ts_ok' (t : timespec) : Prop :=
  0 <= tv_nsec t < NSEC_PER_SEC /\ - 2 ^ 62 - 1 <= tv_sec t <= 2 ^ 62 + 1.

Lemma timespec_add_spec t1 t2 :
  ts_ok t1 -> ts_ok t2 ->
  exists t, timespec_add t1 t2 = Ok t /\
    0 <= tv_nsec t < NSEC_PER_SEC /\ ns_of t = ns_of t1 + ns_of t2.
Proof.
  intros H1 H2. unfold timespec_add. long_step. normalized timespec_normalize_spec.
Qed.

Lemma timespec_sub_spec t1 t2 :
  ts_ok' t1 -> ts_ok t2 ->
  exists t, timespec_sub t1 t2 = Ok t /\
    0 <= tv_nsec t < NSEC_PER_SEC /\ ns_of t = ns_of t1 - ns_of t2.
Proof.
  unfold ts_ok'. intros H1 H2. unfold timespec_sub. long_step.
  normalized timespec_normalize_spec.
Qed.

Lemma timespec_add_nsec_spec t1 nsec :
  ts_ok t1 -> - 2 ^ 63 <= nsec < 2 ^ 63 ->
  exists t, timespec_add_nsec t1 nsec = Ok t /\
    0 <= tv_nsec t < NSEC_PER_SEC /\ ns_of t = ns_of t1 + nsec.
Proof.
  intros H Hn. destruct (quot_rem_bounds nsec NSEC_PER_SEC) as (Hq & Hr & Hb); [done|].
  specialize (Hb Hn ltac:(done)).
  unfold timespec_add_nsec. long_step. normalized timespec_normalize_spec.
Qed.

(** ** Properties *)

(** C39: the three timespec operations return, keep their result normalised and
    compute exact nanosecond arithmetic, for normalised operands, any [long]
    count of nanoseconds and seconds within 2^61. *)
Theorem timespec_arithmetic_exact t1 t2 nsec :
  ts_ok t1 -> ts_ok t2 -> - 2 ^ 63 <= nsec < 2 ^ 63 ->
  (exists t, timespec_add_nsec t1 nsec = Ok t /\
     0 <= tv_nsec t < NSEC_PER_SEC /\ ns_of t = ns_of t1 + nsec) /\
  (exists t, timespec_add t1 t2 = Ok t /\
     0 <= tv_nsec t < NSEC_PER_SEC /\ ns_of t = ns_of t1 + ns_of t2) /\
  (exists t, timespec_sub t1 t2 = Ok t /\
     0 <= tv_nsec t < NSEC_PER_SEC /\ ns_of t = ns_of t1 - ns_of t2).
Proof.
  intros H1 H2 Hn. split_and!.
  - by apply timespec_add_nsec_spec.
  - by apply timespec_add_spec.
  - apply timespec_sub_spec; [|done]. split; [apply H1|]. time_unfold. lia.
Qed.

(** Likewise for the four timeval operations, in microseconds. *)
Theorem timeval_arithmetic_exact t1 t2 usec :
  tv_ok t1 -> tv_ok t2 -> - 2 ^ 63 <= usec < 2 ^ 63 ->
  (exists t, timeval_add_usec t1 usec = Ok t /\
     0 <= tvv_usec t < USEC_PER_SEC /\ us_of t = us_of t1 + usec) /\
  (exists t, timeval_sub_usec t1 usec = Ok t /\
     0 <= tvv_usec t < USEC_PER_SEC /\ us_of t = us_of t1 - usec) /\
  (exists t, timeval_add t1 t2 = Ok t /\
     0 <= tvv_usec t < USEC_PER_SEC /\ us_of t = us_of t1 + us_of t2) /\
  (exists t, timeval_sub t1 t2 = Ok t /\
     0 <= tvv_usec t < USEC_PER_SEC /\ us_of t = us_of t1 - us_of t2).
Proof.
  intros H1 H2 Hn.
  destruct (quot_rem_bounds usec USEC_PER_SEC) as (Hq & Hr & Hb); [done|].
  specialize (Hb Hn ltac:(done)).
  split_and!; unfold timeval_add_usec, timeval_sub_usec, timeval_add, timeval_sub; long_step;
    normalized timeval_normalize_spec.
Qed.

(** On normalised structures the six comparison macros are the comparisons
    of the instants, and two structures denote the same instant only when they
    are equal: the representation is canonical. *)
Theorem timespec_comparisons_decide t1 t2 :
  ts_ok t1 -> ts_ok t2 ->
  timespec_lt t1 t2 = bool_decide (ns_of t1 < ns_of t2) /\
  timespec_gt t1 t2 = bool_decide (ns_of t1 > ns_of t2) /\
  timespec_ge t1 t2 = bool_decide (ns_of t1 >= ns_of t2) /\
  timespec_le t1 t2 = bool_decide (ns_of t1 <= ns_of t2) /\
  timespec_eq t1 t2 = bool_decide (t1 = t2) /\
  (ns_of t1 = ns_of t2 -> t1 = t2) /\
  timespec_nz t1 = bool_decide (ns_of t1 <> 0).
Proof.
  intros H1 H2. pose proof (ns_of_inj t1 t2 (proj1 H1) (proj1 H2)) as Hinj.
  pose proof (timespec_lt_ns t1 t2 (proj1 H1) (proj1 H2)) as Hlt.
  pose proof (timespec_lt_ns t2 t1 (proj1 H2) (proj1 H1)) as Hgt.
  unfold timespec_ge, timespec_le, timespec_gt. rewrite Hlt, Hgt, <-!bool_decide_not.
  split_and!; try (apply bool_decide_ext; lia); [|done|].
  - apply eq_true_iff_eq. rewrite bool_decide_eq_true. unfold timespec_eq.
    rewrite andb_true_iff, !Z.eqb_eq. destruct t1, t2; simpl. naive_solver.
  - apply eq_true_iff_eq. rewrite bool_decide_eq_true. unfold timespec_nz.
    rewrite orb_true_iff, !negb_true_iff, !Z.eqb_neq. time_unfold. lia.
Qed.

(** Adding an interval and subtracting it again gives back the very same
    structure, so a timer's remaining time is exact. *)
Theorem timespec_add_sub_roundtrip t d t' :
  ts_ok t -> ts_ok d -> timespec_add t d = Ok t' -> timespec_sub t' d = Ok t.
Proof.
  intros Ht Hd Ha.
  assert (timespec_add t d = Ok t' /\ 0 <= tv_nsec t' < NSEC_PER_SEC /\
          ns_of t' = ns_of t + ns_of d) as (_ & Hn & E).
  { pose proof (timespec_add_spec t d Ht Hd) as (t2 & E2 & ?). rewrite Ha in E2. by simplify_eq. }
  destruct (timespec_sub_spec t' d) as (t2 & -> & Hn2 & E2).
  { split; [done|]. time_unfold. lia. }
  { split; [apply Hd|]. time_unfold. lia. }
  f_equal. apply ns_of_inj; [done | apply Ht | lia].
Qed.

Definition demo_t1 : timespec := mk_timespec 12 700000000.
Definition demo_t2 : timespec := mk_timespec 3 400000000.
Definition demo_v1 : timeval := mk_timeval 12 700000.
Definition demo_v2 : timeval := mk_timeval 3 900000.

Ltac demo_ok := time_unfold; cbn; lia.

Lemma timespec_arithmetic_exact_witness :
  timespec_add demo_t1 demo_t2 = Ok (mk_timespec 16 100000000) /\
  exists t, timespec_add_nsec demo_t1 (- 1300000000) = Ok t /\ ns_of t = 11400000000.
Proof.
  destruct (timespec_arithmetic_exact demo_t1 demo_t2 (- 1300000000)) as ((t & H1 & H2 & H3) & _).
  - demo_ok.
  - demo_ok.
  - lia.
  - split; [vm_compute; reflexivity | exists t; split; [exact H1 | rewrite H3; vm_compute; reflexivity]].
Defined.

Lemma timeval_arithmetic_exact_witness :
  exists t, timeval_sub demo_v1 demo_v2 = Ok t /\ us_of t = 8800000.
Proof.
  destruct (timeval_arithmetic_exact demo_v1 demo_v2 0) as (_ & _ & _ & (t & H1 & H2 & H3)).
  - demo_ok.
  - demo_ok.
  - lia.
  - exists t. split; [exact H1 | rewrite H3; vm_compute; reflexivity].
Defined.

Lemma timespec_comparisons_decide_witness :
  timespec_lt demo_t2 demo_t1 = true /\ timespec_le demo_t1 demo_t2 = false.
Proof.
  destruct (timespec_comparisons_decide demo_t2 demo_t1) as (H1 & _); [demo_ok..|].
  split; [rewrite H1; vm_compute; reflexivity | vm_compute; reflexivity].
Defined.

Lemma timespec_add_sub_roundtrip_witness :
  timespec_sub (mk_timespec 16 100000000) demo_t2 = Ok demo_t1.
Proof.
  apply (timespec_add_sub_roundtrip demo_t1 demo_t2);
    [demo_ok | demo_ok | vm_compute; reflexivity].
Defined.
