(* ===== verification/HeapSpec.v ===== *)
(** Reference functions for the two heap loops, on the sequence of a heap's
    items, and what they do to the heap order. *)
From S2P Require Import Prelude.
#[local] Open Scope nat_scope.

Definition parent (i : nat) : nat := (i - 1) / 2.

Lemma parent_spec i j : 0 < i -> (parent i = j <-> i = 2 * j + 1 \/ i = 2 * j + 2).
Proof.
  intros Hi. unfold parent. pose proof (Nat.div_mod_eq (i - 1) 2).
  pose proof (Nat.mod_upper_bound (i - 1) 2). lia.
Qed.
Lemma parent_lt i : 0 < i -> parent i < i.
Proof. intros Hi. pose proof (proj1 (parent_spec i (parent i) Hi) eq_refl). lia. Qed.

Section Sift.
Context {A : Type} (lt : A -> A -> bool).

(** Exchange two cells; no change when either is out of range. *)
Definition swap (xs : list A) (i j : nat) : list A :=
  match xs !! i, xs !! j with
  | Some a, Some b => <[i := b]> (<[j := a]> xs)
  | _, _ => xs
  end.

(** [lt] of the items at two positions; false out of range. *)
Definition lt_at (xs : list A) (i j : nat) : bool :=
  match xs !! i, xs !! j with
  | Some a, Some b => lt a b
  | _, _ => false
  end.

(** The child that replaces position [i], or [i] itself. *)
Definition smallest_of (xs : list A) (i : nat) : nat :=
  let l := 2 * i + 1 in
  let s := if lt_at xs l i then l else i in
  if lt_at xs (l + 1) s then l + 1 else s.

Fixpoint sift_down (fuel : nat) (xs : list A) (i : nat) : list A :=
  match fuel with
  | 0 => xs
  | S fuel =>
      let s := smallest_of xs i in
      if s =? i then xs else sift_down fuel (swap xs i s) s
  end.

Fixpoint sift_up (fuel : nat) (xs : list A) (i : nat) : list A :=
  match fuel with
  | 0 => xs
  | S fuel =>
      if (0 <? i) && lt_at xs (parent i) i
      then sift_up fuel (swap xs i (parent i)) (parent i)
      else xs
  end.

Lemma swap_Permutation xs i j : swap xs i j ≡ₚ xs.
Proof.
  unfold swap. destruct (xs !! i) eqn:Hi, (xs !! j) eqn:Hj; try done.
  by apply Permutation_insert_swap.
Qed.

Lemma swap_lookup xs i j k :
  i < length xs -> j < length xs ->
  swap xs i j !! k = if decide (k = i) then xs !! j
                     else if decide (k = j) then xs !! i else xs !! k.
Proof.
  intros [a Ha]%lookup_lt_is_Some [b Hb]%lookup_lt_is_Some. unfold swap. rewrite Ha, Hb.
  pose proof (lookup_lt_Some _ _ _ Ha). pose proof (lookup_lt_Some _ _ _ Hb).
  case_decide as Hki; [subst|].
  - rewrite list_lookup_insert_eq by (by rewrite length_insert). done.
  - rewrite list_lookup_insert_ne by done. case_decide; [subst|].
    + by rewrite list_lookup_insert_eq.
    + by rewrite list_lookup_insert_ne.
Qed.

Lemma length_swap xs i j : length (swap xs i j) = length xs.
Proof. apply Permutation_length, swap_Permutation. Qed.

Lemma sift_down_Permutation fuel xs i : sift_down fuel xs i ≡ₚ xs.
Proof.
  revert xs i. induction fuel as [|fuel IH]; intros xs i; simpl; [done|].
  case_match; [done|]. by rewrite IH, swap_Permutation.
Qed.

Lemma sift_up_Permutation fuel xs i : sift_up fuel xs i ≡ₚ xs.
Proof.
  revert xs i. induction fuel as [|fuel IH]; intros xs i; simpl; [done|].
  case_match; [|done]. by rewrite IH, swap_Permutation.
Qed.

Lemma lt_at_true xs i j :
  lt_at xs i j = true ->
  exists a b, xs !! i = Some a /\ xs !! j = Some b /\ lt a b = true.
Proof. unfold lt_at. intros. repeat case_match; naive_solver. Qed.

Lemma lt_at_lookup xs i j a b :
  xs !! i = Some a -> xs !! j = Some b -> lt_at xs i j = lt a b.
Proof. intros Hi Hj. unfold lt_at. by rewrite Hi, Hj. Qed.

Lemma smallest_of_range xs i :
  smallest_of xs i = i \/ i < smallest_of xs i < length xs.
Proof.
  unfold smallest_of.
  destruct (lt_at xs (2 * i + 1) i) eqn:Hl; case_match eqn:Hr;
    try apply lt_at_true in Hl as (? & ? & Hl%lookup_lt_Some & _);
    try apply lt_at_true in Hr as (? & ? & Hr%lookup_lt_Some & _); lia.
Qed.
End Sift.

(** The loops depend on the comparison only through its values. *)
Section Ext.
Context {A : Type} (lt lt' : A -> A -> bool) (Hlt : forall a b, lt a b = lt' a b).

Lemma lt_at_ext xs i j : lt_at lt xs i j = lt_at lt' xs i j.
Proof. unfold lt_at. by destruct (xs !! i), (xs !! j). Qed.

Lemma smallest_of_ext xs i : smallest_of lt xs i = smallest_of lt' xs i.
Proof. unfold smallest_of. by rewrite !lt_at_ext. Qed.

Lemma sift_down_ext fuel xs i : sift_down lt fuel xs i = sift_down lt' fuel xs i.
Proof.
  revert xs i. induction fuel as [|fuel IH]; intros xs i; simpl; [done|].
  rewrite smallest_of_ext. by case_match.
Qed.

Lemma sift_up_ext fuel xs i : sift_up lt fuel xs i = sift_up lt' fuel xs i.
Proof.
  revert xs i. induction fuel as [|fuel IH]; intros xs i; simpl; [done|].
  rewrite lt_at_ext. by case_match.
Qed.
End Ext.

(** ** The heap order *)
Definition ordered {A} (R : A -> A -> Prop) (xs : list A) : Prop :=
  forall i p c, 0 < i -> xs !! i = Some c -> xs !! parent i = Some p -> R p c.

(** No item before its parent, and no item after it. *)
Definition min_heap {A} (lt : A -> A -> bool) : list A -> Prop :=
  ordered (λ p c, lt c p = false).
Definition max_heap {A} (lt : A -> A -> bool) : list A -> Prop :=
  ordered (λ p c, lt p c = false).

(** A strict weak order, as [timespec_lt] is. *)
Class StrictWeak {A} (lt : A -> A -> bool) : Prop := {
  sw_asym a b : lt a b = true -> lt b a = false;
  sw_ntrans a b c : lt a b = false -> lt b c = false -> lt a c = false;
}.

Section Order.
Context {A : Type} (lt : A -> A -> bool) `{!StrictWeak lt}.

Lemma sw_irrefl a : lt a a = false.
Proof. destruct (lt a a) eqn:E; [|done]. by rewrite (sw_asym a a E) in E. Qed.

Lemma sw_trans a b c : lt a b = true -> lt b c = true -> lt a c = true.
Proof.
  intros Hab Hbc. destruct (lt a c) eqn:Hac; [done|].
  by rewrite (sw_ntrans _ _ _ Hac (sw_asym _ _ Hbc)) in Hab.
Qed.

Lemma smallest_of_spec xs i x :
  xs !! i = Some x ->
  let s := smallest_of lt xs i in
  (s = i /\ forall j c, 0 < j -> parent j = i -> xs !! j = Some c -> lt c x = false) \/
  exists m, 0 < s /\ parent s = i /\ xs !! s = Some m /\ lt m x = true /\
    forall j c, 0 < j -> parent j = i -> xs !! j = Some c -> lt c m = false.
Proof.
  intros Hx s. subst s. unfold smallest_of.
  assert (forall j, 0 < j -> parent j = i -> j = 2 * i + 1 \/ j = 2 * i + 1 + 1) as Hpar.
  { intros j Hj Hp. apply parent_spec in Hp; lia. }
  destruct (lt_at lt xs (2 * i + 1) i) eqn:Hl.
  - apply lt_at_true in Hl as (l & x' & Hl & Hx' & Hlx). simplify_eq.
    destruct (lt_at lt xs (2 * i + 1 + 1) (2 * i + 1)) eqn:Hr; right.
    + apply lt_at_true in Hr as (r & l' & Hr & Hl' & Hrl). simplify_eq.
      exists r. split_and!; [lia|apply parent_spec; lia|done|by eapply sw_trans|].
      intros j c Hj [-> | ->]%(Hpar _ Hj) Hc; simplify_eq; auto using sw_asym, sw_irrefl.
    + exists l. split_and!; [lia|apply parent_spec; lia|done|done|].
      intros j c Hj [-> | ->]%(Hpar _ Hj) Hc; simplify_eq; [apply sw_irrefl|].
      by rewrite (lt_at_lookup _ _ _ _ _ _ Hc Hl) in Hr.
  - destruct (lt_at lt xs (2 * i + 1 + 1) i) eqn:Hr; [right|left; split; [done|]].
    + apply lt_at_true in Hr as (r & x' & Hr & Hx' & Hrx). simplify_eq.
      exists r. split_and!; [lia|apply parent_spec; lia|done|done|].
      intros j c Hj [-> | ->]%(Hpar _ Hj) Hc; simplify_eq; [|apply sw_irrefl].
      rewrite (lt_at_lookup _ _ _ _ _ _ Hc Hx) in Hl.
      eapply sw_ntrans; [done|]. by apply sw_asym.
    + intros j c Hj [-> | ->]%(Hpar _ Hj) Hc.
      * by rewrite (lt_at_lookup _ _ _ _ _ _ Hc Hx) in Hl.
      * by rewrite (lt_at_lookup _ _ _ _ _ _ Hc Hx) in Hr.
Qed.

Lemma smallest_of_stay xs i x :
  xs !! i = Some x ->
  (forall j c, 0 < j -> parent j = i -> xs !! j = Some c -> lt c x = false) ->
  smallest_of lt xs i = i.
Proof.
  intros Hx Hch.
  destruct (smallest_of_spec xs i x Hx) as [[? _]|(m & Hs & Hp & Hm & Hlt & _)]; [done|].
  by rewrite (Hch _ _ Hs Hp Hm) in Hlt.
Qed.

(** Sinking restores a min-heap that fails only below [i]. *)
Lemma sift_down_min_heap fuel xs i :
  length xs < fuel + i -> 
  (forall j p c, 0 < j -> parent j <> i -> xs !! j = Some c -> xs !! parent j = Some p ->
     lt c p = false) ->
  (forall j g c, 0 < i -> 0 < j -> parent j = i -> xs !! j = Some c ->
     xs !! parent i = Some g -> lt c g = false) ->
  min_heap lt (sift_down lt fuel xs i).
Proof.
  revert xs i. induction fuel as [|fuel IH]; intros xs i Hfuel Hout Hgrand; simpl.
  - intros j p c Hj Hc Hp. apply (Hout j p c Hj); [|done..].
    apply lookup_lt_Some in Hp. lia.
  - destruct (xs !! i) as [x|] eqn:Hx; cycle 1.
    { assert (smallest_of lt xs i = i) as ->.
      { apply lookup_ge_None in Hx. destruct (smallest_of_range lt xs i); lia. }
      rewrite Nat.eqb_refl. intros j p c Hj Hc Hp. apply (Hout j p c Hj); congruence. }
    destruct (smallest_of_spec xs i x Hx) as [[-> Hch]|(m & Hs & Hps & Hm & Hmx & Hch)].
    { rewrite Nat.eqb_refl. intros j p c Hj Hc Hp.
      destruct (decide (parent j = i)) as [E|]; [|eauto]. rewrite E in Hp.
      simplify_eq. eauto. }
    pose proof (lookup_lt_Some _ _ _ Hx) as Hil. pose proof (lookup_lt_Some _ _ _ Hm) as Hsl.
    pose proof (parent_lt _ Hs) as Hlt. rewrite Hps in Hlt.
    set (s := smallest_of lt xs i) in *.
    destruct (Nat.eqb_spec s i); [lia|].
    apply IH.
    + rewrite length_swap. lia.
    + intros j p c Hj Hpj. rewrite !swap_lookup by done.
      destruct (decide (j = i)) as [->|Hji]; [|destruct (decide (j = s)) as [->|Hjs]].
      * rewrite (decide_False (P := parent i = i)) by (pose proof (parent_lt i Hj); lia).
        rewrite decide_False by done. intros Hc Hp. simplify_eq. eauto.
      * rewrite decide_True by done. intros Hc Hp. simplify_eq. by apply sw_asym.
      * destruct (decide (parent j = i)); [|rewrite decide_False by done; eauto].
        intros Hc Hp. simplify_eq. eauto.
    + intros j g c _ Hj Hpj. rewrite !swap_lookup by done. rewrite Hps.
      rewrite (decide_True (P := i = i)) by done.
      pose proof (parent_lt j Hj).
      rewrite !decide_False by lia. intros Hc Hg. simplify_eq.
      apply (Hout j); [done|lia|done|by rewrite Hpj].
Qed.

(** Raising restores a max-heap that fails only at [i]. *)
Lemma sift_up_max_heap fuel xs i :
  i < fuel -> i < length xs ->
  (forall j p c, 0 < j -> j <> i -> xs !! j = Some c -> xs !! parent j = Some p ->
     lt p c = false) ->
  (forall j g c, 0 < i -> 0 < j -> parent j = i -> xs !! j = Some c ->
     xs !! parent i = Some g -> lt g c = false) ->
  max_heap lt (sift_up lt fuel xs i).
Proof.
  revert xs i. induction fuel as [|fuel IH]; intros xs i Hfuel Hil Hout Hgrand; [lia|].
  cbn [sift_up]. destruct (Nat.ltb_spec 0 i) as [Hi|]; cycle 1.
  { intros j p c Hj Hc Hp. apply (Hout j); [done|lia|done|done]. }
  destruct (lt_at lt xs (parent i) i) eqn:Hlt; cbn [andb]; cycle 1.
  { intros j p c Hj Hc Hp. destruct (decide (j = i)) as [->|]; [|eauto].
    by rewrite (lt_at_lookup _ _ _ _ _ _ Hp Hc) in Hlt. }
  apply lt_at_true in Hlt as (p & x & Hp & Hx & Hpx).
  pose proof (parent_lt i Hi) as Hpi. remember (parent i) as q eqn:Eq.
  assert (q < length xs) by lia.
  apply IH; [lia|by rewrite length_swap| |].
  - intros j p' c Hj Hjq. rewrite !swap_lookup by done.
    destruct (decide (j = i)) as [->|Hji].
    + rewrite <-Eq, decide_False by lia. rewrite decide_True by done.
      intros. simplify_eq. by apply sw_asym.
    + rewrite decide_False by done.
      destruct (decide (parent j = i)); [intros; simplify_eq; eauto|].
      destruct (decide (parent j = q)) as [E|]; [|eauto].
      intros Hc Hp'. simplify_eq. eapply sw_ntrans; [by apply sw_asym|].
      eapply (Hout j); [done..|by rewrite E].
  - intros j g c Hq Hj Hpj. rewrite !swap_lookup by done.
    pose proof (parent_lt q Hq).
    rewrite (decide_False (P := parent q = i)) by lia.
    rewrite (decide_False (P := parent q = q)) by lia.
    intros Hc Hg. destruct (decide (j = i)) as [->|Hji].
    + simplify_eq. apply (Hout (parent i)); [done|lia|done|done].
    + rewrite decide_False in Hc by (intros ->; lia).
      eapply sw_ntrans; [by apply (Hout q g p); [done|lia|..]|].
      apply (Hout j); [done..|by rewrite Hpj].
Qed.

Lemma min_heap_root xs x : min_heap lt (x :: xs) -> Forall (λ y, lt y x = false) (x :: xs).
Proof.
  intros Hord. apply Forall_lookup. intros i.
  induction i as [i IH] using lt_wf_ind. intros y Hy.
  destruct (decide (i = 0)) as [->|Hi]; simpl in *; [simplify_eq; apply sw_irrefl|].
  assert (parent i < length (x :: xs)) as [p Hp]%lookup_lt_is_Some.
  { pose proof (parent_lt i ltac:(lia)). apply lookup_lt_Some in Hy. lia. }
  eapply sw_ntrans; [eapply Hord; [|done|done]; lia|].
  eapply IH; [|done]. apply parent_lt. lia.
Qed.
End Order.

#[export] Instance strict_weak_flip {A} (lt : A -> A -> bool) :
  StrictWeak lt -> StrictWeak (flip lt).
Proof.
  intros [Has Hnt]. split; unfold flip; [eauto|]. intros a b c H1 H2. by eapply Hnt.
Qed.

Lemma max_heap_root {A} (lt : A -> A -> bool) `{!StrictWeak lt} xs x :
  max_heap lt (x :: xs) -> Forall (λ y, lt x y = false) (x :: xs).
Proof. apply (min_heap_root (flip lt)). Qed.

(** ** Adding and removing an item *)
Section Items.
Context {A : Type} (lt : A -> A -> bool) `{!StrictWeak lt}.

(** The sequence in which the last item has taken the place of the [i]-th. *)
Definition replaced (xs : list A) (i : nat) : list A :=
  match last xs with
  | Some l => <[i := l]> (take (length xs - 1) xs)
  | None => []
  end.

Lemma replaced_Permutation (xs : list A) i x : xs !! i = Some x -> x :: replaced xs i ≡ₚ xs.
Proof.
  intros Hx. unfold replaced. destruct xs as [|l xs _] using rev_ind; [done|].
  rewrite last_snoc, length_app. simpl. rewrite Nat.add_sub, take_app_length.
  apply lookup_app_Some in Hx as [Hx|[? Hx]].
  - pose proof (Permutation_insert_swap (xs ++ [l]) i (length xs) x l) as Hp.
    pose proof (lookup_lt_Some _ _ _ Hx).
    rewrite insert_app_l in Hp by done.
    rewrite insert_app_r_alt in Hp by (rewrite length_insert; lia).
    rewrite length_insert, Nat.sub_diag in Hp. simpl in Hp. rewrite <-Hp.
    + by rewrite Permutation_app_comm.
    + by apply lookup_app_l_Some.
    + by rewrite lookup_app_r, Nat.sub_diag.
  - apply list_lookup_singleton_Some in Hx as [? ->].
    rewrite list_insert_ge by lia. by rewrite Permutation_app_comm.
Qed.

Lemma length_replaced (xs : list A) i : length (replaced xs i) = length xs - 1.
Proof.
  unfold replaced. destruct xs as [|l xs _] using rev_ind; [done|].
  rewrite last_snoc, length_insert, length_take, length_app. simpl. lia.
Qed.

Lemma replaced_lookup_ne (xs : list A) i j y :
  j <> i -> replaced xs i !! j = Some y -> xs !! j = Some y.
Proof.
  unfold replaced. case_match; [|done]. intros Hj.
  rewrite list_lookup_insert_ne by done. intros Hy. by apply lookup_take_Some in Hy as [? _].
Qed.

Lemma replaced_lookup_eq (xs : list A) i y :
  replaced xs i !! i = Some y -> last xs = Some y.
Proof.
  unfold replaced. case_match; [|done].
  rewrite list_lookup_insert. case_decide as Hi; [congruence|].
  intros Hy%lookup_lt_Some. rewrite length_take in *. naive_solver lia.
Qed.

(** Removal at [i] keeps a min-heap when the last item is not before the
    parent of [i] - always so at the root. *)
Lemma remove_min_heap (xs : list A) i :
  min_heap lt xs ->
  (forall g l, 0 < i -> xs !! parent i = Some g -> last xs = Some l -> lt l g = false) ->
  min_heap lt (sift_down lt (length xs) (replaced xs i) i).
Proof.
  intros Hmin Hlast. destruct xs as [|x0 xs0] eqn:Exs.
  { by intros j p c Hj Hc. }
  rewrite <-Exs in *. assert (0 < length xs) by (subst; simpl; lia).
  apply sift_down_min_heap; [done|rewrite length_replaced; lia| |].
  - intros j p c Hj Hpj Hc Hp. apply replaced_lookup_ne in Hp; [|done].
    destruct (decide (j = i)) as [->|].
    + apply replaced_lookup_eq in Hc. by eapply Hlast.
    + apply replaced_lookup_ne in Hc; [|done]. by eapply Hmin.
  - intros j g c Hi Hj Hpj Hc Hg. pose proof (parent_lt i Hi). pose proof (parent_lt j Hj).
    apply replaced_lookup_ne in Hg; [|lia]. apply replaced_lookup_ne in Hc; [|lia].
    destruct (lookup_lt_is_Some_2 xs i) as [m Hm]; [apply lookup_lt_Some in Hc; lia|].
    eapply sw_ntrans; [eapply (Hmin j m c)|eapply (Hmin i g m)]; try done. by rewrite Hpj.
Qed.

(** Adding an item at the end and raising it keeps a max-heap. *)
Lemma insert_max_heap (xs : list A) x :
  max_heap lt xs ->
  max_heap lt (sift_up lt (S (length xs)) (xs ++ [x]) (length xs)).
Proof.
  intros Hmax. apply sift_up_max_heap; [done|lia|rewrite length_app; simpl; lia| |].
  - intros j p c Hj Hne Hc Hp. assert (j < length xs).
    { apply lookup_lt_Some in Hc. rewrite length_app in Hc. simpl in Hc. lia. }
    pose proof (parent_lt j Hj).
    rewrite lookup_app_l in Hc, Hp by lia. by eapply Hmax.
  - intros j g c _ Hj Hpj Hc. pose proof (parent_lt j Hj).
    apply lookup_lt_Some in Hc. rewrite length_app in Hc. simpl in Hc. lia.
Qed.
End Items.
