(* ===== verification/Heap.v ===== *)
(** Binary heaps of embedded items (src/heap.c, include/ckit/heap.h).

    The heap stores pointers to [struct heapitem]s embedded in client objects
    of type [O]; [HeapItem O] is what a client promises about the embedding.
    The array [map] is a block of [max_size] cells, indeterminate until they
    are assigned. The file first proves the two loops against pure reference
    functions on the sequence of pointers ([sift_down], [sift_up]), then the
    operations against what the heap contains. *)
From S2P Require Import Prelude Malloc HeapSpec.

(** ** Data *)
Record heapitem := mk_item { index : Z; active : Z }.

Class HeapItem (O : Type) := {
  hi : O -> heapitem;
  set_hi : heapitem -> O -> O;
  hi_set_hi i o : hi (set_hi i o) = i;
  set_hi_set_hi i j o : set_hi i (set_hi j o) = set_hi i o;
  set_hi_hi o : set_hi (hi o) o = o;
}.

Record heap (O : Type) := mk_heap {
  max_size : Z;
  size : Z;
  cmp : O -> O -> bool;
  map_ptr : addr;
  map : list (option addr);
}.
Arguments mk_heap {O}.
Arguments max_size {O}.
Arguments size {O}.
Arguments cmp {O}.
Arguments map_ptr {O}.
Arguments map {O}.

(** The heap, the objects it points to and the allocator. *)
Record hstate (O A : Type) := mk_hstate {
  hp : heap O;
  objs : gmap addr O;
  arena_of : A;
}.
Arguments mk_hstate {O A}.
Arguments hp {O A}.
Arguments objs {O A}.
Arguments arena_of {O A}.

Definition HEAP_DEFAULT_SIZE : Z := 200.
Definition HEAP_DEFAULT_INCREASE_SIZE : Z := 100.
Definition sizeof_ptr : Z := 8.

(** ** Operations *)
Section Ops.
Context {O A : Type} `{HeapItem O} `{Allocator A}.
Abbreviation HM := (M (hstate O A)).

Definition set_hp (h : heap O) (s : hstate O A) : hstate O A :=
  mk_hstate h (objs s) (arena_of s).
Definition set_objs (os : gmap addr O) (s : hstate O A) : hstate O A :=
  mk_hstate (hp s) os (arena_of s).
Definition set_arena (a : A) (s : hstate O A) : hstate O A :=
  mk_hstate (hp s) (objs s) a.

Definition with_map (m : list (option addr)) (h : heap O) : heap O :=
  mk_heap (max_size h) (size h) (cmp h) (map_ptr h) m.
Definition with_size (n : Z) (h : heap O) : heap O :=
  mk_heap (max_size h) n (cmp h) (map_ptr h) (map h).

(** [h->map[i]] as a value and as a target; an index outside the block, or
    an indeterminate cell, faults. *)
Definition map_get (i : Z) : HM addr := fun s =>
  match map (hp s) !! Z.to_nat i with
  | Some (Some p) => Ok (p, s)
  | _ => Fault
  end.
Definition map_set (i : Z) (p : addr) : HM unit := fun s =>
  if decide (Z.to_nat i < length (map (hp s)))%nat
  then Ok (tt, set_hp (with_map (<[Z.to_nat i := Some p]> (map (hp s))) (hp s)) s)
  else Fault.

Definition set_index (p : addr) (i : Z) : HM unit :=
  zoom objs set_objs (update p (fun o => set_hi (mk_item i (active (hi o))) o)).
Definition set_active (p : addr) (v : Z) : HM unit :=
  zoom objs set_objs (update p (fun o => set_hi (mk_item (index (hi o)) v) o)).

(** [h->cmp(p, q)]. *)
Definition call_cmp (p q : addr) : HM bool :=
  x ← zoom objs set_objs (load p);
  y ← zoom objs set_objs (load q);
  h ← gets hp;
  mret (cmp h x y).

Definition heap_init (max_sz : Z) (c : O -> O -> bool) : HM Z :=
  let max_sz := if max_sz =? 0 then HEAP_DEFAULT_SIZE else max_sz in
  p ← zoom arena_of set_arena (malloc (u64 (sizeof_ptr * max_sz)));
  modify (set_hp (mk_heap max_sz 0 c p
    (if p =? NULL then [] else replicate (Z.to_nat max_sz) None)));;
  mret (if p =? NULL then -1 else 0).

Definition heap_fini : HM unit :=
  h ← gets hp;
  zoom arena_of set_arena (free (map_ptr h)).

Definition heap_empty : HM bool := h ← gets hp; mret (size h =? 0).
Definition heap_full : HM bool := h ← gets hp; mret (max_size h <=? size h).
Definition heap_front : HM addr := map_get 0.
Definition heap_size : HM Z := h ← gets hp; mret (size h).

(** The exchange in [heap_heapify]. *)
Definition heap_exchange (i smallest : Z) : HM unit :=
  tmp ← map_get smallest;
  x ← map_get i;
  map_set smallest x;;
  x ← map_get smallest;
  set_index x smallest;;
  map_set i tmp;;
  x ← map_get i;
  set_index x i.

Fixpoint heap_heapify (fuel : nat) (i : Z) : HM unit :=
  match fuel with
  | 0%nat => out_of_fuel
  | S fuel =>
      let l := u32 (u32 (2 * i) + 1) in
      let r := u32 (l + 1) in
      h ← gets hp;
      b ← (if l <? size h
           then pl ← map_get l; pi ← map_get i; call_cmp pl pi
           else mret false);
      let smallest := if (b : bool) then l else i in
      b ← (if r <? size h
           then pr ← map_get r; ps ← map_get smallest; call_cmp pr ps
           else mret false);
      let smallest := if (b : bool) then r else smallest in
      if smallest =? i then mret tt
      else heap_exchange i smallest;; heap_heapify fuel smallest
  end.

(** The new block holds [u32 (max_size + increase)] pointers; [memcpy] of
    [size] pointers into a smaller block faults. *)
Definition heap_increase_size (increase_size : Z) : HM Z :=
  h ← gets hp;
  let n := u32 (max_size h + increase_size) in
  p ← zoom arena_of set_arena (malloc (u64 (n * sizeof_ptr)));
  if p =? NULL then mret (-1)
  else if n <? size h then fault
  else
    zoom arena_of set_arena (free (map_ptr h));;
    modify (set_hp (mk_heap n (size h) (cmp h) p
      (take (Z.to_nat (size h)) (map h) ++
       replicate (Z.to_nat n - Z.to_nat (size h)) None)));;
    mret 0.

(** [while ((i > 0) && h->cmp(h->map[parent], item))]; returns the final [i]. *)
Fixpoint heap_insert_loop (fuel : nat) (i parent : Z) (item : addr) : HM Z :=
  match fuel with
  | 0%nat => out_of_fuel
  | S fuel =>
      b ← (if 0 <? i then p ← map_get parent; call_cmp p item else mret false);
      if (b : bool) then
        p ← map_get parent;
        map_set i p;;
        p ← map_get i;
        set_index p i;;
        heap_insert_loop fuel parent (u32 (parent - 1) / 2) item
      else mret i
  end.

Definition heap_insert_at (item : addr) : HM Z :=
  h ← gets hp;
  let i := size h in
  i ← heap_insert_loop (S (Z.to_nat i)) i (u32 (i - 1) / 2) item;
  map_set i item;;
  set_index item i;;
  h ← gets hp;
  modify (set_hp (with_size (u32 (size h + 1)) h));;
  set_active item 1;;
  mret 0.

Definition heap_insert (item : addr) : HM Z :=
  full ← heap_full;
  if (full : bool) then
    e ← heap_increase_size HEAP_DEFAULT_INCREASE_SIZE;
    if e =? 0 then heap_insert_at item else mret (-1)
  else heap_insert_at item.

Definition heap_remove (idx : Z) : HM addr :=
  h ← gets hp;
  if size h <=? idx then mret NULL
  else
    item ← map_get idx;
    let sz := u32 (size h - 1) in
    modify (set_hp (with_size sz h));;
    lst ← map_get sz;
    map_set idx lst;;
    heap_heapify (S (Z.to_nat sz)) idx;;
    set_index item 0;;
    set_active item 0;;
    mret item.

Definition heap_remove_first : HM addr := heap_remove 0.
End Ops.

(** ** What the store represents *)
Definition index_of {O} `{HeapItem O} (os : gmap addr O) (p : addr) : option Z :=
  (λ o, index (hi o)) <$> os !! p.
Definition active_of {O} `{HeapItem O} (os : gmap addr O) (p : addr) : option Z :=
  (λ o, active (hi o)) <$> os !! p.

(** A comparison that reads the client's fields, not the embedded item. *)
Class CmpOk {O} `{HeapItem O} (c : O -> O -> bool) : Prop :=
  cmp_ok i j x y : c (set_hi i x) (set_hi j y) = c x y.

(** The comparison of two pointers; an address without an object, which the
    code never compares, comes before all others. *)
Definition item_lt {O} (c : O -> O -> bool) (os : gmap addr O) (p q : addr) : bool :=
  match os !! p, os !! q with
  | Some x, Some y => c x y
  | None, Some _ => true
  | _, None => false
  end.

#[export] Instance item_lt_strict {O} (c : O -> O -> bool) os :
  StrictWeak c -> StrictWeak (item_lt c os).
Proof.
  intros [Has Hnt]. split; unfold item_lt.
  - intros p q. repeat case_match; naive_solver.
  - intros p q r. repeat case_match; naive_solver.
Qed.

Section Payload.
Context {O : Type} `{HeapItem O}.

(** Stores that differ only in the embedded items: the heap's moves keep the
    client's fields. *)
Definition payload_eq (os os' : gmap addr O) : Prop :=
  forall p, set_hi (mk_item 0 0) <$> os !! p = set_hi (mk_item 0 0) <$> os' !! p.

#[export] Instance payload_equiv : Equivalence payload_eq.
Proof. unfold payload_eq. split; intros ?; intros; congruence. Qed.

(** The store after [p]'s item has been given the position [i]. *)
Definition restamp (p : addr) (i : Z) (os : gmap addr O) : gmap addr O :=
  alter (fun o => set_hi (mk_item i (active (hi o))) o) p os.

Lemma payload_eq_alter os p f :
  (forall o, exists i, f o = set_hi i o) -> payload_eq os (alter f p os).
Proof.
  intros Hf q. rewrite lookup_alter. case_decide; [|done]. subst.
  destruct (os !! q) as [o|]; [|done]. simpl. destruct (Hf o) as [i ->].
  by rewrite set_hi_set_hi.
Qed.

Lemma payload_eq_restamp os p i : payload_eq os (restamp p i os).
Proof. apply payload_eq_alter. eauto. Qed.

#[export] Instance item_lt_proper c `{!CmpOk c} :
  Proper (payload_eq ==> eq ==> eq ==> eq) (item_lt c).
Proof.
  intros os os' Hos p _ <- q _ <-. unfold item_lt.
  pose proof (Hos p) as Hp. pose proof (Hos q) as Hq.
  destruct (os !! p) as [x|], (os' !! p) as [x'|]; try done;
    destruct (os !! q) as [y|], (os' !! q) as [y'|]; try done; simpl in *.
  injection Hp as Hp. injection Hq as Hq.
  by rewrite <-(cmp_ok (mk_item 0 0) (mk_item 0 0) x y), Hp, Hq, cmp_ok.
Qed.

Lemma payload_eq_dom os os' p : payload_eq os os' -> is_Some (os !! p) -> is_Some (os' !! p).
Proof. intros Hos [x Hx]. specialize (Hos p). rewrite Hx in Hos. destruct (os' !! p); naive_solver. Qed.

Lemma index_of_restamp os p i q :
  is_Some (os !! p) ->
  index_of (restamp p i os) q = if decide (p = q) then Some i else index_of os q.
Proof.
  intros [o Hp]. unfold index_of, restamp. rewrite lookup_alter. case_decide; [|done].
  subst. rewrite Hp. simpl. by rewrite hi_set_hi.
Qed.

Lemma active_of_restamp os p i q : active_of (restamp p i os) q = active_of os q.
Proof.
  unfold active_of, restamp. rewrite lookup_alter. case_decide; [|done].
  subst. destruct (os !! q); simpl; [|done]. by rewrite hi_set_hi.
Qed.

Lemma restamp_ne os p i q : q <> p -> restamp p i os !! q = os !! q.
Proof. intros. by apply lookup_alter_ne. Qed.

Lemma restamp_is_Some os p i q : is_Some (restamp p i os !! q) <-> is_Some (os !! q).
Proof.
  unfold restamp. rewrite lookup_alter. case_decide; [|done]. subst.
  by rewrite fmap_is_Some.
Qed.

(** The store after [p]'s item has been marked linked in or not. *)
Definition mark (p : addr) (v : Z) (os : gmap addr O) : gmap addr O :=
  alter (fun o => set_hi (mk_item (index (hi o)) v) o) p os.

Lemma payload_eq_mark os p i : payload_eq os (mark p i os).
Proof. apply payload_eq_alter. eauto. Qed.

Lemma active_of_mark os p v q :
  is_Some (os !! p) ->
  active_of (mark p v os) q = if decide (p = q) then Some v else active_of os q.
Proof.
  intros [o Hp]. unfold active_of, mark. rewrite lookup_alter. case_decide; [|done].
  subst. rewrite Hp. simpl. by rewrite hi_set_hi.
Qed.

Lemma index_of_mark os p v q : index_of (mark p v os) q = index_of os q.
Proof.
  unfold index_of, mark. rewrite lookup_alter. case_decide; [|done].
  subst. destruct (os !! q); simpl; [|done]. by rewrite hi_set_hi.
Qed.

Lemma mark_ne os p v q : q <> p -> mark p v os !! q = os !! q.
Proof. intros. by apply lookup_alter_ne. Qed.

Lemma mark_is_Some os p v q : is_Some (mark p v os !! q) <-> is_Some (os !! q).
Proof.
  unfold mark. rewrite lookup_alter. case_decide; [|done]. subst.
  by rewrite fmap_is_Some.
Qed.
End Payload.

Section Rep.
Context {O A : Type} `{HeapItem O} `{Allocator A}.
Implicit Types s : hstate O A.

(** The first [length xs] cells of the array point to the objects [xs]. *)
Record cells (s : hstate O A) (xs : list addr) : Prop := {
  c_size : size (hp s) = Z.of_nat (length xs);
  c_map i x : xs !! i = Some x -> map (hp s) !! i = Some (Some x);
  c_objs x : x ∈ xs -> is_Some (objs s !! x);
  c_nodup : NoDup xs;
  c_small : Z.of_nat (length xs) < 2 ^ 31 - 1;
}.

(** The item at position [k] knows its position. *)
Definition index_at (os : gmap addr O) (xs : list addr) (k : nat) : Prop :=
  forall x, xs !! k = Some x -> index_of os x = Some (Z.of_nat k).

(** The item [y] knows its position, if it has one. *)
Definition knows (os : gmap addr O) (xs : list addr) (y : addr) : Prop :=
  forall k, xs !! k = Some y -> index_of os y = Some (Z.of_nat k).

(** What moving items of [xs] about leaves alone. *)
Record moved (xs : list addr) (s s' : hstate O A) : Prop := {
  mv_hp : hp s' = with_map (map (hp s')) (hp s);
  mv_len : length (map (hp s')) = length (map (hp s));
  mv_arena : arena_of s' = arena_of s;
  mv_payload : payload_eq (objs s) (objs s');
  mv_active p : active_of (objs s') p = active_of (objs s) p;
  mv_frame p : p ∉ xs -> objs s' !! p = objs s !! p;
}.

Lemma moved_refl xs s : moved xs s s.
Proof. by destruct s as [[] ? ?]. Qed.

Lemma moved_trans xs ys s1 s2 s3 :
  xs ≡ₚ ys -> moved xs s1 s2 -> moved ys s2 s3 -> moved xs s1 s3.
Proof.
  intros Hp [H1 ? ? ? ? F1] [H2 ? ? ? ? F2]. split.
  - etransitivity; [exact H2|]. by rewrite H1.
  - congruence.
  - congruence.
  - by etransitivity.
  - congruence.
  - intros p Hx. assert (p ∉ ys) by (by rewrite <-Hp). 
    by rewrite F2, F1.
Qed.

Lemma wp_map_get i p Q s :
  map (hp s) !! i = Some (Some p) -> Q p s -> wp (map_get (A := A) (Z.of_nat i)) Q s.
Proof. intros E HQ. unfold wp, map_get. by rewrite Nat2Z.id, E. Qed.

Lemma wp_map_set i p Q s :
  (i < length (map (hp s)))%nat ->
  Q tt (set_hp (with_map (<[i := Some p]> (map (hp s))) (hp s)) s) ->
  wp (map_set (O := O) (A := A) (Z.of_nat i) p) Q s.
Proof. intros E HQ. unfold wp, map_set. rewrite Nat2Z.id. by rewrite decide_True. Qed.

Lemma wp_set_index p i Q s :
  is_Some (objs s !! p) -> Q tt (set_objs (restamp p i (objs s)) s) ->
  wp (set_index (A := A) p i) Q s.
Proof.
  intros [o Ho] HQ. unfold set_index. wp_go. unfold restamp in HQ.
  by erewrite alter_insert in HQ.
Qed.

Lemma wp_set_active p v Q s :
  is_Some (objs s !! p) -> Q tt (set_objs (mark p v (objs s)) s) ->
  wp (set_active (A := A) p v) Q s.
Proof.
  intros [o Ho] HQ. unfold set_active. wp_go. unfold mark in HQ.
  by erewrite alter_insert in HQ.
Qed.

(** The array is long enough for the items. *)
Lemma cells_len s xs i : cells s xs -> (i < length xs)%nat -> (i < length (map (hp s)))%nat.
Proof. intros Hc [x Hx]%lookup_lt_is_Some. by apply (c_map _ _ Hc), lookup_lt_Some in Hx. Qed.

Lemma wp_heap_exchange s xs i j :
  cells s xs -> (i < length xs)%nat -> (j < length xs)%nat -> i <> j ->
  wp (heap_exchange (Z.of_nat i) (Z.of_nat j)) (fun _ s' =>
    cells s' (swap xs i j) /\ moved xs s s' /\
    (forall k, k = i \/ k = j \/ index_at (objs s) xs k -> index_at (objs s') (swap xs i j) k)) s.
Proof.
  intros Hc Hi Hj Hij.
  pose proof (cells_len _ _ _ Hc Hi) as Him. pose proof (cells_len _ _ _ Hc Hj) as Hjm.
  destruct (lookup_lt_is_Some_2 _ _ Hi) as [x Hx], (lookup_lt_is_Some_2 _ _ Hj) as [m Hm].
  pose proof (c_map _ _ Hc _ _ Hx) as Hcx. pose proof (c_map _ _ Hc _ _ Hm) as Hcm.
  destruct (c_objs _ _ Hc x) as [ox Hox]; [by eapply list_elem_of_lookup_2|].
  destruct (c_objs _ _ Hc m) as [om Hom]; [by eapply list_elem_of_lookup_2|].
  assert (x <> m) as Hxm.
  { intros ->. by eapply Hij, NoDup_lookup; [apply (c_nodup _ _ Hc)|..]. }
  unfold heap_exchange. rewrite !wp_bind. eapply wp_map_get; [done|].
  rewrite !wp_bind. eapply wp_map_get; [done|].
  rewrite !wp_bind. eapply wp_map_set; [done|].
  rewrite !wp_bind. eapply wp_map_get; [simpl; by apply list_lookup_insert_eq|].
  rewrite !wp_bind. eapply wp_set_index; [done|].
  rewrite !wp_bind. eapply wp_map_set; [simpl; by rewrite length_insert|].
  rewrite !wp_bind. eapply wp_map_get; [simpl; apply list_lookup_insert_eq; by rewrite length_insert|].
  eapply wp_set_index; [simpl; by apply restamp_is_Some|].
  destruct Hc as [Hsz Hmap Hobj Hnd Hsm].
  simpl. split_and!; [split|split|]; simpl.
  - by rewrite length_swap.
  - intros k y. rewrite swap_lookup by done. intros Hy.
    rewrite !list_lookup_insert, length_insert. repeat case_decide; naive_solver.
  - intros y Hy. rewrite swap_Permutation in Hy. rewrite !restamp_is_Some. auto.
  - by rewrite swap_Permutation.
  - by rewrite length_swap.
  - done.
  - by rewrite !length_insert.
  - done.
  - etransitivity; apply payload_eq_restamp.
  - intros p. by rewrite !active_of_restamp.
  - intros p Hp. rewrite !restamp_ne; [done|..]; intros ->;
      by eapply Hp, list_elem_of_lookup_2.
  - intros k Hk y. rewrite swap_lookup by done. rewrite !index_of_restamp
      by (rewrite ?restamp_is_Some; eauto).
    intros Hy. repeat case_decide; simplify_eq; try done.
    + by destruct (NoDup_lookup xs k j y).
    + by destruct (NoDup_lookup xs k i y).
    + destruct Hk as [?|[?|Hk]]; [done..|]. by apply Hk.
Qed.

Lemma if_of_nat (b : bool) m n :
  (if b then Z.of_nat m else Z.of_nat n) = Z.of_nat (if b then m else n).
Proof. by destruct b. Qed.

(** Comparing the items at two positions of the array. *)
Lemma wp_call_cmp_at s xs i j Q :
  cells s xs -> (i < length xs)%nat -> (j < length xs)%nat ->
  Q (lt_at (item_lt (cmp (hp s)) (objs s)) xs i j) s ->
  wp (pl ← map_get (Z.of_nat i); pi ← map_get (Z.of_nat j); call_cmp pl pi) Q s.
Proof.
  intros Hc [x Hx]%lookup_lt_is_Some [y Hy]%lookup_lt_is_Some.
  destruct (c_objs _ _ Hc x) as [ox Hox]; [by eapply list_elem_of_lookup_2|].
  destruct (c_objs _ _ Hc y) as [oy Hoy]; [by eapply list_elem_of_lookup_2|].
  rewrite (lt_at_lookup _ _ _ _ _ _ Hx Hy). unfold item_lt. rewrite Hox, Hoy. intros HQ.
  rewrite !wp_bind. eapply wp_map_get; [by apply (c_map _ _ Hc)|].
  rewrite !wp_bind. eapply wp_map_get; [by apply (c_map _ _ Hc)|].
  unfold call_cmp. wp_go. by destruct s.
Qed.

(** A guarded comparison, as [(l < h->size) && h->cmp(h->map[l], h->map[i])]. *)
Lemma wp_guarded_cmp s xs i j Q :
  cells s xs -> (j < length xs)%nat ->
  Q (lt_at (item_lt (cmp (hp s)) (objs s)) xs i j) s ->
  wp (if Z.of_nat i <? size (hp s)
      then pl ← map_get (Z.of_nat i); pi ← map_get (Z.of_nat j); call_cmp pl pi
      else mret false) Q s.
Proof.
  intros Hc Hj HQ. rewrite (c_size _ _ Hc). destruct (Z.ltb_spec (Z.of_nat i) (Z.of_nat (length xs))).
  - eapply wp_call_cmp_at; [done|lia|done..].
  - rewrite wp_ret. unfold lt_at in HQ. by rewrite (lookup_ge_None_2 xs i) in HQ by lia.
Qed.

(** What sinking the item at [i] gives: nothing, if it may stay, and otherwise
    items that know their positions. *)
Record sunk (s s' : hstate O A) (xs ys : list addr) (i : nat) : Prop := {
  sk_cells : cells s' ys;
  sk_moved : moved xs s s';
  sk_stay : smallest_of (item_lt (cmp (hp s)) (objs s)) xs i = i -> s' = s /\ ys = xs;
  sk_index : (forall k, k <> i -> index_at (objs s) xs k) ->
    smallest_of (item_lt (cmp (hp s)) (objs s)) xs i <> i -> forall k, index_at (objs s') ys k;
}.

(** [heap_heapify] computes [sift_down]: it terminates, moves only the items
    of the heap and corrects the position of every item it moves. *)
Lemma wp_heap_heapify fuel s xs i `{!CmpOk (cmp (hp s))} :
  cells s xs -> (i < length xs)%nat -> (length xs < fuel + i)%nat ->
  wp (heap_heapify fuel (Z.of_nat i)) (fun _ s' =>
    sunk s s' xs (sift_down (item_lt (cmp (hp s)) (objs s)) fuel xs i) i) s.
Proof.
  revert s xs i CmpOk0. induction fuel as [|fuel IH]; intros s xs i Hcmp Hc Hi Hfuel; [lia|].
  cbn [heap_heapify sift_down]. pose proof (c_small _ _ Hc) as Hsm.
  replace (u32 (u32 (2 * Z.of_nat i) + 1)) with (Z.of_nat (2 * i + 1))
    by (rewrite (u32_id (2 * _)), u32_id; lia).
  replace (u32 (Z.of_nat (2 * i + 1) + 1)) with (Z.of_nat (2 * i + 1 + 1))
    by (rewrite u32_id; lia).
  set (lt := item_lt (cmp (hp s)) (objs s)).
  rewrite wp_bind, wp_gets, wp_bind. eapply wp_guarded_cmp; [done|done|]. fold lt.
  rewrite if_of_nat, wp_bind. pose proof (smallest_of_range lt xs i) as Hrange.
  eapply wp_guarded_cmp; [done| |]; fold lt.
  { destruct (lt_at lt xs (2 * i + 1) i) eqn:E; [|done].
    apply lt_at_true in E as (? & ? & E%lookup_lt_Some & _). done. }
  rewrite if_of_nat. fold (smallest_of lt xs i). 
  destruct (Nat.eqb_spec (smallest_of lt xs i) i) as [E|E].
  { rewrite E, Z.eqb_refl, wp_ret. split; [done|apply moved_refl|done|done]. }
  rewrite (proj2 (Z.eqb_neq (Z.of_nat _) _)) by lia. rewrite wp_bind.
  set (sm := smallest_of lt xs i) in *.
  eapply wp_mono; [eapply (wp_heap_exchange s xs i sm); [done|lia..]|].
  intros [] s1 (Hc1 & Hm1 & Hix1).
  assert (cmp (hp s1) = cmp (hp s)) as Hcmp1 by (by rewrite (mv_hp _ _ _ Hm1)).
  assert (forall a b, item_lt (cmp (hp s1)) (objs s1) a b = lt a b) as Hlt1.
  { intros a b. rewrite Hcmp1. unfold lt. by rewrite <-(mv_payload _ _ _ Hm1). }
  eapply wp_mono; [eapply (IH s1 (swap xs i sm) sm)|].
  - by rewrite Hcmp1.
  - done.
  - rewrite length_swap. lia.
  - rewrite length_swap. lia.
  - intros [] s2. rewrite (sift_down_ext _ lt) by done.
    intros [Hc2 Hm2 Hst2 Hix2]. rewrite (smallest_of_ext _ lt) in Hst2, Hix2 by done.
    split; [done| |done|intros Hix _].
    + eapply moved_trans; [|done..]. by rewrite swap_Permutation.
    + assert (forall k, k <> sm -> index_at (objs s1) (swap xs i sm) k) as Hix3.
      { intros k Hk. apply Hix1. destruct (decide (k = i)); auto. }
      destruct (decide (smallest_of lt (swap xs i sm) sm = sm)) as [Hs2|]; [|by apply Hix2].
      destruct (Hst2 Hs2) as [-> ->].
      intros k. apply Hix1. destruct (decide (k = i)); auto.
Qed.

(** During an insertion the array holds all items of [ys] but the one at [i],
    which is being inserted. *)
Record hole (s : hstate O A) (ys : list addr) (i : nat) : Prop := {
  h_map k y : k <> i -> ys !! k = Some y -> map (hp s) !! k = Some (Some y);
  h_len : (length ys <= length (map (hp s)))%nat;
  h_objs y : y ∈ ys -> is_Some (objs s !! y);
  h_nodup : NoDup ys;
  h_small : Z.of_nat (length ys) < 2 ^ 31;
}.

Lemma u32_parent i :
  (0 < i)%nat -> Z.of_nat i < 2 ^ 32 -> u32 (Z.of_nat i - 1) / 2 = Z.of_nat (parent i).
Proof.
  intros Hi Hs. rewrite u32_id by lia. unfold parent.
  rewrite Nat2Z.inj_div, Nat2Z.inj_sub by lia. done.
Qed.

(** Moving the parent into the hole. *)
Lemma wp_fill_hole {B} s ys i j p item (K : M (hstate O A) B) Q :
  hole s ys i -> i <> j -> (i < length ys)%nat ->
  ys !! j = Some p -> ys !! i = Some item ->
  (forall s', hole s' (swap ys i j) j -> moved ys s s' ->
     (forall y, y <> item -> knows (objs s) ys y -> knows (objs s') (swap ys i j) y) -> wp K Q s') ->
  wp (p ← map_get (Z.of_nat j); map_set (Z.of_nat i) p;;
      p ← map_get (Z.of_nat i); set_index p (Z.of_nat i);; K) Q s.
Proof.
  intros [Hmap Hlen Hobj Hnd Hsm] Hij Hi Hp Hitem HQ.
  pose proof (lookup_lt_Some _ _ _ Hp) as Hj.
  assert (p <> item) as Hne by (intros ->; by destruct (NoDup_lookup ys i j item)).
  rewrite !wp_bind. eapply wp_map_get; [by apply Hmap|].
  rewrite !wp_bind. eapply wp_map_set; [lia|].
  rewrite !wp_bind. eapply wp_map_get; [simpl; apply list_lookup_insert_eq; lia|].
  rewrite !wp_bind. eapply wp_set_index; [simpl; by eapply Hobj, list_elem_of_lookup_2|].
  apply HQ; [split|split|]; simpl.
  - intros k y Hk. rewrite swap_lookup by done. rewrite list_lookup_insert.
    repeat case_decide; naive_solver lia.
  - by rewrite length_swap, length_insert.
  - intros y Hy. rewrite swap_Permutation in Hy. rewrite !restamp_is_Some. auto.
  - by rewrite swap_Permutation.
  - by rewrite length_swap.
  - done.
  - by rewrite !length_insert.
  - done.
  - apply payload_eq_restamp.
  - intros q. by rewrite !active_of_restamp.
  - intros q Hq. rewrite !restamp_ne; [done|]. intros ->. by eapply Hq, list_elem_of_lookup_2.
  - intros y Hy Hix k. rewrite swap_lookup by done. rewrite index_of_restamp
      by (by eapply Hobj, list_elem_of_lookup_2).
    intros Hk. repeat case_decide; simplify_eq; try done.
    + by destruct (NoDup_lookup ys k j y).
    + by eapply Hix.
Qed.

(** The insertion loop computes [sift_up]. *)
Lemma wp_heap_insert_loop fuel s ys i item `{!CmpOk (cmp (hp s))} :
  hole s ys i -> (i < fuel)%nat -> ys !! i = Some item ->
  wp (heap_insert_loop fuel (Z.of_nat i) (u32 (Z.of_nat i - 1) / 2) item) (fun r s' =>
    let zs := sift_up (item_lt (cmp (hp s)) (objs s)) fuel ys i in
    exists k, r = Z.of_nat k /\ zs !! k = Some item /\ hole s' zs k /\ moved ys s s' /\
      (forall y, y <> item -> knows (objs s) ys y -> knows (objs s') zs y)) s.
Proof.
  revert s ys i CmpOk0. induction fuel as [|fuel IH]; intros s ys i Hcmp Hh Hfuel Hitem; [lia|].
  cbn [heap_insert_loop sift_up]. pose proof (lookup_lt_Some _ _ _ Hitem) as Hi.
  pose proof (h_small _ _ _ Hh) as Hsm.
  set (lt := item_lt (cmp (hp s)) (objs s)). cbn zeta.
  destruct (Nat.ltb_spec 0 i) as [Hi0|]; cycle 1.
  { rewrite (proj2 (Z.ltb_ge 0 (Z.of_nat i))) by lia. wp_simpl. cbn [andb].
    exists i. split_and!; try done. apply moved_refl. }
  rewrite (proj2 (Z.ltb_lt 0 (Z.of_nat i))) by lia.
  rewrite !u32_parent by lia. pose proof (parent_lt i Hi0) as Hpi.
  destruct (lookup_lt_is_Some_2 ys (parent i)) as [p Hp]; [lia|].
  destruct (h_objs _ _ _ Hh p) as [op Hop]; [by eapply list_elem_of_lookup_2|].
  destruct (h_objs _ _ _ Hh item) as [oi Hoi]; [by eapply list_elem_of_lookup_2|].
  rewrite !wp_bind. eapply wp_map_get; [apply (h_map _ _ _ Hh); [lia|done]|].
  unfold call_cmp. wp_go.
  rewrite (lt_at_lookup _ _ _ _ _ _ Hp Hitem). replace (cmp (hp _) op oi) with (lt p item)
    by (unfold lt, item_lt; by rewrite Hop, Hoi).
  replace (set_objs (objs _) (set_objs (objs s) s)) with s by by destruct s.
  destruct (lt p item) eqn:Hlt; cbn [andb]; cycle 1.
  { wp_simpl. exists i. split_and!; try done. apply moved_refl. }
  eapply wp_fill_hole; [done|lia|done|done|done|].
  intros s1 Hh1 Hm1 Hix1.
  assert (cmp (hp s1) = cmp (hp s)) as Hcmp1 by (by rewrite (mv_hp _ _ _ Hm1)).
  assert (forall a b, item_lt (cmp (hp s1)) (objs s1) a b = lt a b) as Hlt1.
  { intros a b. rewrite Hcmp1. unfold lt. by rewrite <-(mv_payload _ _ _ Hm1). }
  eapply wp_mono; [eapply (IH s1 (swap ys i (parent i)) (parent i))|].
  - by rewrite Hcmp1.
  - done.
  - lia.
  - rewrite swap_lookup by lia. rewrite decide_False, decide_True by lia. done.
  - intros r s2. cbn zeta. rewrite (sift_up_ext _ lt) by done.
    intros (k & -> & Hk & Hh2 & Hm2 & Hix2). exists k. split_and!; try done; [|by auto].
    eapply moved_trans; [|done..]. by rewrite swap_Permutation.
Qed.

(** Linking an item in, once there is room. *)
Lemma wp_heap_insert_at s xs item `{!CmpOk (cmp (hp s))} :
  cells s xs -> (length xs < length (map (hp s)))%nat ->
  item ∉ xs -> is_Some (objs s !! item) -> Z.of_nat (length xs) < 2 ^ 31 - 2 ->
  wp (heap_insert_at item) (fun r s' =>
    let ys := sift_up (item_lt (cmp (hp s)) (objs s)) (S (length xs)) (xs ++ [item]) (length xs) in
    r = 0 /\ cells s' ys /\
    (forall y, y = item \/ knows (objs s) xs y -> knows (objs s') ys y) /\
    hp s' = with_map (map (hp s')) (with_size (size (hp s) + 1) (hp s)) /\
    length (map (hp s')) = length (map (hp s)) /\
    arena_of s' = arena_of s /\ payload_eq (objs s) (objs s') /\
    active_of (objs s') item = Some 1 /\
    (forall p, p <> item -> active_of (objs s') p = active_of (objs s) p) /\
    (forall p, p ∉ item :: xs -> objs s' !! p = objs s !! p)) s.
Proof.
  intros Hc Hlen Hitem Hobj Hsm. unfold heap_insert_at.
  rewrite wp_bind, wp_gets, wp_bind. rewrite (c_size _ _ Hc), Nat2Z.id.
  assert (hole s (xs ++ [item]) (length xs)) as Hh.
  { split; [|by rewrite length_app; simpl; lia| |by rewrite NoDup_snoc; split; [|apply Hc]
      |rewrite length_app; simpl; lia].
    - intros k y Hk. rewrite lookup_app_Some. intros [Hy|[? Hy]].
      + by apply (c_map _ _ Hc).
      + apply list_lookup_singleton_Some in Hy as []. lia.
    - intros y [Hy| ->%list_elem_of_singleton]%elem_of_app; [by apply (c_objs _ _ Hc)|done]. }
  eapply wp_mono; [eapply (wp_heap_insert_loop _ s _ _ item Hh)|].
  - lia.
  - by rewrite lookup_app_r, Nat.sub_diag.
  - set (ys := sift_up _ _ _ _). cbn zeta. intros r s1 (k & -> & Hk & Hh1 & Hm1 & Hix1).
    assert (ys ≡ₚ xs ++ [item]) as Hys by apply sift_up_Permutation.
    assert (length ys = S (length xs)) as Hyl by (rewrite Hys, length_app; simpl; lia).
    pose proof (lookup_lt_Some _ _ _ Hk) as Hkl.
    rewrite wp_bind. eapply wp_map_set; [pose proof (h_len _ _ _ Hh1); lia|].
    rewrite wp_bind. eapply wp_set_index; [simpl; by eapply (h_objs _ _ _ Hh1), list_elem_of_lookup_2|].
    rewrite wp_bind, wp_gets, wp_bind, wp_modify, wp_bind.
    assert (is_Some (objs s1 !! item)) as Hobj1
      by (by eapply (h_objs _ _ _ Hh1), list_elem_of_lookup_2).
    eapply wp_set_active; [by apply restamp_is_Some|]. rewrite wp_ret. simpl.
    assert (size (hp s1) = Z.of_nat (length xs)) as Hsz.
    { rewrite (mv_hp _ _ _ Hm1). apply (c_size _ _ Hc). }
    split_and!; [done|split|..]; simpl.
    + rewrite Hsz, Hyl, u32_id; lia.
    + intros j y Hy. rewrite list_lookup_insert. case_decide as Hj.
      * destruct Hj as [-> _]. naive_solver.
      * apply (h_map _ _ _ Hh1); [|done]. intros ->. pose proof (h_len _ _ _ Hh1). naive_solver lia.
    + intros y Hy. rewrite mark_is_Some, restamp_is_Some. by apply (h_objs _ _ _ Hh1).
    + apply (h_nodup _ _ _ Hh1).
    + lia.
    + intros y Hy j Hj. rewrite index_of_mark, index_of_restamp by done. case_decide as Hyi.
      * subst. f_equal. f_equal. eapply NoDup_lookup; [apply (h_nodup _ _ _ Hh1)|done..].
      * destruct Hy as [->|Hy]; [done|]. apply (Hix1 y (not_eq_sym Hyi)); [|done].
        intros k' [Hk'|[_ Hk']]%lookup_app_Some; [by apply Hy|].
        apply list_lookup_singleton_Some in Hk' as [_ ->]. done.
    + rewrite (mv_hp _ _ _ Hm1). unfold with_size, with_map. simpl.
      rewrite (c_size _ _ Hc), u32_id by lia. done.
    + by rewrite length_insert, (mv_len _ _ _ Hm1).
    + apply (mv_arena _ _ _ Hm1).
    + rewrite (mv_payload _ _ _ Hm1). etransitivity; [apply payload_eq_restamp|].
      apply payload_eq_mark.
    + rewrite active_of_mark by (by apply restamp_is_Some). by rewrite decide_True.
    + intros p Hp. rewrite active_of_mark by (by apply restamp_is_Some).
      rewrite decide_False, active_of_restamp by done. apply (mv_active _ _ _ Hm1).
    + intros p Hp. rewrite mark_ne, restamp_ne by set_solver.
      apply (mv_frame _ _ _ Hm1). set_solver.
Qed.

(** Outside the heap there is nothing to sink. *)
Lemma wp_heap_heapify_out fuel s xs i Q :
  cells s xs -> (0 < fuel)%nat -> (length xs <= i)%nat -> Z.of_nat i < 2 ^ 31 - 1 -> Q tt s ->
  wp (heap_heapify (A := A) fuel (Z.of_nat i)) Q s.
Proof.
  intros Hc Hf Hi Hsm HQ. destruct fuel as [|fuel]; [lia|]. cbn [heap_heapify].
  replace (u32 (u32 (2 * Z.of_nat i) + 1)) with (Z.of_nat (2 * i + 1))
    by (rewrite (u32_id (2 * _)), u32_id; lia).
  replace (u32 (Z.of_nat (2 * i + 1) + 1)) with (Z.of_nat (2 * i + 1 + 1))
    by (rewrite u32_id; lia).
  wp_simpl. rewrite (c_size _ _ Hc), !(proj2 (Z.ltb_ge _ _)) by lia.
  wp_simpl. by rewrite Z.eqb_refl, wp_ret.
Qed.

(** Both cases: an item at or behind the end has nothing to sink under. *)
Lemma wp_heap_heapify_any fuel s xs i `{!CmpOk (cmp (hp s))} :
  cells s xs -> (length xs < fuel + i)%nat -> (0 < fuel)%nat -> Z.of_nat i < 2 ^ 31 - 1 ->
  wp (heap_heapify fuel (Z.of_nat i)) (fun _ s' =>
    sunk s s' xs (sift_down (item_lt (cmp (hp s)) (objs s)) fuel xs i) i) s.
Proof.
  intros Hc Hfuel Hfuel0 Hsm. destruct (decide (i < length xs)%nat) as [Hlt|Hge].
  { by apply wp_heap_heapify. }
  eapply wp_heap_heapify_out; [done|done|lia|done|]. destruct fuel as [|fuel]; [lia|].
  cbn [sift_down]. set (lt := item_lt _ _).
  destruct (smallest_of_range lt xs i) as [Hs|]; [|lia]. rewrite Hs, Nat.eqb_refl.
  split; [done|apply moved_refl|done|done].
Qed.

(** The last item put in the vacated place. *)
Lemma cells_vacate s xs i x l :
  cells s xs -> xs !! i = Some x -> last xs = Some l ->
  cells (set_hp (with_map (<[i := Some l]> (map (hp s)))
           (with_size (Z.of_nat (length xs - 1)) (hp s))) s) (replaced xs i).
Proof.
  intros Hc Hx Hl. pose proof (lookup_lt_Some _ _ _ Hx) as Hi. pose proof (c_small _ _ Hc) as Hsm.
  pose proof (replaced_Permutation xs i x Hx) as Hperm.
  pose proof (length_replaced xs i) as Hrl. split; simpl.
  - by rewrite Hrl.
  - intros k y Hy. rewrite list_lookup_insert. case_decide as Hk.
    + destruct Hk as [<- _]. apply replaced_lookup_eq in Hy. congruence.
    + apply (c_map _ _ Hc). eapply replaced_lookup_ne; [|done]. intros ->.
      apply Hk. split; [done|]. by eapply cells_len.
  - intros y Hy. apply (c_objs _ _ Hc). rewrite <-Hperm. by right.
  - enough (NoDup (x :: replaced xs i)) as [_ ?]%NoDup_cons by done.
    rewrite Hperm. apply (c_nodup _ _ Hc).
  - lia.
Qed.

(** What unlinking the item [x] at [i] gives. *)
Record removed (s s' : hstate O A) (xs ys : list addr) (i : nat) (x : addr) : Prop := {
  rm_cells : cells s' ys;
  rm_hp : hp s' = with_map (map (hp s')) (with_size (size (hp s) - 1) (hp s));
  rm_len : length (map (hp s')) = length (map (hp s));
  rm_arena : arena_of s' = arena_of s;
  rm_payload : payload_eq (objs s) (objs s');
  rm_index : index_of (objs s') x = Some 0;
  rm_inactive : active_of (objs s') x = Some 0;
  rm_active p : p <> x -> active_of (objs s') p = active_of (objs s) p;
  rm_frame p : p ∉ xs -> objs s' !! p = objs s !! p;
  rm_stay : smallest_of (item_lt (cmp (hp s)) (objs s)) (replaced xs i) i = i ->
    ys = replaced xs i /\ forall p, p <> x -> objs s' !! p = objs s !! p;
  rm_sunk : (forall k, index_at (objs s) xs k) ->
    smallest_of (item_lt (cmp (hp s)) (objs s)) (replaced xs i) i <> i ->
    forall k, index_at (objs s') ys k;
}.

(** The last two assignments of [heap_remove]. *)
Lemma wp_reset_item s s1 s2 xs ys i x l `{!CmpOk (cmp (hp s))} :
  cells s xs -> xs !! i = Some x -> last xs = Some l ->
  s1 = set_hp (with_map (<[i := Some l]> (map (hp s)))
           (with_size (Z.of_nat (length xs - 1)) (hp s))) s ->
  sunk s1 s2 (replaced xs i) ys i -> ys ≡ₚ replaced xs i ->
  wp (set_index x 0;; set_active x 0;; mret x) (fun r s' => r = x /\ removed s s' xs ys i x) s2.
Proof.
  intros Hc Hx Hl Hs1 [Hc2 Hm2 Hst2 Hix2] Hys. subst s1. cbn [cmp objs hp set_hp with_map with_size] in *.
  pose proof (lookup_lt_Some _ _ _ Hx) as Hi. pose proof (c_size _ _ Hc) as Hsz.
  pose proof (replaced_Permutation xs i x Hx) as Hperm.
  assert (x ∉ replaced xs i) as Hxr.
  { enough (NoDup (x :: replaced xs i)) as [? _]%NoDup_cons by done.
    rewrite Hperm. apply (c_nodup _ _ Hc). }
  assert (is_Some (objs s2 !! x)) as Hx2.
  { rewrite (mv_frame _ _ _ Hm2) by done. by apply (c_objs _ _ Hc), list_elem_of_lookup_2 with i. }
  assert (x ∉ ys) as Hxy by (by rewrite Hys).
  rewrite wp_bind. eapply wp_set_index; [done|].
  rewrite wp_bind. eapply wp_set_active; [simpl; by apply restamp_is_Some|].
  rewrite wp_ret. split; [done|]. destruct Hc2 as [Hz2 Hmap2 Hobj2 Hnd2 Hsm2].
  split; simpl; [split; simpl; try done|..].
  - intros y Hy. rewrite mark_is_Some, restamp_is_Some. auto.
  - rewrite (mv_hp _ _ _ Hm2). simpl. unfold with_map, with_size. simpl. f_equal. lia.
  - rewrite (mv_len _ _ _ Hm2). simpl. by rewrite length_insert.
  - apply (mv_arena _ _ _ Hm2).
  - rewrite <-payload_eq_mark, <-payload_eq_restamp. apply (mv_payload _ _ _ Hm2).
  - rewrite index_of_mark, index_of_restamp by done. by rewrite decide_True.
  - rewrite active_of_mark by (by apply restamp_is_Some). by rewrite decide_True.
  - intros p Hp. rewrite active_of_mark by (by apply restamp_is_Some).
    rewrite decide_False, active_of_restamp by done. apply (mv_active _ _ _ Hm2).
  - intros p Hp. assert (p <> x) by (intros ->; by eapply Hp, list_elem_of_lookup_2).
    rewrite mark_ne, restamp_ne by done. apply (mv_frame _ _ _ Hm2).
    intros Hpr. apply Hp. rewrite <-Hperm. by right.
  - intros Hs. destruct (Hst2 Hs) as [-> ->]. split; [done|].
    intros p Hp. by rewrite mark_ne, restamp_ne.
  - intros Hix Hs k y Hy. rewrite index_of_mark, index_of_restamp by done.
    rewrite decide_False; [|intros ->; by apply Hxy, list_elem_of_lookup_2 with k].
    apply Hix2; [|done|done]. intros j Hj z Hz%replaced_lookup_ne; [|done]. by apply Hix.
Qed.

(** Unlinking the item at a position in range. *)
Lemma wp_heap_remove s xs i x `{!CmpOk (cmp (hp s))} :
  cells s xs -> xs !! i = Some x ->
  wp (heap_remove (Z.of_nat i)) (fun r s' => r = x /\
    removed s s' xs (sift_down (item_lt (cmp (hp s)) (objs s)) (length xs) (replaced xs i) i) i x) s.
Proof.
  intros Hc Hx. pose proof (lookup_lt_Some _ _ _ Hx) as Hi.
  pose proof (c_small _ _ Hc) as Hsm. pose proof (c_size _ _ Hc) as Hsz.
  unfold heap_remove. rewrite wp_bind, wp_gets, wp_if, Hsz.
  rewrite (proj2 (Z.leb_gt _ _)) by lia.
  rewrite wp_bind. eapply wp_map_get; [by apply (c_map _ _ Hc)|].
  rewrite u32_id by lia. 
  replace (Z.of_nat (length xs) - 1) with (Z.of_nat (length xs - 1)) by lia.
  rewrite wp_bind, wp_modify.
  destruct (last xs) as [l|] eqn:Hl; [|apply last_None in Hl; by subst].
  pose proof Hl as Hl'. rewrite last_lookup in Hl'.
  replace (Nat.pred (length xs)) with (length xs - 1)%nat in Hl' by lia.
  rewrite wp_bind. eapply wp_map_get; [simpl; by apply (c_map _ _ Hc)|].
  rewrite wp_bind. eapply wp_map_set; [simpl; by eapply cells_len|].
  rewrite wp_bind, Nat2Z.id. replace (S (length xs - 1)) with (length xs) by lia.
  pose proof (cells_vacate s xs i x l Hc Hx Hl) as Hc1. pose proof (length_replaced xs i) as Hrl.
  eapply wp_mono; [eapply (wp_heap_heapify_any _ _ (replaced xs i)); first [done | lia | exact CmpOk0]|].
  intros [] s2 Hs2. eapply (wp_reset_item s _ s2 xs _ i x l); [done..|].
  apply sift_down_Permutation.
Qed.
End Rep.

(** ** Well-formed heaps *)
Section Correct.
Context {O A : Type} `{HeapItem O} `{AllocatorLaws A}.
Implicit Types s : hstate O A.

Record heap_wf (s : hstate O A) (xs : list addr) : Prop := {
  hw_cells : cells s xs;
  hw_index k : index_at (objs s) xs k;
  hw_active x : x ∈ xs -> active_of (objs s) x = Some 1;
  hw_len : Z.of_nat (length (map (hp s))) = max_size (hp s);
  hw_max : max_size (hp s) < 2 ^ 31 - 2;
  hw_block : map_ptr (hp s) <> NULL /\ map_ptr (hp s) ∈ blocks (arena_of s);
}.

Abbreviation lt_of s := (item_lt (cmp (hp s)) (objs s)).

(** The same but for the positions: items may not know theirs. *)
Record heap_loose (s : hstate O A) (xs : list addr) : Prop := {
  hl_cells : cells s xs;
  hl_active x : x ∈ xs -> active_of (objs s) x = Some 1;
  hl_len : Z.of_nat (length (map (hp s))) = max_size (hp s);
  hl_max : max_size (hp s) < 2 ^ 31 - 2;
  hl_block : map_ptr (hp s) <> NULL /\ map_ptr (hp s) ∈ blocks (arena_of s);
}.

Lemma knows_all os xs : (forall y, y ∈ xs -> knows os xs y) <-> (forall k, index_at os xs k).
Proof.
  split; intros Hk.
  - intros k x Hx. by apply (Hk x); [eapply list_elem_of_lookup_2|].
  - intros y _ k Hy. by apply Hk.
Qed.

Lemma heap_wf_loose s xs :
  heap_wf s xs <-> heap_loose s xs /\ (forall y, y ∈ xs -> knows (objs s) xs y).
Proof. rewrite knows_all. split; [intros []; split; [by split|done]|intros [[? ? ? ? ?] ?]; by split]. Qed.

Lemma hl_full s xs : heap_loose s xs -> Z.of_nat (length xs) <= max_size (hp s).
Proof.
  intros [Hc _ Hlen _ _]. destruct (decide (length xs = 0%nat)) as [->|]; [lia|].
  pose proof (cells_len s xs (length xs - 1) Hc). lia.
Qed.

(** The allocator's blocks but the array of the heap are still there. *)
Definition blocks_kept (s s' : hstate O A) : Prop :=
  forall b, b ∈ blocks (arena_of s) -> b <> map_ptr (hp s) ->
    b ∈ blocks (arena_of s') /\ b <> map_ptr (hp s').

Lemma wp_heap_increase_size s xs Q :
  cells s xs -> Z.of_nat (length (map (hp s))) = max_size (hp s) ->
  max_size (hp s) < 2 ^ 31 - 102 ->
  map_ptr (hp s) <> NULL -> map_ptr (hp s) ∈ blocks (arena_of s) ->
  (forall s', hp s' = hp s -> objs s' = objs s ->
     blocks (arena_of s') = blocks (arena_of s) -> Q (-1) s') ->
  (forall s', cells s' xs -> objs s' = objs s -> cmp (hp s') = cmp (hp s) ->
     Z.of_nat (length (map (hp s'))) = max_size (hp s') ->
     max_size (hp s') = max_size (hp s) + HEAP_DEFAULT_INCREASE_SIZE ->
     size (hp s') = size (hp s) ->
     map_ptr (hp s') <> NULL -> map_ptr (hp s') ∈ blocks (arena_of s') -> blocks_kept s s' -> Q 0 s') ->
  wp (heap_increase_size HEAP_DEFAULT_INCREASE_SIZE) Q s.
Proof.
  intros Hc Hlen Hmax Hp Hpb Hfail Hok. unfold heap_increase_size.
  pose proof (c_size _ _ Hc) as Hsz.
  assert (length xs <= length (map (hp s)))%nat as Hcap.
  { destruct (decide (length xs = 0%nat)) as [->|]; [lia|].
    pose proof (cells_len s xs (length xs - 1) Hc). lia. }
  rewrite wp_bind, wp_gets, u32_id by (unfold HEAP_DEFAULT_INCREASE_SIZE; lia).
  rewrite wp_bind, wp_zoom. apply wp_malloc; [apply u64_range|..].
  - intros a' Hb Hr. rewrite Z.eqb_refl. wp_simpl. by apply Hfail.
  - intros p a' Hpn Hpf Hb _. rewrite (proj2 (Z.eqb_neq p NULL)) by done.
    rewrite wp_if, Hsz. rewrite (proj2 (Z.ltb_ge _ _)) by (unfold HEAP_DEFAULT_INCREASE_SIZE; lia).
    rewrite wp_bind, wp_zoom. apply wp_free; [done|simpl; set_solver|].
    intros a'' Hb'. wp_simpl. rewrite Nat2Z.id.
    assert (length (take (length xs) (map (hp s)) ++
              replicate (Z.to_nat (max_size (hp s) + HEAP_DEFAULT_INCREASE_SIZE) - length xs)
                (@None addr)) = Z.to_nat (max_size (hp s) + HEAP_DEFAULT_INCREASE_SIZE)) as El.
    { rewrite length_app, length_take, length_replicate. unfold HEAP_DEFAULT_INCREASE_SIZE. lia. }
    apply Hok; simpl; try done.
    + split; simpl; [done| |apply Hc..].
      intros i x Hx. pose proof (lookup_lt_Some _ _ _ Hx).
      rewrite lookup_app_l by (rewrite length_take; lia).
      rewrite lookup_take_lt by done. by apply (c_map _ _ Hc).
    + rewrite El. unfold HEAP_DEFAULT_INCREASE_SIZE in *. lia.
    + simpl in Hb'. rewrite Hb', Hb. set_solver.
    + intros b Hbb Hbm. simpl in *. rewrite Hb', Hb. set_solver.
Qed.

(** What a successful insertion gives, the capacity up to [grow]. *)
Record inserted (s s' : hstate O A) (xs ys : list addr) (item : addr) (grow : Z) : Prop := {
  in_loose : heap_loose s' ys;
  in_knows y : y = item \/ knows (objs s) xs y -> knows (objs s') ys y;
  in_payload : payload_eq (objs s) (objs s');
  in_cmp : cmp (hp s') = cmp (hp s);
  in_max : max_size (hp s') <= max_size (hp s) + grow;
  in_frame p : p ∉ item :: xs -> objs s' !! p = objs s !! p;
  in_blocks : blocks_kept s s';
}.

Lemma heap_loose_insert s xs item `{!CmpOk (cmp (hp s))} Q :
  heap_loose s xs -> (length xs < length (map (hp s)))%nat -> item ∉ xs -> is_Some (objs s !! item) ->
  (forall s', let ys := sift_up (lt_of s) (S (length xs)) (xs ++ [item]) (length xs) in
     inserted s s' xs ys item 0 -> Q 0 s') ->
  wp (heap_insert_at item) Q s.
Proof.
  intros [Hc Hact Hlen Hmax [Hp Hpb]] Hroom Hitem Hobj HQ.
  eapply wp_mono; [apply (wp_heap_insert_at s xs item); try done; lia|].
  cbn zeta. intros r s' (-> & Hc' & Hix' & Hhp & Hlen' & Har & Hpl & Hai & Hao & Hfr).
  apply HQ. split; try done; [split; try done|..].
  - intros x. rewrite sift_up_Permutation, elem_of_app, list_elem_of_singleton.
    intros [Hx| ->]; [|done]. rewrite Hao; [auto|]. by intros ->.
  - rewrite Hlen', Hhp. done.
  - by rewrite Hhp.
  - rewrite Hhp, Har. done.
  - by rewrite Hhp.
  - rewrite Hhp. cbn. lia.
  - intros b. by rewrite Hhp, Har.
Qed.

Lemma wp_heap_insert_loose s xs item `{!CmpOk (cmp (hp s))} Q :
  heap_loose s xs -> item ∉ xs -> is_Some (objs s !! item) ->
  max_size (hp s) < 2 ^ 31 - 102 ->
  (forall s', Z.of_nat (length xs) = max_size (hp s) -> hp s' = hp s -> objs s' = objs s ->
     blocks (arena_of s') = blocks (arena_of s) -> Q (-1) s') ->
  (forall s', let ys := sift_up (lt_of s) (S (length xs)) (xs ++ [item]) (length xs) in
     inserted s s' xs ys item (if decide (Z.of_nat (length xs) = max_size (hp s)) then HEAP_DEFAULT_INCREASE_SIZE else 0) ->
     Q 0 s') ->
  wp (heap_insert item) Q s.
Proof.
  intros Hwf Hitem Hobj Hmax Hfail Hok. pose proof (hl_full _ _ Hwf) as Hcap.
  pose proof Hwf as [Hc Hact Hlen Hmx [Hp Hpb]].
  unfold heap_insert, heap_full. rewrite wp_bind. wp_simpl. rewrite (c_size _ _ Hc).
  destruct (Z.leb_spec (max_size (hp s)) (Z.of_nat (length xs))).
  - rewrite decide_True in Hok by lia. rewrite wp_bind. eapply (wp_heap_increase_size s xs); try done.
    + intros s' Hhp Hos Hbk. change (-1 =? 0) with false. wp_simpl. apply Hfail; [lia|done..].
    + intros s' Hc' Hos Hcmp Hlen' Hmax' Hsz' Hp' Hpb' Hbk. rewrite Z.eqb_refl.
      unfold HEAP_DEFAULT_INCREASE_SIZE in *.
      assert (CmpOk (cmp (hp s'))) by (by rewrite Hcmp).
      eapply (heap_loose_insert s' xs item); rewrite ?Hos; first [done | lia | idtac].
      * split; rewrite ?Hos; first [done | lia].
      * intros s2. cbn zeta. rewrite Hcmp. intros []. apply Hok. rewrite Hos in *. split; first [done | congruence | lia | idtac].
        intros b Hb Hbm. destruct (Hbk b Hb Hbm). by apply in_blocks0.
  - rewrite decide_False in Hok by lia. eapply (heap_loose_insert s xs item); try done. lia.
Qed.

Lemma insert_contents s xs item :
  sift_up (lt_of s) (S (length xs)) (xs ++ [item]) (length xs) ≡ₚ item :: xs.
Proof. by rewrite sift_up_Permutation, Permutation_app_comm. Qed.

Lemma wp_heap_insert s xs item `{!CmpOk (cmp (hp s))} Q :
  heap_wf s xs -> item ∉ xs -> is_Some (objs s !! item) ->
  max_size (hp s) < 2 ^ 31 - 102 ->
  (forall s', Z.of_nat (length xs) = max_size (hp s) -> hp s' = hp s -> objs s' = objs s ->
     Q (-1) s') ->
  (forall s', let ys := sift_up (lt_of s) (S (length xs)) (xs ++ [item]) (length xs) in
     heap_wf s' ys -> payload_eq (objs s) (objs s') -> cmp (hp s') = cmp (hp s) ->
     max_size (hp s') <= max_size (hp s) + HEAP_DEFAULT_INCREASE_SIZE ->
     (forall p, p ∉ item :: xs -> objs s' !! p = objs s !! p) -> Q 0 s') ->
  wp (heap_insert item) Q s.
Proof.
  intros [Hl Hk]%heap_wf_loose Hitem Hobj Hmax Hfail Hok.
  eapply wp_heap_insert_loose; [done..|by auto|]. intros s' ys []. apply Hok; try done.
  - apply heap_wf_loose. split; [done|]. intros y Hy. apply in_knows0.
    unfold ys in Hy. rewrite insert_contents, elem_of_cons in Hy.
    destruct Hy as [Hy|Hy]; [by left|right; by apply Hk].
  - unfold HEAP_DEFAULT_INCREASE_SIZE in *. case_decide; lia.
Qed.

(** C1: the effect of [heap_insert], whatever the comparison: on success the
    heap holds the old items and the new one, all of them active and knowing
    their position; it fails, without effect, only when the array is full
    and cannot be reallocated. The insertion loop moves the new item up past
    parents the comparison puts BEFORE it, so it is the reverse heap order
    that it preserves. *)
Theorem heap_insert_correct s xs item `{!CmpOk (cmp (hp s)), !StrictWeak (cmp (hp s))} :
  heap_wf s xs -> item ∉ xs -> is_Some (objs s !! item) ->
  max_size (hp s) < 2 ^ 31 - 102 ->
  exists r s', heap_insert item s = Ok (r, s') /\ payload_eq (objs s) (objs s') /\
    (r = 0 /\ (exists ys, heap_wf s' ys /\ ys ≡ₚ item :: xs /\
                 (max_heap (lt_of s) xs -> max_heap (lt_of s) ys)) \/
     r = -1 /\ Z.of_nat (length xs) = max_size (hp s) /\ hp s' = hp s /\ objs s' = objs s).
Proof.
  intros Hwf Hitem Hobj Hmax. apply wp_run. eapply wp_heap_insert; try done.
  - intros s' Hfull Hhp Hos. rewrite Hos. split; [done|]. by right.
  - intros s'. cbn zeta. intros Hwf' Hpl _ _ _. split; [done|]. left. split; [done|].
    eexists. split_and!; [done|apply insert_contents|].
    by intros; apply insert_max_heap; try apply _.
Qed.

(** Inserting one item after another. *)
Fixpoint heap_insert_all (items : list addr) : M (hstate O A) Z :=
  match items with
  | [] => mret 0
  | x :: items =>
      e ← heap_insert x;
      if e =? 0 then heap_insert_all items else mret e
  end.

Lemma heap_insert_all_max_heap items s xs s'
    `{!CmpOk (cmp (hp s)), !StrictWeak (cmp (hp s))} :
  heap_wf s xs -> max_heap (lt_of s) xs -> NoDup (items ++ xs) ->
  (forall x, x ∈ items -> is_Some (objs s !! x)) ->
  max_size (hp s) + HEAP_DEFAULT_INCREASE_SIZE * Z.of_nat (length items) < 2 ^ 31 - 102 ->
  heap_insert_all items s = Ok (0, s') ->
  exists ys, heap_wf s' ys /\ ys ≡ₚ items ++ xs /\ max_heap (lt_of s) ys /\
    (forall p q, lt_of s' p q = lt_of s p q).
Proof.
  revert s xs CmpOk0 StrictWeak0. induction items as [|x items IH];
    intros s xs Hcmp Hsw Hwf Hmax Hnd Hobj Hsz Hrun.
  { injection Hrun as <-. exists xs. by split_and!. }
  rewrite <-app_comm_cons, NoDup_cons in Hnd. destruct Hnd as [Hx Hnd].
  cbn [heap_insert_all length] in Hrun, Hsz. unfold HEAP_DEFAULT_INCREASE_SIZE in *.
  assert (wp (heap_insert x) (λ r s1, r = 0 -> exists ys, heap_wf s1 ys /\ ys ≡ₚ x :: xs /\
    max_heap (lt_of s) ys /\ payload_eq (objs s) (objs s1) /\ cmp (hp s1) = cmp (hp s) /\
    max_size (hp s1) <= max_size (hp s) + 100) s) as (r & s1 & E & H1')%wp_run.
  { eapply wp_heap_insert; [done|done|set_solver|apply Hobj; set_solver|lia|done|].
    intros s1. cbn zeta. intros. eexists. split_and!; try done; [apply insert_contents|].
    by intros; apply insert_max_heap; try apply _. }
  unfold mbind, M_bind in Hrun. rewrite E in Hrun. destruct (Z.eqb_spec r 0); [|by injection Hrun as -> _].
  destruct (H1' e) as (ys & Hwf1 & Hys & Hmax1 & Hpl & Hc1 & Hsz1).
  assert (CmpOk (cmp (hp s1)) /\ StrictWeak (cmp (hp s1))) as [Hcmp1 Hsw1] by (by rewrite Hc1).
  assert (forall p q, lt_of s1 p q = lt_of s p q) as Hlt by (intros; by rewrite Hc1, <-Hpl).
  destruct (IH s1 ys) as (zs & Hwf2 & Hzs & Hmax2 & Hlt2); try done.
  - intros i p c ???. rewrite Hlt. by eapply Hmax1.
  - rewrite Hys, <-Permutation_middle. by apply NoDup_cons.
  - intros y Hy. eapply payload_eq_dom; [done|]. apply Hobj. set_solver.
  - lia.
  - exists zs. split_and!; [done| | |intros; by rewrite Hlt2].
    + by rewrite Hzs, Hys, <-app_comm_cons, Permutation_middle.
    + intros i p c ???. rewrite <-Hlt. by eapply Hmax2.
Qed.

(** After any successful sequence of insertions into an empty heap, the
    item at the front is one that no other inserted item comes after - the
    last in the order of the comparison, not the first. *)
Theorem heap_front_after_inserts items s s'
    `{!CmpOk (cmp (hp s)), !StrictWeak (cmp (hp s))} :
  heap_wf s [] -> items <> [] -> NoDup items ->
  (forall x, x ∈ items -> is_Some (objs s !! x)) ->
  max_size (hp s) + HEAP_DEFAULT_INCREASE_SIZE * Z.of_nat (length items) < 2 ^ 31 - 102 ->
  heap_insert_all items s = Ok (0, s') ->
  exists x, heap_front s' = Ok (x, s') /\ x ∈ items /\
    forall y, y ∈ items -> lt_of s x y = false.
Proof.
  intros Hwf Hne Hnd Hobj Hsz Hrun.
  destruct (heap_insert_all_max_heap items s [] s') as (ys & Hwf' & Hys & Hmax & _);
    rewrite ?app_nil_r in *; try done.
  destruct ys as [|x ys]; [by apply Permutation_nil_l in Hys; subst|].
  exists x. split_and!.
  - unfold heap_front, map_get. change (Z.to_nat 0) with 0%nat. by rewrite (c_map _ _ (hw_cells _ _ Hwf') 0 x).
  - rewrite <-Hys. set_solver.
  - intros y Hy. apply max_heap_root in Hmax; [|by apply item_lt_strict].
    rewrite Forall_forall in Hmax. apply Hmax. by rewrite Hys.
Qed.

(** [heap_init] yields an empty heap of the requested capacity, 200 for
    0, or fails with [-1]; [heap_fini] gives back exactly the block it took. *)
Theorem heap_init_correct s n c :
  0 <= n < 2 ^ 31 - 2 ->
  exists r s', heap_init n c s = Ok (r, s') /\ objs s' = objs s /\
    (r = -1 /\ blocks (arena_of s') = blocks (arena_of s) \/
     r = 0 /\ heap_wf s' [] /\ cmp (hp s') = c /\
     max_size (hp s') = (if decide (n = 0) then 200 else n) /\
     exists s'', heap_fini s' = Ok (tt, s'') /\
       blocks (arena_of s'') = blocks (arena_of s)).
Proof.
  intros Hn. apply wp_run. unfold heap_init.
  assert ((if n =? 0 then HEAP_DEFAULT_SIZE else n) = if decide (n = 0) then 200 else n) as ->.
  { destruct (Z.eqb_spec n 0); case_decide; done. }
  set (cap := if decide (n = 0) then 200 else n).
  assert (0 < cap < 2 ^ 31 - 2) as Hcap by (unfold cap; case_decide; lia).
  rewrite wp_bind, wp_zoom. apply wp_malloc; [apply u64_range|..].
  - intros a' Hb _. rewrite Z.eqb_refl. wp_simpl. auto.
  - intros p a' Hpn Hpf Hb _. rewrite (proj2 (Z.eqb_neq p NULL)) by done.
    wp_simpl. split; [done|]. right. split_and!; try done.
    + split; simpl; try done; [split; simpl; try done; [set_solver|apply NoDup_nil; done]|set_solver| |lia|].
      * rewrite length_replicate. lia.
      * split; [done|]. rewrite Hb. set_solver.
    + unfold heap_fini.
      enough (wp (h ← gets hp; zoom arena_of set_arena (free (map_ptr h)))
        (λ _ s'', blocks (arena_of s'') = blocks (arena_of s))
        (set_hp (mk_heap cap 0 c p (replicate (Z.to_nat cap) None)) (set_arena a' s)))
        as ([] & s'' & E & ?)%wp_run by eauto.
      rewrite wp_bind, wp_gets, wp_zoom. apply wp_free; [done|simpl; rewrite Hb; set_solver|].
      intros a'' Hb''. simpl in *. rewrite Hb'', Hb. set_solver.
Qed.

(** What is left after unlinking the item at [i] is a heap again; the one item
    that may not know its position is the last one, which took the vacated
    place: if it may stay there it still has the old position. *)
Lemma removed_loose s s' xs ys i x :
  heap_loose s xs -> removed s s' xs ys i x -> x :: ys ≡ₚ xs -> heap_loose s' ys.
Proof.
  intros [Hc Hact Hlen Hmax Hb] [Hc' Hhp Hl Har _ _ _ Ha _ _ _] Hys.
  assert (x ∉ ys) as Hx.
  { enough (NoDup (x :: ys)) as [? _]%NoDup_cons by done. rewrite Hys. apply (c_nodup _ _ Hc). }
  split; [done| |by rewrite Hl, Hhp|by rewrite Hhp|by rewrite Hhp, Har].
  intros y Hy. rewrite Ha by (by intros ->). apply Hact. rewrite <-Hys. by right.
Qed.

Lemma removed_knows s s' xs i x l :
  heap_wf s xs -> xs !! i = Some x -> last xs = Some l ->
  removed s s' xs (sift_down (lt_of s) (length xs) (replaced xs i) i) i x ->
  let ys := sift_down (lt_of s) (length xs) (replaced xs i) i in
  (forall y, y <> l -> y <> x -> knows (objs s') ys y) /\
  (l <> x -> knows (objs s') ys l \/
     ys !! i = Some l /\ index_of (objs s') l = Some (Z.of_nat (length xs) - 1)).
Proof.
  intros Hwf Hx Hl Hr. cbn zeta. set (ys := sift_down _ _ _ _) in *.
  pose proof (lookup_lt_Some _ _ _ Hx) as Hi. pose proof Hl as Hl'. rewrite last_lookup in Hl'.
  destruct (decide (smallest_of (lt_of s) (replaced xs i) i = i)) as [Hs|Hs].
  - destruct (rm_stay _ _ _ _ _ _ Hr Hs) as [-> Hobj]. split.
    + intros y Hyl Hyx k Hk. unfold index_of. rewrite Hobj by done. apply (hw_index _ _ Hwf).
      eapply replaced_lookup_ne; [|exact Hk]. intros ->. apply replaced_lookup_eq in Hk. congruence.
    + intros Hlx. right. split.
      * unfold replaced. rewrite Hl. apply list_lookup_insert_eq. rewrite length_take.
        assert (i <> Nat.pred (length xs)) by congruence. lia.
      * unfold index_of. rewrite Hobj by done. fold (index_of (objs s) l).
        rewrite (hw_index _ _ Hwf _ _ Hl'). f_equal. lia.
  - pose proof (rm_sunk _ _ _ _ _ _ Hr (hw_index _ _ Hwf) Hs) as Hk.
    split; [intros y _ _ k Hy; by apply Hk|intros _; left; intros k Hy; by apply Hk].
Qed.

(** C26: unlinking the item at a position in range returns that item, inactive
    and with its position reset; the heap then holds exactly the others, and
    every one of them is active and knows its position but, possibly, the
    one that took the vacated place. *)
Theorem heap_remove_correct s xs i x `{!CmpOk (cmp (hp s))} :
  heap_wf s xs -> xs !! i = Some x ->
  exists s' ys, heap_remove (Z.of_nat i) s = Ok (x, s') /\ cells s' ys /\ x :: ys ≡ₚ xs /\
    payload_eq (objs s) (objs s') /\
    index_of (objs s') x = Some 0 /\ active_of (objs s') x = Some 0 /\
    (forall y, y ∈ ys -> active_of (objs s') y = Some 1) /\
    (forall k, k <> i -> index_at (objs s') ys k).
Proof.
  intros [Hc Hix Hact Hlen Hmx Hp] Hx.
  pose proof (wp_heap_remove s xs i x Hc Hx) as (r & s' & E & -> & Hr)%wp_run.
  assert (x ∉ replaced xs i) as Hxr.
  { enough (NoDup (x :: replaced xs i)) as [? _]%NoDup_cons by done.
    rewrite replaced_Permutation; [apply (c_nodup _ _ Hc)|done]. }
  destruct Hr as [Hc' _ _ _ Hpl Hix0 Hac0 Hac _ Hsame Hpos].
  exists s'. eexists. split_and!; [done|done| |done..| |].
  - by rewrite sift_down_Permutation, replaced_Permutation.
  - intros y. rewrite sift_down_Permutation. intros Hy.
    rewrite Hac by (by intros ->). apply Hact.
    rewrite <-(replaced_Permutation xs i x Hx). by right.
  - intros k Hk. destruct (decide (smallest_of (lt_of s) (replaced xs i) i = i)) as [Hs|];
      [|by apply Hpos].
    destruct (Hsame Hs) as [-> Hobj]. intros y Hy.
    assert (y <> x) by (intros ->; by apply Hxr, list_elem_of_lookup_2 with k).
    unfold index_of. rewrite Hobj by done. apply Hix. by eapply replaced_lookup_ne.
Qed.

(** Out of range [heap_remove] returns [NULL] and changes nothing. *)
Lemma heap_remove_oob s xs idx :
  cells s xs -> Z.of_nat (length xs) <= idx -> heap_remove idx s = Ok (NULL, s).
Proof.
  intros Hc Hi. unfold heap_remove, mbind, M_bind, gets.
  rewrite (c_size _ _ Hc). by rewrite (proj2 (Z.leb_le _ _)).
Qed.

(** C31: on a heap in the order [heap_heapify] works towards, removing the
    first item returns one no other item is before, and the rest is again in
    that order: with [heap_remove] alone the heap is a priority queue. *)
Theorem heap_remove_first_min s x xs `{!CmpOk (cmp (hp s)), !StrictWeak (cmp (hp s))} :
  heap_wf s (x :: xs) -> min_heap (lt_of s) (x :: xs) ->
  exists s' ys, heap_remove_first s = Ok (x, s') /\ cells s' ys /\ ys ≡ₚ xs /\
    min_heap (lt_of s') ys /\ Forall (λ y, lt_of s y x = false) xs.
Proof.
  intros [Hc Hix _ _ _ _] Hmin.
  pose proof (wp_heap_remove s (x :: xs) 0 x Hc eq_refl) as (r & s' & E & -> & Hr)%wp_run.
  destruct Hr as [Hc' Hhp _ _ Hpl _ _ _ _ _ _].
  exists s'. eexists. split_and!; [done|done| | |].
  - apply (Permutation_cons_inv (a := x)).
    by rewrite sift_down_Permutation, replaced_Permutation.
  - rewrite Hhp. cbn [cmp with_map with_size]. intros i p c. rewrite <-Hpl.
    apply (remove_min_heap (lt_of s) (x :: xs) 0); [done|]. intros; lia.
  - apply (min_heap_root (lt_of s) xs x) in Hmin. by apply Forall_cons in Hmin as [_ ?].
Qed.

(** The position of the item that takes the vacated place is corrected
    only when the sinking moves it: if it may stay, its [index] remains the
    old last position, which is now out of range, so that
    [heap_remove(h, item->index)] finds nothing and the item cannot be
    unlinked. *)
Theorem heap_remove_stale_index s xs i x l `{!CmpOk (cmp (hp s)), !StrictWeak (cmp (hp s))} :
  heap_wf s xs -> xs !! i = Some x -> last xs = Some l -> l <> x ->
  (forall j y, (0 < j)%nat -> parent j = i -> replaced xs i !! j = Some y ->
     lt_of s y l = false) ->
  exists s', heap_remove (Z.of_nat i) s = Ok (x, s') /\
    map (hp s') !! i = Some (Some l) /\ active_of (objs s') l = Some 1 /\
    index_of (objs s') l = Some (Z.of_nat (length xs) - 1) /\
    heap_remove (Z.of_nat (length xs) - 1) s' = Ok (NULL, s').
Proof.
  intros [Hc Hix Hact _ _ _] Hx Hl Hlx Hch.
  pose proof (wp_heap_remove s xs i x Hc Hx) as (r & s' & E & -> & Hr)%wp_run.
  destruct Hr as [Hc' _ _ _ _ _ _ Hac _ Hsame _].
  pose proof Hl as Hl'. rewrite last_lookup in Hl'. 
  pose proof (lookup_lt_Some _ _ _ Hx) as Hi.
  assert (i <> Nat.pred (length xs)) as Hne by congruence.
  assert (replaced xs i !! i = Some l) as Hrl.
  { unfold replaced. rewrite Hl. apply list_lookup_insert_eq. rewrite length_take. lia. }
  assert (smallest_of (lt_of s) (replaced xs i) i = i) as Hs by (apply (smallest_of_stay _ _ _ l); [exact Hrl|exact Hch]).
  destruct (Hsame Hs) as [Hys Hobj]. rewrite Hys in Hc'.
  exists s'. split_and!; [done|by apply (c_map _ _ Hc')| | |].
  - rewrite Hac by done. by eapply Hact, list_elem_of_lookup_2.
  - unfold index_of. rewrite Hobj by done. fold (index_of (objs s) l).
    rewrite (Hix _ _ Hl'). f_equal. lia.
  - apply (heap_remove_oob _ _ _ Hc'). rewrite length_replaced. lia.
Qed.
End Correct.


(** ** Witnesses *)

(** A client: jobs ordered by their key. *)
Record job := mk_job { job_hi : heapitem; job_key : Z }.

#[export] Instance job_item : HeapItem job.
Proof.
  refine {| hi := job_hi; set_hi i o := mk_job i (job_key o) |}; [done..|by intros []].
Defined.

Definition job_lt (a b : job) : bool := job_key a <? job_key b.

#[export] Instance job_lt_ok : CmpOk job_lt.
Proof. done. Qed.
#[export] Instance job_lt_strict : StrictWeak job_lt.
Proof. unfold job_lt. split; intros; lia. Qed.

(** Three jobs in min-heap order, with room for a fourth. *)
Definition demo_heap : hstate job arena :=
  mk_hstate (mk_heap 4 3 job_lt 8 [Some 16; Some 32; Some 48; None])
    (list_to_map [(16, mk_job (mk_item 0 1) 1); (32, mk_job (mk_item 1 1) 5);
                  (48, mk_job (mk_item 2 1) 3); (64, mk_job (mk_item 0 0) 2)])
    (mk_arena 4000 {[8]}).

(** No jobs, in an array of one cell. *)
Definition demo_empty : hstate job arena :=
  mk_hstate (mk_heap 1 0 job_lt 8 [None]) (objs demo_heap) (mk_arena 4000 {[8]}).

Lemma demo_heap_wf : heap_wf demo_heap [16; 32; 48].
Proof.
  split.
  - split; [done| | | |vm_compute; done].
    + intros [|[|[|i]]] x; simpl; intros; by simplify_eq.
    + intros x Hx. apply list_elem_of_In in Hx. simpl in Hx.
      destruct Hx as [<-|[<-|[<-|[]]]]; vm_compute; eauto.
    + apply NoDup_ListNoDup. repeat constructor; simpl; lia.
  - intros [|[|[|k]]] x; simpl; intros; by simplify_eq.
  - intros x Hx. apply list_elem_of_In in Hx. simpl in Hx.
    destruct Hx as [<-|[<-|[<-|[]]]]; vm_compute; done.
  - done.
  - vm_compute. done.
  - split; [done|]. vm_compute. done.
Qed.

Lemma demo_heap_min : min_heap (item_lt (cmp (hp demo_heap)) (objs demo_heap)) [16; 32; 48].
Proof.
  intros [|[|[|i]]] p c Hi Hc Hp; try lia; vm_compute in Hc, Hp; by simplify_eq.
Qed.

Lemma demo_empty_wf : heap_wf demo_empty [].
Proof.
  split.
  - split; [done| | | |vm_compute; done]; [done|set_solver|by apply NoDup_nil].
  - by intros k x.
  - set_solver.
  - done.
  - vm_compute. done.
  - split; [done|]. vm_compute. done.
Qed.

Lemma heap_insert_correct_witness :
  exists r s', heap_insert 64 demo_heap = Ok (r, s') /\ r = 0 /\
    exists ys, heap_wf s' ys /\ ys ≡ₚ [64; 16; 32; 48].
Proof.
  destruct (heap_insert_correct demo_heap [16; 32; 48] 64) as (r & s' & E & _ & Hr).
  - exact demo_heap_wf.
  - vm_compute. intros H. apply list_elem_of_In in H. simpl in H. lia.
  - vm_compute. eauto.
  - vm_compute. reflexivity.
  - exists r, s'. split; [exact E|]. destruct Hr as [(-> & ys & Hy & Hp & _)|(_ & Hfull & _)].
    + split; [reflexivity|]. exists ys. split; [exact Hy|exact Hp].
    + vm_compute in Hfull. discriminate.
Defined.

Lemma heap_remove_correct_witness :
  exists s' ys, heap_remove 1 demo_heap = Ok (32, s') /\ cells s' ys /\ 32 :: ys ≡ₚ [16; 32; 48].
Proof.
  destruct (heap_remove_correct demo_heap [16; 32; 48] 1 32) as (s' & ys & E & Hc & Hp & _).
  - exact demo_heap_wf.
  - reflexivity.
  - exists s', ys. split; [exact E|split; [exact Hc|exact Hp]].
Defined.

Lemma heap_remove_first_min_witness :
  exists s' ys, heap_remove_first demo_heap = Ok (16, s') /\ cells s' ys /\ ys ≡ₚ [32; 48].
Proof.
  destruct (heap_remove_first_min demo_heap 16 [32; 48]) as (s' & ys & E & Hc & Hp & _).
  - exact demo_heap_wf.
  - exact demo_heap_min.
  - exists s', ys. split; [exact E|split; [exact Hc|exact Hp]].
Defined.

(** Unlinking the second job leaves the third in its place, unreachable. *)
Lemma heap_remove_stale_index_witness :
  exists s', heap_remove 1 demo_heap = Ok (32, s') /\
    map (hp s') !! 1%nat = Some (Some 48) /\
    index_of (objs s') 48 = Some 2 /\ heap_remove 2 s' = Ok (NULL, s').
Proof.
  destruct (heap_remove_stale_index demo_heap [16; 32; 48] 1 32 48) as (s' & E & Hm & _ & Hi & Hr).
  - exact demo_heap_wf.
  - reflexivity.
  - reflexivity.
  - lia.
  - intros [|[|[|j]]] y Hj Hp Hy; try lia; vm_compute in Hp, Hy; discriminate.
  - exists s'. split; [exact E|split; [exact Hm|split; [exact Hi|exact Hr]]].
Defined.

(** Inserting keys 1, 5 and 3 leaves the job with key 5 at the front. *)
Lemma heap_front_after_inserts_witness :
  exists s' x, heap_insert_all [16; 32; 48] demo_empty = Ok (0, s') /\
    heap_front s' = Ok (x, s') /\ x = 32.
Proof.
  destruct (heap_insert_all [16; 32; 48] demo_empty) as [[r s']| | |] eqn:E;
    [|vm_compute in E; discriminate..].
  assert (r = 0) as -> by (vm_compute in E; congruence).
  destruct (heap_front_after_inserts [16; 32; 48] demo_empty s') as (x & Hf & Hx & Hlt).
  - exact demo_empty_wf.
  - discriminate.
  - apply NoDup_ListNoDup. repeat constructor; simpl; lia.
  - intros x Hx. apply list_elem_of_In in Hx. simpl in Hx.
    destruct Hx as [<-|[<-|[<-|[]]]]; vm_compute; eauto.
  - vm_compute. reflexivity.
  - exact E.
  - exists s', x. split; [reflexivity|split; [exact Hf|]].
    assert (H32 : 32 ∈ [16; 32; 48]) by (apply list_elem_of_In; simpl; lia).
    apply Hlt in H32. clear E Hf.
    apply list_elem_of_In in Hx. simpl in Hx.
    destruct Hx as [<-|[<-|[<-|[]]]]; [vm_compute in H32; discriminate|reflexivity
      |vm_compute in H32; discriminate].
Defined.

Lemma heap_init_correct_witness :
  exists r s', heap_init 0 job_lt demo_empty = Ok (r, s') /\ r = 0 /\ max_size (hp s') = 200.
Proof.
  destruct (heap_init_correct demo_empty 0 job_lt) as (r & s' & E & _ & Hr).
  - lia.
  - exists r, s'. split; [exact E|]. destruct Hr as [[-> _]|(-> & _ & _ & Hm & _)].
    + vm_compute in E. discriminate.
    + split; [reflexivity|exact Hm].
Defined.
