(* ===== verification/Hashtable.v ===== *)
(** Hash tables of reference-counted elements (src/hashtable.c,
    include/ckit/hashtable.h).

    A table is a block of slots; a slot heads a ring of the elements whose hash
    selects it, and has its own read-write lock. An element is embedded in a
    client's object, its [list] first, so that the address of its node is its
    own. [K] is what a key pointer points to and [C] the client's own state. *)
From S2P Require Import Prelude Atomic Clist Malloc.

(** ** Locks

    [pthread_rwlock_t] as one thread sees it: a lock that is not free blocks,
    and with no other thread to release it the call does not return. *)
Inductive rwlock := LUninit | LFree | LRead (n : positive) | LWrite.

Definition rwlock_init : M rwlock unit := fun _ => Ok (tt, LFree).
Definition rwlock_wrlock : M rwlock unit := fun l =>
  match l with
  | LUninit => Fault
  | LFree => Ok (tt, LWrite)
  | LRead _ | LWrite => OutOfFuel
  end.
Definition rwlock_rdlock : M rwlock unit := fun l =>
  match l with
  | LUninit => Fault
  | LFree => Ok (tt, LRead 1)
  | LRead n => Ok (tt, LRead (n + 1))
  | LWrite => OutOfFuel
  end.
Definition rwlock_unlock : M rwlock unit := fun l =>
  match l with
  | LUninit | LFree => Fault
  | LRead n => Ok (tt, if decide (n = 1%positive) then LFree else LRead (n - 1))
  | LWrite => Ok (tt, LFree)
  end.
Definition rwlock_destroy : M rwlock unit := fun l =>
  match l with
  | LFree => Ok (tt, LUninit)
  | _ => Fault
  end.

(** ** Data *)
Record hashelm (K : Type) := mk_elm {
  refcount : atomic_t;
  hash : Z;
  key : option K;
  ht_of : option addr;
}.
Arguments mk_elm {K}.
Arguments refcount {K}.
Arguments hash {K}.
Arguments key {K}.
Arguments ht_of {K}.

(** What the callbacks see: the nodes, the elements and the client's state. *)
Record hmem (K C : Type) := mk_hmem {
  nodes : lmem;
  elems : gmap addr (hashelm K);
  client : C;
}.
Arguments mk_hmem {K C}.
Arguments nodes {K C}.
Arguments elems {K C}.
Arguments client {K C}.

Definition hashfn_t (K : Type) : Type := K -> Z.
Definition equalfn_t (K : Type) : Type := hashelm K -> K -> bool.
Definition freefn_t (K C : Type) : Type := addr -> M (hmem K C) unit.

(** A slot without its [head], which is a node at the slot's address. *)
Record hashslot := mk_slot { slot_count : Z; slot_lock : rwlock }.

Record hashtable (K C : Type) := mk_table {
  table : addr;
  mask : Z;
  count : atomic_t;
  hashfn : option (hashfn_t K);
  equalfn : option (equalfn_t K);
  freefn : option (freefn_t K C);
}.
Arguments mk_table {K C}.
Arguments table {K C}.
Arguments mask {K C}.
Arguments count {K C}.
Arguments hashfn {K C}.
Arguments equalfn {K C}.
Arguments freefn {K C}.

Record hstore (K C A : Type) := mk_hstore {
  mem : hmem K C;
  tabs : gmap addr (hashtable K C);
  slots : gmap addr hashslot;
  alloc : A;
}.
Arguments mk_hstore {K C A}.
Arguments mem {K C A}.
Arguments tabs {K C A}.
Arguments slots {K C A}.
Arguments alloc {K C A}.

Definition sizeof_hashslot : Z := 80.

Section Ops.
Context {K C A : Type} `{Allocator A}.
Abbreviation HT := (M (hstore K C A)).

(** ** Access to the parts of the store *)
Definition set_mem (x : hmem K C) (s : hstore K C A) : hstore K C A :=
  mk_hstore x (tabs s) (slots s) (alloc s).
Definition set_tabs x (s : hstore K C A) : hstore K C A :=
  mk_hstore (mem s) x (slots s) (alloc s).
Definition set_slots x (s : hstore K C A) : hstore K C A :=
  mk_hstore (mem s) (tabs s) x (alloc s).
Definition set_alloc x (s : hstore K C A) : hstore K C A :=
  mk_hstore (mem s) (tabs s) (slots s) x.
Definition nodes_of (s : hstore K C A) : lmem := nodes (mem s).
Definition set_nodes x (s : hstore K C A) : hstore K C A :=
  set_mem (mk_hmem x (elems (mem s)) (client (mem s))) s.
Definition elems_of (s : hstore K C A) : gmap addr (hashelm K) := elems (mem s).
Definition set_elems x (s : hstore K C A) : hstore K C A :=
  set_mem (mk_hmem (nodes (mem s)) x (client (mem s))) s.

Definition on_nodes {B} (m : M lmem B) : HT B := zoom nodes_of set_nodes m.
Definition on_elems {B} (m : M (gmap addr (hashelm K)) B) : HT B := zoom elems_of set_elems m.
Definition on_tabs {B} (m : M (gmap addr (hashtable K C)) B) : HT B := zoom tabs set_tabs m.
Definition on_slots {B} (m : M (gmap addr hashslot) B) : HT B := zoom slots set_slots m.

Definition with_refcount (v : Z) (e : hashelm K) : hashelm K :=
  mk_elm v (hash e) (key e) (ht_of e).
Definition with_count (v : Z) (t : hashtable K C) : hashtable K C :=
  mk_table (table t) (mask t) v (hashfn t) (equalfn t) (freefn t).
Definition with_lock (l : rwlock) (sl : hashslot) : hashslot := mk_slot (slot_count sl) l.
Definition with_slot_count (n : Z) (sl : hashslot) : hashslot := mk_slot n (slot_lock sl).

Definition lock_op {B} (slot : addr) (op : M rwlock B) : HT B :=
  on_slots (on_field slot slot_lock with_lock op).
Definition table_count {B} (ht : addr) (op : M atomic_t B) : HT B :=
  on_tabs (on_field ht count with_count op).

(** ** Elements *)
Definition hashelm_init (he : addr) : HT Z :=
  on_nodes (INIT_LIST he);;
  on_elems (on_field he refcount with_refcount (atomic_set 1));;
  mret 0.

Definition hashelm_hold (he : addr) : HT unit :=
  on_elems (on_field he refcount with_refcount atomic_inc);; mret tt.

Definition hashelm_put (he : addr) : HT unit :=
  z ← on_elems (on_field he refcount with_refcount atomic_dec_and_test);
  if (z : bool) then
    e ← on_elems (load he);
    h ← of_option (ht_of e);
    t ← on_tabs (load h);
    match freefn t with
    | Some f => zoom mem set_mem (f he)
    | None => mret tt
    end
  else mret tt.

Definition hashelm_hashed (he : addr) : HT bool :=
  b ← on_nodes (list_empty he); mret (negb b).

(** ** Loops over the slots

    [for (i = 0; i <= ht->mask; i++)]; [incr] is the increment of the loop
    variable's type. *)
Definition int_incr (i : Z) : outcome Z := if i + 1 <? 2 ^ 31 then Ok (i + 1) else Fault.
Definition unsigned_incr (i : Z) : outcome Z := Ok (u32 (i + 1)).

Definition slot_addr (t : hashtable K C) (i : Z) : addr := table t + sizeof_hashslot * i.

Fixpoint for_slots {S} (tables : S -> gmap addr (hashtable K C)) (incr : Z -> outcome Z)
    (fuel : nat) (ht : addr) (i : Z) (body : addr -> M S unit) : M S unit :=
  match fuel with
  | O => out_of_fuel
  | Datatypes.S fuel =>
      s ← get;
      t ← of_option (tables s !! ht);
      if i <=? mask t then
        body (slot_addr t i);;
        j ← lift (incr i);
        for_slots tables incr fuel ht j body
      else mret tt
  end.

(** ** Tables *)

(** The slots a block of [size] of them holds; [malloc] leaves their contents
    indeterminate, and [hashtable_init] assigns every field it reads. *)
Definition new_slots (p : addr) (size : Z) : list addr :=
  (fun i => p + sizeof_hashslot * Z.of_nat i) <$> seq 0 (Z.to_nat size).

Definition create_slots (p : addr) (size : Z) (s : hstore K C A) : hstore K C A :=
  set_slots (list_to_map ((., mk_slot 0 LUninit) <$> new_slots p size) ∪ slots s)
    (set_nodes (list_to_map ((., mk_list NULL NULL) <$> new_slots p size) ∪ nodes_of s) s).

Definition destroy_slots (p : addr) (size : Z) (s : hstore K C A) : hstore K C A :=
  set_slots (foldr delete (slots s) (new_slots p size))
    (set_nodes (foldr delete (nodes_of s) (new_slots p size)) s).

Definition init_slot (slot : addr) : HT unit :=
  on_nodes (INIT_LIST slot);;
  on_slots (update slot (with_slot_count 0));;
  lock_op slot rwlock_init.

Definition hashtable_init (fuel : nat) (ht : addr) (size : Z) (hf : hashfn_t K)
    (ef : equalfn_t K) (ff : option (freefn_t K C)) : HT Z :=
  on_tabs (update ht (fun _ => mk_table NULL 0 0 None None None));;
  p ← zoom alloc set_alloc (malloc (u64 (sizeof_hashslot * size)));
  on_tabs (update ht (fun t => mk_table p (mask t) (count t) (hashfn t) (equalfn t) (freefn t)));;
  if p =? NULL then mret (-1)
  else
    modify (create_slots p size);;
    on_tabs (update ht (fun t =>
      mk_table (table t) (u32 (size - 1)) 1 (Some hf) (Some ef) ff));;
    for_slots tabs int_incr fuel ht 0 init_slot;;
    mret 0.

(** [while (!list_empty(&ht->table[i].head))]. *)
Fixpoint drain_slot (fuel : nat) (slot : addr) : HT unit :=
  match fuel with
  | O => out_of_fuel
  | Datatypes.S fuel =>
      b ← on_nodes (list_empty slot);
      if (b : bool) then mret tt
      else
        he ← on_nodes (list_front slot);
        on_nodes (list_del he);;
        hashelm_put he;;
        drain_slot fuel slot
  end.

Definition fini_slot (fuel : nat) (slot : addr) : HT unit :=
  lock_op slot rwlock_wrlock;;
  drain_slot fuel slot;;
  on_nodes (INIT_LIST slot);;
  on_slots (update slot (with_slot_count 0));;
  lock_op slot rwlock_unlock;;
  lock_op slot rwlock_destroy.

(** The table's block and the slots in it go together. *)
Definition hashtable_fini (fuel : nat) (ht : addr) : HT unit :=
  for_slots tabs int_incr fuel ht 0 (fini_slot fuel);;
  table_count ht (atomic_set 0);;
  t ← on_tabs (load ht);
  zoom alloc set_alloc (free (table t));;
  modify (destroy_slots (table t) (mask t + 1)).

Definition get_slot (t : hashtable K C) (h : Z) : addr := slot_addr t (Z.land h (mask t)).

Definition hashtable_count (ht : addr) : HT Z := v ← table_count ht atomic_read; mret (u32 v).

(** [ht->hashfn(key)] and [ht->equalfn(he, key)]; a function pointer of a table
    that was not initialised is [NULL]. *)
Definition call_hashfn (ht : addr) (k : K) : HT Z :=
  t ← on_tabs (load ht);
  f ← of_option (hashfn t);
  mret (u32 (f k)).
Definition call_equalfn (ht he : addr) (k : K) : HT bool :=
  t ← on_tabs (load ht);
  f ← of_option (equalfn t);
  e ← on_elems (load he);
  mret (f e k).

Definition hashtable_hash (fuel : nat) (ht he : addr) (k : K) : HT Z :=
  b ← on_nodes (list_empty he);
  if negb b then mret (-1)
  else
    h ← call_hashfn ht k;
    on_elems (update he (fun e => mk_elm (refcount e) h (key e) (ht_of e)));;
    on_elems (update he (fun e => mk_elm (refcount e) (hash e) (key e) (Some ht)));;
    on_elems (update he (fun e => mk_elm (refcount e) (hash e) (Some k) (ht_of e)));;
    t ← on_tabs (load ht);
    e ← on_elems (load he);
    let slot := get_slot t (hash e) in
    lock_op slot rwlock_wrlock;;
    r ← list_foreach nodes_of fuel slot (fun he2 =>
          eq ← call_equalfn ht he2 k;
          if (eq : bool) then mret (Some tt) else mret None);
    match r with
    | Some _ => lock_op slot rwlock_unlock;; mret (-1)
    | None =>
        on_slots (update slot (fun sl => with_slot_count (u64 (slot_count sl + 1)) sl));;
        table_count ht atomic_inc;;
        on_nodes (list_add_front slot he);;
        hashelm_hold he;;
        lock_op slot rwlock_unlock;;
        mret 0
    end.

(** [__unhash]. *)
Definition unhash_from (ht slot he : addr) : HT unit :=
  on_nodes (list_del he);;
  on_slots (update slot (fun sl => with_slot_count (u64 (slot_count sl - 1)) sl));;
  table_count ht atomic_dec;;
  hashelm_put he.

Definition hashtable_unhash (ht he : addr) : HT unit :=
  t ← on_tabs (load ht);
  e ← on_elems (load he);
  let slot := get_slot t (hash e) in
  lock_op slot rwlock_wrlock;;
  unhash_from ht slot he;;
  lock_op slot rwlock_unlock.

(** [__hashtable_unhash]. *)
Definition hashtable_unhash_nolock (ht he : addr) : HT unit :=
  t ← on_tabs (load ht);
  e ← on_elems (load he);
  unhash_from ht (get_slot t (hash e)) he.

Definition hashtable_lookup (fuel : nat) (ht : addr) (k : K) : HT addr :=
  h ← call_hashfn ht k;
  t ← on_tabs (load ht);
  let slot := get_slot t h in
  lock_op slot rwlock_rdlock;;
  r ← list_foreach nodes_of fuel slot (fun he =>
        eq ← call_equalfn ht he k;
        if (eq : bool) then hashelm_hold he;; mret (Some he) else mret None);
  lock_op slot rwlock_unlock;;
  mret (default NULL r).

(** The counter [n] of the loops is an [int] beside the store. *)
Definition beside {B} (m : HT B) : M (Z * hstore K C A) B := zoom snd (fun s p => (p.1, s)) m.

(** One slot: lock, act on every element and count it, unlock. *)
Definition foreach_slot (lock : M rwlock unit) (fuel : nat) (act : addr -> M (hmem K C) unit)
    (slot : addr) : M (Z * hstore K C A) unit :=
  beside (lock_op slot lock);;
  _ ← list_foreach (fun p => nodes_of p.2) fuel slot (fun he =>
        beside (zoom mem set_mem (act he));;
        p ← get;
        n ← lift (int_incr p.1);
        modify (fun p => (n, p.2));;
        mret (@None unit));
  beside (lock_op slot rwlock_unlock).

Definition foreach_slots (lock : M rwlock unit) (fuel : nat) (ht : addr)
    (action : option (addr -> M (hmem K C) unit)) : HT Z :=
  match action with
  | None => mret (-1)
  | Some act => fun s =>
      match
        for_slots (fun p => tabs p.2) unsigned_incr fuel ht 0 (foreach_slot lock fuel act) (0, s)
      with
      | Ok (_, (n, s')) => Ok (n, s')
      | Fault => Fault
      | Aborted => Aborted
      | OutOfFuel => OutOfFuel
      end
  end.

Definition hashtable_foreach := foreach_slots rwlock_wrlock.
Definition hashtable_foreach_read := foreach_slots rwlock_rdlock.
End Ops.

(** ** Symbolic execution over the store *)

(** Compute the parts of an updated store. *)
Ltac ht_simpl :=
  cbn [nodes_of elems_of mem tabs slots alloc nodes elems client
       set_mem set_tabs set_slots set_alloc set_nodes set_elems
       refcount hash key ht_of with_refcount with_count with_lock with_slot_count
       slot_count slot_lock table mask count hashfn equalfn freefn].

Section Steps.
Context {K C A : Type} `{Allocator A}.
Implicit Types s : hstore K C A.

Lemma set_mem_id s : set_mem (mem s) s = s.
Proof. by destruct s. Qed.
Lemma set_tabs_id s : set_tabs (tabs s) s = s.
Proof. by destruct s. Qed.
Lemma set_slots_id s : set_slots (slots s) s = s.
Proof. by destruct s. Qed.
Lemma set_nodes_id s : set_nodes (nodes_of s) s = s.
Proof. by destruct s as [[] ? ? ?]. Qed.
Lemma set_elems_id s : set_elems (elems_of s) s = s.
Proof. by destruct s as [[] ? ? ?]. Qed.

Lemma wp_tab_load ht Q s :
  wp (on_tabs (load ht)) Q s <-> exists t, tabs s !! ht = Some t /\ Q t s.
Proof. unfold on_tabs. rewrite wp_zoom, wp_load, set_tabs_id. done. Qed.

Lemma wp_elem_load he Q s :
  wp (on_elems (load he)) Q s <-> exists e, elems_of s !! he = Some e /\ Q e s.
Proof. unfold on_elems. rewrite wp_zoom, wp_load, set_elems_id. done. Qed.

Lemma wp_elem_update he f Q s :
  wp (on_elems (update he f)) Q s <->
  exists e, elems_of s !! he = Some e /\ Q tt (set_elems (<[he := f e]> (elems_of s)) s).
Proof. unfold on_elems. rewrite wp_zoom, wp_update. done. Qed.

Lemma wp_elem_field {B} he (op : M atomic_t B) Q s :
  wp (on_elems (on_field he refcount with_refcount op)) Q s <->
  exists e, elems_of s !! he = Some e /\
    wp op (fun b v => Q b (set_elems (<[he := with_refcount v e]> (elems_of s)) s)) (refcount e).
Proof. unfold on_elems. rewrite wp_zoom, wp_on_field. done. Qed.

Lemma wp_slot_update slot f Q s :
  wp (on_slots (update slot f)) Q s <->
  exists sl, slots s !! slot = Some sl /\ Q tt (set_slots (<[slot := f sl]> (slots s)) s).
Proof. unfold on_slots. rewrite wp_zoom, wp_update. done. Qed.

Lemma wp_lock_op {B} slot (op : M rwlock B) Q s :
  wp (lock_op slot op) Q s <->
  exists sl, slots s !! slot = Some sl /\
    wp op (fun b l => Q b (set_slots (<[slot := with_lock l sl]> (slots s)) s)) (slot_lock sl).
Proof. unfold lock_op, on_slots. rewrite wp_zoom, wp_on_field. done. Qed.

Lemma wp_table_count {B} ht (op : M atomic_t B) Q s :
  wp (table_count ht op) Q s <->
  exists t, tabs s !! ht = Some t /\
    wp op (fun b v => Q b (set_tabs (<[ht := with_count v t]> (tabs s)) s)) (count t).
Proof. unfold table_count, on_tabs. rewrite wp_zoom, wp_on_field. done. Qed.

Lemma wp_on_nodes {B} (m : M lmem B) Q s :
  wp (on_nodes m) Q s <-> wp m (fun b n => Q b (set_nodes n s)) (nodes_of s).
Proof. apply wp_zoom. Qed.

Lemma wp_wrlock (Q : unit -> rwlock -> Prop) : Q tt LWrite -> wp rwlock_wrlock Q LFree.
Proof. done. Qed.
Lemma wp_unlock (Q : unit -> rwlock -> Prop) l :
  l = LWrite \/ l = LRead 1 -> Q tt LFree -> wp rwlock_unlock Q l.
Proof. by intros [->| ->]. Qed.

(** Taking a lock and releasing it leaves the slots as they were. *)
Lemma relock s slot n l :
  slots s !! slot = Some (mk_slot n LFree) ->
  set_slots (<[slot := mk_slot n LFree]> (<[slot := mk_slot n l]> (slots s))) s = s.
Proof.
  intros Hs. destruct s as [me tb sl al]. unfold set_slots. ht_simpl. f_equal.
  rewrite insert_insert, decide_True by done. by apply insert_id.
Qed.
Lemma wp_rdlock (Q : unit -> rwlock -> Prop) : Q tt (LRead 1) -> wp rwlock_rdlock Q LFree.
Proof. done. Qed.
End Steps.

#[export] Hint Rewrite @wp_tab_load @wp_elem_load @wp_elem_update @wp_elem_field
  @wp_slot_update @wp_lock_op @wp_table_count : wp.

(** Run the statements whose accesses the hypotheses justify. *)
Ltac ht_access :=
  match goal with
  | |- exists _, _ !! _ = Some _ /\ _ =>
      eexists; split; [first [eassumption | apply lookup_insert_eq] |]; ht_simpl
  end.
Ltac ht_go := repeat first [progress wp_simpl | ht_access]; cbn beta.

(** ** What a table represents *)
Section Rep.
Context {K C A : Type} `{Countable K} `{Allocator A}.
Implicit Types (s : hstore K C A) (t : hashtable K C).

Definition key_of s (x : addr) : option K := e ← elems_of s !! x; key e.

(** The contract of [equalfn]: it compares the key an element was hashed under
    with the key given. *)
Class EqualFn (ef : equalfn_t K) : Prop :=
  equalfn_spec e k k' : key e = Some k -> ef e k' = bool_decide (k = k').

(** The element [x] is properly in slot [i] of the table. *)
Record in_slot s (ht : addr) t (i : nat) (x : addr) (e : hashelm K) (k : K) : Prop := {
  is_elem : elems_of s !! x = Some e;
  is_key : key e = Some k;
  is_ht : ht_of e = Some ht;
  is_hash : exists hf, hashfn t = Some hf /\ hash e = u32 (hf k);
  is_index : Z.land (hash e) (mask t) = Z.of_nat i;
  is_ref : 1 <= refcount e < 2 ^ 31;
}.

(** The slots of the table at [ht] are rings through the elements [chains],
    every lock is free, and no element is in two places. *)
Record rep s (ht : addr) t (chains : list (list addr)) : Prop := {
  r_tab : tabs s !! ht = Some t;
  r_len : Z.of_nat (length chains) = mask t + 1;
  r_mask : 0 <= mask t < 2 ^ 31 - 1;
  r_equal : exists ef, equalfn t = Some ef /\ EqualFn ef;
  r_hash : is_Some (hashfn t);
  r_ring i xs : chains !! i = Some xs -> is_list (nodes_of s) (slot_addr t (Z.of_nat i)) xs;
  r_slot i xs : chains !! i = Some xs ->
    slots s !! slot_addr t (Z.of_nat i) = Some (mk_slot (Z.of_nat (length xs)) LFree);
  r_nodup : NoDup (concat chains);
  r_elem i xs x : chains !! i = Some xs -> x ∈ xs -> exists e k, in_slot s ht t i x e k;
  r_apart i : (i < length chains)%nat -> elems_of s !! slot_addr t (Z.of_nat i) = None;
  r_null : elems_of s !! NULL = None;
  r_count : count t = 1 + Z.of_nat (length (concat chains));
  r_small : Z.of_nat (length (concat chains)) < 2 ^ 31 - 2;
}.

(** The table at [ht] implements the finite map [m] from keys to elements. *)
Definition table_map s (ht : addr) t (m : gmap K addr) : Prop :=
  exists chains, rep s ht t chains /\
    forall k x, m !! k = Some x <-> x ∈ concat chains /\ key_of s x = Some k.

Lemma slot_addr_inj t i j : slot_addr t i = slot_addr t j -> i = j.
Proof. unfold slot_addr, sizeof_hashslot. lia. Qed.

Lemma concat_insert {X} (chains : list (list X)) i xs :
  chains !! i = Some xs ->
  exists rest, concat chains ≡ₚ xs ++ rest /\
    (forall ys, concat (<[i := ys]> chains) ≡ₚ ys ++ rest) /\
    (forall j ys x, j <> i -> chains !! j = Some ys -> x ∈ ys -> x ∈ rest) /\
    (forall x, x ∈ rest -> exists j ys, j <> i /\ chains !! j = Some ys /\ x ∈ ys).
Proof.
  intros Hi. pose proof (lookup_lt_Some _ _ _ Hi) as Hlt.
  exists (concat (take i chains) ++ concat (drop (S i) chains)).
  assert (forall l1 l2 (ys : list X), concat (l1 ++ ys :: l2) ≡ₚ ys ++ concat l1 ++ concat l2) as Hc.
  { intros. rewrite concat_app. simpl. rewrite !(assoc_L app). by rewrite (comm app (concat l1)). }
  split_and!.
  - rewrite <-(take_drop_middle chains i xs Hi) at 1. apply Hc.
  - intros ys. rewrite insert_take_drop by done. apply Hc.
  - intros j ys x Hj Hys Hx. rewrite <-concat_app. apply list_elem_of_In, in_concat.
    exists ys. split; [|by apply list_elem_of_In]. apply list_elem_of_In, elem_of_app.
    destruct (decide (j < i)%nat).
    + left. apply list_elem_of_lookup. exists j. by rewrite lookup_take_lt.
    + right. apply list_elem_of_lookup. exists (j - S i)%nat. rewrite lookup_drop.
      by replace (S i + (j - S i))%nat with j by lia.
  - intros x. rewrite <-concat_app. intros (ys & Hys & Hx)%list_elem_of_In%in_concat.
    apply list_elem_of_In, elem_of_app in Hys as [(j & Hj)%list_elem_of_lookup|(j & Hj)%list_elem_of_lookup].
    + pose proof (lookup_lt_Some _ _ _ Hj) as Hjl. rewrite length_take in Hjl.
      exists j, ys. rewrite lookup_take_lt in Hj by lia. split_and!; [lia|done|by apply list_elem_of_In].
    + rewrite lookup_drop in Hj. exists (S i + j)%nat, ys. split_and!; [lia|done|by apply list_elem_of_In].
Qed.

Lemma elem_of_chains {X} (chains : list (list X)) x :
  x ∈ concat chains <-> exists i xs, chains !! i = Some xs /\ x ∈ xs.
Proof.
  split.
  - intros (xs & Hxs & Hx)%list_elem_of_In%in_concat.
    apply list_elem_of_In, list_elem_of_lookup in Hxs as [i Hi].
    exists i, xs. split; [done|by apply list_elem_of_In].
  - intros (i & xs & Hi & Hx). apply list_elem_of_In, in_concat. exists xs.
    split; apply list_elem_of_In; [by eapply list_elem_of_lookup_2|done].
Qed.

(** The slot a hash selects is inside the block, whatever the size. *)
Lemma get_slot_bound t (chains : list (list addr)) h :
  Z.of_nat (length chains) = mask t + 1 -> 0 <= mask t -> 0 <= h ->
  exists i, (i < length chains)%nat /\ Z.land h (mask t) = Z.of_nat i.
Proof.
  intros Hl Hm Hh. pose proof (proj2 (Z.land_nonneg h (mask t))) as Hnn.
  assert (Z.land h (mask t) <= mask t) as Hle.
  { pose proof (Z.add_lor_land (Z.land h (mask t)) (Z.ldiff (mask t) h)) as Hs.
    assert (0 <= Z.ldiff (mask t) h) by (apply Z.ldiff_nonneg; lia).
    replace (Z.lor _ _) with (mask t) in Hs; [replace (Z.land (Z.land _ _) _) with 0 in Hs; [lia|]|].
    - apply Z.bits_inj'. intros n Hn. rewrite !Z.land_spec, Z.ldiff_spec, Z.bits_0.
      by destruct (Z.testbit h n), (Z.testbit (mask t) n).
    - apply Z.bits_inj'. intros n Hn. rewrite Z.lor_spec, Z.land_spec, Z.ldiff_spec.
      by destruct (Z.testbit h n), (Z.testbit (mask t) n). }
  exists (Z.to_nat (Z.land h (mask t))). lia.
Qed.
End Rep.

(** ** Changing one chain *)
Section Chains.
Context {K C A : Type} `{Countable K} `{Allocator A}.
Implicit Types (s : hstore K C A) (t : hashtable K C) (chains : list (list addr)).

Lemma in_slot_frame s s' ht t i x e k v :
  in_slot s ht t i x e k -> elems_of s' !! x = Some e -> in_slot s' ht (with_count v t) i x e k.
Proof. intros [] ?. by split. Qed.

Lemma in_slot_ref s s' ht t i x e k v r :
  in_slot s ht t i x e k -> elems_of s' !! x = Some (with_refcount r e) -> 1 <= r < 2 ^ 31 ->
  in_slot s' ht (with_count v t) i x (with_refcount r e) k.
Proof. intros [] ? ?. by split. Qed.

(** An operation that turns the chain at [i] into [ys] and leaves the others
    alone keeps the table well formed. *)
Lemma rep_replace s s' ht t chains i xs ys :
  let chains' := <[i := ys]> chains in
  rep s ht t chains -> chains !! i = Some xs ->
  tabs s' !! ht = Some (with_count (1 + Z.of_nat (length (concat chains'))) t) ->
  is_list (nodes_of s') (slot_addr t (Z.of_nat i)) ys ->
  (forall j zs p, j <> i -> chains !! j = Some zs -> p ∈ slot_addr t (Z.of_nat j) :: zs ->
     nodes_of s' !! p = nodes_of s !! p) ->
  slots s' = <[slot_addr t (Z.of_nat i) := mk_slot (Z.of_nat (length ys)) LFree]> (slots s) ->
  (forall x, x ∈ ys -> exists e k, in_slot s' ht t i x e k) ->
  (forall j zs x, j <> i -> chains !! j = Some zs -> x ∈ zs -> x ∉ ys /\ elems_of s' !! x = elems_of s !! x) ->
  (forall p, elems_of s !! p = None -> elems_of s' !! p = None) -> NoDup ys ->
  Z.of_nat (length (concat chains')) < 2 ^ 31 - 2 ->
  rep s' ht (with_count (1 + Z.of_nat (length (concat chains'))) t) chains'.
Proof.
  intros chains' [Ht Hl Hm Heq Hhf Hring Hslot Hnd Hel Hap Hnull Hct Hsm] Hi Ht' Hr' Hn' Hs' Hy' He' Hnone Hndy Hsm'.
  pose proof (lookup_lt_Some _ _ _ Hi) as Hlt.
  destruct (concat_insert chains i xs Hi) as (rest & Hp & Hp' & Hin & Hout).
  assert (forall j zs, chains' !! j = Some zs -> j = i /\ zs = ys \/ j <> i /\ chains !! j = Some zs) as Hcase.
  { unfold chains'. intros j zs. rewrite list_lookup_insert. case_decide; naive_solver. }
  split; try done.
  - unfold chains'. by rewrite length_insert.
  - intros j zs [[-> ->]|[Hj Hz]]%Hcase; [done|]. eapply is_list_frame; [by apply Hring|].
    intros p Hpz. by eapply Hn'.
  - intros j zs [[-> ->]|[Hj Hz]]%Hcase; rewrite Hs', lookup_insert; case_decide as Heqj; try done.
    + apply (slot_addr_inj t) in Heqj. lia.
    + by apply Hslot.
  - unfold chains'. rewrite Hp'. rewrite Hp in Hnd. apply NoDup_app in Hnd as (_ & _ & Hndr).
    apply NoDup_app. split_and!; [done| |done]. intros x Hx (j & zs & Hj & Hz & Hxz)%Hout.
    by destruct (He' j zs x Hj Hz Hxz).
  - intros j zs x [[-> ->]|[Hj Hz]]%Hcase Hx.
    + destruct (Hy' x Hx) as (e & k & Hek). exists e, k. eapply in_slot_frame; [done|]. apply Hek.
    + destruct (Hel j zs x Hz Hx) as (e & k & Hek). exists e, k. eapply in_slot_frame; [done|].
      rewrite (proj2 (He' j zs x Hj Hz Hx)). apply Hek.
  - intros j Hj. apply Hnone. unfold chains' in Hj. rewrite length_insert in Hj. by apply Hap.
  - by apply Hnone.
Qed.

(** Elements of different chains, and the heads, are different nodes. *)
Lemma rep_separate s ht t chains i j xs zs p :
  rep s ht t chains -> chains !! i = Some xs -> chains !! j = Some zs -> j <> i ->
  p ∈ slot_addr t (Z.of_nat j) :: zs -> p ∉ slot_addr t (Z.of_nat i) :: xs.
Proof.
  intros Hrep Hi Hj Hne Hp. 
  destruct (concat_insert chains i xs Hi) as (rest & Hperm & _ & Hin & _).
  pose proof (r_nodup _ _ _ _ Hrep) as Hnd. rewrite Hperm in Hnd.
  apply NoDup_app in Hnd as (_ & Hdis & _).
  pose proof (lookup_lt_Some _ _ _ Hi) as Hil. pose proof (lookup_lt_Some _ _ _ Hj) as Hjl.
  rewrite elem_of_cons. apply elem_of_cons in Hp as [->|Hp]; intros [Hq|Hq].
  - apply slot_addr_inj in Hq. lia.
  - destruct (r_elem _ _ _ _ Hrep i xs _ Hi Hq) as (e & k & He%is_elem).
    by rewrite (r_apart _ _ _ _ Hrep) in He.
  - destruct (r_elem _ _ _ _ Hrep j zs _ Hj Hp) as (e & k & He%is_elem). subst.
    by rewrite (r_apart _ _ _ _ Hrep) in He.
  - by eapply Hdis, Hin.
Qed.

(** A node linked to itself is in no chain. *)
Lemma self_not_in m a xs x : is_list m x [] -> is_list m a xs -> x ∈ xs -> False.
Proof.
  intros [_ [Hx _]] Hl (l1 & l2 & ->)%list_elem_of_split.
  destruct (is_list_elem_next _ _ _ _ _ Hl) as (n & Hn & Hnx).
  unfold next_of in Hx. rewrite Hn in Hx. injection Hx as Hx. rewrite Hnx in Hx.
  destruct Hl as [Hnd _]. rewrite app_comm_cons in Hnd. apply NoDup_middle in Hnd as [Hnd _].
  apply Hnd. destruct l2 as [|y l2]; simpl in *; subst; set_solver.
Qed.
End Chains.

(** ** Searching a slot *)
Section Search.
Context {K C A : Type} `{Countable K} `{Allocator A}.
Implicit Types (s : hstore K C A) (t : hashtable K C) (chains : list (list addr)).

Lemma wp_call_hashfn s ht t hf k Q :
  tabs s !! ht = Some t -> hashfn t = Some hf -> Q (u32 (hf k)) s -> wp (call_hashfn ht k) Q s.
Proof. intros. unfold call_hashfn. wp_go. eexists; split; [done|]. wp_go. eauto. Qed.

Lemma wp_call_equalfn s ht t ef `{!EqualFn ef} x k Q :
  tabs s !! ht = Some t -> equalfn t = Some ef -> is_Some (key_of s x) ->
  Q (bool_decide (key_of s x = Some k)) s -> wp (call_equalfn ht x k) Q s.
Proof.
  intros Ht Hef [k' Hk'] HQ. pose proof Hk' as (e & He & Hek)%bind_Some.
  unfold call_equalfn. wp_simpl. eexists; split; [done|]. wp_simpl. eexists; split; [done|]. wp_simpl.
  eexists; split; [done|]. wp_simpl. erewrite equalfn_spec by done. rewrite Hk' in HQ.
  by erewrite bool_decide_ext by (by rewrite <-(inj_iff Some)).
Qed.

(** The loop stops at the element with the key, and otherwise runs to the end
    without a change of the store. *)
Lemma wp_slot_search {R} s ht t ef `{!EqualFn ef} slot xs k fuel
    (found : addr -> M (hstore K C A) (option R)) Q :
  tabs s !! ht = Some t -> equalfn t = Some ef ->
  is_list (nodes_of s) slot xs -> (length xs < fuel)%nat ->
  (forall x, x ∈ xs -> is_Some (key_of s x)) ->
  (forall x, x ∈ xs -> key_of s x = Some k ->
     wp (found x) (fun r s' => exists v, r = Some v /\ Q (Some v) s') s) ->
  ((forall x, x ∈ xs -> key_of s x <> Some k) -> Q None s) ->
  wp (list_foreach nodes_of fuel slot (fun he =>
        eq ← call_equalfn ht he k;
        if (eq : bool) then found he else mret None)) Q s.
Proof.
  intros Ht Hef Hl Hfuel Hkeys Hfound Hnone.
  apply (wp_list_foreach nodes_of (fun l s' => s' = s /\ forall x, x ∈ l -> key_of s x <> Some k)
           _ slot xs); [done..|set_solver| |naive_solver].
  intros l x r s' Hxs _ [-> Hl']. assert (x ∈ xs) as Hx by set_solver.
  rewrite wp_bind. eapply wp_call_equalfn; [done|done|done|by apply Hkeys|].
  case_bool_decide as Hk.
  - eapply wp_mono; [by apply Hfound|]. by intros r' s' (v & -> & HQ).
  - wp_simpl. split; [done|split; [done|]]. set_solver.
Qed.
End Search.

(** ** The operations on one element *)
Section Insert.
Context {K C A : Type} `{Countable K} `{Allocator A}.
Implicit Types (s : hstore K C A) (t : hashtable K C) (chains : list (list addr)).

(** Elements other than [he] that are linked to nothing stay as they are. *)
Definition loners_kept s s' (he : addr) : Prop := forall x,
  x <> he -> is_Some (elems_of s !! x) -> is_list (nodes_of s) x [] -> nodes_of s' !! x = nodes_of s !! x.

(** Elements outside the table may change. *)
Lemma rep_outside s s' ht t chains :
  rep s ht t chains -> tabs s' = tabs s -> slots s' = slots s ->
  (forall i xs p, chains !! i = Some xs -> p ∈ slot_addr t (Z.of_nat i) :: xs ->
     nodes_of s' !! p = nodes_of s !! p) ->
  (forall x, x ∈ concat chains -> elems_of s' !! x = elems_of s !! x) ->
  (forall p, elems_of s !! p = None -> elems_of s' !! p = None) ->
  rep s' ht t chains.
Proof.
  intros [] Ht Hs Hn He Hnone. split; try done.
  - by rewrite Ht.
  - intros i xs Hi. eapply is_list_frame; eauto.
  - intros i xs Hi. rewrite Hs. auto.
  - intros i xs x Hi Hx. destruct (r_elem0 i xs x Hi Hx) as (e & k & []).
    exists e, k. split; try done. rewrite He; [done|]. apply elem_of_chains. eauto.
  - auto.
  - auto.
Qed.

Lemma table_map_key s ht t chains x :
  rep s ht t chains -> x ∈ concat chains -> is_Some (key_of s x).
Proof.
  intros Hr (i & xs & Hi & Hx)%elem_of_chains.
  destruct (r_elem _ _ _ _ Hr i xs x Hi Hx) as (e & k & []).
  exists k. unfold key_of. by rewrite is_elem0.
Qed.

(** The number of elements is the size of the map. *)
Lemma table_map_size s ht t chains (m : gmap K addr) :
  rep s ht t chains ->
  (forall k x, m !! k = Some x <-> x ∈ concat chains /\ key_of s x = Some k) ->
  length (concat chains) = size m.
Proof.
  intros Hr Hm. rewrite <-length_map_to_list, <-(length_fmap snd (map_to_list m)).
  apply Permutation_length, NoDup_Permutation.
  - apply (r_nodup _ _ _ _ Hr).
  - apply NoDup_fmap_2_strong; [|apply NoDup_map_to_list].
    intros [k1 x1] [k2 x2] H1%elem_of_map_to_list H2%elem_of_map_to_list. simpl. intros <-.
    apply Hm in H1 as [_ H1], H2 as [_ H2]. congruence.
  - intros x. rewrite list_elem_of_fmap. split.
    + intros Hx. destruct (table_map_key _ _ _ _ _ Hr Hx) as [k Hk].
      exists (k, x). split; [done|]. apply elem_of_map_to_list, Hm. done.
    + intros ([k y] & -> & Hy%elem_of_map_to_list%Hm). apply Hy.
Qed.

(** A key is only in the slot its hash selects. *)
Lemma key_in_slot s ht t chains hf k i xs x :
  rep s ht t chains -> hashfn t = Some hf -> Z.land (u32 (hf k)) (mask t) = Z.of_nat i ->
  chains !! i = Some xs -> x ∈ concat chains -> key_of s x = Some k -> x ∈ xs.
Proof.
  intros Hr Hhf Hland Hi (j & zs & Hj & Hx)%elem_of_chains Hk.
  destruct (r_elem _ _ _ _ Hr j zs x Hj Hx) as (e & k' & [He Hek Heh (hf' & Hhf' & Hh) Hidx Href]).
  unfold key_of in Hk. rewrite He in Hk. simpl in Hk. simplify_eq.
  rewrite Hh, Hland in Hidx. apply Nat2Z.inj in Hidx. by simplify_eq.
Qed.

(** The slot of a key. *)
Lemma key_slot s ht t chains hf k :
  rep s ht t chains -> hashfn t = Some hf ->
  exists i xs, chains !! i = Some xs /\ Z.land (u32 (hf k)) (mask t) = Z.of_nat i.
Proof.
  intros Hr Hhf. destruct (get_slot_bound t chains (u32 (hf k))) as (i & Hi & Hl).
  - apply (r_len _ _ _ _ Hr).
  - apply (r_mask _ _ _ _ Hr).
  - apply u32_range.
  - destruct (lookup_lt_is_Some_2 _ _ Hi) as [xs Hxs]. eauto.
Qed.

Lemma chain_length chains i xs :
  chains !! i = Some xs -> (length xs <= length (concat chains))%nat.
Proof.
  intros Hi. destruct (concat_insert chains i xs Hi) as (rest & -> & _). rewrite length_app. lia.
Qed.

(** The store in which a search runs: the lock of the slot is taken. *)
Lemma key_of_elems s s' x : elems_of s' = elems_of s -> key_of s' x = key_of s x.
Proof. unfold key_of. by intros ->. Qed.

(** What [hashtable_lookup] does, for any table. *)
Lemma wp_hashtable_lookup s ht t (m : gmap K addr) k fuel Q :
  table_map s ht t m -> (size m < fuel)%nat ->
  match m !! k with
  | Some x => forall e, elems_of s !! x = Some e -> refcount e < 2 ^ 31 - 1 /\
      Q x (set_elems (<[x := with_refcount (refcount e + 1) e]> (elems_of s)) s)
  | None => Q NULL s
  end ->
  wp (hashtable_lookup fuel ht k) Q s.
Proof.
  intros (chains & Hr & Hm) Hfuel HQ. pose proof (r_equal _ _ _ _ Hr) as (ef & Hef & Hefok).
  destruct (r_hash _ _ _ _ Hr) as [hf Hhf]. pose proof (r_tab _ _ _ _ Hr) as Ht.
  destruct (key_slot s ht t chains hf k Hr Hhf) as (i & xs & Hi & Hland).
  rewrite <-(table_map_size _ _ _ _ _ Hr Hm) in Hfuel.
  pose proof (chain_length _ _ _ Hi) as Hlen.
  unfold hashtable_lookup. rewrite wp_bind. eapply wp_call_hashfn; [done..|].
  wp_simpl. exists t. split; [done|]. unfold get_slot. rewrite Hland. wp_simpl.
  eexists. split; [by apply (r_slot _ _ _ _ Hr)|]. apply wp_rdlock. ht_simpl. wp_simpl.
  set (slot := slot_addr t (Z.of_nat i)) in *.
  set (s1 := set_slots _ s).
  pose proof (r_slot _ _ _ _ Hr _ _ Hi) as Hslot.
  assert (slots s1 !! slot = Some (mk_slot (Z.of_nat (length xs)) (LRead 1))) as Hslot1
    by apply lookup_insert_eq.
  apply (wp_slot_search s1 ht t ef slot xs k); [done|done|by apply (r_ring _ _ _ _ Hr)|lia| | |].
  - intros x Hx. rewrite (key_of_elems s s1) by done. eapply table_map_key; [done|].
    apply elem_of_chains. eauto.
  - intros x Hx Hk. rewrite (key_of_elems s s1) in Hk by done.
    assert (m !! k = Some x) as Hmk. { apply Hm. split; [|done]. apply elem_of_chains. eauto. }
    rewrite Hmk in HQ. destruct (r_elem _ _ _ _ Hr i xs x Hi Hx) as (e & k' & [He _ _ _ _ Href]).
    destruct (HQ e He) as [Hlt HQx].
    unfold hashelm_hold. wp_simpl. exists e. split; [done|]. rewrite wp_atomic_inc by lia. wp_simpl.
    exists x. split; [done|]. wp_simpl. eexists. split; [done|].
    apply wp_unlock; [by right|]. wp_simpl. cbn [default].
    erewrite <-(relock s) in HQx at 2 by done. exact HQx.
  - intros Hno. destruct (m !! k) as [x|] eqn:Hmk.
    { apply Hm in Hmk as [Hx Hk]. edestruct (Hno x); [by eapply key_in_slot|].
      by rewrite (key_of_elems s s1). }
    wp_simpl. eexists. split; [done|]. apply wp_unlock; [by right|]. wp_simpl.
    erewrite <-(relock s) in HQ by done. exact HQ.
Qed.
End Insert.

Section Hash.
Context {K C A : Type} `{Countable K} `{Allocator A}.
Implicit Types (s : hstore K C A) (t : hashtable K C) (chains : list (list addr)).

(** The element after [hashtable_hash] has filled it in. *)
Definition stamped (ht : addr) (hf : hashfn_t K) (k : K) (e : hashelm K) : hashelm K :=
  mk_elm (refcount e) (u32 (hf k)) (Some k) (Some ht).

(** The first statements, up to the search. *)
Lemma stamp_elem s he e h k ht :
  set_elems (<[he := mk_elm (refcount e) h (Some k) (Some ht)]>
    (<[he := mk_elm (refcount e) h (key e) (Some ht)]>
      (<[he := mk_elm (refcount e) h (key e) (ht_of e)]> (elems_of s)))) s =
  set_elems (<[he := mk_elm (refcount e) h (Some k) (Some ht)]> (elems_of s)) s.
Proof. by rewrite !insert_insert_eq. Qed.

(** A self-linked element is outside the table. *)
Lemma self_outside s ht t chains he e i xs :
  rep s ht t chains -> is_list (nodes_of s) he [] -> elems_of s !! he = Some e ->
  chains !! i = Some xs -> he ∉ slot_addr t (Z.of_nat i) :: xs.
Proof.
  intros Hr Hself He Hi [->|Hx]%elem_of_cons.
  - apply lookup_lt_Some in Hi. by rewrite (r_apart _ _ _ _ Hr) in He.
  - eapply self_not_in; [done|by apply (r_ring _ _ _ _ Hr)|done].
Qed.

Lemma self_outside_all s ht t chains he e :
  rep s ht t chains -> is_list (nodes_of s) he [] -> elems_of s !! he = Some e ->
  he ∉ concat chains.
Proof.
  intros Hr Hself He (i & xs & Hi & Hx)%elem_of_chains.
  eapply self_outside; [done..|]. by apply elem_of_cons; right.
Qed.

(** Linking the element in gives a table with one more element. *)
Lemma rep_link s s' ht t chains hf k he e i xs :
  rep s ht t chains -> hashfn t = Some hf ->
  chains !! i = Some xs -> Z.land (u32 (hf k)) (mask t) = Z.of_nat i ->
  is_list (nodes_of s) he [] -> elems_of s !! he = Some e -> 1 <= refcount e < 2 ^ 31 - 1 ->
  Z.of_nat (length (concat chains)) < 2 ^ 31 - 3 ->
  tabs s' !! ht = Some (with_count (count t + 1) t) ->
  is_list (nodes_of s') (slot_addr t (Z.of_nat i)) (he :: xs) ->
  (forall p, p ∉ he :: slot_addr t (Z.of_nat i) :: xs -> nodes_of s' !! p = nodes_of s !! p) ->
  slots s' = <[slot_addr t (Z.of_nat i) := mk_slot (Z.of_nat (length xs) + 1) LFree]> (slots s) ->
  elems_of s' = <[he := with_refcount (refcount e + 1) (stamped ht hf k e)]> (elems_of s) ->
  rep s' ht (with_count (count t + 1) t) (<[i := he :: xs]> chains).
Proof.
  intros Hr Hhf Hi Hland Hself He Href Hsm Ht' Hring Hframe Hsl Hel.
  pose proof (self_outside_all _ _ _ _ _ _ Hr Hself He) as Hout.
  destruct (concat_insert chains i xs Hi) as (rest & Hp & Hp' & _).
  assert (length (concat (<[i := he :: xs]> chains)) = S (length (concat chains))) as Hlen.
  { rewrite Hp', Hp. done. }
  assert (count t + 1 = 1 + Z.of_nat (length (concat (<[i := he :: xs]> chains)))) as Hct.
  { rewrite (r_count _ _ _ _ Hr), Hlen. lia. }
  rewrite Hct in Ht' |- *. apply (rep_replace s s' ht t chains i xs); try done.
  - intros j zs p Hj Hz Hpz. apply Hframe. rewrite elem_of_cons. intros [->|Hin].
    + by eapply self_outside.
    + by eapply (rep_separate s ht t chains i j xs zs p).
  - rewrite Hsl. do 2 f_equal. simpl. lia.
  - intros x [->|Hx]%elem_of_cons.
    + eexists _, k. split; [rewrite Hel; apply lookup_insert_eq|done|done|by exists hf|done|simpl; lia].
    + destruct (r_elem _ _ _ _ Hr i xs x Hi Hx) as (e' & k' & []). exists e', k'. split; try done.
      rewrite Hel, lookup_insert_ne; [done|]. intros <-. apply Hout, elem_of_chains. eauto.
  - intros j zs x Hj Hz Hx. assert (x ∈ concat chains) as Hxc by (apply elem_of_chains; eauto).
    assert (x <> he) by by intros ->. split.
    + apply not_elem_of_cons. split; [done|]. intros Hxx.
      eapply (rep_separate s ht t chains i j xs zs x); [done..| |]; by apply elem_of_cons; right.
    + by rewrite Hel, lookup_insert_ne.
  - intros p Hpn. rewrite Hel, lookup_insert_ne; [done|]. congruence.
  - destruct (r_ring _ _ _ _ Hr _ _ Hi) as [[_ Hnd]%NoDup_cons _].
    apply NoDup_cons. split; [|done]. intros Hx. apply Hout, elem_of_chains. eauto.
  - rewrite Hlen. lia.
Qed.

(** The map the enlarged table implements. *)
Lemma map_link s s' ht t chains (m : gmap K addr) k he xs i e' :
  rep s ht t chains ->
  (forall k x, m !! k = Some x <-> x ∈ concat chains /\ key_of s x = Some k) ->
  chains !! i = Some xs -> he ∉ concat chains -> m !! k = None ->
  elems_of s' = <[he := e']> (elems_of s) -> key e' = Some k ->
  forall k' x, <[k := he]> m !! k' = Some x <->
    x ∈ concat (<[i := he :: xs]> chains) /\ key_of s' x = Some k'.
Proof.
  intros Hr Hm Hi Hout Hmk Hel Hk k' x.
  destruct (concat_insert chains i xs Hi) as (rest & Hp & Hp' & _).
  assert (x ∈ concat (<[i := he :: xs]> chains) <-> x = he \/ x ∈ concat chains) as ->.
  { rewrite Hp', Hp. simpl. by rewrite elem_of_cons. }
  assert (key_of s' x = if decide (he = x) then Some k else key_of s x) as ->.
  { unfold key_of. rewrite Hel, lookup_insert. by case_decide. }
  rewrite lookup_insert. case_decide as Hkk; case_decide as Hxx; subst.
  - naive_solver.
  - split; [congruence|]. intros [[?|Hx] Hkx]; [done|].
    assert (m !! k' = Some x) by by apply Hm. congruence.
  - split; [|intros [_ ?]; congruence]. intros [Hx _]%Hm. done.
  - rewrite Hm. naive_solver.
Qed.

Lemma wp_hashtable_hash s ht t (m : gmap K addr) he e k fuel Q :
  table_map s ht t m -> is_list (nodes_of s) he [] -> elems_of s !! he = Some e ->
  1 <= refcount e < 2 ^ 31 - 1 -> (size m < fuel)%nat -> Z.of_nat (size m) < 2 ^ 31 - 3 ->
  (forall hf, hashfn t = Some hf ->
   match m !! k with
   | Some _ => Q (-1) (set_elems (<[he := stamped ht hf k e]> (elems_of s)) s)
   | None => forall s',
       table_map s' ht (with_count (count t + 1) t) (<[k := he]> m) ->
       elems_of s' = <[he := with_refcount (refcount e + 1) (stamped ht hf k e)]> (elems_of s) ->
       client (mem s') = client (mem s) -> alloc s' = alloc s -> loners_kept s s' he -> Q 0 s'
   end) ->
  wp (hashtable_hash fuel ht he k) Q s.
Proof.
  intros (chains & Hr & Hm) Hself He Href Hfuel Hsm HQ.
  pose proof (r_equal _ _ _ _ Hr) as (ef & Hef & Hefok).
  destruct (r_hash _ _ _ _ Hr) as [hf Hhf]. specialize (HQ hf Hhf).
  pose proof (r_tab _ _ _ _ Hr) as Ht.
  destruct (key_slot s ht t chains hf k Hr Hhf) as (i & xs & Hi & Hland).
  rewrite <-(table_map_size _ _ _ _ _ Hr Hm) in Hfuel, Hsm.
  pose proof (chain_length _ _ _ Hi) as Hlen.
  pose proof (self_outside_all _ _ _ _ _ _ Hr Hself He) as Hout.
  pose proof (r_slot _ _ _ _ Hr _ _ Hi) as Hslot.
  pose proof (r_ring _ _ _ _ Hr _ _ Hi) as Hring.
  unfold hashtable_hash. rewrite wp_bind, wp_on_nodes. eapply wp_list_empty; [done|].
  rewrite bool_decide_true by done. cbn [negb]. rewrite set_nodes_id.
  rewrite wp_bind. eapply wp_call_hashfn; [done..|].
  ht_go. rewrite !insert_insert_eq. unfold get_slot. ht_simpl. rewrite Hland.
  set (slot := slot_addr t (Z.of_nat i)) in *. change (mk_elm _ _ (Some k) _) with (stamped ht hf k e).
  set (s1 := set_elems (<[he := stamped ht hf k e]> (elems_of s)) s) in HQ |- *.
  change (set_elems _ (set_elems _ (set_elems _ s))) with s1.
  eexists. split; [done|]. apply wp_wrlock. ht_simpl. wp_simpl.
  assert (forall x, x ∈ concat chains -> key_of s1 x = key_of s x) as Hkeys.
  { intros x Hx. unfold key_of, s1. ht_simpl. rewrite lookup_insert_ne; [done|]. by intros <-. }
  assert (forall x, x ∈ xs -> x ∈ concat chains) as Hxs by (intros; apply elem_of_chains; eauto).
  eapply (wp_slot_search _ ht t ef slot xs k); [done|done|done|lia| | |].
  - intros x Hx. rewrite (key_of_elems s1) by done. rewrite Hkeys by auto.
    eapply table_map_key; eauto.
  - intros x Hx Hk. rewrite (key_of_elems s1), Hkeys in Hk by (done || auto).
    assert (m !! k = Some x) as Hmk by (apply Hm; auto). rewrite Hmk in HQ.
    wp_simpl. eexists. split; [done|]. wp_simpl.
    eexists. split; [ht_simpl; apply lookup_insert_eq|]. apply wp_unlock; [by left|]. wp_simpl.
    erewrite <-(relock s1) in HQ by done. exact HQ.
  - intros Hno. destruct (m !! k) as [x|] eqn:Hmk.
    { apply Hm in Hmk as [Hx Hk]. edestruct (Hno x); [by eapply key_in_slot|].
      rewrite (key_of_elems s1), Hkeys; auto. }
    ht_go. rewrite wp_atomic_inc by (pose proof (r_count _ _ _ _ Hr); lia).
    wp_simpl. rewrite wp_on_nodes.
    eapply wp_mono; [apply (wp_list_add_front _ slot he xs Hring);
      [by eapply self_outside|eapply is_list_node; [exact Hself|set_solver]]|].
    intros [] n' [Hring' Hframe]. unfold hashelm_hold. ht_go. 
    rewrite wp_atomic_inc by (unfold stamped; ht_simpl; lia). ht_go. apply wp_unlock; [by left|]. wp_simpl.
    rewrite !insert_insert_eq.
    assert (forall r, <[he := with_refcount r (stamped ht hf k e)]> (elems (mem s1)) =
              <[he := with_refcount r (stamped ht hf k e)]> (elems_of s)) as Hel.
    { intros r. unfold s1. ht_simpl. by rewrite insert_insert_eq. }
    apply HQ; [|exact (Hel _)|done|done|]; cycle 1.
    { intros x Hx [ex Hex] Hxself. apply Hframe. intros [?|Hxs']%elem_of_cons; [done|].
      by eapply (self_outside s ht t chains x ex i xs). }
    exists (<[i := he :: xs]> chains). split.
    + eapply (rep_link s); try done.
      * ht_simpl. apply lookup_insert_eq.
      * ht_simpl. do 2 f_equal. unfold with_lock, with_slot_count. ht_simpl. f_equal.
        pose proof (r_small _ _ _ _ Hr). apply u64_id. lia.
      * exact (Hel _).
    + refine (map_link s _ ht t chains m k he xs i (with_refcount _ (stamped ht hf k e)) Hr Hm Hi Hout Hmk _ eq_refl). exact (Hel _).
Qed.
End Hash.

(** ** Releasing elements *)
Section Release.
Context {K C A : Type} `{Countable K} `{Allocator A} (freed : C -> list addr).
Implicit Types (s : hstore K C A) (t : hashtable K C) (chains : list (list addr)).

(** The contract of [freefn]: on an element that is linked to nothing it
    returns, touches nothing but that element and its object, and the client
    records the call in [freed]. *)
Class FreeFn (f : freefn_t K C) : Prop :=
  freefn_spec he m : is_Some (elems m !! he) -> is_list (nodes m) he [] ->
    wp (f he) (fun _ m' =>
      (forall p, p <> he -> nodes m' !! p = nodes m !! p /\ elems m' !! p = elems m !! p) /\
      freed (client m') = freed (client m) ++ [he]) m.

Definition frees t : Prop := forall f, freefn t = Some f -> FreeFn f.

(** The objects the release of one reference to [he] frees. *)
Definition freed_by (ff : option (freefn_t K C)) (he : addr) (e : hashelm K) : list addr :=
  if ff is Some _ then if refcount e =? 1 then [he] else [] else [].

(** The effect of releasing one reference. *)
Record released s s' (ff : option (freefn_t K C)) (he : addr) (e : hashelm K) : Prop := {
  rl_tabs : tabs s' = tabs s;
  rl_slots : slots s' = slots s;
  rl_alloc : alloc s' = alloc s;
  rl_frame p : p <> he -> nodes_of s' !! p = nodes_of s !! p /\ elems_of s' !! p = elems_of s !! p;
  rl_freed : freed (client (mem s')) = freed (client (mem s)) ++ freed_by ff he e;
  rl_live : freed_by ff he e = [] ->
    nodes_of s' = nodes_of s /\ elems_of s' !! he = Some (with_refcount (refcount e - 1) e);
}.

Lemma wp_hashelm_put s h t he e Q :
  elems_of s !! he = Some e -> ht_of e = Some h -> tabs s !! h = Some t -> frees t ->
  is_list (nodes_of s) he [] -> - 2 ^ 31 < refcount e < 2 ^ 31 ->
  (forall s', released s s' (freefn t) he e -> Q tt s') ->
  wp (hashelm_put he) Q s.
Proof.
  intros He Hh Ht Hfr Hself Href HQ. unfold hashelm_put. ht_go.
  rewrite wp_atomic_dec_and_test by done.
  set (s1 := set_elems (<[he := with_refcount (refcount e - 1) e]> (elems_of s)) s).
  assert (freed_by (freefn t) he e = [] -> released s s1 (freefn t) he e) as Hs1.
  { intros E. split; try done.
    - intros p Hp. split; [done|]. unfold s1. ht_simpl. by rewrite lookup_insert_ne.
    - by rewrite E, app_nil_r.
    - intros _. split; [done|]. apply lookup_insert_eq. }
  unfold freed_by in Hs1. destruct (refcount e =? 1) eqn:Er.
  - ht_go. rewrite Hh. wp_simpl. eexists. split; [done|]. ht_go.
    destruct (freefn t) as [f|] eqn:Ef; [|by apply HQ, Hs1].
    wp_simpl. eapply wp_mono; [apply (Hfr f Ef)|].
    + exists (with_refcount (refcount e - 1) e). apply lookup_insert_eq.
    + done.
    + intros [] m' [Hframe Hfreed]. apply HQ. split; try done.
      * intros p Hp. destruct (Hframe p Hp) as [Hn Hel]. split; [exact Hn|].
        etransitivity; [exact Hel|]. by apply lookup_insert_ne.
      * unfold freed_by. rewrite Er. exact Hfreed.
      * unfold freed_by. by rewrite Er.
  - wp_simpl. apply HQ, Hs1. by destruct (freefn t).
Qed.

(** Unlinking [he] from the chain [xs1 ++ he :: xs2], with the lock of the slot
    in any state. *)
Lemma wp_unhash_from s ht t chains i xs1 he xs2 e l Q :
  rep s ht t chains -> frees t -> chains !! i = Some (xs1 ++ he :: xs2) ->
  elems_of s !! he = Some e ->
  let slot := slot_addr t (Z.of_nat i) in
  let n := Z.of_nat (length (xs1 ++ xs2)) in
  let t' := with_count (count t - 1) t in
  (forall s1 s',
     is_list (nodes_of s1) slot (xs1 ++ xs2) -> is_list (nodes_of s1) he [] ->
     (forall p, p ∉ slot :: xs1 ++ he :: xs2 -> nodes_of s1 !! p = nodes_of s !! p) ->
     elems_of s1 = elems_of s -> client (mem s1) = client (mem s) -> alloc s1 = alloc s ->
     slots s1 = <[slot := mk_slot n l]> (slots s) -> tabs s1 = <[ht := t']> (tabs s) ->
     released s1 s' (freefn t) he e -> Q tt s') ->
  wp (unhash_from ht slot he) Q
    (set_slots (<[slot := mk_slot (n + 1) l]> (slots s)) s).
Proof.
  intros Hr Hfr Hi He slot n t' HQ.
  pose proof (r_ring _ _ _ _ Hr _ _ Hi) as Hring. fold slot in Hring.
  destruct (r_elem _ _ _ _ Hr i _ he Hi) as (e' & k & [He' _ Hh _ _ Href]); [set_solver|].
  simplify_eq. pose proof (r_small _ _ _ _ Hr). pose proof (r_count _ _ _ _ Hr).
  pose proof (chain_length _ _ _ Hi) as Hlen. rewrite length_app in Hlen. simpl in Hlen.
  assert (n = Z.of_nat (length xs1 + length xs2)) as Hn by (unfold n; by rewrite length_app).
  unfold unhash_from. rewrite wp_bind, wp_on_nodes.
  eapply wp_mono; [by apply (wp_list_del _ slot xs1 he xs2)|].
  intros [] n1 (Hring' & Hself & Hframe). ht_go.
  pose proof (r_tab _ _ _ _ Hr) as Ht. ht_go. rewrite wp_atomic_dec by lia.
  eapply wp_hashelm_put; [done|done|apply lookup_insert_eq|done|done|lia|].
  intros s'. eapply HQ; try done. ht_simpl. rewrite insert_insert_eq. f_equal.
  unfold with_slot_count. ht_simpl. f_equal. rewrite u64_id; lia.
Qed.
End Release.

Section Unlink.
Context {K C A : Type} `{Countable K} `{Allocator A} (freed : C -> list addr).
Implicit Types (s : hstore K C A) (t : hashtable K C) (chains : list (list addr)).

Lemma chain_split_facts (xs1 xs2 : list addr) he rest :
  NoDup ((xs1 ++ he :: xs2) ++ rest) -> he ∉ (xs1 ++ xs2) ++ rest /\ NoDup ((xs1 ++ xs2) ++ rest).
Proof. rewrite <-!(assoc_L app). simpl. intros [? ?]%NoDup_middle. done. Qed.

(** The table without [he], once everything but [he] is as it was. *)
Lemma table_map_unlink s s2 ht t chains (m : gmap K addr) i xs1 he xs2 k :
  let slot := slot_addr t (Z.of_nat i) in
  rep s ht t chains ->
  (forall k x, m !! k = Some x <-> x ∈ concat chains /\ key_of s x = Some k) ->
  chains !! i = Some (xs1 ++ he :: xs2) -> key_of s he = Some k ->
  is_list (nodes_of s2) slot (xs1 ++ xs2) ->
  (forall p, p ∉ slot :: xs1 ++ he :: xs2 -> nodes_of s2 !! p = nodes_of s !! p) ->
  (forall p, p <> he -> elems_of s2 !! p = elems_of s !! p) ->
  tabs s2 = <[ht := with_count (count t - 1) t]> (tabs s) ->
  slots s2 = <[slot := mk_slot (Z.of_nat (length (xs1 ++ xs2))) LFree]> (slots s) ->
  table_map s2 ht (with_count (count t - 1) t) (delete k m).
Proof.
  intros slot Hr Hm Hi Hk Hring Hframe Hel Ht Hsl.
  destruct (concat_insert chains i _ Hi) as (rest & Hp & Hp' & Hin & _).
  pose proof (r_nodup _ _ _ _ Hr) as Hnd. rewrite Hp in Hnd.
  destruct (chain_split_facts _ _ _ _ Hnd) as [Hhe Hnd'].
  set (chains' := <[i := xs1 ++ xs2]> chains).
  assert (length (concat chains) = S (length (concat chains'))) as Hlen.
  { unfold chains'. rewrite Hp, Hp'. rewrite !length_app. simpl. lia. }
  assert (count t - 1 = 1 + Z.of_nat (length (concat chains'))) as Hct.
  { rewrite (r_count _ _ _ _ Hr), Hlen. lia. }
  pose proof (r_small _ _ _ _ Hr) as Hsm.
  assert (forall x, x ∈ concat chains -> (x ∈ concat chains' <-> x <> he)) as Hrem.
  { intros x Hx. unfold chains'. rewrite Hp' . rewrite Hp in Hx. clear -Hhe Hx.
    destruct (decide (x = he)) as [->|]; [set_solver|].
    rewrite !elem_of_app, elem_of_cons in Hx. rewrite !elem_of_app. naive_solver. }
  exists chains'. split.
  - rewrite Hct in Ht |- *. apply (rep_replace s s2 ht t chains i (xs1 ++ he :: xs2)); try done.
    + rewrite Ht. apply lookup_insert_eq.
    + intros j zs p Hj Hz Hpz. apply Hframe.
      by eapply (rep_separate s ht t chains i j _ zs p).
    + intros x Hx. destruct (r_elem _ _ _ _ Hr i _ x Hi) as (e & k' & []).
      { clear -Hx. apply elem_of_app in Hx. rewrite elem_of_app, elem_of_cons. tauto. }
      exists e, k'. split; try done. rewrite Hel; [done|]. intros ->. apply Hhe, elem_of_app. by left.
    + intros j zs x Hj Hz Hx. pose proof (Hin j zs x Hj Hz Hx) as Hxr. split.
      * apply NoDup_app in Hnd' as (_ & Hdis & _). intros ?. by eapply Hdis.
      * apply Hel. intros ->. apply Hhe, elem_of_app. by right.
    + intros p Hpn. rewrite Hel; [done|]. intros ->. unfold key_of in Hk. by rewrite Hpn in Hk.
    + by apply NoDup_app in Hnd' as [? _].
    + fold chains'. lia.
  - assert (forall x, x <> he -> key_of s2 x = key_of s x) as Hkeys.
    { intros x Hx. unfold key_of. by rewrite Hel. }
    intros k' x. rewrite lookup_delete_Some, Hm. split.
    + intros (Hkk & Hx & Hkx). assert (x <> he) as Hxh by congruence.
      split; [by apply Hrem|]. by rewrite Hkeys.
    + intros [Hx Hkx]. assert (x ∈ concat chains) as Hxc.
      { unfold chains' in Hx. rewrite Hp' in Hx. rewrite Hp. clear -Hx.
        rewrite !elem_of_app in *. rewrite elem_of_cons. tauto. }
      pose proof (proj1 (Hrem x Hxc) Hx) as Hxh. rewrite Hkeys in Hkx by done.
      split; [|done]. intros <-. assert (m !! k = Some x) as H1 by by apply Hm.
      assert (he ∈ concat chains) as Hhc by (rewrite Hp; set_solver).
      assert (m !! k = Some he) as H2 by by apply Hm. congruence.
Qed.

(** Both ways to unhash an element. *)
Lemma wp_unhash (locked : bool) s ht t (m : gmap K addr) k he e Q :
  table_map s ht t m -> frees freed t -> m !! k = Some he -> elems_of s !! he = Some e ->
  (forall s',
     table_map s' ht (with_count (count t - 1) t) (delete k m) ->
     (forall p, p <> he -> elems_of s' !! p = elems_of s !! p) ->
     freed (client (mem s')) = freed (client (mem s)) ++ freed_by (freefn t) he e ->
     (freed_by (freefn t) he e = [] -> is_list (nodes_of s') he [] /\
        elems_of s' !! he = Some (with_refcount (refcount e - 1) e)) ->
     alloc s' = alloc s -> loners_kept s s' he -> Q tt s') ->
  wp (if locked then hashtable_unhash ht he else hashtable_unhash_nolock ht he) Q s.
Proof.
  intros (chains & Hr & Hm) Hfr Hmk He HQ. 
  pose proof (proj1 (Hm _ _) Hmk) as [(i & xs & Hi & Hx)%elem_of_chains Hk].
  apply list_elem_of_split in Hx as (xs1 & xs2 & ->).
  destruct (r_elem _ _ _ _ Hr i _ he Hi) as (e' & k' & [He' _ _ _ Hidx _]); [set_solver|].
  simplify_eq. pose proof (r_tab _ _ _ _ Hr) as Ht. pose proof (r_slot _ _ _ _ Hr _ _ Hi) as Hsl.
  set (slot := slot_addr t (Z.of_nat i)) in *.
  assert (Z.of_nat (length (xs1 ++ he :: xs2)) = Z.of_nat (length (xs1 ++ xs2)) + 1) as Hlen
    by (rewrite !length_app; simpl; lia).
  assert (he ∉ slot :: xs1 ++ xs2) as Hhe.
  { pose proof (r_ring _ _ _ _ Hr _ _ Hi) as [Hnd _]. fold slot in Hnd.
    by rewrite app_comm_cons in Hnd; apply NoDup_middle in Hnd as [? _]. }
  set (n := Z.of_nat (length (xs1 ++ xs2))) in *.
  assert (forall s1 s' s2 l,
     is_list (nodes_of s1) slot (xs1 ++ xs2) -> is_list (nodes_of s1) he [] ->
     (forall p, p ∉ slot :: xs1 ++ he :: xs2 -> nodes_of s1 !! p = nodes_of s !! p) ->
     elems_of s1 = elems_of s -> client (mem s1) = client (mem s) -> alloc s1 = alloc s ->
     slots s1 = <[slot := mk_slot n l]> (slots s) ->
     tabs s1 = <[ht := with_count (count t - 1) t]> (tabs s) ->
     released freed s1 s' (freefn t) he e ->
     s2 = set_slots (<[slot := mk_slot n LFree]> (slots s)) s' -> Q tt s2) as Hfin.
  { intros s1 s' s2 l Hring Hself Hframe Hel Hcl Hal Hs1 Ht1 [] ->. apply HQ.
    - apply (table_map_unlink s _ ht t chains m i xs1 he xs2 k); try done; fold slot.
      + eapply is_list_frame; [exact Hring|]. intros p Hp. apply rl_frame0. by intros ->.
      + intros p Hp. rewrite <-(Hframe p Hp). apply rl_frame0. intros ->. set_solver.
      + intros p Hp. rewrite <-Hel. by apply rl_frame0.
      + by rewrite <-Ht1.
    - intros p Hp. rewrite <-Hel. by apply rl_frame0.
    - rewrite <-Hcl. done.
    - intros E. destruct (rl_live0 E) as [Hn Hee]. split; [|done].
      change (is_list (nodes_of s') he []). by rewrite Hn.
    - rewrite <-Hal. done.
    - intros x Hx [ex Hex] Hxself.
      pose proof (self_outside s ht t chains x ex i _ Hr Hxself Hex Hi) as Hout. fold slot in Hout.
      change (nodes_of s' !! x = nodes_of s !! x). rewrite <-(Hframe x) by done. by apply rl_frame0. }
  destruct locked.
  - unfold hashtable_unhash. ht_go. unfold get_slot. rewrite Hidx. fold slot.
    ht_go. apply wp_wrlock. ht_simpl. wp_simpl. rewrite Hlen.
    eapply (wp_unhash_from freed s ht t chains i xs1 he xs2 e); [done..|].
    cbn zeta. fold slot n. intros s1 s' Hring Hself Hframe Hel Hcl Hal Hs1 Ht1 Hrl.
    wp_simpl. eexists. rewrite (rl_slots _ _ _ _ _ _ Hrl), Hs1. split; [apply lookup_insert_eq|].
    apply wp_unlock; [by left|]. rewrite insert_insert_eq. by eapply (Hfin s1 s' _ LWrite).
  - unfold hashtable_unhash_nolock. ht_go. unfold get_slot. rewrite Hidx. fold slot.
    replace s with (set_slots (<[slot := mk_slot (n + 1) LFree]> (slots s)) s) at 1.
    + eapply (wp_unhash_from freed s ht t chains i xs1 he xs2 e); [done..|].
      cbn zeta. fold slot n. intros s1 s' Hring Hself Hframe Hel Hcl Hal Hs1 Ht1 Hrl.
      eapply (Hfin s1 s'); try done. rewrite <-Hs1, <-(rl_slots _ _ _ _ _ _ Hrl). by rewrite set_slots_id.
    + rewrite insert_id; [apply set_slots_id|]. rewrite <-Hlen. done.
Qed.
End Unlink.
