(* ===== verification/HashtableThms.v ===== *)
(** Hash tables, continued: the loops over a whole table, what each operation of
    src/hashtable.c does to the map a table implements, and witnesses. *)
From S2P Require Import Prelude Atomic Clist Malloc Hashtable.

(** ** Whole-table loops *)
Section Whole.
Context {K C A : Type} `{Countable K} `{AllocatorLaws A} (freed : C -> list addr).
Implicit Types (s : hstore K C A) (t : hashtable K C) (chains : list (list addr)).

(** The loop runs its body on every slot in turn and ends after the last. *)
Lemma wp_for_slots {S} (tables : S -> gmap addr (hashtable K C)) (incr : Z -> outcome Z) (fuel : nat) (ht tb : addr) (n : nat)
    (I : nat -> S -> Prop) (body : addr -> M S unit) (Q : unit -> S -> Prop) (w : S) :
  (forall i w, I i w -> exists t, tables w !! ht = Some t /\ mask t = Z.of_nat n - 1 /\ table t = tb) ->
  (forall i, (i < n)%nat -> incr (Z.of_nat i) = Ok (Z.of_nat i + 1)) ->
  (forall i w, (i < n)%nat -> I i w ->
     wp (body (tb + sizeof_hashslot * Z.of_nat i)) (fun _ w' => I (Datatypes.S i) w') w) ->
  (forall w, I n w -> Q tt w) -> I 0%nat w -> (n < fuel)%nat ->
  wp (for_slots tables incr fuel ht 0 body) Q w.
Proof.
  intros Htab Hincr Hbody Hend HI Hfuel. change 0 with (Z.of_nat 0).
  enough (forall j fuel (w : S), I (n - j)%nat w -> (j <= n)%nat -> (j < fuel)%nat ->
            wp (for_slots tables incr fuel ht (Z.of_nat (n - j)) body) Q w) as Hgo.
  { replace 0%nat with (n - n)%nat by lia. apply Hgo; [by rewrite Nat.sub_diag|lia..]. }
  clear fuel w HI Hfuel. induction j as [|j IH]; intros [|fuel] w HI Hj Hfuel; try lia;
    cbn [for_slots]; wp_simpl; destruct (Htab _ _ HI) as (t & Ht & Hmask & Htb);
    exists t; (split; [done|]); rewrite Hmask.
  - rewrite (proj2 (Z.leb_gt _ _)) by lia. wp_simpl. apply Hend. by rewrite Nat.sub_0_r in HI.
  - rewrite (proj2 (Z.leb_le _ _)) by lia. wp_simpl. unfold slot_addr. rewrite Htb.
    eapply wp_mono; [apply Hbody; [lia|done]|]. intros [] s' HI'. wp_simpl.
    exists (Z.of_nat (n - j)). rewrite Hincr by lia. split; [f_equal; lia|].
    apply IH; [|lia..]. by replace (n - j)%nat with (Datatypes.S (n - Datatypes.S j)) by lia.
Qed.

Lemma elem_of_new_slots p n q :
  q ∈ new_slots p (Z.of_nat n) <-> exists i, (i < n)%nat /\ q = p + sizeof_hashslot * Z.of_nat i.
Proof.
  unfold new_slots. rewrite Nat2Z.id, list_elem_of_fmap.
  setoid_rewrite elem_of_seq. split; intros (i & ? & ?); exists i; (split; [|done || lia]); done || lia.
Qed.

(** Initialising the slots, one after the other. *)
Record slots_ready s (s0 : hstore K C A) p n i : Prop := {
  sr_tabs : tabs s = tabs s0;
  sr_elems : elems_of s = elems_of s0;
  sr_alloc : alloc s = alloc s0;
  sr_here j : (j < n)%nat -> is_Some (nodes_of s !! (p + sizeof_hashslot * Z.of_nat j)) /\
    is_Some (slots s !! (p + sizeof_hashslot * Z.of_nat j));
  sr_done j : (j < i)%nat -> is_list (nodes_of s) (p + sizeof_hashslot * Z.of_nat j) [] /\
    slots s !! (p + sizeof_hashslot * Z.of_nat j) = Some (mk_slot 0 LFree);
}.

Lemma wp_init_slot s s0 p n i :
  slots_ready s s0 p n i -> (i < n)%nat ->
  wp (init_slot (p + sizeof_hashslot * Z.of_nat i)) (fun _ s' => slots_ready s' s0 p n (S i)) s.
Proof.
  intros [] Hi. unfold init_slot. destruct (sr_here0 i Hi) as [Hn [sl Hsl]].
  set (slot := p + sizeof_hashslot * Z.of_nat i) in *.
  rewrite wp_bind, wp_on_nodes. eapply wp_mono; [by apply wp_INIT_LIST|].
  intros [] n' [Hself Hframe]. ht_go. unfold rwlock_init, wp.
  assert (forall j, j <> i -> p + sizeof_hashslot * Z.of_nat j <> slot) as Hne.
  { intros j Hj. unfold slot, sizeof_hashslot. lia. }
  split; try done; ht_simpl; rewrite ?insert_insert_eq.
  - intros j Hj. destruct (decide (j = i)) as [->|Hji].
    + split; [eapply is_list_node; [exact Hself|set_solver]|]. rewrite lookup_insert_eq. eauto.
    + pose proof (Hne j Hji). unfold nodes_of. ht_simpl.
      rewrite Hframe, lookup_insert_ne by congruence. auto.
  - intros j Hj. destruct (decide (j = i)) as [->|Hji].
    + split; [exact Hself|]. apply lookup_insert_eq.
    + pose proof (Hne j Hji). destruct (sr_done0 j) as [Hl Hs]; [lia|].
      rewrite lookup_insert_ne by congruence. split; [|done].
      eapply is_list_frame; [exact Hl|]. intros q ->%list_elem_of_singleton. apply Hframe. auto.
Qed.

Lemma concat_replicate_nil {X} n : concat (replicate n ([] : list X)) = [].
Proof. induction n; simpl; done. Qed.

Lemma lookup_replicate_nil {X} n i (xs : list X) :
  replicate n [] !! i = Some xs -> (i < n)%nat /\ xs = [].
Proof. rewrite lookup_replicate. intros []. auto. Qed.

Lemma init_empty s s0 ht t ef n :
  slots_ready s s0 (table t) n n -> tabs s !! ht = Some t -> mask t = Z.of_nat n - 1 ->
  (0 < n)%nat -> Z.of_nat n < 2 ^ 31 -> count t = 1 -> equalfn t = Some ef -> EqualFn ef ->
  is_Some (hashfn t) -> elems_of s0 !! NULL = None ->
  (forall q, q ∈ new_slots (table t) (Z.of_nat n) -> elems_of s0 !! q = None) ->
  table_map s ht t (∅ : gmap K addr).
Proof.
  intros [] Ht Hm Hn Hn' Hc Hef Hok Hhf Hnull Hap. exists (replicate n []). split.
  - split; rewrite ?length_replicate, ?concat_replicate_nil; try done; try lia.
    + eauto.
    + by intros i xs [Hi ->]%lookup_replicate_nil; apply sr_done0.
    + by intros i xs [Hi ->]%lookup_replicate_nil; apply sr_done0.
    + apply NoDup_nil_2.
    + intros i xs x [Hi ->]%lookup_replicate_nil Hx. by apply not_elem_of_nil in Hx.
    + intros i Hi. rewrite sr_elems0. apply Hap, elem_of_new_slots. eauto.
    + by rewrite sr_elems0.
  - intros k x. rewrite lookup_empty, concat_replicate_nil. split; [done|].
    intros [Hx _]. by apply not_elem_of_nil in Hx.
Qed.
End Whole.

(** ** Emptying a table *)
Section Drain.
Context {K C A : Type} `{Countable K} `{AllocatorLaws A} (freed : C -> list addr).
Implicit Types (s : hstore K C A) (t : hashtable K C) (chains : list (list addr)).

(** The elements [xs] were unlinked and one reference to each was released;
    the links of no node outside [hs] changed. *)
Record drained s s' (ff : option (freefn_t K C)) (hs xs : list addr) : Prop := {
  dr_tabs : tabs s' = tabs s;
  dr_alloc : alloc s' = alloc s;
  dr_nodes p : p ∉ hs -> nodes_of s' !! p = nodes_of s !! p;
  dr_elems p : p ∉ xs -> elems_of s' !! p = elems_of s !! p;
  dr_freed : exists l, freed (client (mem s')) = freed (client (mem s)) ++ l /\ NoDup l /\
    forall x, x ∈ l <-> x ∈ xs /\ exists e, elems_of s !! x = Some e /\ freed_by ff x e = [x];
  dr_live x e : x ∈ xs -> elems_of s !! x = Some e -> freed_by ff x e = [] ->
    is_list (nodes_of s') x [] /\ elems_of s' !! x = Some (with_refcount (refcount e - 1) e);
}.

Lemma drained_nil s s' ff hs :
  mem s' = mem s -> tabs s' = tabs s -> alloc s' = alloc s -> drained s s' ff hs [].
Proof.
  intros Hm Ht Ha. unfold nodes_of, elems_of.
  split; rewrite ?Hm; try done; unfold nodes_of, elems_of; rewrite ?Hm; try done.
  - exists []. rewrite app_nil_r. split_and!; [done|apply NoDup_nil_2|].
    intros x. split; [by intros ?%not_elem_of_nil|by intros [?%not_elem_of_nil _]].
  - set_solver.
Qed.

Lemma drained_trans s1 s2 s3 ff hs hs' xs ys :
  drained s1 s2 ff hs xs -> drained s2 s3 ff hs' ys ->
  (forall x, x ∈ xs -> x ∉ ys /\ x ∉ hs') ->
  drained s1 s3 ff (hs ++ hs') (xs ++ ys).
Proof.
  intros [T1 A1 N1 E1 (l1 & F1 & D1 & M1) L1] [T2 A2 N2 E2 (l2 & F2 & D2 & M2) L2] Hdis.
  assert (forall y, y ∈ ys -> elems_of s2 !! y = elems_of s1 !! y) as Hy.
  { intros y Hy. apply E1. intros Hx. by destruct (Hdis y Hx). }
  split.
  - congruence.
  - congruence.
  - intros p [? ?]%not_elem_of_app. by rewrite N2, N1.
  - intros p [? ?]%not_elem_of_app. by rewrite E2, E1.
  - exists (l1 ++ l2). rewrite F2, F1, (assoc_L app). split_and!; [done| |].
    + apply NoDup_app. split_and!; [done| |done]. intros x [Hx _]%M1 [Hx' _]%M2.
      by destruct (Hdis x Hx).
    + intros x. rewrite !elem_of_app, M1, M2. split.
      * intros [(? & ?)|(Hxy & ?)]; [by auto|]. rewrite <-(Hy x Hxy). auto.
      * intros ([Hx|Hx] & He); [by auto|]. right. rewrite (Hy x Hx). auto.
  - intros x e [Hx|Hx]%elem_of_app He Hf.
    + destruct (L1 x e Hx He Hf) as [Hl Hel]. destruct (Hdis x Hx). rewrite E2 by done. split; [|done].
      eapply is_list_frame; [done|]. intros p ->%list_elem_of_singleton. by apply N2.
    + apply L2; [done| |done]. by rewrite Hy.
Qed.

(** An element that can be released. *)
Definition releasable s (ff : option (freefn_t K C)) (x : addr) : Prop :=
  exists e h t, elems_of s !! x = Some e /\ ht_of e = Some h /\ tabs s !! h = Some t /\
    freefn t = ff /\ 1 <= refcount e < 2 ^ 31.

Lemma freed_by_cases (ff : option (freefn_t K C)) x (e : hashelm K) :
  freed_by ff x e = [] \/ freed_by ff x e = [x].
Proof. unfold freed_by. destruct ff; [|auto]. destruct (refcount e =? 1); auto. Qed.

(** Unlinking and releasing one element. *)
Lemma wp_drain_one s ff slot x xs Q :
  (forall f, ff = Some f -> FreeFn freed f) -> is_list (nodes_of s) slot (x :: xs) ->
  releasable s ff x ->
  (forall s', drained s s' ff (slot :: x :: xs) [x] -> slots s' = slots s ->
     is_list (nodes_of s') slot xs -> Q tt s') ->
  wp (on_nodes (list_del x);; hashelm_put x) Q s.
Proof.
  intros Hff Hl (e & h & t & He & Hh & Ht & <- & Href) HQ.
  rewrite wp_bind, wp_on_nodes. eapply wp_mono; [by apply (wp_list_del _ slot [] x xs)|].
  intros [] n1 (Hring & Hself & Hframe). 
  eapply (wp_hashelm_put freed); [done|done|done|exact Hff|exact Hself|lia|].
  intros s' [Rt Rs Ra Rf Rfr Rl]. assert (x ∉ slot :: xs) as Hx.
  { destruct Hl as [Hnd _]. apply (NoDup_middle [slot]) in Hnd as [? _]. done. }
  apply HQ; [split|..]; try done.
  - intros p Hp. rewrite (proj1 (Rf p ltac:(set_solver))). by apply Hframe.
  - intros p Hp. by rewrite (proj2 (Rf p ltac:(set_solver))).
  - exists (freed_by (freefn t) x e). split; [done|].
    destruct (freed_by_cases (freefn t) x e) as [E|E]; rewrite E; (split; [first [apply NoDup_nil_2|apply NoDup_singleton]|]).
    + intros y. split; [by intros ?%not_elem_of_nil|].
      intros (->%list_elem_of_singleton & e' & He' & Hf). simplify_eq. by rewrite E in Hf.
    + intros y. rewrite list_elem_of_singleton. split; [intros ->; eauto|]. by intros [? _].
  - intros y e' ->%list_elem_of_singleton He' Hf. simplify_eq.
    destruct (Rl Hf) as [Hn Hel]. rewrite Hn. done.
  - eapply is_list_frame; [exact Hring|]. intros p Hp. apply Rf. by intros ->.
Qed.

Lemma releasable_frame s s' ff x :
  tabs s' = tabs s -> elems_of s' !! x = elems_of s !! x -> releasable s ff x -> releasable s' ff x.
Proof. intros Ht He (e & h & t & ?). exists e, h, t. by rewrite Ht, He. Qed.

(** Emptying one slot. *)
Lemma wp_drain_slot fuel s ff slot xs Q :
  (forall f, ff = Some f -> FreeFn freed f) -> is_list (nodes_of s) slot xs ->
  (forall x, x ∈ xs -> releasable s ff x) -> (length xs < fuel)%nat ->
  (forall s', drained s s' ff (slot :: xs) xs -> slots s' = slots s ->
     is_list (nodes_of s') slot [] -> Q tt s') ->
  wp (drain_slot fuel slot) Q s.
Proof.
  intros Hff. revert s Q fuel. induction xs as [|x xs IH]; intros s Q [|fuel] Hl Hrel Hfuel HQ;
    simpl in Hfuel; try lia; cbn [drain_slot]; rewrite wp_bind, wp_on_nodes;
    (eapply wp_list_empty; [done|]); rewrite set_nodes_id.
  - rewrite bool_decide_true by done. wp_simpl. apply HQ; [|done..]. by apply drained_nil.
  - rewrite bool_decide_false by done. rewrite wp_bind, wp_on_nodes.
    eapply wp_list_front; [done|]. rewrite set_nodes_id.
    apply wp_seq. eapply wp_drain_one; [done|done|apply Hrel; set_solver|].
    intros s1 Hd Hs1 Hl1. pose proof Hl as [Hnd _].
    assert (x ∉ xs /\ x <> slot) as [Hx Hxs].
    { apply (NoDup_middle [slot]) in Hnd as [Hnd _]. set_solver. }
    apply IH; [done| |lia|].
    + intros y Hy. eapply releasable_frame; [apply Hd| |apply Hrel; set_solver].
      apply Hd. rewrite list_elem_of_singleton. by intros ->.
    + intros s2 Hd2 Hs2 Hl2. apply HQ; [|congruence|done].
      assert (drained s s2 ff ((slot :: x :: xs) ++ slot :: xs) ([x] ++ xs)) as Hd3.
      { eapply drained_trans; [done|done|]. intros y ->%list_elem_of_singleton. set_solver. }
      destruct Hd3. split; try done. intros p Hp. apply dr_nodes0. set_solver.
Qed.

(** A store that differs in the links of nodes of [hs] and in the slots only. *)
Lemma drained_touch s s1 s2 ff hs xs :
  drained s s1 ff hs xs -> tabs s2 = tabs s1 -> alloc s2 = alloc s1 -> elems_of s2 = elems_of s1 ->
  client (mem s2) = client (mem s1) ->
  (forall p, p ∉ hs \/ p ∈ xs -> nodes_of s2 !! p = nodes_of s1 !! p) -> drained s s2 ff hs xs.
Proof.
  intros [Dt Da Dn De Df Dl] Ht Ha He Hc Hn. split.
  - congruence.
  - congruence.
  - intros p Hp. rewrite Hn by auto. auto.
  - by rewrite He.
  - by rewrite Hc.
  - intros x e Hx Hel Hf. destruct (Dl x e Hx Hel Hf). rewrite He. split; [|done].
    eapply is_list_frame; [done|]. intros p ->%list_elem_of_singleton. auto.
Qed.

Lemma wp_fini_slot fuel s ff slot xs n Q :
  (forall f, ff = Some f -> FreeFn freed f) -> is_list (nodes_of s) slot xs ->
  (forall x, x ∈ xs -> releasable s ff x) -> (length xs < fuel)%nat ->
  slots s !! slot = Some (mk_slot n LFree) ->
  (forall s', drained s s' ff (slot :: xs) xs ->
     slots s' = <[slot := mk_slot 0 LUninit]> (slots s) -> Q tt s') ->
  wp (fini_slot fuel slot) Q s.
Proof.
  intros Hff Hl Hrel Hfuel Hsl HQ. unfold fini_slot. ht_go. apply wp_wrlock. ht_simpl. wp_simpl.
  eapply wp_drain_slot; [done|exact Hl|exact Hrel|done|].
  intros s1 Hd Hs1 Hl1. wp_simpl. rewrite wp_on_nodes. eapply wp_mono.
  { apply wp_INIT_LIST. eapply is_list_node; [exact Hl1|set_solver]. }
  intros [] n1 [Hl2 Hframe].
  assert (slots s1 !! slot = Some (mk_slot n LWrite)) as Hsl1 by (rewrite Hs1; apply lookup_insert_eq).
  ht_go. apply wp_unlock; [by left|]. ht_go.
  unfold wp, rwlock_destroy. ht_simpl.
  apply HQ; [|rewrite !insert_insert_eq, Hs1; ht_simpl; by rewrite insert_insert_eq].
  assert (drained s s1 ff (slot :: xs) xs) as Hd' by (destruct Hd; by split).
  eapply drained_touch; [exact Hd'|done..|]. intros p Hp. apply Hframe.
  destruct Hp as [Hp|Hp]; [set_solver|]. intros ->.
  by destruct Hl as [[? _]%NoDup_cons _].
Qed.

(** The loop of [hashtable_fini]. *)
Lemma wp_fini_loop fuel s ht t chains Q :
  rep s ht t chains -> frees freed t ->
  (length (concat chains) < fuel)%nat -> (length chains < fuel)%nat ->
  (forall s' hs, drained s s' (freefn t) hs (concat chains) ->
     (forall q, q ∈ hs -> (exists i, (i < length chains)%nat /\ q = slot_addr t (Z.of_nat i)) \/
        q ∈ concat chains) -> Q tt s') ->
  wp (for_slots tabs int_incr fuel ht 0 (fini_slot fuel)) Q s.
Proof.
  intros Hr Hfr Hfuel Hfuel2 HQ. pose proof (r_mask _ _ _ _ Hr) as Hmask.
  pose proof (r_len _ _ _ _ Hr) as Hlen.
  pose (J := fun (i : nat) (s' : hstore K C A) => exists hs, drained s s' (freefn t) hs (concat (take i chains)) /\
    (forall q, q ∈ hs -> exists j xs, (j < i)%nat /\ chains !! j = Some xs /\ q ∈ slot_addr t (Z.of_nat j) :: xs) /\
    (forall j xs, (i <= j)%nat -> chains !! j = Some xs ->
       slots s' !! slot_addr t (Z.of_nat j) = Some (mk_slot (Z.of_nat (length xs)) LFree))).
  apply (wp_for_slots _ _ _ _ (table t) (length chains) J).
  - intros i s' (hs & Hd & _). exists t. rewrite (dr_tabs _ _ _ _ _ Hd), (r_tab _ _ _ _ Hr).
    split_and!; [done|lia|done].
  - intros i Hi. unfold int_incr. rewrite (proj2 (Z.ltb_lt _ _)) by lia. done.
  - intros i s' Hi (hs & Hd & Hhs & Hsl).
    destruct (lookup_lt_is_Some_2 _ _ Hi) as [xs Hxs].
    assert (concat (take (S i) chains) = concat (take i chains) ++ xs) as Hcat.
    { by rewrite (take_S_r _ _ _ Hxs), concat_app; simpl; rewrite app_nil_r. }
    assert (forall x, x ∈ xs -> x ∉ concat (take i chains)) as Hdis.
    { intros x Hx Hin. pose proof (r_nodup _ _ _ _ Hr) as Hnd.
      rewrite <-(take_drop (S i) chains), concat_app, Hcat in Hnd.
      apply NoDup_app in Hnd as [(_ & Hnd & _)%NoDup_app _]. by eapply Hnd. }
    assert (forall q, q ∈ hs -> q ∉ slot_addr t (Z.of_nat i) :: xs) as Hsep.
    { intros q (j & ys & Hj & Hys & Hq)%Hhs.
      eapply (rep_separate s ht t chains i j xs ys); [done..|lia|done]. }
    eapply wp_fini_slot.
    + exact Hfr.
    + eapply is_list_frame; [by apply (r_ring _ _ _ _ Hr)|]. intros p Hp. apply Hd.
      intros Hq. by apply (Hsep p Hq).
    + intros x Hx. destruct (r_elem _ _ _ _ Hr i xs x Hxs Hx) as (e & k & []).
      exists e, ht, t. rewrite (dr_tabs _ _ _ _ _ Hd), (dr_elems _ _ _ _ _ Hd) by auto.
      split_and!; try done; [apply (r_tab _ _ _ _ Hr)|lia|lia].
    + pose proof (chain_length _ _ _ Hxs). lia.
    + by apply Hsl.
    + intros s2 Hd2 Hs2. exists (hs ++ slot_addr t (Z.of_nat i) :: xs). split_and!.
      * rewrite Hcat. eapply drained_trans; [done|done|]. intros x Hx. split; [by intros ?%Hdis|].
        intros Hq. apply elem_of_chains in Hx as (j & ys & Hj & Hx).
        rewrite lookup_take in Hj. case_decide; [|done].
        eapply (rep_separate s ht t chains i j xs ys); [done..|lia| |exact Hq]. by apply elem_of_cons; right.
      * intros q [(j & ys & Hj & Hq)%Hhs|Hq]%elem_of_app; [exists j, ys; split; [lia|done]|].
        exists i, xs. split; [lia|done].
      * intros j ys Hj Hys. rewrite Hs2, lookup_insert_ne; [apply Hsl; [lia|done]|].
        intros ?%(slot_addr_inj t). lia.
  - intros s' (hs & Hd & Hhs & _). rewrite firstn_all in Hd. eapply HQ; [done|].
    intros q (j & ys & Hj & Hys & [->|Hq]%elem_of_cons)%Hhs; [left; eauto|right].
    apply elem_of_chains. eauto.
  - exists []. simpl. split_and!; [by apply drained_nil|by intros q ?%not_elem_of_nil|].
    intros j xs _ Hj. by apply (r_slot _ _ _ _ Hr).
  - done.
Qed.
End Drain.

(** ** Visiting every element *)
Section Foreach.
Context {K C A : Type} `{Countable K} `{AllocatorLaws A}.
Implicit Types (s : hstore K C A) (t : hashtable K C) (chains : list (list addr)).

(** A callback that works on the client's state alone. *)
Definition on_client (g : addr -> C -> C) (he : addr) : M (hmem K C) unit :=
  modify (fun m => mk_hmem (nodes m) (elems m) (g he (client m))).
Definition set_client (c : C) s : hstore K C A := set_mem (mk_hmem (nodes_of s) (elems_of s) c) s.

Lemma wp_beside {B} (m : M (hstore K C A) B) Q p :
  wp (beside m) Q p <-> wp m (fun b s' => Q b (p.1, s')) p.2.
Proof. apply wp_zoom. Qed.

Lemma set_client_relock s c slot n l :
  slots s !! slot = Some (mk_slot n LFree) ->
  set_slots (<[slot := mk_slot n LFree]> (<[slot := mk_slot n l]> (slots s))) (set_client c s) =
  set_client c s.
Proof. intros Hs. rewrite <-(relock s slot n l Hs) at 3. done. Qed.

(** One slot. *)
Lemma wp_visit_slot lock fuel s c n slot xs k g Q :
  (forall Q' : unit -> rwlock -> Prop, Q' tt LWrite -> Q' tt (LRead 1) -> wp lock Q' LFree) ->
  is_list (nodes_of s) slot xs -> slots s !! slot = Some (mk_slot k LFree) ->
  (length xs < fuel)%nat -> 0 <= n -> n + Z.of_nat (length xs) < 2 ^ 31 ->
  Q tt (n + Z.of_nat (length xs), set_client (fold_left (flip g) xs c) s) ->
  wp (foreach_slot lock fuel (on_client g) slot) Q (n, set_client c s).
Proof.
  intros Hlock Hl Hsl Hfuel Hn Hn' HQ. unfold foreach_slot. wp_simpl. rewrite wp_beside. ht_go.
  enough (forall l, l = LWrite \/ l = LRead 1 ->
    wp (list_foreach (fun p => nodes_of p.2) fuel slot (fun he =>
            beside (zoom mem set_mem (on_client g he));;
            p ← get;
            n ← lift (int_incr p.1);
            modify (fun p => (n, p.2));;
            mret (@None unit)))
       (fun _ p => wp (beside (lock_op slot rwlock_unlock)) Q p)
       (n, set_slots (<[slot := mk_slot k l]> (slots s)) (set_client c s))) as Hgo.
  { apply Hlock; wp_simpl; apply Hgo; auto. }
  intros l Hlk.
  pose (St := fun ys : list addr => (n + Z.of_nat (length ys),
    set_slots (<[slot := mk_slot k l]> (slots s)) (set_client (fold_left (flip g) ys c) s))).
  apply (wp_list_foreach (fun p => nodes_of p.2) (fun ys p => p = St ys) _ slot xs).
  - exact Hl.
  - done.
  - unfold St. simpl. f_equal. lia.
  - intros ys x r p Hxs _ ->. wp_simpl. rewrite wp_beside. unfold on_client. wp_simpl.
    exists (n + Z.of_nat (length ys) + 1). split.
    { unfold int_incr, St. simpl. rewrite (proj2 (Z.ltb_lt _ _)); [done|].
      rewrite Hxs, length_app in Hn'. simpl in Hn'. lia. }
    wp_simpl. split; [exact Hl|]. unfold St. simpl. f_equal; [rewrite length_app; simpl; lia|].
    rewrite fold_left_app. done.
  - intros p _ ->. rewrite wp_beside. wp_simpl. eexists. split; [apply lookup_insert_eq|].
    apply wp_unlock; [done|]. ht_simpl. 
    change (Q tt (n + Z.of_nat (length xs), set_slots (<[slot := mk_slot k LFree]> (<[slot := mk_slot k l]> (slots s)))
      (set_client (fold_left (flip g) xs c) s))).
    by rewrite set_client_relock.
Qed.

Lemma wp_foreach_slots lock fuel s ht t chains g (Q : Z -> hstore K C A -> Prop) :
  (forall Q' : unit -> rwlock -> Prop, Q' tt LWrite -> Q' tt (LRead 1) -> wp lock Q' LFree) ->
  rep s ht t chains -> (length (concat chains) < fuel)%nat -> (length chains < fuel)%nat ->
  Q (Z.of_nat (length (concat chains)))
    (set_client (fold_left (flip g) (concat chains) (client (mem s))) s) ->
  wp (foreach_slots lock fuel ht (Some (on_client g))) Q s.
Proof.
  intros Hlock Hr Hfuel Hfuel2 HQ. 
  pose proof (r_mask _ _ _ _ Hr) as Hmask. pose proof (r_len _ _ _ _ Hr) as Hlen.
  pose proof (r_small _ _ _ _ Hr) as Hsm.
  set (c := client (mem s)) in *.
  pose (St := fun ys : list addr => (Z.of_nat (length ys), set_client (fold_left (flip g) ys c) s)).
  cut (wp (for_slots (fun p => tabs p.2) unsigned_incr fuel ht 0 (foreach_slot lock fuel (on_client g)))
    (fun _ p => p = St (concat chains)) (0, s)).
  { unfold wp at 2, foreach_slots, wp.
    destruct (for_slots _ _ _ _ _ _ _) as [[[] p]| | |]; try done. intros ->. exact HQ. }
  apply (wp_for_slots _ _ _ _ (table t) (length chains) (fun i p => p = St (concat (take i chains)))).
  - intros i p ->. exists t. split; [apply (r_tab _ _ _ _ Hr)|]. split; [lia|done].
  - intros i Hi. unfold unsigned_incr. rewrite u32_id by lia. done.
  - intros i p Hi ->. destruct (lookup_lt_is_Some_2 _ _ Hi) as [xs Hxs].
    assert (concat (take (S i) chains) = concat (take i chains) ++ xs) as Hcat.
    { by rewrite (take_S_r _ _ _ Hxs), concat_app; simpl; rewrite app_nil_r. }
    assert (length (concat (take i chains)) + length xs <= length (concat chains))%nat as Hle.
    { rewrite <-(take_drop (S i) chains) at 2. rewrite concat_app, Hcat, !length_app. lia. }
    pose proof (chain_length _ _ _ Hxs). 
    eapply wp_visit_slot; [done|by apply (r_ring _ _ _ _ Hr)|by apply (r_slot _ _ _ _ Hr)|lia..|].
    unfold St. rewrite Hcat, fold_left_app. f_equal. rewrite length_app. lia.
  - intros p ->. by rewrite firstn_all.
  - unfold St. simpl. f_equal. by destruct s as [[] ? ? ?].
  - done.
Qed.
End Foreach.

(** ** What the operations do to the map *)
Section Spec.
Context {K C A : Type} `{Countable K} `{AllocatorLaws A} (freed : C -> list addr).
Implicit Types (s : hstore K C A) (t : hashtable K C) (m : gmap K addr).

(** An element that is not in the table may change. *)
Lemma table_map_outside s ht t m he e e' :
  table_map s ht t m -> is_list (nodes_of s) he [] -> elems_of s !! he = Some e ->
  table_map (set_elems (<[he := e']> (elems_of s)) s) ht t m.
Proof.
  intros (chains & Hr & Hm) Hself He.
  pose proof (self_outside_all _ _ _ _ _ _ Hr Hself He) as Hout.
  exists chains. split.
  - eapply rep_outside; [done..| |]; intros p Hp; ht_simpl; rewrite lookup_insert_ne; try done;
      [by intros ->|congruence].
  - intros k x. rewrite Hm. split; intros [Hx Hk]; (split; [done|]); revert Hk;
      unfold key_of; ht_simpl; rewrite lookup_insert_ne; try done; by intros ->.
Qed.

Lemma table_map_tab s ht t m : table_map s ht t m -> tabs s !! ht = Some t.
Proof. intros (chains & Hr & _). apply Hr. Qed.

(** C2: [hashtable_hash] adds an element under a key that is free: it returns 0,
    the table then implements the map with the new binding, its counter is one
    higher and the table holds a reference to the element. Under a key that is
    taken it returns -1 and the table is as before; only the element's own
    [hash], [key] and [ht] were overwritten. Every lock is free afterwards. *)
Theorem hashtable_hash_correct s ht t m he e k fuel :
  table_map s ht t m -> elems_of s !! he = Some e -> is_list (nodes_of s) he [] ->
  1 <= refcount e < 2 ^ 31 - 1 -> (size m < fuel)%nat -> Z.of_nat (size m) < 2 ^ 31 - 3 ->
  exists r s', hashtable_hash fuel ht he k s = Ok (r, s') /\
    match m !! k with
    | None => r = 0 /\ table_map s' ht (with_count (count t + 1) t) (<[k := he]> m) /\
        refcount <$> elems_of s' !! he = Some (refcount e + 1)
    | Some _ => r = -1 /\ table_map s' ht t m /\
        refcount <$> elems_of s' !! he = Some (refcount e)
    end /\
    key_of s' he = Some k /\ (forall p, p <> he -> elems_of s' !! p = elems_of s !! p).
Proof.
  intros Hm He Hself Href Hfuel Hsm. apply wp_run.
  eapply wp_hashtable_hash; [done..|]. intros hf Hhf. unfold key_of.
  destruct (m !! k) as [x|] eqn:Hk.
  - ht_simpl. rewrite lookup_insert_eq. split_and!; [done| |done|done|].
    + by eapply table_map_outside.
    + intros p Hp. by apply lookup_insert_ne.
  - intros s' Hm' Hel Hcl Hal _. rewrite Hel, lookup_insert_eq. split_and!; try done.
    intros p Hp. by apply lookup_insert_ne.
Qed.

(** Hashing an element that is already in a table is refused, and changes
    nothing. *)
Theorem hashtable_hash_twice s ht t m he k k' fuel :
  table_map s ht t m -> m !! k = Some he -> hashtable_hash fuel ht he k' s = Ok (-1, s).
Proof.
  intros (chains & Hr & Hm) [(i & xs & Hi & Hx)%elem_of_chains _]%Hm.
  enough (wp (hashtable_hash fuel ht he k') (fun r s' => r = -1 /\ s' = s) s)
    as (r & s' & -> & -> & ->)%wp_run by done.
  unfold hashtable_hash, list_empty. rewrite wp_bind, wp_on_nodes.
  apply list_elem_of_split in Hx as (l1 & l2 & ->).
  pose proof (r_ring _ _ _ _ Hr _ _ Hi) as Hring.
  destruct (is_list_elem_next _ _ _ _ _ Hring) as (n & Hn & Hnx). wp_go.
  assert (next n <> he) as Hne.
  { rewrite Hnx. destruct Hring as [Hnd _]. rewrite app_comm_cons in Hnd.
    apply NoDup_middle in Hnd as [Hnd _]. intros <-. apply Hnd. destruct l2; set_solver. }
  rewrite (proj2 (Z.eqb_neq _ _) Hne). wp_simpl. by rewrite set_nodes_id.
Qed.

(** C17: [hashtable_lookup] returns the element bound to the key with one
    reference more, or [NULL] when the key has no binding; nothing else
    changes, the locks included. *)
Theorem hashtable_lookup_correct s ht t m k fuel :
  table_map s ht t m -> (size m < fuel)%nat ->
  (forall x e, m !! k = Some x -> elems_of s !! x = Some e -> refcount e < 2 ^ 31 - 1) ->
  match m !! k with
  | None => hashtable_lookup fuel ht k s = Ok (NULL, s)
  | Some x => exists e, elems_of s !! x = Some e /\
      hashtable_lookup fuel ht k s =
        Ok (x, set_elems (<[x := with_refcount (refcount e + 1) e]> (elems_of s)) s)
  end.
Proof.
  intros Hm Hfuel Href. destruct (m !! k) as [x|] eqn:Hk.
  - assert (exists e, elems_of s !! x = Some e) as [e He].
    { pose proof Hm as (chains & Hr & Hmm). apply Hmm in Hk as [_ (e & ? & _)%bind_Some]. eauto. }
    exists e. split; [done|].
    edestruct (wp_run (hashtable_lookup fuel ht k) (fun r s' => r = x /\
      s' = set_elems (<[x := with_refcount (refcount e + 1) e]> (elems_of s)) s) s)
      as [(r & s' & -> & -> & ->) _]; [|done].
    eapply wp_hashtable_lookup; [done..|]. rewrite Hk. intros e' He'. simplify_eq. eauto.
  - edestruct (wp_run (hashtable_lookup fuel ht k) (fun r s' => r = NULL /\ s' = s) s)
      as [(r & s' & -> & -> & ->) _]; [|done].
    eapply wp_hashtable_lookup; [done..|]. by rewrite Hk.
Qed.

(** C16: [hashtable_unhash], and [__hashtable_unhash] without the lock, removes
    the binding of the element, lowers the counter and gives up the table's
    reference: [freefn] runs, once, exactly when that was the last reference,
    and otherwise the element remains, linked to nothing. *)
Theorem hashtable_unhash_correct s ht t m k he e (locked : bool) :
  table_map s ht t m -> frees freed t -> m !! k = Some he -> elems_of s !! he = Some e ->
  exists s', (if locked then hashtable_unhash ht he else hashtable_unhash_nolock ht he) s = Ok (tt, s') /\
    table_map s' ht (with_count (count t - 1) t) (delete k m) /\
    (forall p, p <> he -> elems_of s' !! p = elems_of s !! p) /\
    freed (client (mem s')) = freed (client (mem s)) ++ freed_by (freefn t) he e /\
    (freed_by (freefn t) he e = [] -> is_list (nodes_of s') he [] /\
       elems_of s' !! he = Some (with_refcount (refcount e - 1) e)).
Proof.
  intros Hm Hfr Hk He.
  pose proof (fun Q => wp_unhash freed locked s ht t m k he e Q Hm Hfr Hk He) as Hw.
  destruct locked; apply wp_run_tt, Hw; auto.
Qed.

Lemma hashtable_count_run s ht t :
  tabs s !! ht = Some t -> 0 <= count t < 2 ^ 32 -> hashtable_count ht s = Ok (count t, s).
Proof.
  intros Ht Hc.
  enough (wp (hashtable_count ht) (fun r s' => r = count t /\ s' = s) s)
    as (r & s' & -> & -> & ->)%wp_run by done.
  unfold hashtable_count. ht_go. unfold wp, atomic_read. split; [by apply u32_id|].
  rewrite insert_id; [by destruct s|]. by destruct t.
Qed.

(** [hashtable_count] is one more than the number of elements, because
    [hashtable_init] starts the counter at 1. *)
Theorem hashtable_count_off_by_one s ht t m :
  table_map s ht t m -> hashtable_count ht s = Ok (Z.of_nat (size m) + 1, s).
Proof.
  intros (chains & Hr & Hm). pose proof (r_count _ _ _ _ Hr) as Hc.
  pose proof (r_small _ _ _ _ Hr). rewrite <-(table_map_size _ _ _ _ _ Hr Hm).
  replace (Z.of_nat _ + 1) with (count t) by lia.
  apply hashtable_count_run; [apply (r_tab _ _ _ _ Hr)|lia].
Qed.

(** C33: [hashtable_foreach] and [hashtable_foreach_read] call the action on
    every element of the table exactly once, return how many there are and
    leave the table, its locks included, as it was. *)
Theorem hashtable_foreach_visits s ht t m g fuel :
  table_map s ht t m -> (size m < fuel)%nat -> mask t + 1 < Z.of_nat fuel ->
  exists xs, NoDup xs /\ (forall x, x ∈ xs <-> exists k, m !! k = Some x) /\
    let s' := set_client (fold_left (flip g) xs (client (mem s))) s in
    hashtable_foreach fuel ht (Some (on_client g)) s = Ok (Z.of_nat (size m), s') /\
    hashtable_foreach_read fuel ht (Some (on_client g)) s = Ok (Z.of_nat (size m), s').
Proof.
  intros (chains & Hr & Hm) Hfuel Hfuel2.
  pose proof (table_map_size _ _ _ _ _ Hr Hm) as Hsz. pose proof (r_len _ _ _ _ Hr) as Hlen.
  exists (concat chains). split_and!; [apply (r_nodup _ _ _ _ Hr)| |].
  - intros x. split.
    + intros Hx. destruct (table_map_key _ _ _ _ _ Hr Hx) as [k Hk]. exists k. by apply Hm.
    + by intros [k [? _]%Hm].
  - intros s'. enough (forall lock,
      (forall Q' : unit -> rwlock -> Prop, Q' tt LWrite -> Q' tt (LRead 1) -> wp lock Q' LFree) ->
      wp (foreach_slots lock fuel ht (Some (on_client g)))
        (fun r s2 => r = Z.of_nat (size m) /\ s2 = s') s) as Hgo.
    + assert (forall lock, wp (foreach_slots lock fuel ht (Some (on_client g)))
          (fun r s2 => r = Z.of_nat (size m) /\ s2 = s') s ->
          foreach_slots lock fuel ht (Some (on_client g)) s = Ok (Z.of_nat (size m), s')) as Hrun.
      { by intros lock (r & s2 & -> & -> & ->)%wp_run. }
      split; apply Hrun, Hgo; by intros Q'.
    + intros lock Hlock. eapply wp_foreach_slots; [done..|lia|lia|]. rewrite Hsz. done.
Qed.
End Spec.

(** ** A table's life *)
Section Life.
Context {K C A : Type} `{Countable K} `{AllocatorLaws A} (freed : C -> list addr).
Implicit Types (s : hstore K C A) (t : hashtable K C) (m : gmap K addr).

(** [hashtable_init] with a size from 1 to [2^31 - 1] returns -1 only when
    [malloc] fails, and otherwise 0 and a table that implements the empty map,
    with its counter at 1. *)
Theorem hashtable_init_correct s ht size hf ef ff fuel :
  is_Some (tabs s !! ht) -> 0 < size < 2 ^ 31 -> EqualFn ef -> size < Z.of_nat fuel ->
  elems_of s !! NULL = None ->
  exists r s', hashtable_init fuel ht size hf ef ff s = Ok (r, s') /\
    (r = -1 /\ mem s' = mem s /\ blocks (alloc s') = blocks (alloc s) \/
     r = 0 /\ exists t, tabs s' !! ht = Some t /\ mask t = size - 1 /\ freefn t = ff /\
       blocks (alloc s') = {[table t]} ∪ blocks (alloc s) /\ elems_of s' = elems_of s /\
       hashtable_count ht s' = Ok (1, s') /\
       ((forall q, q ∈ new_slots (table t) size -> elems_of s !! q = None) -> table_map s' ht t ∅)).
Proof.
  intros [t0 Ht0] Hsize Hef Hfuel Hnull. apply wp_run.
  destruct (Z_of_nat_complete size) as [n ->]; [lia|].
  unfold hashtable_init. unfold on_tabs at 1 2 3. wp_simpl. exists t0. split; [done|]. wp_simpl.
  apply wp_malloc; [apply u64_range| |].
  - intros a' Hb _. wp_simpl. eexists. split; [apply lookup_insert_eq|]. wp_simpl.
    left. split_and!; [done|done|exact Hb].
  - intros p a' Hp Hpb Hb _. wp_simpl. eexists. split; [apply lookup_insert_eq|].
    rewrite (proj2 (Z.eqb_neq _ _) Hp). wp_simpl. eexists. split; [apply lookup_insert_eq|].
    ht_simpl. rewrite !insert_insert_eq, u32_id by lia.
    set (t := mk_table p _ _ _ _ _). set (s1 := set_tabs _ _).
    assert (tabs s1 !! ht = Some t) as Ht by apply lookup_insert_eq.
    rewrite wp_bind. apply (wp_for_slots _ _ _ _ p n (fun i s' => slots_ready s' s1 p n i)).
    + intros i s' []. exists t. rewrite sr_tabs0. done.
    + intros i Hi. unfold int_incr. rewrite (proj2 (Z.ltb_lt _ _)); [done|lia].
    + intros i s' Hi Hs. by apply wp_init_slot.
    + intros s' Hs. wp_simpl. right. split; [done|]. exists t. pose proof Hs as [].
      rewrite sr_tabs0, sr_elems0, sr_alloc0. split_and!; try done.
      * change 1 with (count t). apply hashtable_count_run; [by rewrite sr_tabs0|simpl; lia].
      * intros Hq. eapply init_empty; try done; [by rewrite sr_tabs0|lia..].
    + split; try done; [|lia]. intros j Hj.
      unfold s1, create_slots. unfold nodes_of. ht_simpl.
      rewrite !lookup_fill, !decide_True; [eauto|..]; apply elem_of_new_slots; eauto.
    + lia.
Qed.

(** With size 0 the mask is all ones, so that the loop of [hashtable_init]
    starts on a slot the block does not have: unless [malloc] returns [NULL],
    the call writes outside the block. *)
Theorem hashtable_init_zero s ht hf ef ff fuel :
  is_Some (tabs s !! ht) ->
  (forall p, p ∉ blocks (alloc s) -> p <> NULL -> nodes_of s !! p = None) ->
  (exists s', hashtable_init (S fuel) ht 0 hf ef ff s = Ok (-1, s')) \/
  hashtable_init (S fuel) ht 0 hf ef ff s = Fault.
Proof.
  intros [t0 Ht0] Hfresh.
  assert (forall s t f, tabs s !! ht = Some t ->
    on_tabs (update ht f) s = Ok (tt, set_tabs (<[ht := f t]> (tabs s)) s)) as Hup.
  { intros s1 t f Ht. unfold on_tabs, zoom, update. by rewrite Ht. }
  unfold hashtable_init. rewrite (run_bind _ _ _ _ _ (Hup s _ _ Ht0)).
  destruct (malloc_law (u64 (sizeof_hashslot * 0)) (alloc s)) as (p & a' & E & Hp); [done|].
  erewrite run_bind by (unfold zoom; ht_simpl; by rewrite E).
  erewrite run_bind by (apply Hup, lookup_insert_eq).
  destruct Hp as [(-> & _)|(Hp & Hpb & _)]; [left; simpl; eauto|right].
  rewrite (proj2 (Z.eqb_neq _ _) Hp). erewrite run_bind by done.
  erewrite run_bind by (apply Hup, lookup_insert_eq).
  apply run_fault. cbn [for_slots]. erewrite run_bind by done. ht_simpl. rewrite lookup_insert_eq.
  erewrite run_bind by done. ht_simpl. change (0 <=? u32 (0 - 1)) with true. cbn iota.
  apply run_fault. unfold init_slot. apply run_fault.
  unfold on_nodes, zoom, INIT_LIST, slot_addr. ht_simpl.
  rewrite run_fault; [done|]. unfold set_prev, update, create_slots, nodes_of. ht_simpl.
  unfold new_slots. simpl. rewrite (left_id_L ∅ (∪)), Z.add_0_r. unfold nodes_of in Hfresh.
  by rewrite Hfresh.
Qed.

Lemma freed_by_singleton (ff : option (freefn_t K C)) x e :
  freed_by ff x e = [x] <-> ff <> None /\ refcount e = 1.
Proof.
  unfold freed_by. destruct ff; [|naive_solver]. destruct (Z.eqb_spec (refcount e) 1); naive_solver.
Qed.

Lemma new_slots_table t chains s ht i :
  rep s ht t chains -> 0 <= i <= mask t -> slot_addr t i ∈ new_slots (table t) (mask t + 1).
Proof.
  intros Hr Hi. rewrite <-(r_len _ _ _ _ Hr). apply elem_of_new_slots.
  exists (Z.to_nat i). pose proof (r_len _ _ _ _ Hr). unfold slot_addr. rewrite Z2Nat.id by lia.
  split; [lia|done].
Qed.

(** C27: [hashtable_fini] empties the table and frees its block: the reference
    the table holds to each element is given up once, so that [freefn] runs
    exactly on the elements without another reference and every other element
    remains, linked to nothing; the slots are gone and the counter is 0. *)
Theorem hashtable_fini_correct s ht t m fuel :
  table_map s ht t m -> frees freed t -> table t <> NULL -> table t ∈ blocks (alloc s) ->
  (size m < fuel)%nat -> mask t + 1 < Z.of_nat fuel ->
  exists s', hashtable_fini fuel ht s = Ok (tt, s') /\
    blocks (alloc s') = blocks (alloc s) ∖ {[table t]} /\
    tabs s' !! ht = Some (with_count 0 t) /\
    (forall i, 0 <= i <= mask t ->
       nodes_of s' !! slot_addr t i = None /\ slots s' !! slot_addr t i = None) /\
    (exists l, freed (client (mem s')) = freed (client (mem s)) ++ l /\ NoDup l /\
       forall x, x ∈ l <-> exists k e, m !! k = Some x /\ elems_of s !! x = Some e /\
         freefn t <> None /\ refcount e = 1) /\
    (forall k x e, m !! k = Some x -> elems_of s !! x = Some e -> freed_by (freefn t) x e = [] ->
       is_list (nodes_of s') x [] /\ elems_of s' !! x = Some (with_refcount (refcount e - 1) e)).
Proof.
  intros (chains & Hr & Hm) Hfr Hn Hb Hfuel Hfuel2.
  rewrite <-(table_map_size _ _ _ _ _ Hr Hm) in Hfuel. pose proof (r_len _ _ _ _ Hr) as Hlen.
  assert (forall x, x ∈ concat chains <-> exists k, m !! k = Some x) as Hin.
  { intros x. split; [|by intros [k [? _]%Hm]]. intros Hx.
    destruct (table_map_key _ _ _ _ _ Hr Hx) as [k Hk]. exists k. by apply Hm. }
  apply wp_run_tt. unfold hashtable_fini. rewrite wp_bind.
  eapply (wp_fini_loop freed); [done|done|lia|lia|]. intros s1 hs [Dt Da Dn De (l & Df & Dnd & Dl) Dlive] Hhs.
  pose proof (r_tab _ _ _ _ Hr) as Ht. rewrite <-Dt in Ht. ht_go.
  unfold wp at 1, atomic_set. ht_go.
  apply wp_free; [done|ht_simpl; by rewrite Da|]. ht_simpl. intros a' Ha'. rewrite wp_modify.
  unfold destroy_slots. ht_simpl. unfold nodes_of. ht_simpl. split_and!.
  - by rewrite Ha', Da.
  - apply lookup_insert_eq.
  - intros i Hi. pose proof (new_slots_table _ _ _ _ _ Hr Hi).
    by rewrite !lookup_foldr_delete, !decide_True.
  - exists l. split_and!; [done|done|]. intros x. rewrite Dl. setoid_rewrite freed_by_singleton.
    rewrite Hin. naive_solver.
  - intros k x e Hk Hx Hf. assert (x ∈ concat chains) as Hxc by (apply Hin; eauto).
    destruct (Dlive x e Hxc Hx Hf) as [Hl Hel]. split; [|exact Hel].
    eapply is_list_frame; [exact Hl|]. intros p ->%list_elem_of_singleton.
    rewrite lookup_foldr_delete, decide_False; [done|]. rewrite <-Hlen.
    intros (i & Hi & ->)%elem_of_new_slots. pose proof (r_apart _ _ _ _ Hr i Hi) as Hap.
    unfold slot_addr in Hap. congruence.
Qed.
End Life.

(** ** The default hash function

    The four bytes the key points to, as an [unsigned int], the lowest first. *)
Definition default_hashfn (key : list Z) : outcome Z :=
  match key with
  | b0 :: b1 :: b2 :: b3 :: _ => Ok (b0 + 2 ^ 8 * b1 + 2 ^ 16 * b2 + 2 ^ 24 * b3)
  | _ => Fault
  end.

(** Of a 32-bit key it is the key, so that different keys have different hashes;
    what follows the key does not matter, and a shorter one is read past its end. *)
Theorem default_hashfn_value (n : Z) (rest : list Z) :
  0 <= n < 2 ^ 32 ->
  default_hashfn ([n mod 2 ^ 8; n / 2 ^ 8 mod 2 ^ 8; n / 2 ^ 16 mod 2 ^ 8; n / 2 ^ 24] ++ rest) = Ok n /\
  forall key, (length key < 4)%nat -> default_hashfn key = Fault.
Proof.
  intros Hn. split.
  - cbn. f_equal.
    pose proof (Z.div_mod n (2 ^ 8)). pose proof (Z.div_mod (n / 2 ^ 8) (2 ^ 8)).
    pose proof (Z.div_mod (n / 2 ^ 16) (2 ^ 8)).
    rewrite (Z.div_div n (2 ^ 8) (2 ^ 8)) in * by lia. rewrite (Z.div_div n (2 ^ 16) (2 ^ 8)) in * by lia.
    change (2 ^ 8 * 2 ^ 8) with (2 ^ 16) in *. change (2 ^ 16 * 2 ^ 8) with (2 ^ 24) in *. lia.
  - intros [|b0 [|b1 [|b2 [|b3 key]]]]; cbn; (done || lia).
Qed.

(** ** Witnesses

    Keys are integers, hashed to themselves, and the client keeps a list of the
    objects it freed. *)
Definition demo_equal : equalfn_t Z := fun e k => bool_decide (key e = Some k).
#[export] Instance demo_equal_ok : EqualFn demo_equal.
Proof.
  intros e k k' Hk. unfold demo_equal. rewrite Hk. apply bool_decide_ext. split; [by intros [=]|by intros ->].
Qed.

Definition demo_free : freefn_t Z (list addr) := fun he =>
  modify (fun m => mk_hmem (delete he (nodes m)) (delete he (elems m)) (client m ++ [he])).
#[export] Instance demo_free_ok : FreeFn id demo_free.
Proof.
  intros he m _ _. unfold demo_free. rewrite wp_modify. simpl. split; [|done].
  intros p Hp. by rewrite !lookup_delete_ne.
Qed.

(** Two slots, at 800 and 880; the element at 1000 has key 3 and no other
    reference, that at 2000 has key 4 and one more; that at 3000 is new. *)
Definition demo_table : hashtable Z (list addr) :=
  mk_table 800 1 3 (Some id) (Some demo_equal) (Some demo_free).
Definition demo_store : hstore Z (list addr) arena :=
  mk_hstore
    (mk_hmem
      (list_to_map [(800, mk_list 2000 2000); (2000, mk_list 800 800); (880, mk_list 1000 1000);
                    (1000, mk_list 880 880); (3000, mk_list 3000 3000)])
      (list_to_map [(1000, mk_elm 1 3 (Some 3) (Some 16)); (2000, mk_elm 2 4 (Some 4) (Some 16));
                    (3000, mk_elm 1 0 None None)])
      [])
    {[16 := demo_table]}
    (list_to_map [(800, mk_slot 1 LFree); (880, mk_slot 1 LFree)])
    (mk_arena 100000 {[800]}).
Definition demo_map : gmap Z addr := list_to_map [(3, 1000); (4, 2000)].

Ltac in_cases H := apply list_elem_of_In in H; simpl in H;
  repeat (destruct H as [<-|H]); try contradiction H.

Lemma demo_rep : rep demo_store 16 demo_table [[2000]; [1000]].
Proof.
  split; try done; try (by vm_compute).
  - exists demo_equal. split; [done|apply _].
  - intros [|[|i]] xs; simpl; intros [= <-]; (split; [|by vm_compute]);
      apply NoDup_ListNoDup; repeat constructor; vm_compute; intros []; lia.
  - intros [|[|i]] xs; simpl; intros [= <-]; by vm_compute.
  - apply NoDup_ListNoDup. repeat constructor; simpl; lia.
  - intros [|[|i]] xs x; simpl; intros [= <-] ->%list_elem_of_singleton.
    + exists (mk_elm 2 4 (Some 4) (Some 16)), 4. split; [done..|by exists id|done|simpl; lia].
    + exists (mk_elm 1 3 (Some 3) (Some 16)), 3. split; [done..|by exists id|done|simpl; lia].
  - intros [|[|i]] Hi; simpl in Hi; [by vm_compute..|lia].
Qed.

Lemma demo_table_map : table_map demo_store 16 demo_table demo_map.
Proof.
  exists [[2000]; [1000]]. split; [apply demo_rep|]. intros k x. simpl.
  unfold demo_map. simpl. rewrite !lookup_insert, lookup_empty. split.
  - intros Hx. repeat case_decide; simplify_eq; (split; [set_solver|by vm_compute]).
  - intros [Hx Hk]. in_cases Hx; vm_compute in Hk; by simplify_eq.
Qed.

Lemma demo_frees : frees id demo_table.
Proof. intros f [= <-]. apply _. Qed.

Lemma hashtable_hash_correct_witness :
  exists r s', hashtable_hash 3 16 3000 9 demo_store = Ok (r, s') /\
    r = 0 /\ table_map s' 16 (with_count 4 demo_table) (<[9 := 3000]> demo_map).
Proof.
  destruct (hashtable_hash_correct demo_store 16 demo_table demo_map 3000 (mk_elm 1 0 None None) 9 3)
    as (r & s' & E & (Hr & Hm & _) & _).
  - exact demo_table_map.
  - reflexivity.
  - split; [apply NoDup_singleton|by vm_compute].
  - vm_compute. split; [discriminate|reflexivity].
  - vm_compute. lia.
  - vm_compute. reflexivity.
  - exists r, s'. split; [exact E|split; [exact Hr|exact Hm]].
Defined.

Lemma hashtable_hash_twice_witness : hashtable_hash 3 16 1000 7 demo_store = Ok (-1, demo_store).
Proof.
  apply (hashtable_hash_twice demo_store 16 demo_table demo_map 1000 3).
  - exact demo_table_map.
  - reflexivity.
Defined.

Lemma hashtable_lookup_correct_witness :
  exists s', hashtable_lookup 3 16 4 demo_store = Ok (2000, s') /\
    refcount <$> elems_of s' !! 2000 = Some 3.
Proof.
  destruct (hashtable_lookup_correct demo_store 16 demo_table demo_map 4 3) as (e & He & E).
  - exact demo_table_map.
  - vm_compute. lia.
  - intros x e [= <-] [= <-]. vm_compute. reflexivity.
  - eexists. split; [exact E|]. injection He as <-. reflexivity.
Defined.

(** The element with key 3 has no other reference and is freed. *)
Lemma hashtable_unhash_correct_witness :
  exists s', hashtable_unhash 16 1000 demo_store = Ok (tt, s') /\
    table_map s' 16 (with_count 2 demo_table) (delete 3 demo_map) /\ client (mem s') = [1000].
Proof.
  destruct (hashtable_unhash_correct id demo_store 16 demo_table demo_map 3 1000
    (mk_elm 1 3 (Some 3) (Some 16)) true) as (s' & E & Hm & _ & Hf & _).
  - exact demo_table_map.
  - exact demo_frees.
  - reflexivity.
  - reflexivity.
  - exists s'. split; [exact E|split; [exact Hm|exact Hf]].
Defined.

Lemma hashtable_count_off_by_one_witness :
  hashtable_count 16 demo_store = Ok (3, demo_store) /\ size demo_map = 2%nat.
Proof.
  split; [|reflexivity]. apply (hashtable_count_off_by_one demo_store 16 demo_table demo_map).
  exact demo_table_map.
Defined.

Lemma hashtable_foreach_visits_witness :
  exists xs, NoDup xs /\ (forall x, x ∈ xs <-> exists k, demo_map !! k = Some x) /\
    exists s', hashtable_foreach 3 16 (Some (on_client cons)) demo_store = Ok (2, s').
Proof.
  destruct (hashtable_foreach_visits demo_store 16 demo_table demo_map cons 3)
    as (xs & Hnd & Hin & E & _).
  - exact demo_table_map.
  - vm_compute. lia.
  - vm_compute. reflexivity.
  - exists xs. split; [exact Hnd|split; [exact Hin|eexists; exact E]].
Defined.

Lemma hashtable_init_correct_witness :
  exists r s', hashtable_init 9 16 8 id demo_equal None demo_store = Ok (r, s') /\ r = 0 /\
    hashtable_count 16 s' = Ok (1, s').
Proof.
  destruct (hashtable_init_correct demo_store 16 8 id demo_equal None 9) as (r & s' & E & Hr).
  - eexists. reflexivity.
  - lia.
  - apply _.
  - lia.
  - reflexivity.
  - exists r, s'. split; [exact E|]. destruct Hr as [[-> _]|(-> & t & _ & _ & _ & _ & _ & Hc & _)].
    + vm_compute in E. discriminate.
    + split; [reflexivity|exact Hc].
Defined.

Lemma hashtable_init_zero_witness :
  hashtable_init 9 16 0 id demo_equal None
    (mk_hstore (mk_hmem ∅ ∅ []) {[16 := demo_table]} ∅ (mk_arena 100000 ∅)) = Fault.
Proof.
  destruct (hashtable_init_zero (mk_hstore (mk_hmem ∅ ∅ []) {[16 := demo_table]} ∅ (mk_arena 100000 ∅))
    16 id demo_equal None 8) as [[s' E]|E].
  - eexists. reflexivity.
  - intros p _ _. reflexivity.
  - vm_compute in E. discriminate.
  - exact E.
Defined.

(** Of the two elements, the one without another reference is freed. *)
Lemma hashtable_fini_correct_witness :
  exists s', hashtable_fini 4 16 demo_store = Ok (tt, s') /\
    is_list (nodes_of s') 2000 [] /\ elems_of s' !! 2000 = Some (mk_elm 1 4 (Some 4) (Some 16)).
Proof.
  destruct (hashtable_fini_correct id demo_store 16 demo_table demo_map 4)
    as (s' & E & _ & _ & _ & _ & Hlive).
  - exact demo_table_map.
  - exact demo_frees.
  - discriminate.
  - vm_compute. done.
  - vm_compute. lia.
  - vm_compute. reflexivity.
  - exists s'. split; [exact E|].
    exact (Hlive 4 2000 (mk_elm 2 4 (Some 4) (Some 16)) eq_refl eq_refl eq_refl).
Defined.

Lemma default_hashfn_value_witness : default_hashfn [1; 2; 3; 4] = Ok 67305985.
Proof. apply (default_hashfn_value 67305985 []). lia. Defined.
