(* ===== verification/HashConc.v ===== *)
(** A hash table under several threads (src/hashtable.c, include/ckit/hashtable.h).

    Every operation does its work on the chains inside the critical section of
    one slot, and what it does outside is atomic or concerns an element that is
    its own; so the steps of a thread are whole operations. Threads hold
    references to elements: a lookup gives one, [hashelm_put] gives one up, and
    the table holds one to every element in it. The end of the file has what
    happens when two threads hash the same element, where the test that is
    outside of the critical section matters. *)
From S2P Require Import Prelude Conc Atomic Clist Malloc Hashtable HashtableThms.

Section Threads.
Context {K C A : Type} `{Countable K} `{AllocatorLaws A} (freed : C -> list addr).
Context (ht : addr) (fuel : nat) (ff : option (freefn_t K C)) (Hff : forall f, ff = Some f -> FreeFn freed f).
Implicit Types (s : hstore K C A) (t : hashtable K C) (m : gmap K addr) (l : list addr) (ts : list (list addr)).

(** A thread is the list of the references it holds. *)
Definition held (x : addr) l : nat := count_occ Z.eq_dec l x.

(** The client keeps the counts within [int]. *)
Definition may_hold s (x : addr) : Prop :=
  forall e, elems_of s !! x = Some e -> refcount e < 2 ^ 31 - 1.

(** There is fuel for the table, and room for one more element. *)
Definition table_fits s : Prop :=
  forall t, tabs s !! ht = Some t -> count t <= Z.of_nat fuel /\ count t < 2 ^ 31 - 2.

(** What a thread does next. It hashes an element only when all references to it
    are its own; it unhashes one that it has a reference to and that is hashed;
    it gives up a reference to an element that has been given to the table
    before, since [hashelm_put] goes through [he->ht]. *)
Inductive ht_step : hstore K C A -> list addr -> hstore K C A -> list addr -> Prop :=
| do_lookup s l k p s' :
    table_fits s -> (forall x, key_of s x = Some k -> may_hold s x) ->
    hashtable_lookup fuel ht k s = Ok (p, s') ->
    ht_step s l s' (if p =? NULL then l else p :: l)
| do_hash s l he e k r s' :
    table_fits s -> may_hold s he -> he ∈ l ->
    elems_of s !! he = Some e -> refcount e = Z.of_nat (held he l) ->
    hashtable_hash fuel ht he k s = Ok (r, s') -> ht_step s l s' l
| do_unhash s l he s' :
    he ∈ l -> hashelm_hashed he s = Ok (true, s) ->
    hashtable_unhash ht he s = Ok (tt, s') -> ht_step s l s' l
| do_put s l1 he l2 e s' :
    elems_of s !! he = Some e -> ht_of e = Some ht ->
    hashelm_put he s = Ok (tt, s') -> ht_step s (l1 ++ he :: l2) s' (l1 ++ l2)
| do_hold s l he s' :
    he ∈ l -> may_hold s he ->
    hashelm_hold he s = Ok (tt, s') -> ht_step s l s' (he :: l).

(** A reference goes from one thread to another. *)
Inductive pass : list addr -> list addr -> list addr -> list addr -> Prop :=
| pass_ref l1 he l2 l : pass (l1 ++ he :: l2) l (l1 ++ l2) (he :: l).

Definition in_table m (x : addr) : Z := if bool_decide (x ∈ (map_img m : gset addr)) then 1 else 0.
Definition gone s : list addr := freed (client (mem s)).

(** The books: the count of an element is the table's reference and the threads';
    nobody has a reference to an element that was freed, nor is it in the table;
    nothing is freed twice. *)
Record ht_books s ts t m : Prop := {
  hb_map : table_map s ht t m;
  hb_free : freefn t = ff;
  hb_count x e : x ∉ gone s -> elems_of s !! x = Some e ->
    refcount e = in_table m x + Z.of_nat (total (held x) ts) /\ refcount e < 2 ^ 31;
  hb_live x : (0 < total (held x) ts)%nat -> x ∉ gone s /\ is_Some (elems_of s !! x);
  hb_hashed x : x ∈ (map_img m : gset addr) -> x ∉ gone s;
  hb_loner x : x ∉ gone s -> is_Some (elems_of s !! x) -> x ∉ (map_img m : gset addr) ->
    is_list (nodes_of s) x [];
  hb_once : NoDup (gone s);
}.

(** Every operation concerns one element. *)
Lemma ht_books_update s ts t m i l s' l' t' m' he :
  ht_books s ts t m -> ts !! i = Some l ->
  table_map s' ht t' m' -> freefn t' = ff -> he ∉ gone s ->
  (forall x, x <> he -> elems_of s' !! x = elems_of s !! x) -> loners_kept s s' he ->
  (forall x, x <> he -> x ∈ (map_img m' : gset addr) <-> x ∈ (map_img m : gset addr)) ->
  (forall x, x <> he -> held x l' = held x l) ->
  (gone s' = gone s /\ (exists e', elems_of s' !! he = Some e' /\ refcount e' < 2 ^ 31 /\
       refcount e' = in_table m' he + Z.of_nat (total (held he) ts) - Z.of_nat (held he l) + Z.of_nat (held he l') /\
       (he ∉ (map_img m' : gset addr) -> is_list (nodes_of s') he [])) \/
   gone s' = gone s ++ [he] /\ he ∉ (map_img m' : gset addr) /\
       (total (held he) ts + held he l' = held he l)%nat) ->
  ht_books s' (<[i := l']> ts) t' m'.
Proof.
  intros [Hmap Hfn Hcnt Hlive Hhash Hlone Honce] Hi Hmap' Hfn' Hhe Hel Hk Himg Hheld Hcase.
  assert (forall x, x <> he -> total (held x) (<[i := l']> ts) = total (held x) ts) as Htot.
  { intros x Hx. pose proof (total_insert (held x) ts i l l' Hi). rewrite Hheld in * by done. lia. }
  pose proof (total_insert (held he) ts i l l' Hi) as Hthe.
  assert (forall x, x <> he -> x ∉ gone s' <-> x ∉ gone s) as Hgone.
  { intros x Hx. destruct Hcase as [[-> _]|[-> _]]; [done|]. rewrite elem_of_app, list_elem_of_singleton. tauto. }
  assert (forall x, x <> he -> in_table m' x = in_table m x) as Hin.
  { intros x Hx. unfold in_table. by rewrite (bool_decide_ext _ _ (Himg x Hx)). }
  split; try done.
  - intros x e Hx He. destruct (decide (x = he)) as [->|Hne].
    + destruct Hcase as [(_ & e' & He' & Hlt & Hrc & _)|(Hg & _)]; [|rewrite Hg in Hx; set_solver].
      rewrite He in He'. injection He' as <-. split; [lia|done].
    + rewrite Hgone in Hx by done. rewrite Hel in He by done. rewrite Htot, Hin by done. by apply Hcnt.
  - intros x Hx. destruct (decide (x = he)) as [->|Hne].
    + destruct Hcase as [(-> & e' & He' & _)|(_ & _ & Hz)]; [by eauto|lia].
    + rewrite Htot in Hx by done. rewrite Hgone, Hel by done. by apply Hlive.
  - intros x Hx. destruct (decide (x = he)) as [->|Hne].
    + by destruct Hcase as [[-> _]|(_ & Hn & _)].
    + rewrite Himg in Hx by done. rewrite Hgone by done. by apply Hhash.
  - intros x Hx [ex Hex] Hn. destruct (decide (x = he)) as [->|Hne].
    + destruct Hcase as [(_ & e' & _ & _ & _ & Hl)|(Hg & _)]; [by apply Hl|rewrite Hg in Hx; set_solver].
    + rewrite Hgone in Hx by done. rewrite Hel in Hex by done. rewrite Himg in Hn by done.
      pose proof (Hlone x Hx ltac:(eauto) Hn) as Hxl.
      eapply is_list_frame; [exact Hxl|]. intros p Hp. apply list_elem_of_singleton in Hp as ->. apply Hk; eauto.
  - destruct Hcase as [[-> _]|[-> _]]; [done|]. apply NoDup_snoc. done.
Qed.

(** A count may change, of an element in the table or outside. *)
Lemma table_map_ref s t m x e r :
  table_map s ht t m -> elems_of s !! x = Some e -> 1 <= r < 2 ^ 31 ->
  table_map (set_elems (<[x := with_refcount r e]> (elems_of s)) s) ht t m.
Proof.
  intros (chains & Hr & Hm) He Hrange. exists chains.
  assert (forall y, key_of (set_elems (<[x := with_refcount r e]> (elems_of s)) s) y = key_of s y) as Hkey.
  { intros y. unfold key_of. ht_simpl. destruct (decide (y = x)) as [->|Hne].
    - by rewrite lookup_insert_eq, He.
    - by rewrite lookup_insert_ne. }
  split; [|intros k y; by rewrite Hkey]. destruct Hr. split; try done.
  - intros i xs y Hi Hy. destruct (r_elem i xs y Hi Hy) as (ey & k & []). destruct (decide (y = x)) as [->|Hne].
    + exists (with_refcount r e), k. simplify_eq. split; try done. ht_simpl. apply lookup_insert_eq.
    + exists ey, k. split; try done. ht_simpl. by rewrite lookup_insert_ne.
  - intros i Hi. ht_simpl. rewrite lookup_insert_ne; [by apply r_apart|]. intros ->.
    by rewrite r_apart in He.
  - ht_simpl. rewrite lookup_insert_ne; [done|]. intros ->. by rewrite r_null in He.
Qed.

Lemma held_cons x y l : held x (y :: l) = ((if decide (y = x) then 1 else 0) + held x l)%nat.
Proof. unfold held. simpl. destruct (Z.eq_dec y x), (decide (y = x)); done. Qed.
Lemma held_middle x y l1 l2 : held x (l1 ++ y :: l2) = ((if decide (y = x) then 1 else 0) + held x (l1 ++ l2))%nat.
Proof. unfold held. rewrite !count_occ_app. simpl. destruct (Z.eq_dec y x), (decide (y = x)); try done; lia. Qed.
Lemma held_pos x l : x ∈ l -> (0 < held x l)%nat.
Proof. intros Hx. apply list_elem_of_In, (count_occ_In Z.eq_dec) in Hx. unfold held. lia. Qed.

(** One more reference, to a live element. *)
Lemma ref_books s ts t m i l x e :
  ht_books s ts t m -> ts !! i = Some l -> x ∉ gone s -> elems_of s !! x = Some e ->
  1 <= refcount e < 2 ^ 31 - 1 ->
  ht_books (set_elems (<[x := with_refcount (refcount e + 1) e]> (elems_of s)) s) (<[i := x :: l]> ts) t m.
Proof.
  intros Hb Hi Hx He Hrc. pose proof (hb_count _ _ _ _ Hb x e Hx He) as [Hc _].
  pose proof (total_lookup (held x) ts i l Hi).
  eapply (ht_books_update s ts t m i l _ _ t m x); try done; try apply Hb.
  - apply table_map_ref; [apply Hb|done|lia].
  - intros y Hy. ht_simpl. by rewrite lookup_insert_ne.
  - intros y Hy. rewrite held_cons. by rewrite decide_False.
  - left. split; [done|]. eexists. split; [ht_simpl; apply lookup_insert_eq|]. ht_simpl.
    rewrite held_cons, decide_True by done. split_and!; [lia|lia|].
    intros Hn. apply (hb_loner _ _ _ _ Hb); [done|by eauto|done].
Qed.

Lemma in_table_img m k x : m !! k = Some x -> x ∈ (map_img m : gset addr).
Proof. intros E. apply elem_of_map_img. eauto. Qed.

Lemma table_elem s t m k x :
  table_map s ht t m -> m !! k = Some x ->
  exists e, elems_of s !! x = Some e /\ key e = Some k /\ 1 <= refcount e < 2 ^ 31.
Proof.
  intros (chains & Hr & Hm) [(i & xs & Hi & Hx)%elem_of_chains Hk]%Hm.
  destruct (r_elem _ _ _ _ Hr i xs x Hi Hx) as (e & k' & []). exists e. split_and!; [done| |lia|lia].
  unfold key_of in Hk. by rewrite is_elem in Hk.
Qed.

Lemma fits_size s t m : table_map s ht t m -> table_fits s ->
  (size m < fuel)%nat /\ Z.of_nat (size m) < 2 ^ 31 - 3.
Proof.
  intros Hm Hf. pose proof (table_map_tab _ _ _ _ Hm) as Ht. destruct (Hf t Ht).
  destruct Hm as (chains & Hr & Hm). pose proof (r_count _ _ _ _ Hr).
  rewrite <-(table_map_size _ _ _ _ _ Hr Hm). lia.
Qed.

Definition next_books ts i s l : Prop := exists t m, ht_books s (<[i := l]> ts) t m.

Lemma lookup_books s ts t m i l k :
  ht_books s ts t m -> ts !! i = Some l -> table_fits s ->
  (forall x, key_of s x = Some k -> may_hold s x) ->
  wp (hashtable_lookup fuel ht k) (fun p s' => next_books ts i s' (if p =? NULL then l else p :: l)) s.
Proof.
  intros Hb Hi Hfit Hmay. destruct (fits_size _ _ _ (hb_map _ _ _ _ Hb) Hfit) as [Hfuel _].
  eapply wp_hashtable_lookup; [apply Hb|done|]. destruct (m !! k) as [x|] eqn:Hk.
  - intros e He. pose proof (hb_map _ _ _ _ Hb) as (chains & _ & Hm).
    specialize (Hmay x (proj2 (proj1 (Hm k x) Hk)) e He). split; [done|].
    destruct (table_elem _ _ _ _ _ (hb_map _ _ _ _ Hb) Hk) as (e' & He' & _ & Hrc). simplify_eq.
    exists t, m. destruct (Z.eqb_spec x NULL) as [->|Hne].
    { destruct (hb_map _ _ _ _ Hb) as (chains' & Hr & _). by rewrite (r_null _ _ _ _ Hr) in He. }
    eapply ref_books; try done; [|lia]. eapply (hb_hashed _ _ _ _ Hb), in_table_img, Hk.
  - exists t, m. rewrite Z.eqb_refl. by rewrite list_insert_id.
Qed.

Lemma hold_books s ts t m i l he :
  ht_books s ts t m -> ts !! i = Some l -> he ∈ l -> may_hold s he ->
  wp (hashelm_hold he) (fun _ s' => next_books ts i s' (he :: l)) s.
Proof.
  intros Hb Hi Hin Hmay. pose proof (held_pos he l Hin). pose proof (total_lookup (held he) ts i l Hi).
  destruct (hb_live _ _ _ _ Hb he) as (Hg & e & He); [lia|].
  destruct (hb_count _ _ _ _ Hb he e Hg He) as [Hc _]. specialize (Hmay e He).
  assert (1 <= refcount e) by (unfold in_table in Hc; case_bool_decide; lia).
  unfold hashelm_hold. wp_simpl. exists e. split; [done|]. rewrite wp_atomic_inc by lia. wp_simpl.
  exists t, m. by apply ref_books.
Qed.

Lemma live_elem s ts t m i l he :
  ht_books s ts t m -> ts !! i = Some l -> he ∈ l ->
  he ∉ gone s /\ (0 < held he l <= total (held he) ts)%nat /\
  exists e, elems_of s !! he = Some e /\ refcount e < 2 ^ 31 /\
    refcount e = in_table m he + Z.of_nat (total (held he) ts).
Proof.
  intros Hb Hi Hin. pose proof (held_pos he l Hin). pose proof (total_lookup (held he) ts i l Hi).
  destruct (hb_live _ _ _ _ Hb he) as (Hg & e & He); [lia|].
  destruct (hb_count _ _ _ _ Hb he e Hg He). split_and!; [done|lia|lia|eauto].
Qed.

Lemma img_insert m k x he : m !! k = None -> x <> he ->
  x ∈ (map_img (<[k := he]> m) : gset addr) <-> x ∈ (map_img m : gset addr).
Proof.
  intros Hk Hx. rewrite !elem_of_map_img. split; intros [k' E]; exists k'.
  - rewrite lookup_insert in E. case_decide; congruence.
  - rewrite lookup_insert_ne; [done|]. congruence.
Qed.

Lemma img_delete s t m k x he : table_map s ht t m -> m !! k = Some he ->
  x ∈ (map_img (delete k m) : gset addr) <-> x <> he /\ x ∈ (map_img m : gset addr).
Proof.
  intros (chains & _ & Hm) Hk. rewrite !elem_of_map_img. split.
  - intros [k' [Hne E]%lookup_delete_Some]. split; [|eauto]. intros ->.
    apply Hm in Hk as [_ Hk1], E as [_ Hk2]. congruence.
  - intros [Hx [k' E]]. exists k'. rewrite lookup_delete_ne; congruence.
Qed.

Lemma hash_books s ts t m i l he e k :
  ht_books s ts t m -> ts !! i = Some l -> table_fits s -> may_hold s he -> he ∈ l ->
  elems_of s !! he = Some e -> refcount e = Z.of_nat (held he l) ->
  wp (hashtable_hash fuel ht he k) (fun _ s' => next_books ts i s' l) s.
Proof.
  intros Hb Hi Hfit Hmay Hin He Hown. destruct (fits_size _ _ _ (hb_map _ _ _ _ Hb) Hfit) as [Hfuel Hsm].
  destruct (live_elem _ _ _ _ _ _ _ Hb Hi Hin) as (Hg & Hheld & e' & He' & _ & Hc).
  rewrite He in He'. injection He' as <-. specialize (Hmay e He). unfold in_table in Hc.
  case_bool_decide as Himg; [lia|].
  assert (is_list (nodes_of s) he []) as Hself by (apply (hb_loner _ _ _ _ Hb); eauto).
  eapply wp_hashtable_hash; [apply Hb|done|done|lia|done|done|]. intros hf Hhf.
  destruct (m !! k) as [x|] eqn:Hk.
  - exists t, m. eapply (ht_books_update s ts t m i l _ l t m he); try done; try apply Hb.
    + eapply table_map_outside; [apply Hb|done..].
    + intros y Hy. ht_simpl. by rewrite lookup_insert_ne.
    + left. split; [done|]. eexists. split; [ht_simpl; apply lookup_insert_eq|]. unfold stamped. ht_simpl.
      unfold in_table. rewrite bool_decide_false by done. split_and!; [lia|lia|done].
  - intros s' Hm' Hel Hcl _ Hk'. exists (with_count (count t + 1) t), (<[k := he]> m).
    eapply (ht_books_update s ts t m i l s' l _ _ he); try done; try apply Hb.
    + intros y Hy. rewrite Hel. by rewrite lookup_insert_ne.
    + intros y Hy. by apply img_insert.
    + left. split; [unfold gone; by rewrite Hcl|]. eexists. rewrite Hel. split; [apply lookup_insert_eq|].
      assert (he ∈ (map_img (<[k := he]> m) : gset addr)) as Hin'.
      { apply elem_of_map_img. exists k. apply lookup_insert_eq. }
      unfold stamped, in_table. ht_simpl. rewrite bool_decide_true by done. split_and!; [lia|lia|done].
Qed.

Lemma unhash_books s ts t m i l he :
  ht_books s ts t m -> ts !! i = Some l -> he ∈ l -> hashelm_hashed he s = Ok (true, s) ->
  wp (hashtable_unhash ht he) (fun _ s' => next_books ts i s' l) s.
Proof.
  intros Hb Hi Hin Hhashed.
  destruct (live_elem _ _ _ _ _ _ _ Hb Hi Hin) as (Hg & Hheld & e & He & Hlt & Hc).
  destruct (decide (he ∈ (map_img m : gset addr))) as [Himg|Hn]; cycle 1.
  { assert (wp (hashelm_hashed he) (fun b _ => b = false) s) as Hw.
    { unfold hashelm_hashed. rewrite wp_bind, wp_on_nodes. eapply wp_list_empty.
      - apply (hb_loner _ _ _ _ Hb); eauto.
      - by rewrite bool_decide_true. }
    unfold wp in Hw. by rewrite Hhashed in Hw. }
  unfold in_table in Hc. rewrite bool_decide_true in Hc by done.
  apply elem_of_map_img in Himg as [k Hk].
  assert (freed_by (freefn t) he e = []) as Hnf.
  { unfold freed_by. destruct (freefn t); [|done]. by rewrite (proj2 (Z.eqb_neq _ _)) by lia. }
  apply (wp_unhash freed true s ht t m k he e); [apply Hb| |done|done|].
  { intros f E. apply Hff. by rewrite <-(hb_free _ _ _ _ Hb). }
  intros s' Hm' Hfr Hfreed Hlive _ Hk'. destruct (Hlive Hnf) as [Hself He'].
  exists (with_count (count t - 1) t), (delete k m).
  eapply (ht_books_update s ts t m i l s' l _ _ he); try done; try apply Hb.
  - intros x Hx. rewrite (img_delete s t m k) by (done || apply Hb). tauto.
  - left. split; [unfold gone; by rewrite Hfreed, Hnf, app_nil_r|].
    eexists. split; [exact He'|]. ht_simpl.
    assert (he ∉ (map_img (delete k m) : gset addr)) as Hn.
    { rewrite (img_delete s t m k) by (done || apply Hb). tauto. }
    unfold in_table. rewrite bool_decide_false by done. split_and!; [lia|lia|done].
Qed.

(** The table does not change when an element outside is released. *)
Lemma table_map_released s s' t m he e :
  table_map s ht t m -> is_list (nodes_of s) he [] -> elems_of s !! he = Some e ->
  tabs s' = tabs s -> slots s' = slots s ->
  (forall p, p <> he -> nodes_of s' !! p = nodes_of s !! p /\ elems_of s' !! p = elems_of s !! p) ->
  table_map s' ht t m.
Proof.
  intros (chains & Hr & Hm) Hself He Htabs Hslots Hframe.
  pose proof (self_outside_all _ _ _ _ _ _ Hr Hself He) as Hout. exists chains. split.
  - eapply rep_outside; [done..| | |].
    + intros j xs p Hj Hp. apply Hframe. intros ->. by eapply (self_outside s ht t chains he e j xs).
    + intros x Hx. apply Hframe. by intros ->.
    + intros p Hp. rewrite <-Hp. apply Hframe. intros ->. congruence.
  - intros k x. rewrite Hm. split; intros [Hx Hk]; (split; [done|]); revert Hk; unfold key_of;
      rewrite (proj2 (Hframe x ltac:(by intros ->))); done.
Qed.

(** Giving up a reference: the last one to an element that is not in the table
    frees it. *)
Lemma put_books s ts t m i l1 he l2 e :
  ht_books s ts t m -> ts !! i = Some (l1 ++ he :: l2) ->
  elems_of s !! he = Some e -> ht_of e = Some ht ->
  wp (hashelm_put he) (fun _ s' => next_books ts i s' (l1 ++ l2)) s.
Proof.
  intros Hb Hi He Hht.
  destruct (live_elem _ _ _ _ _ _ he Hb Hi ltac:(set_solver)) as (Hg & Hheld & e' & He' & Hlt & Hc).
  rewrite He in He'. injection He' as <-. rewrite held_middle, decide_True in Hheld by done.
  pose proof (table_map_tab _ _ _ _ (hb_map _ _ _ _ Hb)) as Ht.
  assert (forall x, x <> he -> held x (l1 ++ l2) = held x (l1 ++ he :: l2)) as Hothers.
  { intros x Hx. rewrite held_middle. by rewrite decide_False. }
  destruct (decide (refcount e = 1)) as [E1|E1].
  - assert (in_table m he = 0) as Hn0 by (unfold in_table in *; case_bool_decide; lia).
    assert (he ∉ (map_img m : gset addr)) as Hn by (unfold in_table in Hn0; by case_bool_decide).
    assert (is_list (nodes_of s) he []) as Hself by (apply (hb_loner _ _ _ _ Hb); eauto).
    eapply (wp_hashelm_put freed); [done|done|done| |done|lia|].
    { intros f E. apply Hff. by rewrite <-(hb_free _ _ _ _ Hb). }
    intros s' []. exists t, m.
    eapply (ht_books_update s ts t m i _ s' _ t m he); try done; try apply Hb.
    + eapply table_map_released; [apply Hb|done..].
    + intros x Hx. by apply rl_frame.
    + intros x Hx _ _. by apply rl_frame.
    + unfold gone. rewrite rl_freed, (hb_free _ _ _ _ Hb). rewrite (hb_free _ _ _ _ Hb) in rl_live.
      unfold freed_by in *. rewrite E1 in *. destruct ff as [f|].
      * right. split; [done|]. split; [done|]. rewrite held_middle, decide_True by done. lia.
      * left. rewrite app_nil_r. split; [done|]. destruct (rl_live eq_refl) as [Hnodes Hel].
        eexists. split; [exact Hel|]. ht_simpl. rewrite Hn0, held_middle, decide_True by done.
        split_and!; [lia|lia|]. intros _. by rewrite Hnodes.
  - assert (1 < refcount e) by (unfold in_table in Hc; case_bool_decide; lia).
    unfold hashelm_put. wp_simpl. exists e. split; [done|]. rewrite wp_atomic_dec_and_test by lia.
    rewrite (proj2 (Z.eqb_neq _ _) E1). wp_simpl. exists t, m.
    eapply (ht_books_update s ts t m i _ _ _ t m he); try done; try apply Hb.
    + apply table_map_ref; [apply Hb|done|lia].
    + intros x Hx. ht_simpl. by rewrite lookup_insert_ne.
    + left. split; [done|]. eexists. split; [ht_simpl; apply lookup_insert_eq|]. ht_simpl.
      rewrite held_middle, decide_True by done. split_and!; [lia|lia|].
      intros Hn. apply (hb_loner _ _ _ _ Hb); eauto.
Qed.

Lemma pass_books s ts t m i j l1 l2 l1' l2' :
  ht_books s ts t m -> i <> j -> ts !! i = Some l1 -> ts !! j = Some l2 -> pass l1 l2 l1' l2' ->
  ht_books s (<[j := l2']> (<[i := l1']> ts)) t m.
Proof.
  intros [] Hij Hi Hj Hp. destruct Hp as [la he lb l].
  assert (forall x, total (held x) (<[j := he :: l]> (<[i := la ++ lb]> ts)) = total (held x) ts) as Htot.
  { intros x. assert (<[i := la ++ lb]> ts !! j = Some l) as Hj' by (by rewrite list_lookup_insert_ne).
    pose proof (total_insert (held x) _ _ _ (la ++ lb) Hi).
    pose proof (total_insert (held x) _ _ _ (he :: l) Hj').
    rewrite held_middle, held_cons in *. lia. }
  split; try done; intros x; rewrite Htot; auto.
Qed.

Lemma ht_step_books s ts t m i l s' l' :
  ht_books s ts t m -> ts !! i = Some l -> ht_step s l s' l' -> next_books ts i s' l'.
Proof.
  intros Hb Hi Hst. destruct Hst as [s l k p s' Hfit Hmay E|s l he e k r s' Hfit Hmay Hin He Hown E|
    s l he s' Hin Hh E|s l1 he l2 e s' He Hht E|s l he s' Hin Hmay E].
  - pose proof (lookup_books _ _ _ _ _ _ _ Hb Hi Hfit Hmay) as Hw. unfold wp in Hw. by rewrite E in Hw.
  - pose proof (hash_books _ _ _ _ _ _ _ _ k Hb Hi Hfit Hmay Hin He Hown) as Hw. unfold wp in Hw. by rewrite E in Hw.
  - pose proof (unhash_books _ _ _ _ _ _ _ Hb Hi Hin Hh) as Hw. unfold wp in Hw. by rewrite E in Hw.
  - pose proof (put_books _ _ _ _ _ _ _ _ _ Hb Hi He Hht) as Hw. unfold wp in Hw. by rewrite E in Hw.
  - pose proof (hold_books _ _ _ _ _ _ _ Hb Hi Hin Hmay) as Hw. unfold wp in Hw. by rewrite E in Hw.
Qed.

Lemma ht_reachable_books c c' t m :
  ht_books (shared c) (threads c) t m -> reachable ht_step pass c c' ->
  exists t' m', ht_books (shared c') (threads c') t' m'.
Proof.
  intros Hb. apply (reachable_invariant _ _ (fun d => exists t m, ht_books (shared d) (threads d) t m)); [by eauto|].
  intros d d' (t1 & m1 & Hd) Hst. destruct Hst as [s ts i l s' l' Hi Hst|s ts i j l1 l2 l1' l2' Hij Hi Hj Hp].
  - by eapply ht_step_books.
  - exists t1, m1. by eapply pass_books.
Qed.

End Threads.

(** ** Two threads that hash the same element *)
Section DoubleHash.
Context {K C A : Type} `{Countable K} `{Allocator A}.
Abbreviation HT := (M (hstore K C A)).
Implicit Types (s : hstore K C A) (t : hashtable K C).

(** The two halves of [hashtable_hash]: up to the lock, with the slot it has chosen,
    or [None] when the element is hashed; and the critical section. *)
Definition hash_prepare (ht he : addr) (k : K) : HT (option addr) :=
  b ← on_nodes (list_empty he);
  if negb b then mret None
  else
    h ← call_hashfn ht k;
    on_elems (update he (fun e => mk_elm (refcount e) h (key e) (ht_of e)));;
    on_elems (update he (fun e => mk_elm (refcount e) (hash e) (key e) (Some ht)));;
    on_elems (update he (fun e => mk_elm (refcount e) (hash e) (Some k) (ht_of e)));;
    t ← on_tabs (load ht);
    e ← on_elems (load he);
    mret (Some (get_slot t (hash e))).

Definition hash_locked (fuel : nat) (ht he : addr) (k : K) (slot : addr) : HT Z :=
  lock_op slot rwlock_wrlock;;
  r ← list_foreach nodes_of fuel slot (fun he2 =>
        eq ← call_equalfn ht he2 k;
        if (eq : bool) then mret (Some tt) else mret None);
  match r with
  | Some _ => lock_op slot rwlock_unlock;; mret (-1)
  | None =>
      on_slots (update slot (fun sl => with_slot_count (u64 (slot_count sl + 1)) sl));;
      table_count ht atomic_inc;;
      on_nodes (list_add_front slot he);;
      hashelm_hold he;;
      lock_op slot rwlock_unlock;;
      mret 0
  end.

Lemma hash_halves fuel ht he k s :
  hashtable_hash fuel ht he k s =
  (r ← hash_prepare ht he k; match r with Some slot => hash_locked fuel ht he k slot | None => mret (-1) end) s.
Proof.
  unfold hashtable_hash, hash_prepare, hash_locked, mbind, M_bind.
  destruct (on_nodes (list_empty he) s) as [[[] s1]| | |]; [|done..]. cbn [negb].
  destruct (call_hashfn ht k s1) as [[h s2]| | |]; [|done..].
  destruct (on_elems _ s2) as [[[] s3]| | |]; [|done..].
  destruct (on_elems _ s3) as [[[] s4]| | |]; [|done..].
  destruct (on_elems _ s4) as [[[] s5]| | |]; [|done..].
  destruct (on_tabs _ s5) as [[t s6]| | |]; [|done..].
  by destruct (on_elems _ s6) as [[e s7]| | |].
Qed.

Lemma wp_hash_prepare ht he k s t e hf (Q : option addr -> hstore K C A -> Prop) :
  is_list (nodes_of s) he [] -> elems_of s !! he = Some e -> tabs s !! ht = Some t -> hashfn t = Some hf ->
  Q (Some (get_slot t (u32 (hf k)))) (set_elems (<[he := stamped ht hf k e]> (elems_of s)) s) ->
  wp (hash_prepare ht he k) Q s.
Proof.
  intros Hself He Ht Hhf HQ. unfold hash_prepare. rewrite wp_bind, wp_on_nodes. eapply wp_list_empty; [done|].
  rewrite bool_decide_true by done. cbn [negb]. rewrite set_nodes_id.
  rewrite wp_bind. eapply wp_call_hashfn; [done..|]. ht_go. rewrite !insert_insert_eq. exact HQ.
Qed.

(** The critical section on an empty slot links the element in, whatever the
    element was linked to. *)
Lemma wp_hash_locked fuel ht he k slot s t e n (Q : Z -> hstore K C A -> Prop) :
  tabs s !! ht = Some t -> slots s !! slot = Some (mk_slot n LFree) ->
  is_list (nodes_of s) slot [] -> is_Some (nodes_of s !! he) -> he <> slot ->
  elems_of s !! he = Some e -> - 2 ^ 31 <= refcount e < 2 ^ 31 - 1 -> - 2 ^ 31 <= count t < 2 ^ 31 - 1 ->
  (0 < fuel)%nat ->
  (forall s', next_of (nodes_of s') slot = Some he -> next_of (nodes_of s') he = Some slot ->
     (forall p, p <> he -> p <> slot -> nodes_of s' !! p = nodes_of s !! p) ->
     tabs s' = <[ht := with_count (count t + 1) t]> (tabs s) ->
     slots s' = <[slot := mk_slot (u64 (n + 1)) LFree]> (slots s) ->
     elems_of s' = <[he := with_refcount (refcount e + 1) e]> (elems_of s) -> Q 0 s') ->
  wp (hash_locked fuel ht he k slot) Q s.
Proof.
  intros Ht Hsl Hring Hnode Hne He Hrc Hcnt Hfuel HQ. unfold hash_locked. ht_go. apply wp_wrlock. ht_simpl. wp_simpl.
  destruct fuel as [|fuel]; [lia|]. pose proof Hring as [_ [Hnx _]]. apply next_of_Some in Hnx as (a & Ha & Hna).
  unfold list_foreach. wp_simpl. exists a. split; [exact Ha|]. cbn [foreach_from]. rewrite Hna, Z.eqb_refl. wp_simpl.
  ht_go. rewrite wp_atomic_inc by lia. wp_simpl. rewrite wp_on_nodes.
  eapply wp_mono; [apply (wp_list_add_front _ slot he [] Hring); [by intros ?%list_elem_of_singleton|done]|].
  intros [] n' [[_ (Hn1 & _ & Hn2 & _)] Hframe]. unfold hashelm_hold. ht_go.
  rewrite wp_atomic_inc by done. ht_go. apply wp_unlock; [by left|]. wp_simpl.
  apply HQ; ht_simpl; try done.
  - intros p Hp Hps. apply Hframe. set_solver.
  - by rewrite !insert_insert_eq.
Qed.

(** Looking up a key in a slot whose only element leads out of the ring. *)
Lemma lookup_strays s ht t ef slot other he e n hf k fuel :
  tabs s !! ht = Some t -> hashfn t = Some hf -> equalfn t = Some ef -> ef e k = false ->
  get_slot t (u32 (hf k)) = slot -> slots s !! slot = Some (mk_slot n LFree) ->
  next_of (nodes_of s) slot = Some he -> next_of (nodes_of s) he = Some other ->
  he <> slot -> other <> slot -> elems_of s !! he = Some e -> elems_of s !! other = None -> (1 < fuel)%nat ->
  hashtable_lookup fuel ht k s = Fault.
Proof.
  intros Ht Hhf Hef Hk Hslot Hsl Hn1 Hn2 Hne1 Hne2 He Hother Hfuel.
  destruct fuel as [|[|fuel]]; [lia..|].
  apply next_of_Some in Hn1 as (a & Ha & <-), Hn2 as (b & Hb & <-).
  unfold hashtable_lookup. assert (call_hashfn ht k s = Ok (u32 (hf k), s)) as E1.
  { apply wp_eq. by eapply wp_call_hashfn. }
  rewrite (run_bind _ _ _ _ _ E1). assert (on_tabs (load ht) s = Ok (t, s)) as E2.
  { apply wp_eq, wp_tab_load. eauto. }
  rewrite (run_bind _ _ _ _ _ E2), Hslot. set (s1 := set_slots (<[slot := mk_slot n (LRead 1)]> (slots s)) s).
  assert (lock_op slot rwlock_rdlock s = Ok (tt, s1)) as E3.
  { apply wp_eq. rewrite wp_lock_op. eexists. split; [done|]. by apply wp_rdlock. }
  rewrite (run_bind _ _ _ _ _ E3). apply run_fault. unfold list_foreach.
  rewrite (run_bind get _ s1 s1 s1) by done.
  rewrite (run_bind (of_option _) _ s1 a s1); [|unfold of_option; change (nodes_of s1) with (nodes_of s); by rewrite Ha].
  cbn [foreach_from]. rewrite (proj2 (Z.eqb_neq _ _) Hne1).
  assert (call_equalfn ht (next a) k s1 = Ok (false, s1)) as E4.
  { apply wp_eq. unfold call_equalfn. wp_simpl. exists t. split; [done|]. wp_simpl. exists ef. split; [done|].
    wp_simpl. exists e. split; [done|]. wp_simpl. done. }
  rewrite (run_bind _ _ s1 None s1); [|by rewrite (run_bind _ _ _ _ _ E4)].
  rewrite (run_bind get _ s1 s1 s1) by done.
  rewrite (run_bind (of_option _) _ s1 b s1); [|unfold of_option; change (nodes_of s1) with (nodes_of s); by rewrite Hb].
  cbn [foreach_from]. rewrite (proj2 (Z.eqb_neq _ _) Hne2). apply run_fault, run_fault.
  unfold call_equalfn. rewrite (run_bind _ _ s1 t s1); [|by apply wp_eq, wp_tab_load; eauto].
  rewrite (run_bind (of_option _) _ s1 ef s1); [|unfold of_option; by rewrite Hef].
  apply run_fault. unfold on_elems, zoom, load. change (elems_of s1) with (elems_of s). by rewrite Hother.
Qed.

(** C13: Two threads that hash one new element under different keys corrupt the table.
    Both find the element unhashed, since [hashtable_hash] tests that before it
    takes the lock; then each links it into its own slot, and both calls return
    0. The element has the second key and leads from the first slot into the
    second: a lookup of any other key in the first slot takes the head of the
    second for an element. *)
Theorem hash_race s ht t chains (i j : nat) (he : addr) e hf (k1 k2 k3 : K) (fuel : nat) :
  rep s ht t chains -> chains !! i = Some [] -> chains !! j = Some [] -> i <> j ->
  hashfn t = Some hf ->
  Z.land (u32 (hf k1)) (mask t) = Z.of_nat i -> Z.land (u32 (hf k2)) (mask t) = Z.of_nat j ->
  Z.land (u32 (hf k3)) (mask t) = Z.of_nat i -> k3 <> k2 ->
  is_list (nodes_of s) he [] -> elems_of s !! he = Some e -> 1 <= refcount e < 2 ^ 31 - 2 ->
  Z.of_nat (length (concat chains)) < 2 ^ 31 - 4 -> (1 < fuel)%nat ->
  let a := slot_addr t (Z.of_nat i) in
  let b := slot_addr t (Z.of_nat j) in
  exists s1 s2 s3 s4,
    hash_prepare ht he k1 s = Ok (Some a, s1) /\
    hash_prepare ht he k2 s1 = Ok (Some b, s2) /\
    hash_locked fuel ht he k1 a s2 = Ok (0, s3) /\
    hash_locked fuel ht he k2 b s3 = Ok (0, s4) /\
    key_of s4 he = Some k2 /\
    next_of (nodes_of s4) a = Some he /\ next_of (nodes_of s4) he = Some b /\
    hashtable_lookup fuel ht k3 s4 = Fault.
Proof.
  intros Hr Hi Hj Hij Hhf Hk1 Hk2 Hk3 Hk Hself He Hrc Hsmall Hfuel a b.
  pose proof (r_tab _ _ _ _ Hr) as Ht. pose proof (r_count _ _ _ _ Hr) as Hcnt.
  destruct (r_equal _ _ _ _ Hr) as (ef & Hef & Hefok).
  pose proof (r_ring _ _ _ _ Hr _ _ Hi) as Hra. pose proof (r_ring _ _ _ _ Hr _ _ Hj) as Hrb. fold a in Hra. fold b in Hrb.
  pose proof (r_slot _ _ _ _ Hr _ _ Hi) as Hsa. pose proof (r_slot _ _ _ _ Hr _ _ Hj) as Hsb. fold a in Hsa. fold b in Hsb.
  assert (he <> a) as Hha by (intros ->; by eapply (self_outside s ht t chains a e i []); [..|left]).
  assert (he <> b) as Hhb by (intros ->; by eapply (self_outside s ht t chains b e j []); [..|left]).
  assert (a <> b) as Hab by (intros Eab%slot_addr_inj; lia).
  assert (is_Some (nodes_of s !! he)) as Hnode by (eapply is_list_node; [exact Hself|set_solver]).
  set (s1 := set_elems (<[he := stamped ht hf k1 e]> (elems_of s)) s).
  set (e2 := stamped ht hf k2 (stamped ht hf k1 e)).
  set (s2 := set_elems (<[he := e2]> (elems_of s1)) s1).
  assert (elems_of s2 !! he = Some e2) as He2 by apply lookup_insert_eq.
  assert (hash_prepare ht he k1 s = Ok (Some a, s1)) as E1.
  { apply wp_eq. eapply wp_hash_prepare; [done..|]. unfold get_slot. by rewrite Hk1. }
  assert (hash_prepare ht he k2 s1 = Ok (Some b, s2)) as E2.
  { apply wp_eq. eapply wp_hash_prepare; [exact Hself|apply lookup_insert_eq|exact Ht|done|]. unfold get_slot. by rewrite Hk2. }
  assert (wp (hash_locked fuel ht he k1 a) (fun r3 s3 => r3 = 0 /\
    wp (hash_locked fuel ht he k2 b) (fun r4 s4 => r4 = 0 /\ key_of s4 he = Some k2 /\
      next_of (nodes_of s4) a = Some he /\ next_of (nodes_of s4) he = Some b /\
      hashtable_lookup fuel ht k3 s4 = Fault) s3) s2)
    as (r3 & s3 & E3 & -> & (r4 & s4 & E4 & -> & ?)%wp_run)%wp_run; [|by exists s1, s2, s3, s4].
  eapply (wp_hash_locked fuel ht he k1 a s2 t e2); try done; [unfold e2, stamped; ht_simpl; lia|lia|lia|].
  intros s3 Hn1 Hn2 Hfr3 Ht3 Hs3 He3. split; [done|].
  eapply (wp_hash_locked fuel ht he k2 b s3 (with_count (count t + 1) t)); try done.
  - rewrite Ht3. apply lookup_insert_eq.
  - rewrite Hs3, lookup_insert_ne by done. exact Hsb.
  - eapply is_list_frame; [exact Hrb|]. intros p Hp. apply list_elem_of_singleton in Hp as ->. by apply Hfr3.
  - apply next_of_Some in Hn2 as (? & ? & _). eauto.
  - rewrite He3. apply lookup_insert_eq.
  - unfold e2, stamped. ht_simpl. lia.
  - ht_simpl. lia.
  - lia.
  - intros s4 Hm1 Hm2 Hfr4 Ht4 Hs4 He4. split; [done|].
    assert (elems_of s4 !! he = Some (mk_elm (refcount e + 1 + 1) (u32 (hf k2)) (Some k2) (Some ht))) as Hee.
    { rewrite He4. apply lookup_insert_eq. }
    assert (next_of (nodes_of s4) a = Some he) as Hna by (unfold next_of in *; by rewrite Hfr4).
    split_and!; [unfold key_of; by rewrite Hee|done|done|].
    eapply (lookup_strays s4 ht (with_count (count t + 1 + 1) t) ef a b he); [|done|done| | | |done|done|done|done|exact Hee| |done].
    + rewrite Ht4. apply lookup_insert_eq.
    + erewrite equalfn_spec by done. apply bool_decide_false. congruence.
    + unfold get_slot. ht_simpl. by rewrite Hk3.
    + rewrite Hs4, lookup_insert_ne, Hs3 by done. apply lookup_insert_eq.
    + rewrite He4, lookup_insert_ne, He3, lookup_insert_ne by done. unfold s2, s1. ht_simpl.
      rewrite !lookup_insert_ne by done. apply (r_apart _ _ _ _ Hr). by eapply lookup_lt_Some.
Qed.
End DoubleHash.

(** ** Outside the rules *)
Section Misuse.
Context {K C A : Type} `{Countable K} `{Allocator A}.
Implicit Types (s : hstore K C A) (t : hashtable K C).

Lemma wp_list_del_self (n : lmem) x (Q : unit -> lmem -> Prop) :
  is_list n x [] -> Q tt n -> wp (list_del x) Q n.
Proof.
  intros [_ [Hnx Hpv]] HQ. apply next_of_Some in Hnx as (a & Ha & E1). apply prev_of_Some in Hpv as (a' & Ha' & E2).
  assert (a' = a) as -> by congruence. destruct a as [p q]. cbn in E1, E2. subst p q.
  unfold list_del, INIT_LIST, set_next, set_prev. wp_go. cbn [prev next]. wp_go.
  rewrite !insert_insert_eq. cbn [prev next]. by rewrite insert_id.
Qed.

(** Nothing tests that an element is hashed when it is unhashed: a second
    [hashtable_unhash], as when two threads each found the element in the
    table, gives up a reference that is not the table's, and lowers the counters
    of the table and the slot once more; the map itself is as it was. *)
Theorem hashtable_unhash_twice s ht t chains (i : nat) xs (he : addr) e :
  rep s ht t chains -> chains !! i = Some xs -> elems_of s !! he = Some e ->
  Z.land (hash e) (mask t) = Z.of_nat i -> is_list (nodes_of s) he [] -> 1 < refcount e < 2 ^ 31 ->
  let slot := slot_addr t (Z.of_nat i) in
  exists s', hashtable_unhash ht he s = Ok (tt, s') /\
    elems_of s' = <[he := with_refcount (refcount e - 1) e]> (elems_of s) /\
    tabs s' = <[ht := with_count (count t - 1) t]> (tabs s) /\
    slots s' = <[slot := mk_slot (u64 (Z.of_nat (length xs) - 1)) LFree]> (slots s) /\
    nodes_of s' = nodes_of s.
Proof.
  intros Hr Hi He Hh Hself Hrc slot. apply wp_run_tt. pose proof (r_tab _ _ _ _ Hr) as Ht.
  pose proof (r_slot _ _ _ _ Hr _ _ Hi) as Hsl. pose proof (r_count _ _ _ _ Hr). pose proof (r_small _ _ _ _ Hr).
  unfold hashtable_unhash. ht_go. unfold get_slot. rewrite Hh. ht_go. apply wp_wrlock. ht_simpl. wp_simpl.
  unfold unhash_from. rewrite wp_bind, wp_on_nodes. eapply wp_list_del_self; [exact Hself|]. ht_go.
  rewrite wp_atomic_dec by lia. unfold hashelm_put. ht_go.
  rewrite wp_atomic_dec_and_test by lia. rewrite (proj2 (Z.eqb_neq _ _)) by lia. ht_go.
  apply wp_unlock; [by left|]. ht_simpl. split_and!; try done. by rewrite !insert_insert_eq.
Qed.

(** [hashelm_init] leaves [he->ht] unset: giving up the last reference to an
    element that was never given to a table dereferences it. *)
Theorem hashelm_put_unhashed s (he : addr) e :
  elems_of s !! he = Some e -> refcount e = 1 -> ht_of e = None -> hashelm_put he s = Fault.
Proof.
  intros He Hrc Hht. unfold hashelm_put.
  assert (on_elems (on_field he refcount with_refcount atomic_dec_and_test) s =
    Ok (true, set_elems (<[he := with_refcount 0 e]> (elems_of s)) s)) as E.
  { apply wp_eq. rewrite wp_elem_field. exists e. split; [done|]. by rewrite wp_atomic_dec_and_test, Hrc by lia. }
  rewrite (run_bind _ _ _ _ _ E). cbn iota. set (s1 := set_elems _ s).
  assert (on_elems (load he) s1 = Ok (with_refcount 0 e, s1)) as E1.
  { apply wp_eq, wp_elem_load. eexists. split; [apply lookup_insert_eq|done]. }
  rewrite (run_bind _ _ _ _ _ E1). apply run_fault. unfold of_option. cbn. by rewrite Hht.
Qed.
End Misuse.

(** ** Witnesses *)

(** The first thread has the extra reference to the element with key 4, the second
    the new element. *)
Definition demo_holders : config (hstore Z (list addr) arena) (list addr) :=
  mk_config demo_store [[2000]; [3000]].

Lemma demo_books : ht_books id 16 (Some demo_free) (shared demo_holders) (threads demo_holders) demo_table demo_map.
Proof.
  assert (forall x, x ∈ (map_img demo_map : gset addr) <-> x = 1000 \/ x = 2000) as Himg.
  { intros x. rewrite elem_of_map_img. unfold demo_map. simpl. split.
    - intros [k Hk]. rewrite !lookup_insert, lookup_empty in Hk. repeat case_decide; simplify_eq; tauto.
    - intros [->| ->]; [exists 3|exists 4]; reflexivity. }
  assert (forall x, total (held x) [[2000]; [3000]] =
    ((if decide (2000%Z = x) then 1 else 0) + (if decide (3000%Z = x) then 1 else 0))%nat) as Htot.
  { intros x. rewrite !total_cons, !held_cons. change (held x []) with 0%nat. change (total (held x) []) with 0%nat. lia. }
  split; try done.
  - exact demo_table_map.
  - intros x e _ He. unfold in_table. rewrite (bool_decide_ext _ _ (Himg x)). cbn [threads demo_holders]. rewrite Htot.
    revert He. unfold demo_holders, demo_store, elems_of. cbn [shared mem elems list_to_map foldr uncurry].
    rewrite !lookup_insert, lookup_empty. intros He. repeat case_decide; simplify_eq; vm_compute; split; congruence.
  - intros x. cbn [threads demo_holders]. rewrite Htot. intros Hx. split; [by apply not_elem_of_nil|].
    repeat case_decide; subst; try (cbn in Hx; lia); eexists; reflexivity.
  - intros x _. by apply not_elem_of_nil.
  - intros x _ [e He] Hn. rewrite Himg in Hn. revert He.
    unfold demo_holders, demo_store, elems_of. cbn [shared mem elems list_to_map foldr uncurry].
    rewrite !lookup_insert, lookup_empty. intros He. repeat case_decide; simplify_eq; try tauto.
    split; [apply NoDup_singleton|by vm_compute].
  - constructor.
Qed.


(** Two empty slots, and the new element at 3000. *)
Definition demo_empty : hstore Z (list addr) arena :=
  mk_hstore
    (mk_hmem
      (list_to_map [(800, mk_list 800 800); (880, mk_list 880 880); (3000, mk_list 3000 3000)])
      (list_to_map [(3000, mk_elm 1 0 None None)]) [])
    {[16 := with_count 1 demo_table]}
    (list_to_map [(800, mk_slot 0 LFree); (880, mk_slot 0 LFree)])
    (mk_arena 100000 {[800]}).

Lemma demo_empty_rep : rep demo_empty 16 (with_count 1 demo_table) [[]; []].
Proof.
  split; try done; try (by vm_compute).
  - exists demo_equal. split; [done|apply _].
  - intros [|[|i]] xs; simpl; intros [= <-]; (split; [apply NoDup_singleton|by vm_compute]).
  - intros [|[|i]] xs; simpl; intros [= <-]; by vm_compute.
  - constructor.
  - intros [|[|i]] xs x; simpl; intros [= <-] Hx; by apply not_elem_of_nil in Hx.
  - intros [|[|i]] Hi; simpl in Hi; [by vm_compute..|lia].
Qed.

Lemma hash_race_witness : exists s1 s2 s3 s4,
  hash_prepare 16 3000 4 demo_empty = Ok (Some 800, s1) /\ hash_prepare 16 3000 3 s1 = Ok (Some 880, s2) /\
  hash_locked 5 16 3000 4 800 s2 = Ok (0, s3) /\ hash_locked 5 16 3000 3 880 s3 = Ok (0, s4) /\
  hashtable_lookup 5 16 6 s4 = Fault.
Proof.
  destruct (hash_race demo_empty 16 (with_count 1 demo_table) [[]; []] 0 1 3000 (mk_elm 1 0 None None) id 4 3 6 5)
    as (s1 & s2 & s3 & s4 & E1 & E2 & E3 & E4 & _ & _ & _ & E5).
  - exact demo_empty_rep.
  - reflexivity.
  - reflexivity.
  - discriminate.
  - reflexivity.
  - reflexivity.
  - reflexivity.
  - reflexivity.
  - discriminate.
  - split; [apply NoDup_singleton|by vm_compute].
  - reflexivity.
  - vm_compute. split; [discriminate|reflexivity].
  - vm_compute. reflexivity.
  - lia.
  - exists s1, s2, s3, s4. split; [exact E1|split; [exact E2|split; [exact E3|split; [exact E4|exact E5]]]].
Defined.

(** The element at 3000, unhashed, with two references, unhashed again. *)
Lemma hashtable_unhash_twice_witness : exists s',
  hashtable_unhash 16 3000 (set_elems (<[3000 := mk_elm 2 7 (Some 7) (Some 16)]> (elems_of demo_store)) demo_store) = Ok (tt, s') /\
  refcount <$> elems_of s' !! 3000 = Some 1.
Proof.
  destruct (hashtable_unhash_twice
    (set_elems (<[3000 := mk_elm 2 7 (Some 7) (Some 16)]> (elems_of demo_store)) demo_store)
    16 demo_table [[2000]; [1000]] 1 [1000] 3000 (mk_elm 2 7 (Some 7) (Some 16))) as (s' & E & He & _).
  - apply (rep_outside demo_store); [exact demo_rep|done|done|done| |].
    + intros x Hx. in_cases Hx; reflexivity.
    + intros p Hp. ht_simpl. rewrite lookup_insert_ne; [exact Hp|]. by intros <-.
  - reflexivity.
  - reflexivity.
  - reflexivity.
  - split; [apply NoDup_singleton|by vm_compute].
  - cbn. lia.
  - exists s'. split; [exact E|]. rewrite He. reflexivity.
Defined.

Lemma hashelm_put_unhashed_witness : hashelm_put 3000 demo_store = Fault.
Proof. apply (hashelm_put_unhashed demo_store 3000 (mk_elm 1 0 None None)); reflexivity. Defined.
