(* ===== verification/Pbuf.v ===== *)
(** Packet buffers from a static pool (src/pbuf.c, include/ckit/pbuf.h).

    The first half is the buffer itself: the offsets [data], [tail] and [end]
    into the bytes that follow the header, at their C widths. The second half
    is the pool: entries that move between a free list and a list of entries in
    use, under a mutex. *)
From S2P Require Import Prelude Atomic Clist Malloc.

(** ** Data

    Sizes and offsets are those of an LP64 ABI: [struct pbuf] has its flexible
    [head] at offset 76 and 4 bytes of padding after it, so that [head[0]] to
    [head[3]] are the padding and [head[4]] is [data[0]] of the pool entry. *)
Definition PBUF_MAX_SIZE : Z := 4096.
Definition CTRL_BLOCK_SIZE : Z := 20.
Definition MIN_POOL_SIZE : Z := 20.
Definition sizeof_pbuf : Z := 80.
Definition offset_head : Z := 76.
Definition offset_pbuf : Z := 16.
Definition sizeof_entry : Z := 4192.

(** The bytes from [head] to the end of the pool entry. *)
Definition padding : Z := sizeof_pbuf - offset_head.
Definition head_bytes : Z := padding + PBUF_MAX_SIZE.

Record pbuf := mk_pbuf {
  pb_refcount : atomic_t;
  pb_ifindex : Z;
  pb_cb : list Z;
  pb_alloc_len : Z;
  pb_len : Z;
  pb_data : Z;
  pb_tail : Z;
  pb_end : Z;
  pb_link : Z;
  pb_network : Z;
  pb_transport : Z;
  pb_payload : Z;
  pb_bytes : list Z;
}.
Abbreviation bmem := (gmap Z pbuf).

Definition with_refcount (v : Z) (b : pbuf) : pbuf :=
  mk_pbuf v (pb_ifindex b) (pb_cb b) (pb_alloc_len b) (pb_len b) (pb_data b) (pb_tail b) (pb_end b)
    (pb_link b) (pb_network b) (pb_transport b) (pb_payload b) (pb_bytes b).
Definition with_alloc_len (v : Z) (b : pbuf) : pbuf :=
  mk_pbuf (pb_refcount b) (pb_ifindex b) (pb_cb b) v (pb_len b) (pb_data b) (pb_tail b) (pb_end b)
    (pb_link b) (pb_network b) (pb_transport b) (pb_payload b) (pb_bytes b).
Definition with_len (v : Z) (b : pbuf) : pbuf :=
  mk_pbuf (pb_refcount b) (pb_ifindex b) (pb_cb b) (pb_alloc_len b) v (pb_data b) (pb_tail b) (pb_end b)
    (pb_link b) (pb_network b) (pb_transport b) (pb_payload b) (pb_bytes b).
Definition with_data (v : Z) (b : pbuf) : pbuf :=
  mk_pbuf (pb_refcount b) (pb_ifindex b) (pb_cb b) (pb_alloc_len b) (pb_len b) v (pb_tail b) (pb_end b)
    (pb_link b) (pb_network b) (pb_transport b) (pb_payload b) (pb_bytes b).
Definition with_tail (v : Z) (b : pbuf) : pbuf :=
  mk_pbuf (pb_refcount b) (pb_ifindex b) (pb_cb b) (pb_alloc_len b) (pb_len b) (pb_data b) v (pb_end b)
    (pb_link b) (pb_network b) (pb_transport b) (pb_payload b) (pb_bytes b).
Definition with_end (v : Z) (b : pbuf) : pbuf :=
  mk_pbuf (pb_refcount b) (pb_ifindex b) (pb_cb b) (pb_alloc_len b) (pb_len b) (pb_data b) (pb_tail b) v
    (pb_link b) (pb_network b) (pb_transport b) (pb_payload b) (pb_bytes b).
Definition with_headers (l n t p : Z) (b : pbuf) : pbuf :=
  mk_pbuf (pb_refcount b) (pb_ifindex b) (pb_cb b) (pb_alloc_len b) (pb_len b) (pb_data b) (pb_tail b) (pb_end b)
    l n t p (pb_bytes b).

(** ** Operations on one buffer

    Lengths are [size_t]; a sum with one is truncated to [unsigned] when it is
    assigned to an offset. *)
Definition pbuf_data (pb : addr) : M bmem addr :=
  b ← load pb; mret (pb + offset_head + pb_data b).

Definition pbuf_hold (pb : addr) : M bmem unit :=
  on_field pb pb_refcount with_refcount atomic_inc;; mret tt.

Definition pbuf_reserve (pb : addr) (len : Z) : M bmem addr :=
  b ← load pb;
  assert_c (len <=? u32 (pb_end b - pb_data b));;
  update pb (fun b => with_data (u32 (pb_data b + len)) b);;
  update pb (fun b => with_tail (u32 (pb_tail b + len)) b);;
  pbuf_data pb.

Definition pbuf_push (pb : addr) (len : Z) : M bmem addr :=
  b ← load pb;
  assert_c (len <=? pb_data b);;
  update pb (fun b => with_data (u32 (pb_data b - len)) b);;
  update pb (fun b => with_len (u64 (pb_len b + len)) b);;
  pbuf_data pb.

Definition pbuf_pull (pb : addr) (len : Z) : M bmem addr :=
  b ← load pb;
  assert_c (len <=? u32 (pb_end b - pb_data b));;
  update pb (fun b => with_data (u32 (pb_data b + len)) b);;
  update pb (fun b => with_len (u64 (pb_len b - len)) b);;
  pbuf_data pb.

Definition pbuf_put (pb : addr) (len : Z) : M bmem addr :=
  b ← load pb;
  let tail := pb_tail b in
  assert_c (len <=? u32 (pb_end b - pb_tail b));;
  update pb (fun b => with_tail (u32 (pb_tail b + len)) b);;
  update pb (fun b => with_len (u64 (pb_len b + len)) b);;
  mret (pb + offset_head + tail).

Definition pbuf_trim (pb : addr) (len : Z) : M bmem unit :=
  update pb (with_len len);;
  update pb (fun b => with_tail (u32 (pb_data b + len)) b).

Definition pbuf_headroom (pb : addr) : M bmem Z := b ← load pb; mret (pb_data b).
Definition pbuf_tailroom (pb : addr) : M bmem Z := b ← load pb; mret (u32 (pb_end b - pb_tail b)).

(** Header offsets. *)
Definition pbuf_link_header (pb : addr) : M bmem addr :=
  b ← load pb; mret (pb + offset_head + pb_link b).
Definition pbuf_network_header (pb : addr) : M bmem addr :=
  b ← load pb; mret (pb + offset_head + pb_network b).
Definition pbuf_transport_header (pb : addr) : M bmem addr :=
  b ← load pb; mret (pb + offset_head + pb_transport b).
Definition pbuf_payload (pb : addr) : M bmem addr :=
  b ← load pb; mret (pb + offset_head + pb_payload b).
Definition pbuf_reset_link_header (pb : addr) : M bmem unit :=
  update pb (fun b => with_headers (pb_data b) (pb_network b) (pb_transport b) (pb_payload b) b).
Definition pbuf_reset_network_header (pb : addr) : M bmem unit :=
  update pb (fun b => with_headers (pb_link b) (pb_data b) (pb_transport b) (pb_payload b) b).
Definition pbuf_reset_transport_header (pb : addr) : M bmem unit :=
  update pb (fun b => with_headers (pb_link b) (pb_network b) (pb_data b) (pb_payload b) b).
Definition pbuf_reset_payload (pb : addr) : M bmem unit :=
  update pb (fun b => with_headers (pb_link b) (pb_network b) (pb_transport b) (pb_data b) b).

(** ** The pool *)

(** The anchors of the two lists, in static storage. *)
Definition free_list : addr := 8.
Definition use_list : addr := 24.

Record pool (A : Type) := mk_pool {
  p_nodes : lmem;
  p_bufs : bmem;
  p_objects : addr;
  p_mutex : bool;
  p_alloc : A;
}.
Arguments mk_pool {A}.
Arguments p_nodes {A}.
Arguments p_bufs {A}.
Arguments p_objects {A}.
Arguments p_mutex {A}.
Arguments p_alloc {A}.

Section Pool.
Context {A : Type} `{Allocator A}.
Abbreviation PM := (M (pool A)).

Definition set_nodes x (s : pool A) := mk_pool x (p_bufs s) (p_objects s) (p_mutex s) (p_alloc s).
Definition set_bufs x (s : pool A) := mk_pool (p_nodes s) x (p_objects s) (p_mutex s) (p_alloc s).
Definition set_objects x (s : pool A) := mk_pool (p_nodes s) (p_bufs s) x (p_mutex s) (p_alloc s).
Definition set_mutex x (s : pool A) := mk_pool (p_nodes s) (p_bufs s) (p_objects s) x (p_alloc s).
Definition set_alloc (x : A) (s : pool A) := mk_pool (p_nodes s) (p_bufs s) (p_objects s) (p_mutex s) x.
Definition on_nodes {B} (m : M lmem B) : PM B := zoom p_nodes set_nodes m.
Definition on_bufs {B} (m : M bmem B) : PM B := zoom p_bufs set_bufs m.

(** The mutex as one thread sees it: to lock it twice is not to return. *)
Definition mutex_lock : PM unit := fun s =>
  if p_mutex s then OutOfFuel else Ok (tt, set_mutex true s).
Definition mutex_unlock : PM unit := fun s =>
  if p_mutex s then Ok (tt, set_mutex false s) else Fault.

(** [&objects[i].lnode], and the pbuf of the entry at [ppe]. *)
Definition entry_addr (base i : Z) : addr := base + sizeof_entry * i.
Definition pbuf_of (ppe : addr) : addr := ppe + offset_pbuf.

Definition zero_pbuf (bytes : list Z) : pbuf :=
  mk_pbuf 0 0 (replicate (Z.to_nat CTRL_BLOCK_SIZE) 0) 0 0 0 0 0 0 0 0 0 bytes.

(** The entries of a block from [calloc], all bytes zero. *)
Definition create_entries (base : addr) (n : Z) (s : pool A) : pool A :=
  let es := entry_addr base ∘ Z.of_nat <$> seq 0 (Z.to_nat n) in
  set_bufs (list_to_map ((., zero_pbuf (replicate (Z.to_nat head_bytes) 0)) <$> (pbuf_of <$> es))
              ∪ p_bufs s)
    (set_nodes (list_to_map ((., mk_list NULL NULL) <$> es) ∪ p_nodes s) s).

Definition destroy_entries (base : addr) (n : Z) (s : pool A) : pool A :=
  let es := entry_addr base ∘ Z.of_nat <$> seq 0 (Z.to_nat n) in
  set_bufs (foldr delete (p_bufs s) (pbuf_of <$> es))
    (set_nodes (foldr delete (p_nodes s) es) s).

(** [calloc] returns [NULL] when the product overflows. *)
Definition calloc (n size : Z) : M A addr :=
  if n * size <? 2 ^ 64 then malloc (n * size) else mret NULL.

Fixpoint pool_loop (fuel : nat) (i pool_size : Z) : PM unit :=
  match fuel with
  | O => out_of_fuel
  | S fuel =>
      if i <? pool_size then
        s ← get;
        on_nodes (list_add_back free_list (entry_addr (p_objects s) i));;
        pool_loop fuel (u64 (i + 1)) pool_size
      else mret tt
  end.

Definition pbuf_pool_init (pool_size : Z) : PM Z :=
  let pool_size := if pool_size <? MIN_POOL_SIZE then MIN_POOL_SIZE else pool_size in
  p ← zoom p_alloc set_alloc (calloc pool_size sizeof_entry);
  modify (set_objects p);;
  if p =? NULL then mret (-1)
  else
    modify (create_entries p pool_size);;
    pool_loop (S (Z.to_nat pool_size)) 0 pool_size;;
    mret 0.

(** The block of [n] entries is gone; the lists still point into it. *)
Definition pbuf_pool_cleanup (n : Z) : PM unit :=
  s ← get;
  zoom p_alloc set_alloc (free (p_objects s));;
  modify (destroy_entries (p_objects s) n).

(** The [memset] clears the header and its padding, the first bytes of [head]. *)
Definition pbuf_init (pb : addr) (size : Z) : M bmem unit :=
  update pb (fun b => zero_pbuf (replicate (Z.to_nat padding) 0 ++ drop (Z.to_nat padding) (pb_bytes b)));;
  update pb (with_end (u32 size));;
  on_field pb pb_refcount with_refcount (atomic_set 1).

Definition pbuf_alloc (size : Z) : PM addr :=
  assert_c (size <=? PBUF_MAX_SIZE);;
  mutex_lock;;
  e ← on_nodes (list_empty free_list);
  pb ← (if (e : bool) then mret NULL
        else
          ppe ← on_nodes (list_front free_list);
          on_nodes (list_move ppe use_list);;
          on_bufs (pbuf_init (pbuf_of ppe) size);;
          on_bufs (update (pbuf_of ppe) (with_alloc_len size));;
          mret (pbuf_of ppe));
  mutex_unlock;;
  mret pb.

Definition pbuf_free (pb : addr) : PM unit :=
  z ← on_bufs (on_field pb pb_refcount with_refcount atomic_dec_and_test);
  if (z : bool) then
    let ppe := get_enclosing pb offset_pbuf in
    mutex_lock;;
    on_nodes (list_move ppe free_list);;
    mutex_unlock
  else mret tt.

(** [memcpy(pb_copy, pb, sizeof(struct pbuf) + pb->tail)]: the header with its
    padding, and [tail] bytes after it, which must lie in the entry. *)
Definition copy_bytes (tail : Z) (src dst : pbuf) : pbuf :=
  mk_pbuf (pb_refcount src) (pb_ifindex src) (pb_cb src) (pb_alloc_len src) (pb_len src)
    (pb_data src) (pb_tail src) (pb_end src) (pb_link src) (pb_network src) (pb_transport src)
    (pb_payload src)
    (take (Z.to_nat (padding + tail)) (pb_bytes src) ++ drop (Z.to_nat (padding + tail)) (pb_bytes dst)).

Definition pbuf_copy (pb : addr) : PM addr :=
  b ← on_bufs (load pb);
  pb_copy ← pbuf_alloc (pb_len b);
  if pb_copy =? NULL then mret NULL
  else
    b ← on_bufs (load pb);
    (if padding + pb_tail b <=? head_bytes then mret tt else fault);;
    on_bufs (update pb_copy (copy_bytes (pb_tail b) b));;
    on_bufs (on_field pb_copy pb_refcount with_refcount (atomic_set 1));;
    mret pb_copy.
End Pool.

(** ** The buffer as three byte strings *)
Section Slices.
Context {X : Type}.
Implicit Types (l : list X).

(** The elements of [l] from position [i] up to [j]. *)
Definition slice (i j : Z) l : list X := take (Z.to_nat (j - i)) (drop (Z.to_nat i) l).

Lemma slice_app i j k l : 0 <= i <= j -> j <= k -> slice i j l ++ slice j k l = slice i k l.
Proof.
  intros Hi Hj. unfold slice.
  replace (drop (Z.to_nat j) l) with (drop (Z.to_nat (j - i)) (drop (Z.to_nat i) l))
    by (rewrite drop_drop; f_equal; lia).
  replace (Z.to_nat (k - i)) with (Z.to_nat (j - i) + Z.to_nat (k - j))%nat by lia.
  by rewrite take_take_drop.
Qed.

Lemma slice_take i j n l : 0 <= n -> i + n <= j -> take (Z.to_nat n) (slice i j l) = slice i (i + n) l.
Proof. intros. unfold slice. rewrite take_take. f_equal. lia. Qed.

Lemma slice_drop i j n l : 0 <= i -> 0 <= n -> drop (Z.to_nat n) (slice i j l) = slice (i + n) j l.
Proof.
  intros. unfold slice. rewrite skipn_firstn_comm, drop_drop. f_equal; [lia|f_equal; lia].
Qed.

Lemma length_slice i j l :
  0 <= i <= j -> j <= Z.of_nat (length l) -> Z.of_nat (length (slice i j l)) = j - i.
Proof. intros. unfold slice. rewrite length_take, length_drop. lia. Qed.

Lemma slice_nil i l : slice i i l = [].
Proof. unfold slice. by rewrite Z.sub_diag. Qed.
End Slices.

(** The offsets are in order and inside the buffer, and [len] is the length of
    the data. *)
Record buf_ok (b : pbuf) : Prop := {
  bo_data : 0 <= pb_data b <= pb_tail b;
  bo_tail : pb_tail b <= pb_end b;
  bo_end : pb_end b <= PBUF_MAX_SIZE;
  bo_len : pb_len b = pb_tail b - pb_data b;
  bo_bytes : Z.of_nat (length (pb_bytes b)) = head_bytes;
}.

(** The headroom, the data and the tailroom. *)
Record view := mk_view { v_head : list Z; v_data : list Z; v_tail : list Z }.
Definition view_of (b : pbuf) : view :=
  mk_view (slice 0 (pb_data b) (pb_bytes b)) (slice (pb_data b) (pb_tail b) (pb_bytes b))
    (slice (pb_tail b) (pb_end b) (pb_bytes b)).

Inductive buf_op := Reserve (n : Z) | Push (n : Z) | Pull (n : Z) | Put (n : Z) | Trim (n : Z).

Definition exec_buf (pb : addr) (op : buf_op) : M bmem unit :=
  match op with
  | Reserve n => pbuf_reserve pb n;; mret tt
  | Push n => pbuf_push pb n;; mret tt
  | Pull n => pbuf_pull pb n;; mret tt
  | Put n => pbuf_put pb n;; mret tt
  | Trim n => pbuf_trim pb n
  end.
Fixpoint exec_bufs (pb : addr) (ops : list buf_op) : M bmem unit :=
  match ops with
  | [] => mret tt
  | op :: ops => exec_buf pb op;; exec_bufs pb ops
  end.

(** What each operation means: it moves a border between the three strings. It
    is defined when the bytes it asks for are there. *)
Definition zlen {X} (l : list X) : Z := Z.of_nat (length l).
Definition ztake {X} (n : Z) (l : list X) : list X := take (Z.to_nat n) l.
Definition zdrop {X} (n : Z) (l : list X) : list X := drop (Z.to_nat n) l.
Definition spec_buf (v : view) (op : buf_op) : option view :=
  match op with
  | Reserve n => if decide (0 <= n <= zlen (v_tail v) /\ v_data v = [])
      then Some (mk_view (v_head v ++ ztake n (v_tail v)) [] (zdrop n (v_tail v))) else None
  | Push n => let k := zlen (v_head v) - n in
      if decide (0 <= n <= zlen (v_head v))
      then Some (mk_view (ztake k (v_head v)) (zdrop k (v_head v) ++ v_data v) (v_tail v)) else None
  | Pull n => if decide (0 <= n <= zlen (v_data v))
      then Some (mk_view (v_head v ++ ztake n (v_data v)) (zdrop n (v_data v)) (v_tail v)) else None
  | Put n => if decide (0 <= n <= zlen (v_tail v))
      then Some (mk_view (v_head v) (v_data v ++ ztake n (v_tail v)) (zdrop n (v_tail v))) else None
  | Trim n => if decide (0 <= n <= zlen (v_data v))
      then Some (mk_view (v_head v) (ztake n (v_data v)) (zdrop n (v_data v) ++ v_tail v)) else None
  end.
Fixpoint spec_bufs (v : view) (ops : list buf_op) : option view :=
  match ops with
  | [] => Some v
  | op :: ops => v' ← spec_buf v op; spec_bufs v' ops
  end.

(** The bytes and the fields the operations leave alone. *)
Definition same_frame (b b' : pbuf) : Prop :=
  pb_bytes b' = pb_bytes b /\ pb_end b' = pb_end b /\ pb_refcount b' = pb_refcount b /\
  pb_alloc_len b' = pb_alloc_len b.

Ltac buf_simpl :=
  cbn [pb_refcount pb_ifindex pb_cb pb_alloc_len pb_len pb_data pb_tail pb_end pb_link pb_network
       pb_transport pb_payload pb_bytes with_refcount with_alloc_len with_len with_data with_tail
       with_end with_headers].

(** The new offsets are in order. *)
Ltac solve_buf_ok := split; buf_simpl; rewrite ?u32_id, ?u64_id by lia; unfold PBUF_MAX_SIZE; try lia; try done.
(** The new borders cut the same bytes. *)
Ltac solve_view :=
  unfold view_of, ztake, zdrop; buf_simpl; rewrite ?u32_id by lia;
  rewrite ?slice_take, ?slice_drop, ?slice_app by lia; rewrite ?slice_nil;
  first [done | repeat (f_equal; try lia)].

Section Buffer.
Implicit Types (m : bmem) (b : pbuf).

Lemma view_lengths b : buf_ok b ->
  zlen (v_head (view_of b)) = pb_data b /\ zlen (v_data (view_of b)) = pb_tail b - pb_data b /\
  zlen (v_tail (view_of b)) = pb_end b - pb_tail b.
Proof.
  intros []. unfold zlen, view_of, head_bytes, padding, sizeof_pbuf, offset_head in *. simpl.
  rewrite !length_slice; lia.
Qed.

(** What each operation does when its assertion holds. *)
Lemma pbuf_reserve_run m pb b n :
  m !! pb = Some b -> n <= u32 (pb_end b - pb_data b) ->
  pbuf_reserve pb n m = Ok (pb + offset_head + u32 (pb_data b + n),
    <[pb := with_tail (u32 (pb_tail b + n)) (with_data (u32 (pb_data b + n)) b)]> m).
Proof.
  intros Hb Hn. apply wp_eq. unfold pbuf_reserve, pbuf_data. wp_go. split; [by apply Z.leb_le|].
  wp_go. buf_simpl. by rewrite insert_insert_eq.
Qed.

Lemma pbuf_push_run m pb b n :
  m !! pb = Some b -> n <= pb_data b ->
  pbuf_push pb n m = Ok (pb + offset_head + u32 (pb_data b - n),
    <[pb := with_len (u64 (pb_len b + n)) (with_data (u32 (pb_data b - n)) b)]> m).
Proof.
  intros Hb Hn. apply wp_eq. unfold pbuf_push, pbuf_data. wp_go. split; [by apply Z.leb_le|].
  wp_go. buf_simpl. by rewrite insert_insert_eq.
Qed.

Lemma pbuf_pull_run m pb b n :
  m !! pb = Some b -> n <= u32 (pb_end b - pb_data b) ->
  pbuf_pull pb n m = Ok (pb + offset_head + u32 (pb_data b + n),
    <[pb := with_len (u64 (pb_len b - n)) (with_data (u32 (pb_data b + n)) b)]> m).
Proof.
  intros Hb Hn. apply wp_eq. unfold pbuf_pull, pbuf_data. wp_go. split; [by apply Z.leb_le|].
  wp_go. buf_simpl. by rewrite insert_insert_eq.
Qed.

Lemma pbuf_put_run m pb b n :
  m !! pb = Some b -> n <= u32 (pb_end b - pb_tail b) ->
  pbuf_put pb n m = Ok (pb + offset_head + pb_tail b,
    <[pb := with_len (u64 (pb_len b + n)) (with_tail (u32 (pb_tail b + n)) b)]> m).
Proof.
  intros Hb Hn. apply wp_eq. unfold pbuf_put. wp_go. split; [by apply Z.leb_le|].
  wp_go. buf_simpl. by rewrite insert_insert_eq.
Qed.

Lemma pbuf_trim_run m pb b n :
  m !! pb = Some b ->
  pbuf_trim pb n m = Ok (tt, <[pb := with_tail (u32 (pb_data b + n)) (with_len n b)]> m).
Proof. intros Hb. apply wp_eq. unfold pbuf_trim. wp_go. buf_simpl. by rewrite insert_insert_eq. Qed.

Lemma exec_run {R} (op : M bmem R) m r m' : op m = Ok (r, m') -> (op;; mret tt) m = Ok (tt, m').
Proof. intros E. by rewrite (run_bind _ _ _ _ _ E). Qed.

(** One operation on a well-formed buffer moves its border. *)
Lemma exec_buf_ok m pb b op v :
  m !! pb = Some b -> buf_ok b -> spec_buf (view_of b) op = Some v ->
  exists b', exec_buf pb op m = Ok (tt, <[pb := b']> m) /\
    buf_ok b' /\ view_of b' = v /\ same_frame b b'.
Proof.
  intros Hb Hok Hs. pose proof (view_lengths b Hok) as (Hh & Hd & Ht).
  pose proof Hok as [[]]. unfold PBUF_MAX_SIZE in *.
  destruct op as [n|n|n|n|n]; unfold spec_buf in Hs; rewrite ?Hh, ?Hd, ?Ht in Hs;
    case_decide as Hn; try done; injection Hs as <-; eexists; (split; [|split]).
  - eapply exec_run, pbuf_reserve_run; [done|rewrite u32_id; lia].
  - destruct Hn as [Hn Hnil]. unfold zlen in Hd. rewrite Hnil in Hd. simpl in Hd. solve_buf_ok.
  - destruct Hn as [Hn Hnil]. unfold zlen in Hd. rewrite Hnil in Hd. simpl in Hd.
    assert (pb_tail b = pb_data b) as E by lia. split; [|done].
    unfold view_of. buf_simpl. rewrite E. solve_view.
  - eapply exec_run, pbuf_push_run; [done|lia].
  - solve_buf_ok.
  - split; [solve_view|done].
  - eapply exec_run, pbuf_pull_run; [done|rewrite u32_id; lia].
  - solve_buf_ok.
  - split; [solve_view|done].
  - eapply exec_run, pbuf_put_run; [done|rewrite u32_id; lia].
  - solve_buf_ok.
  - split; [solve_view|done].
  - by apply pbuf_trim_run.
  - solve_buf_ok.
  - split; [solve_view|done].
Qed.
End Buffer.

Section BufferSpec.
Implicit Types (m : bmem) (b : pbuf).

(** C3: a buffer is three byte strings, headroom, data and tailroom. Every
    sequence of [pbuf_reserve], [pbuf_push], [pbuf_pull], [pbuf_put] and
    [pbuf_trim] calls that asks only for bytes that are there succeeds, moves
    the borders between the strings as the calls say, keeps the offsets in
    order and [len] the length of the data, and changes no byte. *)
Theorem pbuf_refines_view m pb b ops v :
  m !! pb = Some b -> buf_ok b -> spec_bufs (view_of b) ops = Some v ->
  exists b', exec_bufs pb ops m = Ok (tt, <[pb := b']> m) /\
    buf_ok b' /\ view_of b' = v /\ same_frame b b'.
Proof.
  revert m b. induction ops as [|op ops IH]; simpl; intros m b Hb Hok Hs.
  - injection Hs as <-. exists b. rewrite insert_id by done. done.
  - apply bind_Some in Hs as (v' & Hop & Hs).
    destruct (exec_buf_ok m pb b op v' Hb Hok Hop) as (b1 & E & Hok1 & <- & Hsf1).
    rewrite (run_bind _ _ _ _ _ E).
    destruct (IH (<[pb := b1]> m) b1) as (b2 & E2 & Hok2 & Hv2 & Hsf2); [apply lookup_insert_eq|done..|].
    exists b2. rewrite E2, insert_insert_eq. split_and!; [done..|].
    unfold same_frame in *. intuition congruence.
Qed.

(** The assertions of [pbuf_put] and [pbuf_push] are exact: whatever the
    length, the call aborts or the buffer stays well formed, and it aborts only
    when the room is not there. *)
Theorem pbuf_put_push_safe m pb b n :
  m !! pb = Some b -> buf_ok b -> 0 <= n ->
  (if n <=? pb_end b - pb_tail b
   then exists p b', pbuf_put pb n m = Ok (p, <[pb := b']> m) /\ buf_ok b' /\ pb_len b' = pb_len b + n
   else pbuf_put pb n m = Aborted) /\
  (if n <=? pb_data b
   then exists p b', pbuf_push pb n m = Ok (p, <[pb := b']> m) /\ buf_ok b' /\ pb_len b' = pb_len b + n
   else pbuf_push pb n m = Aborted).
Proof.
  intros Hb Hok Hn. pose proof Hok as [[]]. unfold PBUF_MAX_SIZE in *. split.
  - destruct (Z.leb_spec n (pb_end b - pb_tail b)).
    + eexists _, _. split; [apply pbuf_put_run; [done|rewrite u32_id; lia]|].
      split; [solve_buf_ok|]. buf_simpl. apply u64_id. lia.
    + unfold pbuf_put, load, mbind, M_bind, assert_c. rewrite Hb.
      by rewrite (proj2 (Z.leb_gt _ _)) by (rewrite u32_id; lia).
  - destruct (Z.leb_spec n (pb_data b)).
    + eexists _, _. split; [apply pbuf_push_run; [done|lia]|].
      split; [solve_buf_ok|]. buf_simpl. apply u64_id. lia.
    + unfold pbuf_push, load, mbind, M_bind, assert_c. rewrite Hb.
      by rewrite (proj2 (Z.leb_gt _ _)) by lia.
Qed.

(** The assertions of [pbuf_pull] and [pbuf_reserve] compare with the room
    after [data] rather than with the data and with the tailroom: pulling more
    than the data passes and wraps [len] around, reserving in a buffer that
    holds data passes and moves [tail] past [end], so that [pbuf_tailroom] is
    then almost [2^32]. *)
Theorem pbuf_asserts_too_weak m pb b n :
  m !! pb = Some b -> buf_ok b -> n <= pb_end b - pb_data b ->
  (pb_len b < n -> exists p b', pbuf_pull pb n m = Ok (p, <[pb := b']> m) /\
     pb_len b' = 2 ^ 64 - (n - pb_len b) /\ pb_tail b' < pb_data b') /\
  (pb_end b - pb_tail b < n -> exists p b', pbuf_reserve pb n m = Ok (p, <[pb := b']> m) /\
     pb_end b' < pb_tail b' /\
     pbuf_tailroom pb (<[pb := b']> m) =
       Ok (2 ^ 32 - (n - (pb_end b - pb_tail b)), <[pb := b']> m)).
Proof.
  intros Hb Hok Hn. pose proof Hok as [[]]. unfold PBUF_MAX_SIZE in *. split; intros Hlt.
  - eexists _, _. split; [apply pbuf_pull_run; [done|rewrite u32_id; lia]|]. buf_simpl.
    rewrite u32_id by lia. split; [|lia].
    replace (pb_len b - n) with (2 ^ 64 - (n - pb_len b) + (-1) * 2 ^ 64) by lia.
    unfold u64. rewrite Z_mod_plus_full. apply Z.mod_small. lia.
  - eexists _, _. split; [apply pbuf_reserve_run; [done|rewrite u32_id; lia]|]. buf_simpl.
    rewrite (u32_id (pb_tail b + n)) by lia. split; [lia|]. apply wp_eq. unfold pbuf_tailroom. wp_go. buf_simpl.
    split; [|done].
    replace (pb_end b - (pb_tail b + n)) with (2 ^ 32 - (n - (pb_end b - pb_tail b)) + (-1) * 2 ^ 32) by lia.
    unfold u32. rewrite Z_mod_plus_full. apply Z.mod_small. lia.
Qed.
End BufferSpec.

(** ** The pool *)
Section PoolSpec.
Context {A : Type} `{AllocatorLaws A}.
Implicit Types (s : pool A).

(** The entries are divided between the two lists. *)
Record pool_wf s (frees uses : list addr) : Prop := {
  pw_free : is_list (p_nodes s) free_list frees;
  pw_use : is_list (p_nodes s) use_list uses;
  pw_disj p : p ∈ use_list :: uses -> p ∉ free_list :: frees;
  pw_bufs e : e ∈ frees ++ uses -> exists b, p_bufs s !! pbuf_of e = Some b /\
    Z.of_nat (length (pb_bytes b)) = head_bytes;
  pw_null e : e ∈ frees ++ uses -> pbuf_of e <> NULL;
  pw_mutex : p_mutex s = false;
}.

(** A buffer as [pbuf_alloc] hands it out. *)
Definition fresh_buf (size : Z) (b : pbuf) : Prop :=
  pb_refcount b = 1 /\ pb_len b = 0 /\ pb_data b = 0 /\ pb_tail b = 0 /\ pb_end b = size /\
  pb_alloc_len b = size /\ Z.of_nat (length (pb_bytes b)) = head_bytes.

Lemma length_cleared (l : list Z) :
  Z.of_nat (length l) = head_bytes ->
  Z.of_nat (length (replicate (Z.to_nat padding) 0 ++ drop (Z.to_nat padding) l)) = head_bytes.
Proof.
  unfold head_bytes, padding, sizeof_pbuf, offset_head, PBUF_MAX_SIZE. intros Hl.
  rewrite length_app, length_drop, length_replicate. lia.
Qed.

(** Moving an entry keeps the lists apart. *)
Lemma moved_disjoint (nodes : lmem) e (a b : addr) (xs ys : list addr) :
  is_list nodes a (e :: xs) -> (forall p, p ∈ b :: ys -> p ∉ a :: e :: xs) ->
  forall p, p ∈ b :: e :: ys -> p ∉ a :: xs.
Proof.
  intros [Hnd _] Hdis p Hp. apply (NoDup_middle [a]) in Hnd as [Hnd _].
  destruct (decide (p = e)) as [->|]; [done|].
  assert (p ∉ a :: e :: xs) by (apply Hdis; set_solver). set_solver.
Qed.

Lemma wp_mutex_lock (Q : unit -> pool A -> Prop) s :
  p_mutex s = false -> Q tt (set_mutex true s) -> wp mutex_lock Q s.
Proof. intros E HQ. unfold wp, mutex_lock. by rewrite E. Qed.
Lemma wp_mutex_unlock (Q : unit -> pool A -> Prop) s :
  p_mutex s = true -> Q tt (set_mutex false s) -> wp mutex_unlock Q s.
Proof. intros E HQ. unfold wp, mutex_unlock. by rewrite E. Qed.

Lemma wp_pbuf_alloc_empty s uses size (Q : addr -> pool A -> Prop) :
  pool_wf s [] uses -> size <= PBUF_MAX_SIZE -> Q NULL s -> wp (pbuf_alloc size) Q s.
Proof.
  intros [] Hs HQ. unfold pbuf_alloc, on_nodes. wp_simpl. split; [by apply Z.leb_le|].
  apply wp_mutex_lock; [done|]. wp_simpl. eapply wp_list_empty; [done|].
  rewrite bool_decide_true by done. wp_simpl. apply wp_mutex_unlock; [done|]. wp_simpl.
  destruct s. simpl in *. by subst.
Qed.

(** The state after an entry has moved and its buffer has been replaced. *)
Record alloc_post s s' (e : addr) (frees uses : list addr) (size : Z) : Prop := {
  ap_wf : pool_wf s' frees (e :: uses);
  ap_fresh : exists b, p_bufs s' !! pbuf_of e = Some b /\ fresh_buf size b;
  ap_frame p : p <> pbuf_of e -> p_bufs s' !! p = p_bufs s !! p;
  ap_objects : p_objects s' = p_objects s;
  ap_alloc : p_alloc s' = p_alloc s;
}.

Lemma wp_pbuf_alloc s e frees uses size (Q : addr -> pool A -> Prop) :
  pool_wf s (e :: frees) uses -> 0 <= size <= PBUF_MAX_SIZE ->
  (forall s', alloc_post s s' e frees uses size -> Q (pbuf_of e) s') ->
  wp (pbuf_alloc size) Q s.
Proof.
  intros [] Hs HQ. unfold pbuf_alloc, on_nodes, on_bufs, pbuf_init. wp_simpl.
  split; [apply Z.leb_le; lia|].
  apply wp_mutex_lock; [done|]. wp_simpl. eapply wp_list_empty; [done|].
  rewrite bool_decide_false by done. wp_simpl. eapply wp_list_front; [done|]. wp_simpl.
  eapply wp_mono; [eapply (wp_list_move _ free_list [] e frees use_list uses); [done..|exact pw_disj0]|].
  intros [] n (Hfree & Huse & Hframe). destruct (pw_bufs0 e) as (b & Hb & Hlen); [set_solver|]. wp_go.
  unfold wp at 1, atomic_set. wp_go. apply wp_mutex_unlock; [done|]. wp_simpl. rewrite !insert_insert_eq.
  apply HQ. split; simpl; rewrite ?insert_insert_eq.
  - pose proof (moved_disjoint _ _ _ _ _ _ pw_free0 pw_disj0) as Hdis.
    split; simpl; try done.
    + intros x Hx. rewrite ?insert_insert_eq. destruct (decide (x = e)) as [->|Hxe].
      * eexists. split; [apply lookup_insert_eq|]. exact (length_cleared _ Hlen).
      * destruct (pw_bufs0 x) as (b' & Hb' & Hl'); [set_solver|]. exists b'.
        split; [|exact Hl']. etransitivity; [|exact Hb'].
        apply lookup_insert_ne. unfold pbuf_of. lia.
    + intros x Hx. apply pw_null0. set_solver.
  - eexists. split; [apply lookup_insert_eq|]. unfold fresh_buf. buf_simpl.
    unfold PBUF_MAX_SIZE in *. rewrite u32_id by lia. split_and!; try done.
    exact (length_cleared _ Hlen).
  - intros p Hp. by rewrite lookup_insert_ne.
  - done.
  - done.
Qed.

(** Releasing a reference that is not the last. *)
Lemma wp_pbuf_free_more s frees uses e b (Q : unit -> pool A -> Prop) :
  pool_wf s frees uses -> p_bufs s !! pbuf_of e = Some b -> 1 < pb_refcount b < 2 ^ 31 ->
  (let s' := set_bufs (<[pbuf_of e := with_refcount (pb_refcount b - 1) b]> (p_bufs s)) s in
   pool_wf s' frees uses -> Q tt s') ->
  wp (pbuf_free (pbuf_of e)) Q s.
Proof.
  intros Hw Hb Href HQ. unfold pbuf_free, on_bufs. wp_go.
  rewrite wp_atomic_dec_and_test by lia. rewrite (proj2 (Z.eqb_neq _ _)) by lia. wp_simpl.
  apply HQ. destruct Hw. split; simpl; try done. intros x Hx.
  destruct (pw_bufs0 x Hx) as (b' & Hb' & Hl'). destruct (decide (pbuf_of x = pbuf_of e)) as [E|E].
  - rewrite E in *. simplify_eq. eexists. split; [apply lookup_insert_eq|done].
  - exists b'. split; [|done]. by rewrite lookup_insert_ne.
Qed.

(** Releasing the last reference. *)
Lemma wp_pbuf_free_last s frees u1 e u2 b (Q : unit -> pool A -> Prop) :
  pool_wf s frees (u1 ++ e :: u2) -> p_bufs s !! pbuf_of e = Some b -> pb_refcount b = 1 ->
  (forall s', pool_wf s' (e :: frees) (u1 ++ u2) -> 
     p_bufs s' = <[pbuf_of e := with_refcount 0 b]> (p_bufs s) -> Q tt s') ->
  wp (pbuf_free (pbuf_of e)) Q s.
Proof.
  intros [] Hb Href HQ. unfold pbuf_free, on_bufs, on_nodes. wp_go.
  rewrite wp_atomic_dec_and_test by lia. rewrite Href, Z.eqb_refl. wp_simpl.
  apply wp_mutex_lock; [done|]. wp_simpl. unfold pbuf_of at 1. rewrite get_enclosing_member.
  eapply wp_mono; [eapply (wp_list_move _ use_list u1 e u2 free_list frees); [done..|]|].
  { intros p Hp Hq. by eapply pw_disj0. }
  intros [] n (Huse & Hfree & _). apply wp_mutex_unlock; [done|]. simpl.
  assert (e ∉ use_list :: u1 ++ u2) as He.
  { destruct pw_use0 as [Hnd _]. by apply (NoDup_middle (use_list :: u1)) in Hnd as [? _]. }
  apply HQ; [|done]. split; simpl; try done.
  - intros p Hp Hq. destruct (decide (p = e)) as [->|]; [done|].
    eapply (pw_disj0 p); set_solver.
  - intros x Hx. destruct (pw_bufs0 x) as (b' & Hb' & Hl'); [set_solver|].
    destruct (decide (pbuf_of x = pbuf_of e)) as [E|E].
    + rewrite E in *. simplify_eq. eexists. split; [apply lookup_insert_eq|done].
    + exists b'. split; [|done]. by rewrite lookup_insert_ne.
  - intros x Hx. apply pw_null0. set_solver.
Qed.

(** C29: [pbuf_alloc] takes the entry at the front of the free list, in the size
    asked for, empty, with one reference and with no other buffer touched; it
    returns [NULL] and changes nothing when there is none, and aborts on a size
    over 4096. The free and used entries together remain the pool, and the
    mutex is released. *)
Theorem pbuf_alloc_correct s frees uses size :
  pool_wf s frees uses -> 0 <= size ->
  if size <=? PBUF_MAX_SIZE then
    match frees with
    | [] => pbuf_alloc size s = Ok (NULL, s)
    | e :: frees' => exists s', pbuf_alloc size s = Ok (pbuf_of e, s') /\
        alloc_post s s' e frees' uses size /\ pbuf_of e <> NULL
    end
  else pbuf_alloc size s = Aborted.
Proof.
  intros Hw Hs. destruct (Z.leb_spec size PBUF_MAX_SIZE); cycle 1.
  { unfold pbuf_alloc. unfold assert_c, mbind, M_bind. by rewrite (proj2 (Z.leb_gt _ _)) by lia. }
  destruct frees as [|e frees'].
  - apply wp_eq. by eapply wp_pbuf_alloc_empty.
  - enough (wp (pbuf_alloc size) (fun p s' => p = pbuf_of e /\ alloc_post s s' e frees' uses size) s)
      as (p & s' & E & -> & Hp)%wp_run.
    { exists s'. split_and!; [done..|]. apply (pw_null _ _ _ Hw). set_solver. }
    by eapply wp_pbuf_alloc.
Qed.

(** [pbuf_free] gives up one reference; the last one returns the entry to the
    front of the free list, where the next [pbuf_alloc] takes it. The bytes of
    the buffer are not touched. *)
Theorem pbuf_free_correct s frees u1 e u2 b :
  pool_wf s frees (u1 ++ e :: u2) -> p_bufs s !! pbuf_of e = Some b -> 1 <= pb_refcount b < 2 ^ 31 ->
  exists s', pbuf_free (pbuf_of e) s = Ok (tt, s') /\
    p_bufs s' = <[pbuf_of e := with_refcount (pb_refcount b - 1) b]> (p_bufs s) /\
    if pb_refcount b =? 1 then pool_wf s' (e :: frees) (u1 ++ u2)
    else pool_wf s' frees (u1 ++ e :: u2).
Proof.
  intros Hw Hb Href. apply wp_run_tt. destruct (Z.eqb_spec (pb_refcount b) 1) as [E|E].
  - eapply wp_pbuf_free_last; [done..|]. rewrite E. auto.
  - eapply wp_pbuf_free_more; [done..|lia|]. auto.
Qed.

Lemma slice_prefix {X} i j (l l' : list X) :
  0 <= i <= j -> take (Z.to_nat j) l = take (Z.to_nat j) l' -> slice i j l = slice i j l'.
Proof.
  intros Hi E. assert (forall k : list X, slice i j k = drop (Z.to_nat i) (take (Z.to_nat j) k)) as Hs.
  { intros k. unfold slice. rewrite firstn_skipn_comm. do 2 f_equal. lia. }
  by rewrite !Hs, E.
Qed.

(** The copied bytes. *)
Lemma copy_bytes_ok b dst :
  buf_ok b -> Z.of_nat (length (pb_bytes dst)) = head_bytes ->
  buf_ok (copy_bytes (pb_tail b) b dst) /\
  v_head (view_of (copy_bytes (pb_tail b) b dst)) = v_head (view_of b) /\
  v_data (view_of (copy_bytes (pb_tail b) b dst)) = v_data (view_of b).
Proof.
  intros [] Hd. unfold head_bytes, padding, sizeof_pbuf, offset_head, PBUF_MAX_SIZE in *.
  assert (take (Z.to_nat (pb_tail b)) (pb_bytes (copy_bytes (pb_tail b) b dst)) =
          take (Z.to_nat (pb_tail b)) (pb_bytes b)) as E.
  { unfold copy_bytes, padding, sizeof_pbuf, offset_head. buf_simpl.
    rewrite take_app_le by (rewrite length_take; lia). rewrite take_take. f_equal. lia. }
  split_and!.
  - split; try done. unfold copy_bytes, head_bytes, padding, sizeof_pbuf, offset_head, PBUF_MAX_SIZE.
    buf_simpl. rewrite length_app, length_take, length_drop. lia.
  - unfold view_of. cbn [v_head]. unfold copy_bytes at 1. buf_simpl. apply slice_prefix; [lia|].

    apply (f_equal (take (Z.to_nat (pb_data b)))) in E. rewrite !take_take in E.
    by replace (Z.to_nat (pb_data b) `min` Z.to_nat (pb_tail b))%nat with (Z.to_nat (pb_data b)) in E by lia.
  - unfold view_of. cbn [v_data]. by apply slice_prefix.
Qed.

(** C30: [pbuf_copy] of a well-formed buffer takes a free entry and gives it the
    same offsets, headroom and data, with one reference of its own; it writes
    inside the entry even when the data ends at the last byte, and leaves the
    original alone. Without a free entry it returns [NULL]. *)
Theorem pbuf_copy_correct s frees uses e b :
  pool_wf s frees uses -> e ∈ uses -> p_bufs s !! pbuf_of e = Some b -> buf_ok b ->
  match frees with
  | [] => pbuf_copy (pbuf_of e) s = Ok (NULL, s)
  | f :: frees' => exists s' b', pbuf_copy (pbuf_of e) s = Ok (pbuf_of f, s') /\
      pool_wf s' frees' (f :: uses) /\ p_bufs s' !! pbuf_of f = Some b' /\ buf_ok b' /\
      v_head (view_of b') = v_head (view_of b) /\ v_data (view_of b') = v_data (view_of b) /\
      pb_refcount b' = 1 /\ pb_end b' = pb_end b /\
      forall p, p <> pbuf_of f -> p_bufs s' !! p = p_bufs s !! p
  end.
Proof.
  intros Hw He Hb Hok. pose proof Hok as [].
  assert (0 <= pb_len b <= PBUF_MAX_SIZE) as Hlen by lia.
  destruct frees as [|f frees'].
  { apply wp_eq. unfold pbuf_copy, on_bufs. wp_go. eapply wp_pbuf_alloc_empty; [|lia|].
    - by destruct s.
    - wp_simpl. by destruct s. }
  enough (wp (pbuf_copy (pbuf_of e)) (fun p s' => p = pbuf_of f /\ exists b',
      pool_wf s' frees' (f :: uses) /\ p_bufs s' !! pbuf_of f = Some b' /\ buf_ok b' /\
      v_head (view_of b') = v_head (view_of b) /\ v_data (view_of b') = v_data (view_of b) /\
      pb_refcount b' = 1 /\ pb_end b' = pb_end b /\
      forall p, p <> pbuf_of f -> p_bufs s' !! p = p_bufs s !! p) s)
    as (p & s' & E & -> & b' & ?)%wp_run by eauto.
  assert (f <> e) as Hfe.
  { intros ->. eapply (pw_disj _ _ _ Hw e); set_solver. }
  unfold pbuf_copy, on_bufs. wp_go.
  replace (set_bufs (p_bufs s) s) with s by by destruct s.
  eapply wp_pbuf_alloc; [done|done|]. intros s1 [Hw1 (b1 & Hb1 & Hfr) Hframe _ _].
  rewrite (proj2 (Z.eqb_neq _ _)) by (apply (pw_null _ _ _ Hw); set_solver).
  assert (p_bufs s1 !! pbuf_of e = Some b) as Hb2.
  { rewrite Hframe; [done|]. unfold pbuf_of. lia. }
  wp_go. rewrite (proj2 (Z.leb_le _ _)); [|unfold head_bytes; lia].
  wp_go. unfold wp at 1, atomic_set. wp_simpl. split; [done|].
  destruct (copy_bytes_ok b b1 Hok) as (Hok' & Hv1 & Hv2); [apply Hfr|].
  simpl. rewrite insert_insert_eq. eexists. split_and!.
  - destruct Hw1. split; simpl; try done. intros x Hx.
    destruct (decide (pbuf_of x = pbuf_of f)) as [E|E].
    + rewrite E. eexists. split; [apply lookup_insert_eq|]. apply Hok'.
    + destruct (pw_bufs0 x Hx) as (b' & Hb' & Hl'). exists b'. split; [|done].
      by rewrite ?insert_insert_eq, lookup_insert_ne.
  - apply lookup_insert_eq.
  - destruct Hok'. by split.
  - exact Hv1.
  - exact Hv2.
  - done.
  - done.
  - intros p Hp. rewrite lookup_insert_ne by done. by apply Hframe.
Qed.

(** ** Setting the pool up *)
Definition entries (base : addr) (n : nat) : list addr := entry_addr base ∘ Z.of_nat <$> seq 0 n.

Lemma elem_of_entries base n e :
  e ∈ entries base n <-> exists i, (i < n)%nat /\ e = entry_addr base (Z.of_nat i).
Proof.
  unfold entries. rewrite list_elem_of_fmap. setoid_rewrite elem_of_seq.
  split; intros (i & ? & ?); exists i; (split; [|done || lia]); done || lia.
Qed.

Lemma entries_S base n : entries base (S n) = entries base n ++ [entry_addr base (Z.of_nat n)].
Proof. unfold entries. by rewrite seq_S, fmap_app. Qed.

Lemma entry_addr_inj base i j : entry_addr base i = entry_addr base j -> i = j.
Proof. unfold entry_addr, sizeof_entry. lia. Qed.

(** The loop links the entries in, in order, behind those already there. *)
Lemma wp_pool_loop base n s0 (Q : unit -> pool A -> Prop) :
  p_objects s0 = base -> Z.of_nat n < 2 ^ 63 ->
  (forall i, (i < n)%nat -> entry_addr base (Z.of_nat i) <> free_list /\
     entry_addr base (Z.of_nat i) <> use_list /\ is_Some (p_nodes s0 !! entry_addr base (Z.of_nat i))) ->
  is_list (p_nodes s0) free_list [] -> is_list (p_nodes s0) use_list [] ->
  (forall m, is_list m free_list (entries base n) -> is_list m use_list [] -> Q tt (set_nodes m s0)) ->
  wp (pool_loop (S n) 0 (Z.of_nat n)) Q s0.
Proof.
  intros Hbase Hn Hent Hfree Huse HQ.
  enough (forall j m, (j <= n)%nat -> is_list m free_list (entries base (n - j)) -> is_list m use_list [] ->
    (forall i, (i < n)%nat -> is_Some (m !! entry_addr base (Z.of_nat i))) ->
    wp (pool_loop (S j) (Z.of_nat (n - j)) (Z.of_nat n)) Q (set_nodes m s0)) as Hgo.
  { replace s0 with (set_nodes (p_nodes s0) s0) by by destruct s0.
    replace 0 with (Z.of_nat (n - n)) by lia.
    apply Hgo; [lia| |done|apply Hent]. rewrite Nat.sub_diag. exact Hfree. }
  clear Hfree Huse. induction j as [|j IH]; intros m Hj Hf Hu Hm; cbn [pool_loop].
  - rewrite (proj2 (Z.ltb_ge _ _)) by lia. wp_simpl. apply HQ; [|done]. by rewrite Nat.sub_0_r in Hf.
  - rewrite (proj2 (Z.ltb_lt _ _)) by lia. unfold on_nodes. wp_simpl. cbn [p_objects set_nodes]. rewrite Hbase.
    set (x := entry_addr base (Z.of_nat (n - S j))).
    destruct (Hent (n - S j)%nat) as (Hxf & Hxu & _); [lia|]. fold x in Hxf, Hxu.
    assert (x ∉ free_list :: entries base (n - S j)) as Hx.
    { rewrite elem_of_cons, elem_of_entries. intros [?|(i & Hi & E)]; [done|].
      apply entry_addr_inj in E. lia. }
    eapply wp_mono; [apply (wp_list_add_back _ free_list x _ Hf Hx)|].
    { apply Hm. lia. }
    intros [] m' [Hf' Hframe].
    replace (u64 (Z.of_nat (n - S j) + 1)) with (Z.of_nat (n - j)) by (rewrite u64_id; lia).
    apply IH; [lia| | |].
    + replace (n - j)%nat with (S (n - S j)) by lia. by rewrite entries_S.
    + eapply is_list_frame; [exact Hu|]. intros p ->%list_elem_of_singleton. apply Hframe.
      rewrite !elem_of_cons, elem_of_entries. intros [?|[?|(i & Hi & E)]]; [done..|].
      destruct (Hent i) as (_ & ? & _); [lia|done].
    + intros i Hi. destruct (decide (entry_addr base (Z.of_nat i) ∈ free_list :: entries base (n - S j) ++ [x])) as [Hin|Hin].
      * by eapply is_list_node.
      * rewrite Hframe; [by apply Hm|]. set_solver.
Qed.

(** The blocks [malloc] can return do not overlap the static anchors. *)
Definition static_ok s (n : nat) : Prop :=
  forall p i, p <> NULL -> p ∉ blocks (p_alloc s) -> (i < n)%nat ->
    entry_addr p (Z.of_nat i) <> free_list /\ entry_addr p (Z.of_nat i) <> use_list /\
    pbuf_of (entry_addr p (Z.of_nat i)) <> NULL.

(** [pbuf_pool_init] makes a pool of the size asked for and at least 20, all
    of it free; it returns -1 only when [calloc] returns [NULL]. *)
Theorem pbuf_pool_init_correct s k n :
  is_list (p_nodes s) free_list [] -> is_list (p_nodes s) use_list [] -> p_mutex s = false ->
  Z.of_nat n = Z.max 20 k -> Z.of_nat n < 2 ^ 63 -> static_ok s n ->
  exists r s', pbuf_pool_init k s = Ok (r, s') /\
    (r = -1 /\ p_objects s' = NULL /\ p_nodes s' = p_nodes s /\ p_bufs s' = p_bufs s \/
     r = 0 /\ pool_wf s' (entries (p_objects s') n) [] /\
       blocks (p_alloc s') = {[p_objects s']} ∪ blocks (p_alloc s)).
Proof.
  intros Hf Hu Hmu Hk Hn Hst. apply wp_run. unfold pbuf_pool_init.
  replace (if k <? MIN_POOL_SIZE then MIN_POOL_SIZE else k) with (Z.of_nat n)
    by (unfold MIN_POOL_SIZE; destruct (Z.ltb_spec k 20); lia).
  rewrite wp_bind, wp_zoom. unfold calloc.
  destruct (Z.ltb_spec (Z.of_nat n * sizeof_entry) (2 ^ 64)); cycle 1.
  { wp_simpl. left. done. }
  apply wp_malloc; [unfold sizeof_entry; lia| |].
  { intros a' _ _. wp_simpl. left. done. }
  intros p a' Hp Hpb Hb _. wp_simpl. rewrite (proj2 (Z.eqb_neq _ _) Hp). wp_simpl.
  rewrite Nat2Z.id. set (s1 := create_entries _ _ _).
  assert (forall q, p_nodes s1 !! q = if decide (q ∈ entries p n) then Some (mk_list NULL NULL) else p_nodes s !! q) as Hnodes.
  { intros q. unfold s1, create_entries. cbn [p_nodes set_nodes set_bufs set_objects set_alloc].
    rewrite Nat2Z.id. apply lookup_fill. }
  assert (forall q, is_list (p_nodes s) q [] -> q ∉ entries p n -> is_list (p_nodes s1) q []) as Hanchor.
  { intros q Hq Hout. eapply is_list_frame; [exact Hq|]. intros x ->%list_elem_of_singleton.
    rewrite Hnodes. by rewrite decide_False. }
  apply (wp_pool_loop p); [done|done| |apply Hanchor; [done|]|apply Hanchor; [done|]|].
  - intros i Hi. destruct (Hst p i Hp Hpb Hi) as (? & ? & _). split_and!; [done..|].
    rewrite Hnodes, decide_True; [eauto|]. apply elem_of_entries. eauto.
  - intros (i & Hi & E)%elem_of_entries. by destruct (Hst p i Hp Hpb Hi) as (? & ? & _).
  - intros (i & Hi & E)%elem_of_entries. by destruct (Hst p i Hp Hpb Hi) as (? & ? & _).
  - intros m Hf' Hu'. wp_simpl. right. split; [done|]. split; [|exact Hb].
    split; cbn [p_nodes p_bufs p_objects p_mutex p_alloc set_nodes]; try done.
    + intros q ->%list_elem_of_singleton. rewrite elem_of_cons. intros [?|(i & Hi & E)%elem_of_entries]; [done|].
      by destruct (Hst p i Hp Hpb Hi) as (? & ? & _).
    + intros e He. rewrite app_nil_r in He. unfold s1, create_entries. cbn [p_bufs set_nodes set_bufs set_objects set_alloc].
      rewrite Nat2Z.id, lookup_fill. rewrite decide_True by (apply list_elem_of_fmap; eauto).
      eexists. split; [done|]. cbn [pb_bytes zero_pbuf]. by rewrite length_replicate.
    + intros e. rewrite app_nil_r. intros (i & Hi & ->)%elem_of_entries. by destruct (Hst p i Hp Hpb Hi) as (_ & _ & ?).
Qed.

(** [pbuf_pool_cleanup] frees the entries but leaves both lists pointing to
    them, so that after it, [pbuf_alloc] reads freed memory as long as the free
    list was not empty. *)
Theorem pbuf_pool_cleanup_dangling s frees uses e i n size :
  pool_wf s (e :: frees) uses -> p_objects s <> NULL -> p_objects s ∈ blocks (p_alloc s) ->
  (i < n)%nat -> e = entry_addr (p_objects s) (Z.of_nat i) ->
  free_list ∉ entries (p_objects s) n -> 0 <= size <= PBUF_MAX_SIZE ->
  exists s', pbuf_pool_cleanup (Z.of_nat n) s = Ok (tt, s') /\ pbuf_alloc size s' = Fault.
Proof.
  intros Hw Hn Hb Hi He Hfl Hs. apply wp_run_tt. unfold pbuf_pool_cleanup. wp_simpl.
  apply wp_free; [done|done|]. intros a' _. wp_simpl. set (s' := destroy_entries _ _ _).
  assert (forall q, p_nodes s' !! q = if decide (q ∈ entries (p_objects s) n) then None else p_nodes s !! q) as Hnodes.
  { intros q. unfold s', destroy_entries. cbn [p_nodes set_nodes set_bufs set_alloc].
    rewrite Nat2Z.id. apply lookup_foldr_delete. }
  destruct (pw_free _ _ _ Hw) as [Hnd [[nf [Hnf Hne]]%next_of_Some _]].
  assert (p_nodes s' !! free_list = Some nf) as Hnf'.
  { by rewrite Hnodes, decide_False. }
  assert (p_nodes s' !! e = None) as Hen.
  { rewrite Hnodes, decide_True; [done|]. apply elem_of_entries. eauto. }
  assert (forall s1, p_nodes s1 = p_nodes s' -> on_nodes (list_move e use_list) s1 = Fault) as Hmove.
  { intros s1 E1. unfold on_nodes, zoom, list_move. rewrite run_fault; [done|].
    unfold list_del. apply run_fault. unfold load. by rewrite E1, Hen. }
  unfold pbuf_alloc. erewrite run_bind by (unfold assert_c; by rewrite (proj2 (Z.leb_le _ _)) by lia).
  erewrite run_bind by (unfold mutex_lock; cbn [p_mutex s' destroy_entries set_bufs set_nodes set_alloc];
    by rewrite (pw_mutex _ _ _ Hw)).
  erewrite run_bind; cycle 1.
  { unfold on_nodes, zoom, list_empty. cbn [p_nodes set_mutex].
    erewrite run_bind by (unfold load; by rewrite Hnf'). done. }
  rewrite Hne, (proj2 (Z.eqb_neq e free_list)) by (apply NoDup_cons in Hnd; set_solver).
  apply run_fault. erewrite run_bind; cycle 1.
  { unfold on_nodes, zoom, list_front. cbn [p_nodes set_mutex set_nodes].
    erewrite run_bind by (unfold load; by rewrite Hnf'). done. }
  rewrite Hne. apply run_fault. by apply Hmove.
Qed.
End PoolSpec.

(** ** Witnesses *)

(** 100 bytes of data behind 64 of headroom, in a buffer of 1500. *)
Definition demo_buf : pbuf :=
  mk_pbuf 1 0 [] 1500 100 64 164 1500 0 0 0 0 (replicate 4100 7).
Lemma demo_buf_ok : buf_ok demo_buf.
Proof. split; vm_compute; try done; split; done. Qed.

Definition demo_ops : list buf_op := [Push 14; Put 20; Pull 34; Trim 50].
Lemma pbuf_refines_view_witness :
  exists b', exec_bufs 1016 demo_ops {[1016 := demo_buf]} = Ok (tt, <[1016 := b']> {[1016 := demo_buf]})
    /\ buf_ok b'.
Proof.
  destruct (pbuf_refines_view {[1016 := demo_buf]} 1016 demo_buf demo_ops
    (default (view_of demo_buf) (spec_bufs (view_of demo_buf) demo_ops))) as (b' & E & Hok & _).
  - reflexivity.
  - exact demo_buf_ok.
  - vm_compute. reflexivity.
  - exists b'. split; [exact E|exact Hok].
Defined.

Lemma pbuf_put_push_safe_witness :
  (exists p b', pbuf_put 1016 200 {[1016 := demo_buf]} = Ok (p, <[1016 := b']> {[1016 := demo_buf]}) /\
     pb_len b' = 300) /\
  pbuf_push 1016 200 {[1016 := demo_buf]} = Aborted.
Proof.
  destruct (pbuf_put_push_safe {[1016 := demo_buf]} 1016 demo_buf 200) as [(p & b' & E & _ & Hl) Hpush].
  - reflexivity.
  - exact demo_buf_ok.
  - lia.
  - split; [exists p, b'; split; [exact E|exact Hl]|exact Hpush].
Defined.

Lemma pbuf_asserts_too_weak_witness :
  exists p b', pbuf_pull 1016 101 {[1016 := demo_buf]} = Ok (p, <[1016 := b']> {[1016 := demo_buf]}) /\
    pb_len b' = 2 ^ 64 - 1.
Proof.
  destruct (pbuf_asserts_too_weak {[1016 := demo_buf]} 1016 demo_buf 101) as [Hpull _].
  - reflexivity.
  - exact demo_buf_ok.
  - vm_compute. discriminate.
  - destruct Hpull as (p & b' & E & Hl & _); [vm_compute; reflexivity|].
    exists p, b'. split; [exact E|exact Hl].
Defined.

(** Three entries, at 1000, 5192 and 9384; the first is in use. *)
Definition demo_pool : pool arena :=
  mk_pool
    (list_to_map [(8, mk_list 9384 5192); (5192, mk_list 8 9384); (9384, mk_list 5192 8);
                  (24, mk_list 1000 1000); (1000, mk_list 24 24)])
    (list_to_map [(1016, demo_buf); (5208, zero_pbuf (replicate 4100 0)); (9400, zero_pbuf (replicate 4100 0))])
    1000 false (mk_arena 100000 {[1000]}).

Lemma demo_pool_wf : pool_wf demo_pool [5192; 9384] [1000].
Proof.
  split; try done.
  - split; [|by vm_compute]. apply NoDup_ListNoDup. repeat constructor; vm_compute; intuition lia.
  - split; [|by vm_compute]. apply NoDup_ListNoDup. repeat constructor; vm_compute; intuition lia.
  - intros p Hp Hq. apply list_elem_of_In in Hp, Hq. vm_compute in Hp, Hq. intuition lia.
  - intros e He. apply list_elem_of_In in He. simpl in He.
    destruct He as [<-|[<-|[<-|[]]]]; eexists; (split; [reflexivity|by vm_compute]).
  - intros e He. apply list_elem_of_In in He. simpl in He.
    destruct He as [<-|[<-|[<-|[]]]]; by vm_compute.
Qed.

Lemma pbuf_alloc_correct_witness :
  exists s', pbuf_alloc 1500 demo_pool = Ok (5208, s') /\ pool_wf s' [9384] [5192; 1000].
Proof.
  destruct (pbuf_alloc_correct demo_pool [5192; 9384] [1000] 1500) as (s' & E & [Hw _ _ _ _] & _).
  - exact demo_pool_wf.
  - lia.
  - exists s'. split; [exact E|exact Hw].
Defined.

Lemma pbuf_free_correct_witness :
  exists s', pbuf_free 1016 demo_pool = Ok (tt, s') /\ pool_wf s' [1000; 5192; 9384] [].
Proof.
  destruct (pbuf_free_correct demo_pool [5192; 9384] [] 1000 [] demo_buf) as (s' & E & _ & Hw).
  - exact demo_pool_wf.
  - reflexivity.
  - vm_compute. split; [discriminate|reflexivity].
  - exists s'. split; [exact E|exact Hw].
Defined.

Lemma pbuf_copy_correct_witness :
  exists s' b', pbuf_copy 1016 demo_pool = Ok (5208, s') /\ p_bufs s' !! 5208 = Some b' /\
    v_data (view_of b') = replicate 100 7.
Proof.
  destruct (pbuf_copy_correct demo_pool [5192; 9384] [1000] 1000 demo_buf)
    as (s' & b' & E & _ & Hb & _ & _ & Hv & _).
  - exact demo_pool_wf.
  - apply list_elem_of_In. left. reflexivity.
  - reflexivity.
  - exact demo_buf_ok.
  - exists s', b'. split; [exact E|split; [exact Hb|rewrite Hv; vm_compute; reflexivity]].
Defined.

(** A process without a pool, whose allocator avoids the static anchors. *)
Definition demo_static : gset addr :=
  list_to_set (seq 0 20 ≫= (fun i => [free_list - sizeof_entry * Z.of_nat i; use_list - sizeof_entry * Z.of_nat i;
     - offset_pbuf - sizeof_entry * Z.of_nat i])).
Definition demo_no_pool : pool arena :=
  mk_pool (list_to_map [(8, mk_list 8 8); (24, mk_list 24 24)]) ∅ NULL false (mk_arena 1000000 demo_static).

Lemma demo_static_ok : static_ok demo_no_pool 20.
Proof.
  assert (forall i q, (i < 20)%nat ->
    q ∈ [free_list - sizeof_entry * Z.of_nat i; use_list - sizeof_entry * Z.of_nat i;
         - offset_pbuf - sizeof_entry * Z.of_nat i] -> q ∈ demo_static) as Hin.
  { intros i q Hi Hq. apply elem_of_list_to_set, list_elem_of_bind. exists i. split; [exact Hq|].
    apply elem_of_seq. lia. }
  intros p i Hp Hb Hi. change (blocks (p_alloc demo_no_pool)) with demo_static in Hb.
  split_and!; intros E; apply Hb, (Hin i p Hi), list_elem_of_In; simpl;
    unfold entry_addr, pbuf_of, NULL in E; lia.
Qed.

Lemma pbuf_pool_init_correct_witness :
  exists s', pbuf_pool_init 5 demo_no_pool = Ok (0, s') /\ pool_wf s' (entries (p_objects s') 20) [].
Proof.
  destruct (pbuf_pool_init_correct demo_no_pool 5 20) as (r & s' & E & Hr).
  - split; [apply NoDup_singleton|by vm_compute].
  - split; [apply NoDup_singleton|by vm_compute].
  - reflexivity.
  - reflexivity.
  - vm_compute. reflexivity.
  - exact demo_static_ok.
  - destruct Hr as [(Hr & Ho & _)|(-> & Hw & _)].
    + exfalso. clear - E Hr. 
      assert (pbuf_pool_init 5 demo_no_pool ≫= (fun '(r, _) => Ok r) = Ok 0) as E2 by (vm_compute; reflexivity).
      rewrite E in E2. subst. discriminate.
    + exists s'. split; [exact E|exact Hw].
Defined.

Lemma pbuf_pool_cleanup_dangling_witness :
  exists s', pbuf_pool_cleanup 3 demo_pool = Ok (tt, s') /\ pbuf_alloc 100 s' = Fault.
Proof.
  apply (pbuf_pool_cleanup_dangling demo_pool [9384] [1000] 5192 1 3 100).
  - exact demo_pool_wf.
  - discriminate.
  - vm_compute. done.
  - lia.
  - reflexivity.
  - intros H. apply list_elem_of_In in H. vm_compute in H. intuition lia.
  - vm_compute. split; discriminate.
Defined.
