(* ===== verification/PbufTypes.v ===== *)
(** The types of packet buffers (src/pbuf.c, include/ckit/pbuf.h): the fields of a
    [struct pbuf] are integers of a given width, and no operation, on any
    buffer and with any argument of its type, leaves a value in a field that is
    not one of the field's type. Nothing is assumed of the offsets; buffers whose
    offsets are out of order are typed too. *)
From S2P Require Import Prelude Atomic Clist Malloc Pbuf.

(** ** The values of the C types *)
Definition is_u32 (z : Z) : Prop := 0 <= z < 2 ^ 32.
Definition is_size (z : Z) : Prop := 0 <= z < 2 ^ 64.
Definition is_int (z : Z) : Prop := - 2 ^ 31 <= z < 2 ^ 31.
Definition is_byte (z : Z) : Prop := 0 <= z < 2 ^ 8.

Record pbuf_typed (b : pbuf) : Prop := {
  ty_refcount : is_int (pb_refcount b);
  ty_ifindex : is_u32 (pb_ifindex b);
  ty_cb : Forall is_byte (pb_cb b) /\ Z.of_nat (length (pb_cb b)) = CTRL_BLOCK_SIZE;
  ty_alloc_len : is_size (pb_alloc_len b);
  ty_len : is_size (pb_len b);
  ty_data : is_u32 (pb_data b);
  ty_tail : is_u32 (pb_tail b);
  ty_end : is_u32 (pb_end b);
  ty_link : is_u32 (pb_link b);
  ty_network : is_u32 (pb_network b);
  ty_transport : is_u32 (pb_transport b);
  ty_payload : is_u32 (pb_payload b);
  ty_bytes : Forall is_byte (pb_bytes b) /\ Z.of_nat (length (pb_bytes b)) = head_bytes;
}.

Lemma u32_typed z : is_u32 (u32 z).
Proof. apply u32_range. Qed.
Lemma u64_typed z : is_size (u64 z).
Proof. apply u64_range. Qed.

Lemma one_typed : is_int 1.
Proof. unfold is_int. lia. Qed.

(** ** Judgements

    [typed m R]: if [m] returns from a typed store, the store is typed again and
    [R] holds of the value. *)
Section Judgement.
Context {S : Type} (ok : S -> Prop).

Definition typed {X} (m : M S X) (R : X -> Prop) : Prop :=
  forall s a s', ok s -> m s = Ok (a, s') -> ok s' /\ R a.

Lemma typed_ret {X} (a : X) (R : X -> Prop) : R a -> typed (mret a) R.
Proof. intros HR s a' s' Hs [= <- <-]. done. Qed.
Lemma typed_bind {X Y} (m : M S X) (k : X -> M S Y) (R : X -> Prop) (R' : Y -> Prop) :
  typed m R -> (forall a, R a -> typed (k a) R') -> typed (m ≫= k) R'.
Proof. intros Hm Hk s b s' Hs (a & s1 & E & E')%run_bind_inv. destruct (Hm _ _ _ Hs E). by eapply Hk. Qed.
Lemma typed_seq {X Y} (m : M S X) (n : M S Y) (R' : Y -> Prop) :
  typed m (fun _ => True) -> typed n R' -> typed (m;; n) R'.
Proof. intros Hm Hn. eapply typed_bind; [exact Hm|]. done. Qed.
Lemma typed_mono {X} (m : M S X) (R R' : X -> Prop) : typed m R -> (forall a, R a -> R' a) -> typed m R'.
Proof. intros Hm HR s a s' Hs E. destruct (Hm _ _ _ Hs E). auto. Qed.
Lemma typed_if {X} (b : bool) (m n : M S X) R :
  (b = true -> typed m R) -> (b = false -> typed n R) -> typed (if b then m else n) R.
Proof. destruct b; auto. Qed.
Lemma typed_assert b : typed (assert_c b) (fun _ => b = true).
Proof. unfold assert_c. intros s a s' Hs E. destruct b; [by injection E as <- <-|done]. Qed.
Lemma typed_get : typed get ok.
Proof. intros s a s' Hs [= <- <-]. done. Qed.
Lemma typed_modify f : (forall s, ok s -> ok (f s)) -> typed (modify f) (fun _ => True).
Proof. intros Hf s a s' Hs [= <- <-]. auto. Qed.
Lemma typed_fault {X} (R : X -> Prop) : typed fault R.
Proof. intros s a s' _ [=]. Qed.
Lemma typed_out_of_fuel {X} (R : X -> Prop) : typed out_of_fuel R.
Proof. intros s a s' _ [=]. Qed.
End Judgement.

(** ** Buffers *)
Definition bufs_typed (m : bmem) : Prop := map_Forall (fun _ => pbuf_typed) m.

Lemma typed_load pb : typed bufs_typed (load pb) pbuf_typed.
Proof. intros m b m' Hm E. unfold load in E. destruct (m !! pb) eqn:Hb; [|done]. injection E as <- <-. eauto. Qed.
Lemma typed_update pb f :
  (forall b, pbuf_typed b -> pbuf_typed (f b)) -> typed bufs_typed (update pb f) (fun _ => True).
Proof.
  intros Hf m b m' Hm E. unfold update in E. destruct (m !! pb) as [x|] eqn:Hx; [|done]. injection E as <- <-.
  split; [|done]. apply map_Forall_insert_2; [|done]. apply Hf. by eapply Hm.
Qed.
Lemma typed_refcount {X} pb (op : M Z X) :
  typed is_int op (fun _ => True) ->
  typed bufs_typed (on_field pb pb_refcount with_refcount op) (fun _ => True).
Proof.
  intros Hop m a m' Hm E. unfold on_field in E. destruct (m !! pb) as [x|] eqn:Hx; [|done].
  destruct (op (pb_refcount x)) as [[a' v]| | |] eqn:Ho; [|done..]. injection E as <- <-.
  split; [|done]. apply map_Forall_insert_2; [|done]. specialize (Hm _ _ Hx).
  destruct (Hop _ _ _ (ty_refcount _ Hm) Ho) as [Hv _]. by destruct Hm; split.
Qed.

Lemma typed_atomic_set v : is_int v -> typed is_int (atomic_set v) (fun _ => True).
Proof. intros Hv s a s' _ [= <- <-]. done. Qed.
Lemma typed_atomic_inc : typed is_int atomic_inc (fun _ => True).
Proof. intros s a s' _ [= <- <-]. split; [apply i32_range|done]. Qed.
Lemma typed_atomic_dec_and_test : typed is_int atomic_dec_and_test (fun _ => True).
Proof. intros s a s' _ [= <- <-]. split; [apply i32_range|done]. Qed.

Create HintDb typed.
#[export] Hint Resolve typed_ret typed_get typed_fault typed_out_of_fuel typed_load typed_atomic_set typed_atomic_inc
  typed_atomic_dec_and_test typed_refcount typed_assert u32_typed u64_typed one_typed : typed.

(** One statement at a time. *)
Ltac type_update := apply typed_update; intros ? []; split; cbn; solve [done | apply u32_typed | apply u64_typed].
Ltac type_step :=
  first
    [ type_update
    | apply typed_seq
    | eapply typed_bind; [solve [eauto with typed]|intros ? ?]
    | solve [eauto with typed]
    | eapply typed_mono; [solve [eauto with typed]|done] ].

Section Buffers.
Implicit Types (pb : addr) (len : Z).
Abbreviation btyped m := (typed bufs_typed m (fun _ => True)).

Lemma typed_data pb : btyped (pbuf_data pb).
Proof. unfold pbuf_data. repeat type_step. Qed.
Lemma typed_hold pb : btyped (pbuf_hold pb).
Proof. unfold pbuf_hold. repeat type_step. Qed.

Lemma typed_exec_buf pb op :
  (match op with Trim n => is_size n | _ => True end) -> btyped (exec_buf pb op).
Proof.
  intros Hop. destruct op; cbn [exec_buf];
    unfold pbuf_reserve, pbuf_push, pbuf_pull, pbuf_put, pbuf_trim, pbuf_data; repeat type_step.
Qed.
End Buffers.

(** ** The whole interface *)
Inductive pool_call :=
| Init (n : Z) | Cleanup (n : Z)
| Alloc (size : Z) | Free (pb : addr) | Copy (pb : addr) | Hold (pb : addr)
| Data (pb : addr) | Change (pb : addr) (op : buf_op)
| Headroom (pb : addr) | Tailroom (pb : addr)
| LinkHeader (pb : addr) | NetworkHeader (pb : addr) | TransportHeader (pb : addr) | Payload (pb : addr)
| ResetLink (pb : addr) | ResetNetwork (pb : addr) | ResetTransport (pb : addr) | ResetPayload (pb : addr).

Section Calls.
Context {A : Type} `{Allocator A}.
Abbreviation PM := (M (pool A)).

(** The call; functions that return nothing return 0 here. *)
Definition exec_call (c : pool_call) : PM Z :=
  match c with
  | Init n => pbuf_pool_init n
  | Cleanup n => pbuf_pool_cleanup n;; mret 0
  | Alloc size => pbuf_alloc size
  | Free pb => pbuf_free pb;; mret 0
  | Copy pb => pbuf_copy pb
  | Hold pb => on_bufs (pbuf_hold pb);; mret 0
  | Data pb => on_bufs (pbuf_data pb)
  | Change pb op => on_bufs (exec_buf pb op);; mret 0
  | Headroom pb => on_bufs (pbuf_headroom pb)
  | Tailroom pb => on_bufs (pbuf_tailroom pb)
  | LinkHeader pb => on_bufs (pbuf_link_header pb)
  | NetworkHeader pb => on_bufs (pbuf_network_header pb)
  | TransportHeader pb => on_bufs (pbuf_transport_header pb)
  | Payload pb => on_bufs (pbuf_payload pb)
  | ResetLink pb => on_bufs (pbuf_reset_link_header pb);; mret 0
  | ResetNetwork pb => on_bufs (pbuf_reset_network_header pb);; mret 0
  | ResetTransport pb => on_bufs (pbuf_reset_transport_header pb);; mret 0
  | ResetPayload pb => on_bufs (pbuf_reset_payload pb);; mret 0
  end.

Fixpoint exec_calls (cs : list pool_call) : PM (list Z) :=
  match cs with
  | [] => mret []
  | c :: cs => r ← exec_call c; rs ← exec_calls cs; mret (r :: rs)
  end.

(** Arguments of their types: lengths and sizes are [size_t]. *)
Definition args_typed (c : pool_call) : Prop :=
  match c with
  | Init n | Cleanup n | Alloc n => is_size n
  | Change _ (Reserve n) | Change _ (Push n) | Change _ (Pull n) | Change _ (Put n) | Change _ (Trim n) => is_size n
  | _ => True
  end.

(** What a call that returns an [int] or an [unsigned] gives. *)
Definition result_typed (c : pool_call) (r : Z) : Prop :=
  match c with
  | Init _ => is_int r
  | Headroom _ | Tailroom _ => is_u32 r
  | _ => True
  end.

Definition pool_typed (s : pool A) : Prop := bufs_typed (p_bufs s).

Lemma typed_on_bufs {X} (m : M bmem X) R : typed bufs_typed m R -> typed pool_typed (on_bufs m) R.
Proof.
  intros Hm s a s' Hs E. unfold on_bufs, zoom in E. destruct (m (p_bufs s)) as [[b t]| | |] eqn:Em; [|done..].
  injection E as <- <-. exact (Hm _ _ _ Hs Em).
Qed.
Lemma typed_on_nodes {X} (m : M lmem X) : typed pool_typed (on_nodes m) (fun _ => True).
Proof.
  intros s a s' Hs E. unfold on_nodes, zoom in E. destruct (m (p_nodes s)) as [[b t]| | |]; [|done..].
  by injection E as <- <-.
Qed.
Lemma typed_on_alloc {X} (m : M A X) : typed pool_typed (zoom p_alloc set_alloc m) (fun _ => True).
Proof.
  intros s a s' Hs E. unfold zoom in E. destruct (m (p_alloc s)) as [[b t]| | |]; [|done..].
  by injection E as <- <-.
Qed.
Lemma typed_mutex_lock : typed pool_typed mutex_lock (fun _ => True).
Proof. intros s a s' Hs E. unfold mutex_lock in E. destruct (p_mutex s); [done|]. by injection E as <- <-. Qed.
Lemma typed_mutex_unlock : typed pool_typed mutex_unlock (fun _ => True).
Proof. intros s a s' Hs E. unfold mutex_unlock in E. destruct (p_mutex s); [|done]. by injection E as <- <-. Qed.
Hint Resolve typed_on_bufs typed_on_nodes typed_on_alloc typed_mutex_lock typed_mutex_unlock typed_hold typed_data
  typed_exec_buf : typed.

Lemma zero_pbuf_typed bytes :
  Forall is_byte bytes -> Z.of_nat (length bytes) = head_bytes -> pbuf_typed (zero_pbuf bytes).
Proof.
  intros Hb Hl. split; cbn; try (unfold is_int, is_u32, is_size; lia); [|done].
  split; [|done]. by apply (Forall_replicate _ (Z.to_nat CTRL_BLOCK_SIZE)).
Qed.

Lemma typed_pbuf_init pb size : typed bufs_typed (pbuf_init pb size) (fun _ => True).
Proof.
  unfold pbuf_init. apply typed_seq; [|repeat type_step].
  apply typed_update. intros b Hb. destruct (ty_bytes b Hb). apply zero_pbuf_typed; [|by apply length_cleared].
  apply Forall_app. split; [by apply (Forall_replicate _ (Z.to_nat padding))|]. by apply Forall_drop.
Qed.
Hint Resolve typed_pbuf_init : typed.

Lemma typed_pbuf_alloc size : is_size size -> typed pool_typed (pbuf_alloc size) (fun _ => True).
Proof.
  intros Hs. unfold pbuf_alloc. repeat type_step.
  eapply (typed_bind _ _ _ (fun _ => True)).
  - apply typed_if; intros _; repeat type_step. apply typed_on_bufs. type_update.
  - intros. repeat type_step.
Qed.

Lemma typed_pbuf_free pb : typed pool_typed (pbuf_free pb) (fun _ => True).
Proof.
  unfold pbuf_free. eapply (typed_bind _ _ _ (fun _ => True)).
  - apply typed_on_bufs, typed_refcount, typed_atomic_dec_and_test.
  - intros z _. apply typed_if; intros _; repeat type_step.
Qed.

Lemma copy_bytes_typed b dst : pbuf_typed b -> pbuf_typed dst -> pbuf_typed (copy_bytes (pb_tail b) b dst).
Proof.
  intros Hb [_ _ _ _ _ _ _ _ _ _ _ _ [Hd Hdl]]. destruct Hb as [? ? ? ? ? ? ? ? ? ? ? ? [Hbb Hbl]].
  split; cbn; try done. split.
  - apply Forall_app. split; [by apply Forall_take|by apply Forall_drop].
  - rewrite length_app, length_take, length_drop. lia.
Qed.

Lemma typed_pbuf_copy pb : typed pool_typed (pbuf_copy pb) (fun _ => True).
Proof.
  unfold pbuf_copy. eapply typed_bind; [apply typed_on_bufs, typed_load|]. intros b Hb.
  eapply typed_bind; [apply typed_pbuf_alloc, Hb|]. intros pb_copy _. apply typed_if; intros _; [by apply typed_ret|].
  eapply typed_bind; [apply typed_on_bufs, typed_load|]. intros b2 Hb2.
  apply typed_seq; [apply typed_if; intros _; [by apply typed_ret|apply typed_fault]|].
  apply typed_seq; [|repeat type_step].
  apply typed_on_bufs, typed_update. intros dst Hdst. by apply copy_bytes_typed.
Qed.

Lemma typed_pool_loop fuel i n : typed pool_typed (pool_loop fuel i n) (fun _ => True).
Proof.
  revert i. induction fuel as [|fuel IH]; intros i; cbn [pool_loop]; [auto with typed|].
  apply typed_if; intros _; [|auto with typed]. eapply typed_bind; [apply typed_get|]. intros s _.
  apply typed_seq; [apply typed_on_nodes|apply IH].
Qed.

Lemma create_typed base n s : pool_typed s -> pool_typed (create_entries base n s).
Proof.
  intros Hs. unfold pool_typed, create_entries, bufs_typed. cbn. apply map_Forall_union_2; [|exact Hs].
  intros k b Hb. apply elem_of_list_to_map_2, list_elem_of_fmap in Hb as (x & [= -> ->] & _).
  apply zero_pbuf_typed; [by apply (Forall_replicate _ (Z.to_nat head_bytes))|].
  by vm_compute.
Qed.

Lemma destroy_typed base n s : pool_typed s -> pool_typed (destroy_entries base n s).
Proof.
  intros Hs. unfold pool_typed, destroy_entries, bufs_typed. cbn.
  induction (_ <$> (_ <$> _)) as [|x l IH]; cbn; [exact Hs|]. by apply map_Forall_delete.
Qed.

Lemma typed_pool_init n : typed pool_typed (pbuf_pool_init n) is_int.
Proof.
  unfold pbuf_pool_init. eapply typed_bind; [apply typed_on_alloc|]. intros p _.
  apply typed_seq; [by apply typed_modify|]. apply typed_if; intros _; [by apply typed_ret|].
  apply typed_seq; [apply typed_modify, create_typed|]. apply typed_seq; [apply typed_pool_loop|]. by apply typed_ret.
Qed.

Lemma typed_pool_cleanup n : typed pool_typed (pbuf_pool_cleanup n) (fun _ => True).
Proof.
  unfold pbuf_pool_cleanup. eapply typed_bind; [apply typed_get|]. intros s _.
  apply typed_seq; [apply typed_on_alloc|]. apply typed_modify, destroy_typed.
Qed.

Lemma typed_read {X} pb (f : pbuf -> X) (R : X -> Prop) :
  (forall b, pbuf_typed b -> R (f b)) -> typed pool_typed (on_bufs (b ← load pb; mret (f b))) R.
Proof.
  intros HR. apply typed_on_bufs. eapply typed_bind; [apply typed_load|]. intros b Hb. by apply typed_ret, HR.
Qed.

Lemma typed_void {X} (m : PM X) R : R 0 -> typed pool_typed m (fun _ => True) -> typed pool_typed (m;; mret 0) R.
Proof. intros HR Hm. apply typed_seq; [exact Hm|]. by apply typed_ret. Qed.

Lemma typed_exec_call c : args_typed c -> typed pool_typed (exec_call c) (result_typed c).
Proof.
  intros Hc. destruct c; cbn [exec_call]; cbn in Hc;
    try (apply typed_void; [done|]);
    try (apply typed_read; intros b []; cbn; done || apply u32_typed).
  - apply typed_pool_init.
  - apply typed_pool_cleanup.
  - by apply typed_pbuf_alloc.
  - apply typed_pbuf_free.
  - apply typed_pbuf_copy.
  - apply typed_on_bufs, typed_hold.
  - apply typed_on_bufs, typed_exec_buf. by destruct op.
  - apply typed_on_bufs. unfold pbuf_reset_link_header. type_update.
  - apply typed_on_bufs. unfold pbuf_reset_network_header. type_update.
  - apply typed_on_bufs. unfold pbuf_reset_transport_header. type_update.
  - apply typed_on_bufs. unfold pbuf_reset_payload. type_update.
Qed.

End Calls.

(** ** A witness

    A trim beyond the end, a reservation that wraps the tail around, and a copy of
    a buffer whose offsets are out of order: typed all the same. *)
Definition demo_pool_calls : list pool_call :=
  [Alloc 100; Change 5208 (Trim (2 ^ 32 - 1)); Change 5208 (Reserve 100); Change 5208 (Trim 50);
   Tailroom 5208; Free 1016; Copy 5208].

Definition demo_typed : pool arena :=
  let b := zero_pbuf (replicate 4100 0) in
  set_bufs (<[1016 := b]> (<[5208 := b]> (<[9400 := b]> ∅))) demo_pool.

Lemma demo_typed_ok : pool_typed demo_typed.
Proof.
  assert (pbuf_typed (zero_pbuf (replicate 4100 0))) as Hz.
  { apply zero_pbuf_typed; [by apply (Forall_replicate _ 4100)|by vm_compute]. }
  unfold pool_typed, demo_typed. cbn [p_bufs set_bufs].
  repeat (apply map_Forall_insert_2; [exact Hz|]). apply map_Forall_empty.
Qed.

