(* ===== verification/PbufConc.v ===== *)
(** The packet pool under several threads (src/pbuf.c, include/ckit/pbuf.h).

    [pbuf_alloc] and [pbuf_free] of Pbuf.v are cut where another thread can come
    in between: at the lock and the unlock, at each statement of the critical
    section, and at the atomic decrement, which is outside of it. A thread has
    the references it was given, and a position in the function it is in. *)
From S2P Require Import Prelude Atomic Clist Malloc Pbuf Conc.

(** ** Positions

    The local variables of the function are in the position: [size], [ppe] and
    [pb] of [pbuf_alloc], [pb] of [pbuf_free] (whose [ppe] is computed from it). *)
Inductive pc :=
| Idle
| AllocEnter (size : Z)             (* assert(size <= PBUF_MAX_SIZE) *)
| AllocLock (size : Z)              (* pthread_mutex_lock(&pool_mutex) *)
| AllocTest (size : Z)              (* if (!list_empty(&free_list)) *)
| AllocFront (size : Z)             (* ppe = list_front(&free_list, ...) *)
| AllocMove (size : Z) (ppe : addr) (* list_move(&ppe->lnode, &use_list) *)
| AllocInit (size : Z) (ppe : addr) (* pbuf_init(&ppe->pbuf, size) *)
| AllocLen (size : Z) (ppe : addr)  (* pb->alloc_len = size *)
| AllocUnlock (size : Z) (pb : addr) (* pthread_mutex_unlock(&pool_mutex) *)
| AllocReturn (size : Z) (pb : addr) (* return pb *)
| FreeDec (pb : addr)               (* if (atomic_dec_and_test(&pb->refcount)) *)
| FreeLock (pb : addr)              (* pthread_mutex_lock(&pool_mutex) *)
| FreeMove (pb : addr)              (* list_move(&ppe->lnode, &free_list) *)
| FreeUnlock.                       (* pthread_mutex_unlock(&pool_mutex) *)

Record thread := mk_thread { t_refs : list addr; t_pc : pc }.

Section Positions.
Context {A : Type}.
Abbreviation PM := (M (pool A)).

(** One piece of the code. A lock that is taken is not a step: the thread waits. *)
Definition alloc_exec (p : pc) : PM pc :=
  match p with
  | AllocEnter size => assert_c (size <=? PBUF_MAX_SIZE);; mret (AllocLock size)
  | AllocLock size => mutex_lock;; mret (AllocTest size)
  | AllocTest size =>
      e ← on_nodes (list_empty free_list);
      mret (if (e : bool) then AllocUnlock size NULL else AllocFront size)
  | AllocFront size => ppe ← on_nodes (list_front free_list); mret (AllocMove size ppe)
  | AllocMove size ppe => on_nodes (list_move ppe use_list);; mret (AllocInit size ppe)
  | AllocInit size ppe => on_bufs (pbuf_init (pbuf_of ppe) size);; mret (AllocLen size ppe)
  | AllocLen size ppe =>
      on_bufs (update (pbuf_of ppe) (with_alloc_len size));; mret (AllocUnlock size (pbuf_of ppe))
  | AllocUnlock size pb => mutex_unlock;; mret (AllocReturn size pb)
  | _ => mret p
  end.

Definition free_exec (p : pc) : PM pc :=
  match p with
  | FreeDec pb =>
      z ← on_bufs (on_field pb pb_refcount with_refcount atomic_dec_and_test);
      mret (if (z : bool) then FreeLock pb else Idle)
  | FreeLock pb => mutex_lock;; mret (FreeMove pb)
  | FreeMove pb => on_nodes (list_move (get_enclosing pb offset_pbuf) free_list);; mret FreeUnlock
  | FreeUnlock => mutex_unlock;; mret Idle
  | _ => mret p
  end.

Definition pool_exec (p : pc) : PM pc :=
  match p with
  | Idle | AllocReturn _ _ => mret p
  | FreeDec _ | FreeLock _ | FreeMove _ | FreeUnlock => free_exec p
  | _ => alloc_exec p
  end.

(** The pieces in a row, with no other thread between them. *)
Fixpoint run_alone (n : nat) (p : pc) : PM pc :=
  match n with
  | O => mret p
  | S n => p ← pool_exec p; run_alone n p
  end.

Definition returned (p : pc) : PM addr :=
  match p with AllocReturn _ pb => mret pb | _ => out_of_fuel end.

End Positions.

(** ** The threads *)
Section PoolThreads.
Context {A : Type}.
Implicit Types (s : pool A) (p : pc) (t : thread) (ts : list thread) (frees uses : list addr).

(** At a piece of [pool_exec]. *)
Definition in_call p : bool := match p with Idle | AllocReturn _ _ => false | _ => true end.

(** What a thread does next: it goes on in the function it is in, or, between
    calls, it calls one. It frees, holds and writes to what it has a reference
    to. [pbuf_hold] is one atomic step; the client keeps the number of
    references to a buffer within [int]. What it writes is anything but the
    reference count. *)
Inductive pool_step : pool A -> thread -> pool A -> thread -> Prop :=
| step_code s refs p s' p' :
    in_call p = true ->
    pool_exec p s = Ok (p', s') ->
    pool_step s (mk_thread refs p) s' (mk_thread refs p')
| step_return s refs size pb :
    pool_step s (mk_thread refs (AllocReturn size pb))
              s (mk_thread (if pb =? NULL then refs else pb :: refs) Idle)
| call_alloc s refs size :
    0 <= size <= PBUF_MAX_SIZE ->
    pool_step s (mk_thread refs Idle) s (mk_thread refs (AllocEnter size))
| call_free s r1 pb r2 :
    pool_step s (mk_thread (r1 ++ pb :: r2) Idle) s (mk_thread (r1 ++ r2) (FreeDec pb))
| call_hold s refs pb b s' :
    pb ∈ refs -> p_bufs s !! pb = Some b -> pb_refcount b < 2 ^ 31 - 1 ->
    on_bufs (pbuf_hold pb) s = Ok (tt, s') ->
    pool_step s (mk_thread refs Idle) s' (mk_thread (pb :: refs) Idle)
| client_write s refs pb b b' :
    pb ∈ refs -> p_bufs s !! pb = Some b ->
    pb_refcount b' = pb_refcount b -> length (pb_bytes b') = length (pb_bytes b) ->
    pool_step s (mk_thread refs Idle) (set_bufs (<[pb := b']> (p_bufs s)) s) (mk_thread refs Idle).

(** A reference goes from one thread to another. *)
Inductive give : thread -> thread -> thread -> thread -> Prop :=
| give_ref r1 pb r2 p refs q :
    give (mk_thread (r1 ++ pb :: r2) p) (mk_thread refs q)
         (mk_thread (r1 ++ r2) p) (mk_thread (pb :: refs) q).

(** The buffer a thread has to itself: taken from the free list and not yet
    returned, or with no reference left and not yet back in it. *)
Definition own_pc p : option addr :=
  match p with
  | AllocInit _ ppe | AllocLen _ ppe => Some (pbuf_of ppe)
  | AllocUnlock _ pb | AllocReturn _ pb => if pb =? NULL then None else Some pb
  | FreeLock pb | FreeMove pb => Some pb
  | _ => None
  end.
(** The reference [pbuf_free] is about to give up. *)
Definition ref_pc p : option addr := match p with FreeDec pb => Some pb | _ => None end.
(** Inside the critical section. *)
Definition holds_lock p : bool :=
  match p with
  | AllocTest _ | AllocFront _ | AllocMove _ _ | AllocInit _ _ | AllocLen _ _ | AllocUnlock _ _
  | FreeMove _ | FreeUnlock => true
  | _ => false
  end.

Definition one (b : bool) : nat := if b then 1 else 0.
Definition owns (pb : addr) t : nat := one (bool_decide (own_pc (t_pc t) = Some pb)).
Definition refs_to (pb : addr) t : nat :=
  (count_occ Z.eq_dec (t_refs t) pb + one (bool_decide (ref_pc (t_pc t) = Some pb)))%nat.
Definition locks t : nat := one (holds_lock (t_pc t)).

(** The buffer a thread has to itself, at each position. *)
Definition owned_ok p (b : pbuf) : Prop :=
  match p with
  | AllocLen size _ =>
      pb_refcount b = 1 /\ pb_len b = 0 /\ pb_data b = 0 /\ pb_tail b = 0 /\ pb_end b = size
  | AllocUnlock size _ | AllocReturn size _ => fresh_buf size b
  | FreeLock _ | FreeMove _ => pb_refcount b = 0
  | _ => True
  end.

Definition pc_ok s (frees : list addr) p : Prop :=
  (forall pb, own_pc p = Some pb -> exists b, p_bufs s !! pb = Some b /\ owned_ok p b) /\
  match p with
  | AllocEnter size | AllocLock size | AllocTest size | AllocInit size _ | AllocLen size _
  | AllocUnlock size _ | AllocReturn size _ => 0 <= size <= PBUF_MAX_SIZE
  | AllocFront size => 0 <= size <= PBUF_MAX_SIZE /\ frees <> []
  | AllocMove size ppe => 0 <= size <= PBUF_MAX_SIZE /\ head frees = Some ppe
  | _ => True
  end.

(** The books of one buffer, with [o] threads that have it to themselves and
    [r] references. *)
Definition account s (uses : list addr) (pb : addr) (o r : nat) : Prop :=
  if bool_decide (pb ∈ pbuf_of <$> uses) then
    (o = 1%nat /\ r = 0%nat) \/
    (o = 0%nat /\ (1 <= r)%nat /\ exists b, p_bufs s !! pb = Some b /\
      pb_refcount b = Z.of_nat r /\ pb_refcount b < 2 ^ 31)
  else o = 0%nat /\ r = 0%nat.

Record pool_books s (frees uses : list addr) : Prop := {
  bk_free : is_list (p_nodes s) free_list frees;
  bk_use : is_list (p_nodes s) use_list uses;
  bk_disj q : q ∈ use_list :: uses -> q ∉ free_list :: frees;
  bk_bufs e : e ∈ frees ++ uses -> exists b, p_bufs s !! pbuf_of e = Some b /\
    Z.of_nat (length (pb_bytes b)) = head_bytes;
  bk_null e : e ∈ frees ++ uses -> pbuf_of e <> NULL;
}.

Record conc_wf s ts (frees uses : list addr) : Prop := {
  cw_books : pool_books s frees uses;
  cw_mutex : total locks ts = one (p_mutex s);
  cw_account pb : account s uses pb (total (owns pb) ts) (total (refs_to pb) ts);
  cw_pcs i t : ts !! i = Some t -> pc_ok s frees (t_pc t);
}.

(** The invariant, with the entries divided otherwise. *)
Definition conc_next s ts frees uses : Prop :=
  exists frees' uses', conc_wf s ts frees' uses' /\ frees' ++ uses' ≡ₚ frees ++ uses.

(** *** One thread's step *)

Lemma pc_ok_stable s s' frees frees' p :
  pc_ok s frees p ->
  (forall pb, own_pc p = Some pb -> p_bufs s' !! pb = p_bufs s !! pb) ->
  (frees' = frees \/ holds_lock p = false) -> pc_ok s' frees' p.
Proof.
  intros [Hown Hp] Hb Hf. split.
  - intros pb E. rewrite (Hb pb E). by apply Hown.
  - destruct Hf as [->|Hf]; [done|]. by destruct p.
Qed.

Lemma account_owned s uses pb o r :
  account s uses pb o r -> (0 < o)%nat -> o = 1%nat /\ r = 0%nat /\ pb ∈ pbuf_of <$> uses.
Proof. unfold account. case_bool_decide; intros; intuition lia. Qed.

(** What a step must establish: the books, its share of the accounts, and its
    own position; the other threads keep what they had. *)
Lemma conc_wf_update s ts frees uses i t s' t' frees' uses' :
  conc_wf s ts frees uses -> ts !! i = Some t ->
  pool_books s' frees' uses' ->
  (one (p_mutex s') + locks t = one (p_mutex s) + locks t')%nat ->
  (forall pb o r, account s uses pb (o + owns pb t) (r + refs_to pb t) ->
    account s' uses' pb (o + owns pb t') (r + refs_to pb t')) ->
  pc_ok s' frees' (t_pc t') ->
  (frees' = frees \/ holds_lock (t_pc t) = true) ->
  (forall pb, owns pb t = 0%nat -> refs_to pb t = 0%nat -> p_bufs s' !! pb = p_bufs s !! pb) ->
  conc_wf s' (<[i := t']> ts) frees' uses'.
Proof.
  intros [Hbk Hmx Hacc Hpcs] Hi Hbk' Hmx' Hacc' Hpc' Hfr Hb. split; [done|..].
  - pose proof (total_insert locks ts i t t' Hi). lia.
  - intros pb. specialize (Hacc' pb (total (owns pb) ts - owns pb t)%nat (total (refs_to pb) ts - refs_to pb t)%nat).
    pose proof (total_insert (owns pb) ts i t t' Hi). pose proof (total_lookup (owns pb) ts i t Hi).
    pose proof (total_insert (refs_to pb) ts i t t' Hi). pose proof (total_lookup (refs_to pb) ts i t Hi).
    replace (total (owns pb) (<[i:=t']> ts)) with (total (owns pb) ts - owns pb t + owns pb t')%nat by lia.
    replace (total (refs_to pb) (<[i:=t']> ts)) with (total (refs_to pb) ts - refs_to pb t + refs_to pb t')%nat by lia.
    apply Hacc'. rewrite !Nat.sub_add by done. apply Hacc.
  - intros j u Hj. apply list_lookup_insert_Some in Hj as [(-> & -> & _)|[Hij Hj]]; [done|].
    eapply pc_ok_stable; [by eapply Hpcs|..].
    + intros pb Hpb. pose proof (total_others (owns pb) ts i j t u Hij Hi Hj).
      assert (owns pb u = 1%nat) as Hu. { unfold owns. by rewrite bool_decide_true. }
      destruct (account_owned _ _ _ _ _ (Hacc pb)) as (Ho & Hr & _); [lia|].
      pose proof (total_lookup (refs_to pb) ts i t Hi). apply Hb; lia.
    + destruct Hfr as [|Hl]; [by left|right].
      pose proof (total_others locks ts i j t u Hij Hi Hj) as Ho. unfold locks in *. rewrite Hl in Ho.
      destruct (holds_lock (t_pc u)); [|done]. destruct (p_mutex s); simpl in *; lia.
Qed.

(** A step that only moves the position. *)
Lemma conc_wf_goto s ts frees uses i refs p p' :
  conc_wf s ts frees uses -> ts !! i = Some (mk_thread refs p) ->
  own_pc p' = own_pc p -> ref_pc p' = ref_pc p -> holds_lock p' = holds_lock p ->
  pc_ok s frees p' ->
  conc_wf s (<[i := mk_thread refs p']> ts) frees uses.
Proof.
  intros Hw Hi Ho Hr Hl Hp. eapply conc_wf_update; [done..|apply Hw| | |done|by left|done].
  - unfold locks. simpl. by rewrite Hl.
  - intros pb o r. unfold owns, refs_to. simpl. by rewrite Ho, Hr.
Qed.

Lemma pool_books_mutex s frees uses b :
  pool_books s frees uses -> pool_books (set_mutex b s) frees uses.
Proof. by intros []; split. Qed.

(** Taking and releasing the lock. *)
Lemma conc_wf_lock s ts frees uses i refs p p' b :
  conc_wf s ts frees uses -> ts !! i = Some (mk_thread refs p) ->
  own_pc p' = own_pc p -> ref_pc p' = ref_pc p ->
  p_mutex s = holds_lock p -> holds_lock p' = b ->
  pc_ok s frees p' ->
  conc_wf (set_mutex b s) (<[i := mk_thread refs p']> ts) frees uses.
Proof.
  intros Hw Hi Ho Hr Hm <- Hp.
  eapply conc_wf_update; [done..|by apply pool_books_mutex, Hw| | |done|by left|done].
  - unfold locks. simpl. rewrite Hm. lia.
  - intros pb o r. unfold owns, refs_to. simpl. by rewrite Ho, Hr.
Qed.

Lemma holder_locked s ts frees uses i t :
  conc_wf s ts frees uses -> ts !! i = Some t -> holds_lock (t_pc t) = true -> p_mutex s = true.
Proof.
  intros [_ Hm _ _] Hi Hl. pose proof (total_lookup locks ts i t Hi) as Ht. unfold locks in Ht at 1.
  rewrite Hl in Ht. destruct (p_mutex s); simpl in *; [done|lia].
Qed.

(** *** The steps of the code *)

#[local] Instance pbuf_of_inj : Inj (=) (=) pbuf_of.
Proof. intros x y. unfold pbuf_of. lia. Qed.

Lemma elem_of_pbufs e uses : pbuf_of e ∈ pbuf_of <$> uses <-> e ∈ uses.
Proof.
  rewrite list_elem_of_fmap. split; [|by eauto]. intros (x & E & Hx).
  apply (inj pbuf_of) in E. by subst.
Qed.

Lemma pool_books_write s frees uses pb b b' :
  pool_books s frees uses -> p_bufs s !! pb = Some b -> length (pb_bytes b') = length (pb_bytes b) ->
  pool_books (set_bufs (<[pb := b']> (p_bufs s)) s) frees uses.
Proof.
  intros [] Hb Hl. split; simpl; try done. intros e He. destruct (bk_bufs0 e He) as (x & Hx & Hlx).
  destruct (decide (pb = pbuf_of e)) as [->|Hne].
  - exists b'. rewrite lookup_insert_eq, Hl. simplify_eq. done.
  - exists x. by rewrite lookup_insert_ne.
Qed.

Lemma account_write s uses pb b' q o r :
  q <> pb -> account s uses q o r -> account (set_bufs (<[pb := b']> (p_bufs s)) s) uses q o r.
Proof. intros Hne. unfold account. simpl. by rewrite lookup_insert_ne by done. Qed.

Lemma owns_self pb refs p : own_pc p = Some pb -> owns pb (mk_thread refs p) = 1%nat.
Proof. intros E. unfold owns. by rewrite bool_decide_true. Qed.
Lemma owns_other pb refs p : own_pc p <> Some pb -> owns pb (mk_thread refs p) = 0%nat.
Proof. intros E. unfold owns. by rewrite bool_decide_false. Qed.
Lemma refs_to_pc pb refs p :
  refs_to pb (mk_thread refs p) = (count_occ Z.eq_dec refs pb + one (bool_decide (ref_pc p = Some pb)))%nat.
Proof. done. Qed.

(** A thread writes to the buffer it has to itself. *)
Lemma conc_wf_write s ts frees uses i refs p p' pb b b' :
  conc_wf s ts frees uses -> ts !! i = Some (mk_thread refs p) ->
  own_pc p = Some pb -> own_pc p' = Some pb -> ref_pc p' = ref_pc p -> holds_lock p' = holds_lock p ->
  p_bufs s !! pb = Some b -> length (pb_bytes b') = length (pb_bytes b) ->
  (let s' := set_bufs (<[pb := b']> (p_bufs s)) s in
   pc_ok s' frees p' -> conc_wf s' (<[i := mk_thread refs p']> ts) frees uses).
Proof.
  intros Hw Hi Ho Ho' Hr Hl Hb Hlen s' Hp.
  eapply conc_wf_update; [done..|by eapply pool_books_write; [apply Hw|..]| | |done|by left|].
  - unfold locks. simpl. by rewrite Hl.
  - intros q o r. destruct (decide (q = pb)) as [->|Hne].
    + rewrite !(owns_self pb) by done. rewrite !refs_to_pc, Hr. intros Ha.
      destruct (account_owned _ _ _ _ _ Ha) as (? & ? & ?); [lia|].
      unfold account. rewrite bool_decide_true by done. left. lia.
    + unfold owns, refs_to. simpl. rewrite Ho, Ho', Hr. by apply account_write.
  - intros q Hq _. apply lookup_insert_ne. intros ->. by rewrite (owns_self q) in Hq.
Qed.

Lemma alloc_move_wf s ts frees uses i refs size ppe :
  conc_wf s ts frees uses -> ts !! i = Some (mk_thread refs (AllocMove size ppe)) ->
  wp (on_nodes (list_move ppe use_list)) (fun _ s' => 
    conc_next s' (<[i := mk_thread refs (AllocInit size ppe)]> ts) frees uses) s.
Proof.
  intros Hw Hi. destruct (cw_pcs _ _ _ _ Hw i _ Hi) as (_ & Hs & Hf). cbn in Hs, Hf.
  destruct frees as [|e frees]; [done|]. injection Hf as ->.
  destruct (cw_books _ _ _ _ Hw) as [Hfree Huse Hdis Hbufs Hnull]. unfold on_nodes. wp_simpl.
  eapply wp_mono; [eapply (wp_list_move _ free_list [] ppe frees use_list uses); done|].
  intros [] n (Hfree' & Huse' & _). exists frees, (ppe :: uses). split; [|by rewrite <-Permutation_middle].
  assert (ppe ∉ uses) as Hnu. { intros Hin. apply (Hdis ppe); set_solver. }
  destruct (Hbufs ppe) as (b & Hb & _); [set_solver|].
  eapply conc_wf_update; [done..| | | |split; [|done]|by right|done].
  - split; simpl; try done.
    + by apply (moved_disjoint _ _ _ _ _ _ Hfree Hdis).
    + intros x Hx. apply Hbufs. set_solver.
    + intros x Hx. apply Hnull. set_solver.
  - done.
  - intros pb o r. unfold account. destruct (decide (pb = pbuf_of ppe)) as [->|Hne].
    + rewrite (owns_self (pbuf_of ppe) _ (AllocInit size ppe)), (owns_other (pbuf_of ppe) _ (AllocMove size ppe)) by done.
      rewrite !refs_to_pc. rewrite (bool_decide_false (pbuf_of ppe ∈ _)) by (by rewrite elem_of_pbufs).
      rewrite (bool_decide_true (pbuf_of ppe ∈ _)) by (rewrite elem_of_pbufs; set_solver). simpl. intros. left. lia.
    + unfold owns, refs_to. simpl. rewrite (bool_decide_false (Some (pbuf_of ppe) = Some pb)) by congruence.
      rewrite (bool_decide_ext (pb ∈ pbuf_of ppe :: _) (pb ∈ pbuf_of <$> uses)) by set_solver. done.
  - intros pb [= <-]. by exists b.
Qed.

Lemma owned_length s ts frees uses i t pb b :
  conc_wf s ts frees uses -> ts !! i = Some t -> own_pc (t_pc t) = Some pb -> p_bufs s !! pb = Some b ->
  Z.of_nat (length (pb_bytes b)) = head_bytes /\ exists e, pb = pbuf_of e /\ e ∈ uses.
Proof.
  intros Hw Hi Ho Hb.
  destruct (account_owned s uses pb _ _ (cw_account _ _ _ _ Hw pb)) as (_ & _ & Hin).
  - pose proof (total_lookup (owns pb) ts i _ Hi) as Ht. destruct t as [refs p]. rewrite owns_self in Ht by done. lia.
  - apply list_elem_of_fmap in Hin as (e & -> & He).
    destruct (bk_bufs _ _ _ (cw_books _ _ _ _ Hw) e) as (x & Hx & ?); [set_solver|].
    simplify_eq. eauto.
Qed.

Lemma alloc_init_wf s ts frees uses i refs size ppe :
  conc_wf s ts frees uses -> ts !! i = Some (mk_thread refs (AllocInit size ppe)) ->
  wp (on_bufs (pbuf_init (pbuf_of ppe) size)) (fun _ s' =>
    conc_wf s' (<[i := mk_thread refs (AllocLen size ppe)]> ts) frees uses) s.
Proof.
  intros Hw Hi. destruct (cw_pcs _ _ _ _ Hw i _ Hi) as (Hown & Hs). cbn in Hown, Hs.
  destruct (Hown (pbuf_of ppe) eq_refl) as (b & Hb & _).
  unfold on_bufs, pbuf_init. wp_go. unfold wp at 1, atomic_set. rewrite !insert_insert_eq.
  set (b' := with_refcount 1 _).
  eapply (conc_wf_write _ _ _ _ _ _ _ _ _ b b'); try done.
  - destruct (owned_length _ _ _ _ _ _ _ _ Hw Hi eq_refl Hb) as (Hl & _).
    apply Nat2Z.inj. rewrite Hl. exact (length_cleared _ Hl).
  - split; [|done]. intros pb [= <-]. exists b'. split; [apply lookup_insert_eq|].
    unfold b', owned_ok. buf_simpl. unfold PBUF_MAX_SIZE in Hs. by rewrite u32_id by lia.
Qed.

Lemma alloc_len_wf s ts frees uses i refs size ppe :
  conc_wf s ts frees uses -> ts !! i = Some (mk_thread refs (AllocLen size ppe)) ->
  wp (on_bufs (update (pbuf_of ppe) (with_alloc_len size))) (fun _ s' =>
    conc_wf s' (<[i := mk_thread refs (AllocUnlock size (pbuf_of ppe))]> ts) frees uses) s.
Proof.
  intros Hw Hi. destruct (cw_pcs _ _ _ _ Hw i _ Hi) as (Hown & Hs). cbn in Hown, Hs.
  destruct (Hown (pbuf_of ppe) eq_refl) as (b & Hb & Hfresh).
  destruct (owned_length _ _ _ _ _ _ _ _ Hw Hi eq_refl Hb) as (Hlen & e & E & He).
  apply (inj pbuf_of) in E as <-.
  assert (pbuf_of ppe <> NULL) as Hnull by (apply (bk_null _ _ _ (cw_books _ _ _ _ Hw)); set_solver).
  assert (own_pc (AllocUnlock size (pbuf_of ppe)) = Some (pbuf_of ppe)) as Ho.
  { simpl. by rewrite (proj2 (Z.eqb_neq _ _)). }
  unfold on_bufs. wp_go. eapply (conc_wf_write _ _ _ _ _ _ _ _ _ b); try done.
  split; [|done]. rewrite Ho. intros pb [= <-]. eexists. split; [apply lookup_insert_eq|].
  unfold owned_ok, fresh_buf in *. buf_simpl. naive_solver.
Qed.

(** The reference a thread gives up: the last one leaves it the buffer. *)
Lemma free_dec_wf s ts frees uses i refs pb :
  conc_wf s ts frees uses -> ts !! i = Some (mk_thread refs (FreeDec pb)) ->
  wp (on_bufs (on_field pb pb_refcount with_refcount atomic_dec_and_test)) (fun z s' =>
    conc_wf s' (<[i := mk_thread refs (if z then FreeLock pb else Idle)]> ts) frees uses) s.
Proof.
  intros Hw Hi. pose proof (cw_account _ _ _ _ Hw pb) as Ha. unfold account in Ha.
  pose proof (total_lookup (refs_to pb) ts i _ Hi) as Ht. rewrite refs_to_pc, bool_decide_true in Ht by done.
  cbn [one] in Ht. case_bool_decide as Hin; [|lia]. destruct Ha as [|(Ho & _ & b & Hb & Hrc & Hmax)]; [lia|].
  unfold on_bufs. wp_go. rewrite wp_atomic_dec_and_test by lia.
  set (s' := set_bufs _ s). eapply conc_wf_update; [done..| | | | |by left|].
  - by eapply pool_books_write; [apply Hw|..].
  - by destruct (_ =? 1).
  - intros q o r. destruct (decide (q = pb)) as [->|Hne].
    + rewrite (owns_other pb _ (FreeDec pb)), !refs_to_pc, (bool_decide_true (ref_pc (FreeDec pb) = _)) by done.
      unfold account. rewrite bool_decide_true by done. intros [|(Ho' & Hr' & b' & Hb' & Hrc' & _)]; [cbn in *; lia|].
      assert (b' = b) as -> by congruence. cbn [one] in Hrc', Hr'.
      destruct (Z.eqb_spec (pb_refcount b) 1) as [E|E].
      * left. rewrite owns_self, bool_decide_false by done. cbn [one]. lia.
      * right. rewrite owns_other, bool_decide_false by done. cbn [one]. split_and!; [lia..|].
        eexists. split; [apply lookup_insert_eq|]. simpl. lia.
    + intros Ha. apply account_write; [done|]. revert Ha. unfold owns, refs_to. simpl.
      rewrite (bool_decide_false (Some pb = Some q)) by congruence.
      destruct (_ =? 1); simpl; [|done]. by rewrite (bool_decide_false (Some pb = Some q)) by congruence.
  - simpl. destruct (Z.eqb_spec (pb_refcount b) 1) as [E|E]; (split; [|done]).
    + intros q [= <-]. eexists. split; [apply lookup_insert_eq|]. simpl. lia.
    + done.
  - intros q _ Hq. apply lookup_insert_ne. intros ->. rewrite refs_to_pc, bool_decide_true in Hq by done. cbn in Hq. lia.
Qed.

Lemma free_move_wf s ts frees uses i refs pb :
  conc_wf s ts frees uses -> ts !! i = Some (mk_thread refs (FreeMove pb)) ->
  wp (on_nodes (list_move (get_enclosing pb offset_pbuf) free_list)) (fun _ s' => 
    conc_next s' (<[i := mk_thread refs FreeUnlock]> ts) frees uses) s.
Proof.
  intros Hw Hi. destruct (cw_pcs _ _ _ _ Hw i _ Hi) as (Hown & _). cbn in Hown.
  destruct (Hown pb eq_refl) as (b & Hb & Hrc).
  destruct (owned_length _ _ _ _ _ _ _ _ Hw Hi eq_refl Hb) as (Hlen & e & -> & He).
  unfold pbuf_of at 1. rewrite get_enclosing_member.
  apply list_elem_of_split in He as (u1 & u2 & ->).
  destruct (cw_books _ _ _ _ Hw) as [Hfree Huse Hdis Hbufs Hnull]. unfold on_nodes. wp_simpl.
  eapply wp_mono; [eapply (wp_list_move _ use_list u1 e u2 free_list frees); [done..|]|].
  { intros q Hq Hq'. by eapply Hdis. }
  intros [] n (Huse' & Hfree' & _). exists (e :: frees), (u1 ++ u2).
  split; [|cbn; by rewrite app_assoc, (Permutation_middle (frees ++ u1) u2 e), <-app_assoc].
  assert (e ∉ use_list :: u1 ++ u2) as Hnu.
  { destruct Huse as [Hnd _]. by apply (NoDup_middle (use_list :: u1)) in Hnd as [? _]. }
  eapply conc_wf_update; [done..| |done| |done|by right|done].
  - split; simpl; try done.
    + intros q Hq Hq'. destruct (decide (q = e)) as [->|]; [done|]. eapply (Hdis q); set_solver.
    + intros x Hx. apply Hbufs. set_solver.
    + intros x Hx. apply Hnull. set_solver.
  - intros q o r. unfold account. destruct (decide (q = pbuf_of e)) as [->|Hne].
    + cbn [t_pc t_refs]. rewrite (owns_self (pbuf_of e) refs (FreeMove (pbuf_of e))) by done.
      rewrite (owns_other (pbuf_of e) refs FreeUnlock) by done. rewrite !refs_to_pc.
      rewrite (bool_decide_true (pbuf_of e ∈ _)) by (rewrite elem_of_pbufs; set_solver).
      rewrite (bool_decide_false (pbuf_of e ∈ _)) by (rewrite elem_of_pbufs; set_solver). cbn. lia.
    + unfold owns, refs_to. simpl. rewrite (bool_decide_false (Some (pbuf_of e) = Some q)) by congruence.
      assert (q ∈ pbuf_of <$> u1 ++ e :: u2 <-> q ∈ pbuf_of <$> u1 ++ u2) as Hq.
      { rewrite !fmap_app, fmap_cons. set_solver. }
      by rewrite (bool_decide_ext _ _ Hq).
Qed.

Definition wants_lock p : bool := match p with AllocLock _ | FreeLock _ => true | _ => false end.

Lemma conc_next_same s ts frees uses : conc_wf s ts frees uses -> conc_next s ts frees uses.
Proof. intros. by exists frees, uses. Qed.

Lemma goto_run s frees uses ts i refs p p' :
  conc_wf s ts frees uses -> ts !! i = Some (mk_thread refs p) ->
  own_pc p' = own_pc p -> ref_pc p' = ref_pc p -> holds_lock p' = holds_lock p -> pc_ok s frees p' ->
  conc_next s (<[i := mk_thread refs p']> ts) frees uses.
Proof. intros. apply conc_next_same. by eapply conc_wf_goto. Qed.

Lemma alloc_exec_wf s ts frees uses i refs p :
  conc_wf s ts frees uses -> ts !! i = Some (mk_thread refs p) ->
  (wants_lock p = true -> p_mutex s = false) ->
  wp (alloc_exec p) (fun p' s' => 
    conc_next s' (<[i := mk_thread refs p']> ts) frees uses) s.
Proof.
  intros Hw Hi Hlk. pose proof (cw_pcs _ _ _ _ Hw i _ Hi) as Hp. pose proof Hp as [Hown Hs].
  pose proof (holder_locked _ _ _ _ _ _ Hw Hi) as Hm. cbn in Hm.
  destruct p; cbn [alloc_exec] in *; try (apply wp_ret; by eapply goto_run).
  - wp_simpl. split; [apply Z.leb_le; cbn in Hs; lia|]. by eapply goto_run.
  - wp_simpl. apply wp_mutex_lock; [by apply Hlk|]. wp_simpl. apply conc_next_same.
    eapply conc_wf_lock; [done..|by apply Hlk|done|done].
  - unfold on_nodes. wp_simpl. eapply wp_list_empty; [apply Hw|]. cbn in Hs.
    assert (set_nodes (p_nodes s) s = s) as -> by (by destruct s).
    case_bool_decide as E; eapply goto_run; done.
  - unfold on_nodes. wp_simpl. cbn in Hs. destruct Hs as [Hs Hne], frees as [|e frees]; [done|].
    eapply wp_list_front; [apply Hw|]. assert (set_nodes (p_nodes s) s = s) as -> by (by destruct s).
    by eapply goto_run.
  - wp_simpl. by eapply alloc_move_wf.
  - wp_simpl. eapply wp_mono; [by eapply alloc_init_wf|]. intros [] s' H'. apply wp_ret. by apply conc_next_same.
  - wp_simpl. eapply wp_mono; [by eapply alloc_len_wf|]. intros [] s' H'. apply wp_ret. by apply conc_next_same.
  - wp_simpl. apply wp_mutex_unlock; [by apply Hm|]. wp_simpl. apply conc_next_same.
    eapply conc_wf_lock; [done..|by apply Hm|done|done].
Qed.

Lemma free_exec_wf s ts frees uses i refs p :
  conc_wf s ts frees uses -> ts !! i = Some (mk_thread refs p) ->
  (wants_lock p = true -> p_mutex s = false) ->
  wp (free_exec p) (fun p' s' => 
    conc_next s' (<[i := mk_thread refs p']> ts) frees uses) s.
Proof.
  intros Hw Hi Hlk. pose proof (cw_pcs _ _ _ _ Hw i _ Hi) as Hp.
  pose proof (holder_locked _ _ _ _ _ _ Hw Hi) as Hm. cbn in Hm.
  destruct p; cbn [free_exec] in *; try (apply wp_ret; by eapply goto_run).
  - wp_simpl. eapply wp_mono; [by eapply free_dec_wf|]. intros z s' H'. apply wp_ret. by apply conc_next_same.
  - wp_simpl. apply wp_mutex_lock; [by apply Hlk|]. wp_simpl. apply conc_next_same.
    eapply conc_wf_lock; [done..|by apply Hlk|done|done].
  - wp_simpl. by eapply free_move_wf.
  - wp_simpl. apply wp_mutex_unlock; [by apply Hm|]. wp_simpl. apply conc_next_same.
    eapply conc_wf_lock; [done..|by apply Hm|done|done].
Qed.

(** A thread that is not waiting takes its next step, and the invariant holds after it. *)
Lemma pool_exec_wf s ts frees uses i refs p :
  conc_wf s ts frees uses -> ts !! i = Some (mk_thread refs p) ->
  (wants_lock p = true -> p_mutex s = false) ->
  wp (pool_exec p) (fun p' s' => 
    conc_next s' (<[i := mk_thread refs p']> ts) frees uses) s.
Proof.
  intros Hw Hi Hlk. unfold pool_exec. pose proof (cw_pcs _ _ _ _ Hw i _ Hi).
  destruct p; first [by eapply alloc_exec_wf | by eapply free_exec_wf | apply wp_ret; by eapply goto_run].
Qed.

(** *** The steps of the clients *)

Lemma refs_middle pb r1 r2 p q :
  refs_to q (mk_thread (r1 ++ pb :: r2) p) =
  (refs_to q (mk_thread (r1 ++ r2) p) + one (bool_decide (pb = q)))%nat.
Proof.
  unfold refs_to. simpl. rewrite !count_occ_app. simpl.
  destruct (Z.eq_dec pb q); [rewrite (bool_decide_true (pb = q)) by done|rewrite (bool_decide_false (pb = q)) by done]; cbn [one]; lia.
Qed.

Lemma refs_cons pb refs p q :
  refs_to q (mk_thread (pb :: refs) p) = (refs_to q (mk_thread refs p) + one (bool_decide (pb = q)))%nat.
Proof. apply (refs_middle pb []). Qed.

Lemma return_wf s ts frees uses i refs size pb :
  conc_wf s ts frees uses -> ts !! i = Some (mk_thread refs (AllocReturn size pb)) ->
  conc_wf s (<[i := mk_thread (if pb =? NULL then refs else pb :: refs) Idle]> ts) frees uses.
Proof.
  intros Hw Hi. pose proof (cw_pcs _ _ _ _ Hw i _ Hi) as [Hown _]. cbn in Hown.
  destruct (Z.eqb_spec pb NULL) as [->|Hne].
  - eapply conc_wf_goto; done.
  - destruct (Hown pb eq_refl) as (b & Hb & Hfresh).
    assert (own_pc (AllocReturn size pb) = Some pb) as Ho by (simpl; by rewrite (proj2 (Z.eqb_neq _ _))).
    eapply conc_wf_update; [done..|apply Hw|done| |done|by left|done].
    intros q o r. rewrite refs_cons. unfold owns. cbn [t_pc]. rewrite Ho.
    rewrite (bool_decide_false (own_pc Idle = _)) by done.
    destruct (decide (q = pb)) as [->|Hq]; cycle 1.
    { rewrite !bool_decide_false by congruence. cbn [one]. rewrite !Nat.add_0_r. done. }
    rewrite !(bool_decide_true (_ = _)) by done. cbn [one]. unfold account.
    case_bool_decide; [|lia]. intros [[Ho1 Hr1]|]; [|lia]. right. split_and!; [lia..|].
    exists b. destruct Hfresh as (Hrc & _). rewrite Hrc. split_and!; [done|unfold refs_to in *; cbn in *; lia|lia].
Qed.

Lemma refs_pos pb refs p : pb ∈ refs -> (0 < refs_to pb (mk_thread refs p))%nat.
Proof.
  intros Hin. apply list_elem_of_In, (count_occ_In Z.eq_dec) in Hin. unfold refs_to. simpl. lia.
Qed.

Lemma refs_in_use s ts frees uses i refs p pb :
  conc_wf s ts frees uses -> ts !! i = Some (mk_thread refs p) -> pb ∈ refs ->
  pb ∈ pbuf_of <$> uses /\ total (owns pb) ts = 0%nat /\
  exists b, p_bufs s !! pb = Some b /\ pb_refcount b = Z.of_nat (total (refs_to pb) ts).
Proof.
  intros Hw Hi Hin. pose proof (cw_account _ _ _ _ Hw pb) as Ha. unfold account in Ha.
  pose proof (total_lookup (refs_to pb) ts i _ Hi) as Ht. pose proof (refs_pos pb refs p Hin).
  case_bool_decide; [|lia]. destruct Ha as [|(? & _ & b & ? & ? & _)]; [lia|]. eauto 6.
Qed.

Lemma hold_wf s ts frees uses i refs pb b :
  conc_wf s ts frees uses -> ts !! i = Some (mk_thread refs Idle) ->
  pb ∈ refs -> p_bufs s !! pb = Some b -> pb_refcount b < 2 ^ 31 - 1 ->
  wp (on_bufs (pbuf_hold pb)) (fun _ s' =>
    conc_wf s' (<[i := mk_thread (pb :: refs) Idle]> ts) frees uses) s.
Proof.
  intros Hw Hi Hin Hb Hmax. destruct (refs_in_use _ _ _ _ _ _ _ _ Hw Hi Hin) as (Hu & Ho & b' & Hb' & Hrc).
  assert (b' = b) as -> by congruence. unfold on_bufs, pbuf_hold. wp_go. rewrite wp_atomic_inc by lia. cbn beta.
  rewrite wp_ret.
  eapply conc_wf_update; [done..|by eapply pool_books_write; [apply Hw|..]|done| |done|by left|].
  - intros q o r. rewrite refs_cons, !owns_other by done. destruct (decide (q = pb)) as [->|Hne]; cycle 1.
    { rewrite (bool_decide_false (pb = q)) by congruence. cbn [one]. rewrite !Nat.add_0_r. by apply account_write. }
    rewrite (bool_decide_true (pb = pb)) by done. unfold account. rewrite bool_decide_true by done.
    intros [|(? & ? & b' & ? & ? & ?)].
    { pose proof (refs_pos pb refs Idle Hin). lia. }
    right. assert (b' = b) as -> by congruence. split_and!; [lia..|].
    eexists. split; [apply lookup_insert_eq|]. simpl. lia.
  - intros q _ Hq. apply lookup_insert_ne. intros ->.
    pose proof (refs_pos q refs Idle Hin). lia.
Qed.

Lemma free_call_wf s ts frees uses i r1 pb r2 :
  conc_wf s ts frees uses -> ts !! i = Some (mk_thread (r1 ++ pb :: r2) Idle) ->
  conc_wf s (<[i := mk_thread (r1 ++ r2) (FreeDec pb)]> ts) frees uses.
Proof.
  intros Hw Hi. eapply conc_wf_update; [done..|apply Hw|done| |done|by left|done].
  intros q o r. rewrite refs_middle. unfold owns, refs_to. simpl.
  rewrite (bool_decide_ext (Some pb = Some q) (pb = q)) by (split; [by intros [=]|by intros ->]).
  by rewrite !Nat.add_0_r.
Qed.

Lemma client_write_wf s ts frees uses i refs pb b b' :
  conc_wf s ts frees uses -> ts !! i = Some (mk_thread refs Idle) ->
  pb ∈ refs -> p_bufs s !! pb = Some b ->
  pb_refcount b' = pb_refcount b -> length (pb_bytes b') = length (pb_bytes b) ->
  conc_wf (set_bufs (<[pb := b']> (p_bufs s)) s) (<[i := mk_thread refs Idle]> ts) frees uses.
Proof.
  intros Hw Hi Hin Hb Hrc Hlen.
  eapply conc_wf_update; [done..|by eapply pool_books_write; [apply Hw|..]|done| |done|by left|].
  - intros q o r. destruct (decide (q = pb)) as [->|Hne]; [|by apply account_write].
    unfold account. case_bool_decide; [|done]. intros [|(? & ? & x & ? & ? & ?)]; [by left|right].
    simplify_eq. split_and!; [done..|]. exists b'. rewrite Hrc. split_and!; [apply lookup_insert_eq|done..].
  - intros q _ Hq. apply lookup_insert_ne. intros ->. pose proof (refs_pos q refs Idle Hin). lia.
Qed.

Lemma give_wf s ts frees uses i j t u t' u' :
  conc_wf s ts frees uses -> i <> j -> ts !! i = Some t -> ts !! j = Some u -> give t u t' u' ->
  conc_wf s (<[j := u']> (<[i := t']> ts)) frees uses.
Proof.
  intros [Hbk Hmx Hacc Hpcs] Hij Hi Hj Hg. destruct Hg as [r1 pb r2 p refs q].
  assert (<[i := mk_thread (r1 ++ r2) p]> ts !! j = Some (mk_thread refs q)) as Hj'.
  { by rewrite list_lookup_insert_ne. }
  assert (forall f, total f (<[j := mk_thread (pb :: refs) q]> (<[i := mk_thread (r1 ++ r2) p]> ts)) +
      f (mk_thread refs q) + f (mk_thread (r1 ++ pb :: r2) p) =
    total f ts + f (mk_thread (pb :: refs) q) + f (mk_thread (r1 ++ r2) p))%nat as Htot.
  { intros f. pose proof (total_insert f _ _ _ (mk_thread (r1 ++ r2) p) Hi).
    pose proof (total_insert f _ _ _ (mk_thread (pb :: refs) q) Hj'). lia. }
  split; [done|..].
  - rewrite <-Hmx. specialize (Htot locks). unfold locks in *. cbn [t_pc] in Htot. lia.
  - intros x. pose proof (Htot (owns x)) as Ho. pose proof (Htot (refs_to x)) as Hr.
    rewrite refs_middle, refs_cons in Hr. unfold owns in Ho at 2 3 5 6. cbn [t_pc] in Ho.
    replace (total (owns x) _) with (total (owns x) ts) by lia.
    replace (total (refs_to x) _) with (total (refs_to x) ts) by lia. apply Hacc.
  - intros k t Hk. apply list_lookup_insert_Some in Hk as [(<- & <- & _)|[_ Hk]].
    { exact (Hpcs _ _ Hj). }
    apply list_lookup_insert_Some in Hk as [(<- & <- & _)|[_ Hk]]; [exact (Hpcs _ _ Hi)|by eapply Hpcs].
Qed.

(** *** All runs *)

Lemma pool_step_wf s ts frees uses i t s' t' :
  conc_wf s ts frees uses -> ts !! i = Some t -> pool_step s t s' t' ->
  conc_next s' (<[i := t']> ts) frees uses.
Proof.
  intros Hw Hi Hst. destruct Hst as [s refs p s' p' Hc Hx| |s refs size Hs| |s refs pb b s' Hin Hb Hmax Hx|].
  - assert (wants_lock p = true -> p_mutex s = false) as Hlk.
    { intros Hp. destruct p; try done; revert Hx; cbn; unfold mbind, M_bind, mutex_lock; by destruct (p_mutex s). }
    pose proof (pool_exec_wf _ _ _ _ _ _ _ Hw Hi Hlk) as Hn. unfold wp in Hn. by rewrite Hx in Hn.
  - apply conc_next_same. by eapply return_wf.
  - eapply goto_run; done.
  - apply conc_next_same. by apply free_call_wf.
  - pose proof (hold_wf _ _ _ _ _ _ _ _ Hw Hi Hin Hb Hmax) as Hn. unfold wp in Hn. rewrite Hx in Hn.
    by apply conc_next_same.
  - apply conc_next_same. by eapply client_write_wf.
Qed.

Lemma reachable_wf c c' frees uses :
  conc_wf (shared c) (threads c) frees uses -> reachable pool_step give c c' ->
  conc_next (shared c') (threads c') frees uses.
Proof.
  intros Hw. apply (reachable_invariant _ _ (fun d => conc_next (shared d) (threads d) frees uses)).
  { by apply conc_next_same. }
  intros d d' (f & u & Hd & Hp) Hst. destruct Hst as [s ts i t s' t' Hi Hst|s ts i j t u' t' u'' Hij Hi Hj Hg].
  - destruct (pool_step_wf _ _ _ _ _ _ _ _ Hd Hi Hst) as (f' & u' & Hd' & Hp').
    exists f', u'. split; [done|]. by rewrite Hp'.
  - exists f, u. split; [|done]. by eapply give_wf.
Qed.

(** *** Between calls *)
Definition quiet ts : Prop := forall t, t ∈ ts -> t_pc t = Idle.

(** The counts of the buffers in use are the references the threads have. *)
Definition counted s ts uses : Prop := forall pb,
  if bool_decide (pb ∈ pbuf_of <$> uses) then
    exists b, p_bufs s !! pb = Some b /\ pb_refcount b = Z.of_nat (total (refs_to pb) ts) /\
      1 <= pb_refcount b < 2 ^ 31
  else total (refs_to pb) ts = 0%nat.

Lemma quiet_wf s ts frees uses :
  quiet ts -> conc_wf s ts frees uses <-> pool_wf s frees uses /\ counted s ts uses.
Proof.
  intros Hq.
  assert (forall pb, total (owns pb) ts = 0%nat) as Hown.
  { intros pb. apply total_zero. intros [refs p] Ht. apply Hq in Ht as E. simpl in E. subst. by apply owns_other. }
  assert (total locks ts = 0%nat) as Hlk.
  { apply total_zero. intros [refs p] Ht. apply Hq in Ht as E. simpl in E. by subst. }
  split.
  - intros [[] Hm Ha _]. split.
    + split; try done. rewrite Hlk in Hm. by destruct (p_mutex s).
    + intros pb. specialize (Ha pb). unfold account in Ha. rewrite Hown in Ha. case_bool_decide; [|by destruct Ha].
      destruct Ha as [[? _]|(_ & ? & b & ? & ? & ?)]; [done|]. exists b. split_and!; [done..|lia|lia].
  - intros [[] Hc]. split.
    + by split.
    + rewrite Hlk. by rewrite pw_mutex.
    + intros pb. specialize (Hc pb). unfold account. rewrite Hown. case_bool_decide; [|done].
      destruct Hc as (b & ? & ? & ?). right. split_and!; [done|lia|]. exists b. split_and!; [done..|lia].
    + intros i [refs p] Hi. apply list_elem_of_lookup_2, Hq in Hi. simpl in Hi. by subst.
Qed.

(** C8: Whatever the interleaving of the threads, starting between calls with the
    references counted: no piece of [pbuf_alloc] or [pbuf_free] faults or fails an
    assertion, and one that does not run waits for the lock; at most one thread
    is in the critical section; the buffer [pbuf_alloc] is about to return is
    fresh and nobody has a reference to it; and whenever all threads are between
    calls again, the lists divide the same entries, the lock is free and every
    count is the number of references the threads have. *)
Theorem pool_threads_safe (c c' : config (pool A) thread) frees uses :
  pool_wf (shared c) frees uses -> counted (shared c) (threads c) uses -> quiet (threads c) ->
  reachable pool_step give c c' ->
  (forall i refs p, threads c' !! i = Some (mk_thread refs p) ->
    match pool_exec p (shared c') with
    | Ok _ => True
    | OutOfFuel => wants_lock p = true /\ p_mutex (shared c') = true
    | Fault | Aborted => False
    end) /\
  (forall i j t u, i <> j -> threads c' !! i = Some t -> threads c' !! j = Some u ->
    holds_lock (t_pc t) && holds_lock (t_pc u) = false) /\
  (forall i refs size pb, threads c' !! i = Some (mk_thread refs (AllocReturn size pb)) -> pb <> NULL ->
    total (refs_to pb) (threads c') = 0%nat /\
    exists b, p_bufs (shared c') !! pb = Some b /\ fresh_buf size b) /\
  (quiet (threads c') -> exists frees' uses',
    pool_wf (shared c') frees' uses' /\ counted (shared c') (threads c') uses' /\
    frees' ++ uses' ≡ₚ frees ++ uses).
Proof.
  intros Hp Hc Hq Hr. assert (conc_wf (shared c) (threads c) frees uses) as Hw by (by apply quiet_wf).
  destruct (reachable_wf _ _ _ _ Hw Hr) as (f & u & Hw' & Hperm). split_and!.
  - intros i refs p Hi. destruct (wants_lock p && p_mutex (shared c')) eqn:E.
    + apply andb_true_iff in E as [E1 E2]. destruct p; try done;
        cbn; unfold mbind, M_bind, mutex_lock; by rewrite E2.
    + pose proof (pool_exec_wf _ _ _ _ _ _ _ Hw' Hi) as Hx. unfold wp in Hx.
      destruct (pool_exec p (shared c')) as [[]| | |]; [done|..];
        destruct Hx; intros Ep; by rewrite Ep in E.
  - intros i j t v Hij Hi Hj. pose proof (total_others locks _ i j t v Hij Hi Hj) as Ht.
    pose proof (cw_mutex _ _ _ _ Hw') as Hm. unfold locks in Ht at 1 2.
    destruct (holds_lock (t_pc t)), (holds_lock (t_pc v)), (p_mutex (shared c')); simpl in *; try done; lia.
  - intros i refs size pb Hi Hne. destruct (cw_pcs _ _ _ _ Hw' i _ Hi) as [Hown _]. cbn in Hown.
    rewrite (proj2 (Z.eqb_neq _ _) Hne) in Hown. split; [|by apply Hown].
    destruct (account_owned _ _ _ _ _ (cw_account _ _ _ _ Hw' pb)) as (_ & Hz & _); [|done].
    pose proof (total_lookup (owns pb) _ _ _ Hi) as Ht. rewrite owns_self in Ht; [lia|].
    simpl. by rewrite (proj2 (Z.eqb_neq _ _) Hne).
  - intros Hq'. exists f, u. by apply (quiet_wf _ _ f u Hq') in Hw' as [? ?].
Qed.

(** *** Data races

    What a piece reads or writes beside the mutex: the links of the two lists,
    a buffer it writes to, or a count it changes atomically. *)
Definition touches_lists p : bool :=
  match p with AllocTest _ | AllocFront _ | AllocMove _ _ | FreeMove _ => true | _ => false end.
Definition writes_buf p : option addr :=
  match p with AllocInit _ ppe | AllocLen _ ppe => Some (pbuf_of ppe) | _ => None end.

Lemma on_nodes_bufs {X} (m : M lmem X) s a s' : on_nodes m s = Ok (a, s') -> p_bufs s' = p_bufs s.
Proof. unfold on_nodes, zoom. destruct (m _) as [[]| | |]; by intros [= <- <-]. Qed.
Lemma on_bufs_nodes {X} (m : M bmem X) s a s' : on_bufs m s = Ok (a, s') -> p_nodes s' = p_nodes s.
Proof. unfold on_bufs, zoom. destruct (m _) as [[]| | |]; by intros [= <- <-]. Qed.
Lemma update_bufs pb f s a s' q :
  on_bufs (update pb f) s = Ok (a, s') -> q <> pb -> p_bufs s' !! q = p_bufs s !! q.
Proof.
  unfold on_bufs, zoom, update. intros Hx Hq. destruct (p_bufs s !! pb); [|done].
  injection Hx as <- <-. simpl. by apply lookup_insert_ne.
Qed.

Lemma pool_exec_nodes p s p' s' :
  pool_exec p s = Ok (p', s') -> touches_lists p = false -> p_nodes s' = p_nodes s.
Proof.
  intros Hx Ht. destruct p; try done; cbn [pool_exec alloc_exec free_exec] in Hx;
    try (by injection Hx as <- <-);
    apply run_bind_inv in Hx as (a & s1 & Hx & [= <- <-]).
  all: try (by apply on_bufs_nodes in Hx).
  - revert Hx. unfold assert_c. destruct (_ <=? _); by intros [= <- <-].
  - revert Hx. unfold mutex_lock. destruct (p_mutex s); by intros [= <- <-].
  - revert Hx. unfold mutex_unlock. destruct (p_mutex s); by intros [= <- <-].
  - revert Hx. unfold mutex_lock. destruct (p_mutex s); by intros [= <- <-].
  - revert Hx. unfold mutex_unlock. destruct (p_mutex s); by intros [= <- <-].
Qed.

Lemma pool_exec_bufs p s p' s' pb :
  pool_exec p s = Ok (p', s') -> writes_buf p <> Some pb ->
  p_bufs s' !! pb = p_bufs s !! pb \/
  (ref_pc p = Some pb /\ exists b, p_bufs s !! pb = Some b /\
    p_bufs s' !! pb = Some (with_refcount (i32 (pb_refcount b - 1)) b)).
Proof.
  intros Hx Hw. destruct p; cbn [pool_exec alloc_exec free_exec] in Hx;
    try (injection Hx as <- <-; by left);
    apply run_bind_inv in Hx as (a & s1 & Hx & [= <- <-]).
  all: try (apply on_nodes_bufs in Hx; rewrite Hx; by left).
  - revert Hx. unfold assert_c. destruct (_ <=? _); intros [= <- <-]; by left.
  - revert Hx. unfold mutex_lock. destruct (p_mutex s); intros [= <- <-]; by left.
  - left. assert (pb <> pbuf_of ppe) as Hne by (intros ->; by apply Hw).
    revert Hx. unfold on_bufs, zoom, pbuf_init. intros Hx.
    destruct (p_bufs s !! pbuf_of ppe) as [b|] eqn:E; cycle 1.
    { revert Hx. unfold mbind, M_bind, update. by rewrite E. }
    revert Hx. unfold mbind, M_bind, update, on_field, atomic_set. rewrite E, !lookup_insert_eq.
    intros [= <- <-]. simpl. by rewrite !lookup_insert_ne by done.
  - left. eapply update_bufs; [exact Hx|]. intros ->. by apply Hw.
  - revert Hx. unfold mutex_unlock. destruct (p_mutex s); intros [= <- <-]; by left.
  - revert Hx. unfold on_bufs, zoom, on_field, atomic_dec_and_test, atomic_dec, mbind, M_bind.
    destruct (p_bufs s !! pb0) as [b|] eqn:E; [|done]. intros [= <- <-]. simpl.
    destruct (decide (pb = pb0)) as [->|Hne].
    + right. split; [done|]. exists b. by rewrite lookup_insert_eq.
    + left. by rewrite lookup_insert_ne.
  - revert Hx. unfold mutex_lock. destruct (p_mutex s); intros [= <- <-]; by left.
  - revert Hx. unfold mutex_unlock. destruct (p_mutex s); intros [= <- <-]; by left.
Qed.

(** C36: There is no data race: a piece of the code changes the links only where it
    touches the lists, and of the buffers only the one it writes to, or the
    count it decrements atomically; and in every reachable state no two threads
    are at pieces that touch the lists, and a buffer that one is about to write
    to is not the target of another thread, nor does any thread have a
    reference to it. So the pieces are fine enough: no access of another thread
    can come inside of one. *)
Theorem pool_threads_race_free (c c' : config (pool A) thread) frees uses :
  pool_wf (shared c) frees uses -> counted (shared c) (threads c) uses -> quiet (threads c) ->
  reachable pool_step give c c' ->
  (forall p s p' s', pool_exec p s = Ok (p', s') ->
    (touches_lists p = false -> p_nodes s' = p_nodes s) /\
    forall pb, writes_buf p <> Some pb -> p_bufs s' !! pb = p_bufs s !! pb \/
      (ref_pc p = Some pb /\ exists b, p_bufs s !! pb = Some b /\
        p_bufs s' !! pb = Some (with_refcount (i32 (pb_refcount b - 1)) b))) /\
  (forall i j t u, i <> j -> threads c' !! i = Some t -> threads c' !! j = Some u ->
    touches_lists (t_pc t) && touches_lists (t_pc u) = false /\
    forall pb, writes_buf (t_pc t) = Some pb ->
      writes_buf (t_pc u) <> Some pb /\ total (refs_to pb) (threads c') = 0%nat).
Proof.
  intros Hp Hc Hq Hr. split.
  { intros p s p' s' Hx. split; [by eapply pool_exec_nodes|]. intros pb. by eapply pool_exec_bufs. }
  assert (conc_wf (shared c) (threads c) frees uses) as Hw by (by apply quiet_wf).
  destruct (reachable_wf _ _ _ _ Hw Hr) as (f & v & Hw' & _).
  intros i j t u Hij Hi Hj. split.
  - pose proof (total_others locks _ i j t u Hij Hi Hj) as Ht.
    pose proof (cw_mutex _ _ _ _ Hw') as Hm. destruct t as [r p], u as [r' q]. cbn.
    unfold locks in Ht at 1 2. cbn in Ht.
    destruct p; try done; destruct q; try done; cbn in Ht; destruct (p_mutex (shared c')); cbn in Hm; lia.
  - intros pb Hpb. destruct t as [r p], u as [r' q]. cbn in *.
    pose proof (total_others (owns pb) _ i j _ _ Hij Hi Hj) as Ht.
    assert (own_pc p = Some pb) as Ho by (by destruct p). rewrite (owns_self pb r p) in Ht by done.
    destruct (account_owned _ _ _ _ _ (cw_account _ _ _ _ Hw' pb)) as (Ho1 & Hr0 & _); [lia|].
    split; [|done]. intros Hq'. rewrite (owns_self pb r' q) in Ht by (by destruct q). lia.
Qed.

(** *** Every call returns *)

(** How far a thread is from the end of its call. *)
Definition rank p : nat :=
  match p with
  | Idle => 0
  | AllocEnter _ => 9 | AllocLock _ => 8 | AllocTest _ => 7 | AllocFront _ => 6 | AllocMove _ _ => 5
  | AllocInit _ _ => 4 | AllocLen _ _ => 3 | AllocUnlock _ _ => 2 | AllocReturn _ _ => 1
  | FreeDec _ => 4 | FreeLock _ => 3 | FreeMove _ => 2 | FreeUnlock => 1
  end.

(** A step of a thread that is in a call. *)
Definition goes_on s t s' t' : Prop := t_pc t <> Idle /\ pool_step s t s' t'.
Definition in_calls : config (pool A) thread -> config (pool A) thread -> Prop :=
  conc_step goes_on (fun _ _ _ _ => False).

Lemma pool_exec_rank p s p' s' :
  pool_exec p s = Ok (p', s') -> in_call p = true ->
  (rank p' < rank p)%nat.
Proof.
  intros Hx Hc. destruct p; try done; cbn [pool_exec alloc_exec free_exec] in Hx;
    try (apply run_bind_inv in Hx as (a & s1 & Hx & [= <- <-])).
  all: try (cbn; lia).
  - destruct a; cbn; lia.
  - destruct a; cbn; lia.
Qed.

Lemma goes_on_rank s t s' t' : goes_on s t s' t' -> (rank (t_pc t') < rank (t_pc t))%nat.
Proof.
  intros [Hni Hst]. destruct Hst; try done; cbn in *.
  - by eapply pool_exec_rank.
  - lia.
Qed.

Definition total_rank ts : nat := total (fun t => rank (t_pc t)) ts.

Lemma in_calls_rank c c' : in_calls c c' -> (total_rank (threads c') < total_rank (threads c))%nat.
Proof.
  intros Hst. destruct Hst as [s ts i t s' t' Hi Hg|]; [|done]. cbn [threads]. unfold total_rank.
  pose proof (total_insert (fun t => rank (t_pc t)) ts i t t' Hi). apply goes_on_rank in Hg. lia.
Qed.

Lemma in_calls_reachable c c' : in_calls c c' -> conc_step pool_step give c c'.
Proof. intros Hst. destruct Hst as [s ts i t s' t' Hi [_ Hg]|]; [by eapply by_thread|done]. Qed.

(** A thread in a call that does not wait goes on. *)
Lemma thread_goes_on s ts frees uses i t :
  conc_wf s ts frees uses -> ts !! i = Some t -> t_pc t <> Idle ->
  (wants_lock (t_pc t) = true -> p_mutex s = false) ->
  exists c', in_calls (mk_config s ts) c'.
Proof.
  intros Hw Hi Hne Hlk. destruct t as [refs p]. cbn in *.
  destruct (in_call p) eqn:Hc; cycle 1.
  - destruct p; try done. eexists. eapply by_thread; [done|]. split; [done|]. apply step_return.
  - pose proof (pool_exec_wf _ _ _ _ _ _ _ Hw Hi Hlk) as (p' & s' & Hx & _)%wp_run.
    eexists. eapply by_thread; [done|]. split; [done|]. by eapply step_code.
Qed.

Lemma total_rank_quiet ts : total_rank ts = 0%nat -> quiet ts.
Proof.
  intros Hz [refs p] Ht. apply list_elem_of_lookup in Ht as [i Hi].
  pose proof (total_lookup (fun t => rank (t_pc t)) ts i _ Hi) as Hr. unfold total_rank in Hz.
  cbn in *. destruct p; cbn in Hr; try done; lia.
Qed.

(** No deadlock: while a thread is in a call, one of them goes on. *)
Lemma calls_go_on s ts frees uses :
  conc_wf s ts frees uses -> (0 < total_rank ts)%nat -> exists c', in_calls (mk_config s ts) c'.
Proof.
  intros Hw Hpos. destruct (p_mutex s) eqn:Em.
  - assert (0 < total locks ts)%nat as Hl by (rewrite (cw_mutex _ _ _ _ Hw), Em; cbn; lia).
    apply total_pos in Hl as (i & t & Hi & Ht). unfold locks in Ht.
    eapply thread_goes_on; [done|exact Hi|..]; destruct (t_pc t); cbn in *; (done || lia).
  - apply total_pos in Hpos as (i & t & Hi & Ht).
    eapply thread_goes_on; [done|exact Hi|..]; [|done]. intros E. rewrite E in Ht. cbn in Ht. lia.
Qed.

Lemma in_calls_run c c' : rtc in_calls c c' -> reachable pool_step give c c'.
Proof. induction 1; [apply rtc_refl|]. eapply rtc_l; [by apply in_calls_reachable|done]. Qed.

Lemma in_calls_length n c c' :
  nsteps in_calls n c c' -> (n + total_rank (threads c') <= total_rank (threads c))%nat.
Proof. induction 1 as [|n x y z Hxy _ IH]; [lia|]. apply in_calls_rank in Hxy. lia. Qed.

Lemma calls_end n c frees uses :
  (total_rank (threads c) <= n)%nat -> conc_wf (shared c) (threads c) frees uses ->
  exists c', rtc in_calls c c' /\ quiet (threads c').
Proof.
  revert c frees uses. induction n as [|n IH]; intros c frees uses Hn Hw.
  { exists c. split; [apply rtc_refl|]. apply total_rank_quiet. lia. }
  destruct (decide (total_rank (threads c) = 0%nat)) as [E|E].
  { exists c. split; [apply rtc_refl|]. by apply total_rank_quiet. }
  destruct (calls_go_on _ _ _ _ Hw) as [d Hd]; [lia|]. destruct c as [s ts].
  destruct (reachable_wf _ d _ _ Hw) as (f & u & Hw' & _).
  { apply rtc_once. by apply in_calls_reachable. }
  apply in_calls_rank in Hd as Hr. cbn [threads] in Hn, Hr.
  destruct (IH d f u) as (c' & Hc' & Hq); [lia|done|]. exists c'. split; [by eapply rtc_l|done].
Qed.

(** C11: Every call returns. From any reachable state, while no thread starts another
    call, the threads make at most as many steps as the pieces that are left of
    their calls, nine at most for each; as long as a thread is in a call some
    thread in a call can go on, so that whatever the scheduler does it ends
    with every thread between calls. No schedule deadlocks and none runs on. *)
Theorem pool_calls_return (c c1 : config (pool A) thread) frees uses :
  pool_wf (shared c) frees uses -> counted (shared c) (threads c) uses -> quiet (threads c) ->
  reachable pool_step give c c1 ->
  (total_rank (threads c1) <= 9 * length (threads c1))%nat /\
  (forall n c2, nsteps in_calls n c1 c2 -> (n <= total_rank (threads c1))%nat) /\
  (forall c2, rtc in_calls c1 c2 -> quiet (threads c2) \/ exists c3, in_calls c2 c3) /\
  exists c2, rtc in_calls c1 c2 /\ quiet (threads c2).
Proof.
  intros Hp Hc Hq Hr. assert (conc_wf (shared c) (threads c) frees uses) as Hw by (by apply quiet_wf).
  destruct (reachable_wf _ _ _ _ Hw Hr) as (f & u & Hw1 & _). split_and!.
  - apply total_bound. intros t. by destruct (t_pc t); cbn; lia.
  - intros n c2 Hn. apply in_calls_length in Hn. lia.
  - intros c2 Hc2. destruct (decide (total_rank (threads c2) = 0%nat)) as [E|E].
    + left. by apply total_rank_quiet.
    + right. destruct (reachable_wf _ c2 _ _ Hw1) as (f2 & u2 & Hw2 & _); [by apply in_calls_run|].
      destruct c2 as [s2 ts2]. cbn [threads shared] in *. eapply calls_go_on; [done|lia].
  - by eapply calls_end.
Qed.
End PoolThreads.

(** ** Schedules

    An executable scheduler: each entry is a thread and what it does. *)
Section Schedules.
Context {A : Type}.
Inductive choice := GoOn | CallAlloc (size : Z) | CallFree (k : nat).

Definition thread_run (ch : choice) (s : pool A) (t : thread) : option (pool A * thread) :=
  match t_pc t, ch with
  | Idle, CallAlloc size =>
      if bool_decide (0 <= size <= PBUF_MAX_SIZE) then Some (s, mk_thread (t_refs t) (AllocEnter size)) else None
  | Idle, CallFree k =>
      pb ← t_refs t !! k; Some (s, mk_thread (delete k (t_refs t)) (FreeDec pb))
  | AllocReturn _ pb, GoOn => Some (s, mk_thread (if pb =? NULL then t_refs t else pb :: t_refs t) Idle)
  | p, GoOn =>
      if in_call p then
        match pool_exec p s with Ok (p', s') => Some (s', mk_thread (t_refs t) p') | _ => None end
      else None
  | _, _ => None
  end.

Definition schedule_step (c : config (pool A) thread) (x : nat * choice) : option (config (pool A) thread) :=
  t ← threads c !! x.1;
  r ← thread_run x.2 (shared c) t;
  Some (mk_config r.1 (<[x.1 := r.2]> (threads c))).

Fixpoint run_schedule (xs : list (nat * choice)) (c : config (pool A) thread) : option (config (pool A) thread) :=
  match xs with
  | [] => Some c
  | x :: xs => c ← schedule_step c x; run_schedule xs c
  end.

Lemma thread_run_step ch s t s' t' : thread_run ch s t = Some (s', t') -> pool_step s t s' t'.
Proof.
  destruct t as [refs p]. unfold thread_run. cbn [t_refs t_pc]. intros Hx.
  assert (ch = GoOn -> in_call p = true -> pool_step s (mk_thread refs p) s' t') as Hcode.
  { intros -> Hc. assert (match pool_exec p s with Ok (p', s1) => Some (s1, mk_thread refs p') | _ => None end
      = Some (s', t')) as Hy by (by destruct p).
    destruct (pool_exec p s) as [[p' s1]| | |] eqn:E; [|done..]. injection Hy as <- <-. by apply step_code. }
  destruct p, ch; try done; try (by apply Hcode).
  - case_bool_decide; [|done]. injection Hx as <- <-. by apply call_alloc.
  - destruct (refs !! k) as [pb|] eqn:E; [|done]. injection Hx as <- <-.
    rewrite delete_take_drop. rewrite <-(take_drop_middle refs k pb E) at 1. apply call_free.
  - injection Hx as <- <-. apply step_return.
Qed.

Lemma run_schedule_reachable xs c c' : run_schedule xs c = Some c' -> reachable pool_step give c c'.
Proof.
  revert c. induction xs as [|[i ch] xs IH]; intros c; cbn [run_schedule]; [intros [= <-]; apply rtc_refl|].
  unfold schedule_step. cbn [fst snd].
  destruct (threads c !! i) as [t|] eqn:Hi; [|done]. cbn [mbind option_bind].
  destruct (thread_run ch (shared c) t) as [[s' t']|] eqn:Ht; [|done]. cbn [mbind option_bind fst snd].
  intros Hx. eapply rtc_l; [|by apply IH]. destruct c as [s ts]. eapply by_thread; [done|]. by eapply thread_run_step.
Qed.
End Schedules.

(** ** Witnesses *)

(** Two threads; the first has the one reference to the buffer in use. *)
Definition demo_threads : config (pool arena) thread :=
  mk_config demo_pool [mk_thread [1016] Idle; mk_thread [] Idle].

(** The second thread takes the lock between the decrement and the lock of the
    first one's [pbuf_free]. *)
Definition demo_interleaving : list (nat * choice) :=
  [(0%nat, CallFree 0); (1%nat, CallAlloc 100); (0%nat, GoOn)] ++ replicate 5 (1%nat, GoOn).

Lemma demo_counted : counted (shared demo_threads) (threads demo_threads) [1000].
Proof.
  intros pb. case_bool_decide as Hin.
  - apply list_elem_of_In in Hin. cbn in Hin. destruct Hin as [<-|[]].
    exists demo_buf. by split_and!.
  - assert (pb <> 1016) as Hne by (intros ->; apply Hin, list_elem_of_In; by left).
    apply total_zero. intros t Ht. apply list_elem_of_In in Ht. cbn [threads demo_threads In] in Ht.
    destruct Ht as [<-|[<-|[]]]; unfold refs_to; cbn [t_refs t_pc]; [|done].
    rewrite count_occ_cons_neq by congruence. done.
Qed.

Lemma demo_quiet : quiet (threads demo_threads).
Proof. intros t Ht. apply list_elem_of_In in Ht. cbn in Ht. by destruct Ht as [<-|[<-|[]]]. Qed.

Lemma pool_threads_safe_witness : exists c',
  run_schedule demo_interleaving demo_threads = Some c' /\
  match pool_exec (FreeLock 1016) (shared c') with
  | OutOfFuel => p_mutex (shared c') = true | Fault | Aborted => False | Ok _ => True end.
Proof.
  destruct (run_schedule demo_interleaving demo_threads) as [c'|] eqn:E; [|vm_compute in E; discriminate].
  destruct (pool_threads_safe demo_threads c' [5192; 9384] [1000]) as (Hsafe & _).
  - exact demo_pool_wf.
  - exact demo_counted.
  - exact demo_quiet.
  - by eapply run_schedule_reachable.
  - exists c'. split; [reflexivity|]. specialize (Hsafe 0%nat [] (FreeLock 1016)).
    assert (threads c' !! 0%nat = Some (mk_thread [] (FreeLock 1016))) as Hi.
    { assert (match run_schedule demo_interleaving demo_threads with Some c => threads c !! 0%nat | None => None end
        = Some (mk_thread [] (FreeLock 1016))) as Hc by (vm_compute; reflexivity). by rewrite E in Hc. }
    specialize (Hsafe Hi). destruct (pool_exec _ _) as [| | |]; [done..|]. apply Hsafe.
Defined.

Lemma pool_threads_race_free_witness : exists c',
  run_schedule (demo_interleaving) demo_threads = Some c' /\
  touches_lists (FreeLock 1016) && touches_lists (AllocInit 100 5192) = false /\
  total (refs_to 5208) (threads c') = 0%nat.
Proof.
  destruct (run_schedule demo_interleaving demo_threads) as [c'|] eqn:E; [|vm_compute in E; discriminate].
  destruct (pool_threads_race_free demo_threads c' [5192; 9384] [1000]) as (_ & Hrace).
  - exact demo_pool_wf.
  - exact demo_counted.
  - exact demo_quiet.
  - by eapply run_schedule_reachable.
  - exists c'. split; [reflexivity|].
    assert (threads c' = [mk_thread [] (FreeLock 1016); mk_thread [] (AllocInit 100 5192)]) as Hts.
    { assert (threads <$> run_schedule demo_interleaving demo_threads =
        Some [mk_thread [] (FreeLock 1016); mk_thread [] (AllocInit 100 5192)]) as Hc by (vm_compute; reflexivity).
      rewrite E in Hc. by injection Hc. }
    destruct (Hrace 1%nat 0%nat (mk_thread [] (AllocInit 100 5192)) (mk_thread [] (FreeLock 1016))) as (_ & Hw).
    + discriminate.
    + by rewrite Hts.
    + by rewrite Hts.
    + split; [reflexivity|]. apply (Hw 5208). reflexivity.
Defined.

Lemma pool_calls_return_witness : exists c1 c2,
  run_schedule demo_interleaving demo_threads = Some c1 /\ rtc in_calls c1 c2 /\ quiet (threads c2).
Proof.
  destruct (run_schedule demo_interleaving demo_threads) as [c1|] eqn:E; [|vm_compute in E; discriminate].
  destruct (pool_calls_return demo_threads c1 [5192; 9384] [1000]) as (_ & _ & _ & c2 & Hr & Hq).
  - exact demo_pool_wf.
  - exact demo_counted.
  - exact demo_quiet.
  - by eapply run_schedule_reachable.
  - by exists c1, c2.
Defined.
