(* ===== verification/Signal.v ===== *)
(** Pipe-based signals (src/signal.c, include/ckit/signal.h).

    The system calls are an interface, [Pipe]; its laws say what POSIX promises
    of a pipe whose read end does not block and through which only [int]s are
    sent. A FIFO queue implements it. *)
From S2P Require Import Prelude Atomic.

(** ** The system calls

    The result of [read(fd, &val, sizeof(val))]: an [int], end of file, or an
    error and whether [errno] is [EWOULDBLOCK]. *)
Inductive read_result := RdVal (v : Z) | RdEof | RdErr (would_block : bool).

Class Pipe (P : Type) := {
  sys_pipe : M P (option (Z * Z));
  sys_nonblock : Z -> M P Z;
  sys_close : Z -> M P unit;
  sys_read : Z -> M P read_result;
  sys_poll : Z -> Z -> M P Z;
  sys_write : Z -> Z -> M P Z;
  (** The [int]s in the pipe with the open ends [r], which does not block, and
      [w]; at most [capacity] of them. *)
  queue : P -> Z -> Z -> option (list Z);
  capacity : nat;
}.

Class PipeLaws (P : Type) `{Pipe P} := {
  read_law p r w q : queue p r w = Some q ->
    match q with
    | [] => sys_read r p = Ok (RdErr true, p)
    | v :: q' => exists p', sys_read r p = Ok (RdVal v, p') /\ queue p' r w = Some q'
    end;
  (** While it waits, other threads may write. *)
  poll_law p r w q t : queue p r w = Some q ->
    exists n p' l, sys_poll r t p = Ok (n, p') /\ queue p' r w = Some (q ++ l) /\
      (0 < n <-> q ++ l <> []) /\ (t = 0 -> l = []);
  write_law p r w v : queue p r w = Some [] ->
    exists p', sys_write w v p = Ok (4, p') /\ queue p' r w = Some [v];
  capacity_law p r w q : queue p r w = Some q -> (length q <= capacity)%nat;
}.

(** ** Operations *)
Record signal := mk_signal { fd0 : Z; fd1 : Z; waiting : atomic_t }.

Section Ops.
Context {P : Type} `{Pipe P}.
Abbreviation SM := (M (signal * P)).

Definition on_os {B} (m : M P B) : SM B := zoom snd (fun p s => (s.1, p)) m.
Definition on_waiting {B} (m : M atomic_t B) : SM B :=
  zoom (fun s => waiting s.1) (fun v s => (mk_signal (fd0 s.1) (fd1 s.1) v, s.2)) m.

(** [s] may be [NULL] for [signal_init] alone. *)
Definition signal_init (null : bool) : SM Z :=
  if null then mret (-1)
  else
    r ← on_os sys_pipe;
    match r with
    | None => mret (-1)
    | Some (r0, r1) =>
        modify (fun s => (mk_signal r0 r1 (waiting s.1), s.2));;
        ret ← on_os (sys_nonblock r0);
        ret ← (if ret =? -1 then on_os (sys_close r0);; on_os (sys_close r1);; mret ret
               else mret 0);
        on_waiting (atomic_set 0);;
        mret ret
    end.

Definition signal_destroy : SM unit :=
  s ← get;
  on_os (sys_close (fd0 s.1));;
  on_os (sys_close (fd1 s.1)).

(** [while (ret > 0)]; the result is the last [ret] and the content of [*val]. *)
Fixpoint clear_loop (fuel : nat) (ret val : Z) : SM (Z * Z) :=
  match fuel with
  | O => out_of_fuel
  | S fuel =>
      if 0 <? ret then
        s ← get;
        r ← on_os (sys_read (fd0 s.1));
        match r with
        | RdVal v => clear_loop fuel 4 v
        | RdEof => clear_loop fuel 0 val
        | RdErr _ => clear_loop fuel (-1) val
        end
      else mret (ret, val)
  end.

Definition signal_clear_val (fuel : nat) (val : Z) : SM (Z * Z) :=
  r ← clear_loop fuel 1 val;
  mret ((if 0 <? r.1 then 1 else 0), r.2).

(** [val] is an uninitialised local; its content does not matter. *)
Definition signal_clear (fuel : nat) : SM Z :=
  r ← signal_clear_val fuel 0; mret r.1.

Definition signal_get_fd : SM Z := s ← get; mret (fd0 s.1).

(** The [do ... while (n == 0)] loop of [signal_wait_val]; the result is [ret]
    and the content of [*val]. *)
Fixpoint wait_loop (fuel : nat) (timeout ret val : Z) : SM (Z * Z) :=
  match fuel with
  | O => out_of_fuel
  | S fuel =>
      s ← get;
      r ← on_os (sys_read (fd0 s.1));
      match r with
      | RdErr true =>
          n ← on_os (sys_poll (fd0 s.1) timeout);
          if n <=? 0 then mret (n, val) else wait_loop fuel timeout n val
      | RdErr false => mret (ret, val)
      | RdVal v => mret (1, v)
      | RdEof => wait_loop fuel timeout 0 val
      end
  end.

Definition signal_wait_val (fuel : nat) (timeout : Z) (val : option Z) : SM (Z * Z) :=
  on_waiting atomic_inc;;
  r ← wait_loop fuel timeout 0 (default 0 val);
  signal_clear fuel;;
  on_waiting atomic_dec;;
  mret r.

Definition signal_wait (fuel : nat) (timeout : Z) : SM Z :=
  r ← signal_wait_val fuel timeout None; mret r.1.

Definition signal_is_raised : SM Z :=
  s ← get;
  n ← on_os (sys_poll (fd0 s.1) 0);
  mret (if 0 <? n then 1 else 0).

Definition signal_raise_val (val : Z) : SM Z :=
  r ← signal_is_raised;
  if negb (r =? 0) then mret 0
  else
    s ← get;
    on_os (sys_write (fd1 s.1) val).

Definition signal_raise : SM Z := signal_raise_val 0.

Definition signal_num_waiting : SM Z := v ← on_waiting atomic_read; mret (u32 v).
End Ops.

(** ** Steps *)
Section Steps.
Context {P : Type} `{PipeLaws P}.
Implicit Types (s : signal * P).

(** The signals pending in [s]. *)
Definition pending s : option (list Z) := queue s.2 (fd0 s.1) (fd1 s.1).

Lemma wp_read s q (Q : read_result -> signal * P -> Prop) :
  pending s = Some q ->
  match q with
  | [] => Q (RdErr true) s
  | v :: q' => forall p', queue p' (fd0 s.1) (fd1 s.1) = Some q' -> Q (RdVal v) (s.1, p')
  end ->
  wp (on_os (sys_read (fd0 s.1))) Q s.
Proof.
  intros Hq HQ. unfold on_os. rewrite wp_zoom. unfold wp. pose proof (read_law _ _ _ _ Hq) as Hr.
  destruct q as [|v q']; [rewrite Hr; by destruct s|]. destruct Hr as (p' & -> & Hq'). auto.
Qed.

Lemma wp_poll s q t (Q : Z -> signal * P -> Prop) :
  pending s = Some q ->
  (forall n p' l, queue p' (fd0 s.1) (fd1 s.1) = Some (q ++ l) -> (0 < n <-> q ++ l <> []) ->
     (t = 0 -> l = []) -> Q n (s.1, p')) ->
  wp (on_os (sys_poll (fd0 s.1) t)) Q s.
Proof.
  intros Hq HQ. unfold on_os. rewrite wp_zoom. unfold wp.
  destruct (poll_law _ _ _ _ t Hq) as (n & p' & l & -> & ? & ? & ?). eauto.
Qed.

Lemma wp_clear_loop fuel s q ret val (Q : Z * Z -> signal * P -> Prop) :
  pending s = Some q -> (length q + 1 < fuel)%nat -> 0 < ret ->
  (forall p', queue p' (fd0 s.1) (fd1 s.1) = Some [] -> Q (-1, List.last q val) (s.1, p')) ->
  wp (clear_loop fuel ret val) Q s.
Proof.
  revert s ret val fuel. induction q as [|v q IH]; intros s ret val [|fuel] Hq Hfuel Hret HQ;
    simpl in Hfuel; try lia; cbn [clear_loop]; rewrite (proj2 (Z.ltb_lt _ _)) by lia;
    rewrite wp_bind, wp_get, wp_bind; (eapply wp_read; [exact Hq|]).
  - destruct fuel as [|fuel]; [lia|]. cbn [clear_loop].
    change (0 <? -1) with false. cbn iota. rewrite wp_ret.
    destruct s as [sg p]. by apply HQ.
  - intros p' Hq'. apply IH; [exact Hq'|lia|lia|]. intros p'' Hq''.
    replace (List.last q v) with (List.last (v :: q) val); [by apply HQ|].
    clear. destruct q as [|x q]; [done|]. cbn. revert x. induction q as [|y q IHq]; intros x; [done|].
    cbn in *. apply IHq.
Qed.

Lemma wp_signal_clear_val fuel s q val (Q : Z * Z -> signal * P -> Prop) :
  pending s = Some q -> (capacity + 1 < fuel)%nat ->
  (forall p', queue p' (fd0 s.1) (fd1 s.1) = Some [] -> Q (0, List.last q val) (s.1, p')) ->
  wp (signal_clear_val fuel val) Q s.
Proof.
  intros Hq Hfuel HQ. pose proof (capacity_law _ _ _ _ Hq) as Hcap.
  unfold signal_clear_val. rewrite wp_bind. eapply wp_clear_loop; [done|lia|lia|].
  intros p' Hq'. rewrite wp_ret. by apply HQ.
Qed.

Lemma wp_signal_is_raised s q (Q : Z -> signal * P -> Prop) :
  pending s = Some q ->
  (forall p', queue p' (fd0 s.1) (fd1 s.1) = Some q ->
     Q (if decide (q = []) then 0 else 1) (s.1, p')) ->
  wp signal_is_raised Q s.
Proof.
  intros Hq HQ. unfold signal_is_raised. rewrite wp_bind, wp_get, wp_bind.
  eapply wp_poll; [done|]. intros n p' l Hq' Hn Hl. rewrite (Hl eq_refl), app_nil_r in *.
  rewrite wp_ret. specialize (HQ p' Hq'). case_decide as Hnil.
  - rewrite (proj2 (Z.ltb_ge 0 n)); [done|]. destruct (Z.ltb_spec 0 n); [naive_solver|lia].
  - rewrite (proj2 (Z.ltb_lt 0 n)); [done|]. by apply Hn.
Qed.

Lemma wp_signal_raise_val s q val (Q : Z -> signal * P -> Prop) :
  pending s = Some q ->
  (forall p', queue p' (fd0 s.1) (fd1 s.1) = Some (if decide (q = []) then [val] else q) ->
     Q (if decide (q = []) then 4 else 0) (s.1, p')) ->
  wp (signal_raise_val val) Q s.
Proof.
  intros Hq HQ. unfold signal_raise_val. rewrite wp_bind. eapply wp_signal_is_raised; [done|].
  intros p' Hq'. case_decide as Hnil.
  - subst. change (negb (0 =? 0)) with false. cbn iota. rewrite wp_bind, wp_get. unfold on_os.
    rewrite wp_zoom. unfold wp. destruct (write_law _ _ _ val Hq') as (p'' & E & Hq'').
    simpl in *. rewrite E. by apply HQ.
  - change (negb (1 =? 0)) with true. cbn iota. rewrite wp_ret. by apply HQ.
Qed.
End Steps.

(** ** Properties *)
Section Properties.
Context {P : Type} `{PipeLaws P}.
Implicit Types (s : signal * P).

(** Raising is idempotent: on a signal that is not pending,
    [signal_raise_val] sends the value and returns 4; on a pending one it
    returns 0 and leaves the first value in place. Either way the signal is
    then raised, with at most one value pending when there was at most one
    before. *)
Theorem signal_raise_idempotent s q val :
  pending s = Some q ->
  exists s', signal_raise_val val s = Ok (if decide (q = []) then 4 else 0, s') /\
    pending s' = Some (if decide (q = []) then [val] else q) /\ s'.1 = s.1 /\
    exists s'', signal_is_raised s' = Ok (1, s'') /\ pending s'' = pending s'.
Proof.
  intros Hq.
  enough (wp (signal_raise_val val) (fun r s' => r = (if decide (q = []) then 4 else 0) /\
      pending s' = Some (if decide (q = []) then [val] else q) /\ s'.1 = s.1) s)
    as (r & s' & -> & -> & Hp & Hs)%wp_run.
  { exists s'. split_and!; [done..|].
    enough (wp signal_is_raised (fun r s'' => r = 1 /\ pending s'' = pending s') s')
      as (r & s'' & -> & -> & ?)%wp_run by eauto.
    eapply wp_signal_is_raised; [done|]. intros p' Hq'. rewrite Hp. split; [|exact Hq'].
    repeat case_decide; naive_solver. }
  eapply wp_signal_raise_val; [done|]. intros p' Hq'. done.
Qed.

(** [signal_clear_val] empties the pipe and stores the last value it read,
    but it returns 0 whether or not a signal was pending: the loop it follows
    only ends when nothing more was read. *)
Theorem signal_clear_always_zero s q val fuel :
  pending s = Some q -> (capacity + 1 < fuel)%nat ->
  exists s', signal_clear_val fuel val s = Ok ((0, List.last q val), s') /\
    pending s' = Some [] /\ s'.1 = s.1.
Proof.
  intros Hq Hfuel.
  enough (wp (signal_clear_val fuel val) (fun r s' => r = (0, List.last q val) /\
      pending s' = Some [] /\ s'.1 = s.1) s) as (r & s' & -> & -> & ?)%wp_run by eauto.
  eapply wp_signal_clear_val; [done..|]. intros p' Hq'. done.
Qed.

End Properties.

(** Once every write end is closed, so that [read] reports end of file, a
    waiting thread never returns: [n] is 0, which the loop takes for "try
    again". *)
Theorem signal_wait_eof_spins {P} `{Pipe P} (s : signal * P) timeout val fuel :
  sys_read (fd0 s.1) s.2 = Ok (RdEof, s.2) ->
  - 2 ^ 31 <= waiting s.1 < 2 ^ 31 - 1 ->
  signal_wait_val fuel timeout val s = OutOfFuel.
Proof.
  intros Hr Hw. unfold signal_wait_val, on_waiting.
  erewrite run_bind by (unfold zoom, atomic_inc; reflexivity).
  set (s1 := (mk_signal _ _ _, s.2)).
  assert (forall ret v, wait_loop fuel timeout ret v s1 = OutOfFuel) as Hloop.
  { induction fuel as [|fuel IH]; intros ret v; [done|]. cbn [wait_loop].
    erewrite run_bind by reflexivity.
    erewrite run_bind by (unfold on_os, zoom; simpl; rewrite Hr; reflexivity). apply IH. }
  unfold mbind, M_bind. by rewrite Hloop.
Qed.

(** ** A pipe

    A queue of at most 16 [int]s between the descriptors 3 and 4, to which no
    other thread writes. *)
Definition fifo_capacity : nat := 16.
Definition fifo_queue (p : list Z) (r w : Z) : option (list Z) :=
  if decide (r = 3 /\ w = 4 /\ (length p <= fifo_capacity)%nat) then Some p else None.

#[export] Instance fifo_pipe : Pipe (list Z) := {
  sys_pipe := fun _ => Ok (Some (3, 4), []);
  sys_nonblock _ := mret 0;
  sys_close _ := mret tt;
  sys_read fd p :=
    if fd =? 3 then
      match p with
      | [] => Ok (RdErr true, p)
      | v :: p' => Ok (RdVal v, p')
      end
    else Ok (RdErr false, p);
  sys_poll _ _ p := Ok (match p with [] => 0 | _ => 1 end, p);
  sys_write fd v p :=
    if (fd =? 4) && (length p <? fifo_capacity)%nat then Ok (4, p ++ [v]) else Ok (-1, p);
  queue := fifo_queue;
  capacity := fifo_capacity;
}.

#[export] Instance fifo_laws : PipeLaws (list Z).
Proof.
  split.
  - intros p r w q. simpl. unfold fifo_queue. case_decide as Hd; [|done]. intros [= <-].
    destruct Hd as (-> & -> & Hl). simpl. destruct p as [|v p]; [done|]. exists p. split; [done|].
    rewrite decide_True; [done|]. simpl in Hl. split_and!; [done..|lia].
  - intros p r w q t. simpl. intros Hq. exists (match p with [] => 0 | _ => 1 end), p, [].
    rewrite app_nil_r. split_and!; [done|done| |done]. unfold fifo_queue in Hq. case_decide; [|done].
    simplify_eq. destruct q; naive_solver lia.
  - intros p r w v. simpl. unfold fifo_queue. case_decide as Hd; [|done]. intros [= ->].
    destruct Hd as (-> & -> & _). exists [v]. split; [done|]. rewrite decide_True; [done|].
    unfold fifo_capacity. simpl. split_and!; [done..|lia].
  - intros p r w q. simpl. unfold fifo_queue. case_decide as Hd; [|done]. intros [= <-]. apply Hd.
Qed.

(** ** Witnesses *)
Definition demo_signal (p : list Z) : signal * list Z := (mk_signal 3 4 0, p).

Lemma signal_raise_idempotent_witness :
  (exists s', signal_raise_val 7 (demo_signal []) = Ok (4, s') /\ pending s' = Some [7]) /\
  (exists s', signal_raise_val 8 (demo_signal [7]) = Ok (0, s') /\ pending s' = Some [7]).
Proof.
  split.
  - destruct (signal_raise_idempotent (demo_signal []) [] 7) as (s' & E & Hp & _); [reflexivity|].
    exists s'. split; [exact E|exact Hp].
  - destruct (signal_raise_idempotent (demo_signal [7]) [7] 8) as (s' & E & Hp & _); [reflexivity|].
    exists s'. split; [exact E|exact Hp].
Defined.

Lemma signal_clear_always_zero_witness :
  exists s', signal_clear_val 20 0 (demo_signal [5; 6]) = Ok ((0, 6), s') /\ pending s' = Some [].
Proof.
  destruct (signal_clear_always_zero (demo_signal [5; 6]) [5; 6] 0 20) as (s' & E & Hp & _).
  - reflexivity.
  - vm_compute. lia.
  - exists s'. split; [exact E|exact Hp].
Defined.


(** The same queue, whose write end was closed. *)
Definition closed_pipe : Pipe (list Z) := {|
  sys_pipe := fun _ => Ok (None, []);
  sys_nonblock _ := mret 0;
  sys_close _ := mret tt;
  sys_read _ p := Ok (RdEof, p);
  sys_poll _ _ p := Ok (1, p);
  sys_write _ _ p := Ok (-1, p);
  queue _ _ _ := None;
  capacity := 0;
|}.

Lemma signal_wait_eof_spins_witness :
  @signal_wait_val (list Z) closed_pipe 100 (-1) None (demo_signal []) = OutOfFuel.
Proof.
  apply (@signal_wait_eof_spins (list Z) closed_pipe).
  - reflexivity.
  - simpl. lia.
Defined.
