(* ===== verification/Timer.v ===== *)
(** The timer queue (src/timer.c, include/ckit/timer.h): a heap of timers under
    a mutex, ordered by their time-outs, with a signal that wakes the thread
    that waits for the next one.

    [P] is the state of the system: the pipe of the signal, the clock and
    whatever the callbacks work on. Function pointers are numbers; [code] says
    what a call through one does. [self] is the calling thread. *)
From S2P Require Import Prelude Atomic Malloc Time HeapSpec Heap Signal.

(** ** Data *)
Record timer := mk_timer {
  t_hi : heapitem;
  t_timeout : timespec;
  t_expires : Z;
  t_callback : option Z;
  t_destruct : option Z;
  t_data : addr;
}.
Definition sizeof_timer : Z := 56.

#[export] Instance timer_item : HeapItem timer.
Proof.
  refine {| hi := t_hi;
            set_hi i t := mk_timer i (t_timeout t) (t_expires t) (t_callback t) (t_destruct t) (t_data t) |};
    [done..|by intros []].
Defined.

Definition with_timeout (ts : timespec) (t : timer) : timer :=
  mk_timer (t_hi t) ts (t_expires t) (t_callback t) (t_destruct t) (t_data t).
Definition with_expires (e : Z) (t : timer) : timer :=
  mk_timer (t_hi t) (t_timeout t) e (t_callback t) (t_destruct t) (t_data t).
Definition with_callback (c : option Z) (t : timer) : timer :=
  mk_timer (t_hi t) (t_timeout t) (t_expires t) c (t_destruct t) (t_data t).
Definition with_tdata (d : addr) (t : timer) : timer :=
  mk_timer (t_hi t) (t_timeout t) (t_expires t) (t_callback t) (t_destruct t) d.

Definition heap_cmp (t1 t2 : timer) : bool := timespec_lt (t_timeout t1) (t_timeout t2).

#[export] Instance heap_cmp_ok : CmpOk heap_cmp.
Proof. done. Qed.
#[export] Instance heap_cmp_strict : StrictWeak heap_cmp.
Proof.
  split; intros; unfold heap_cmp, timespec_lt in *; lia.
Qed.

(** [clock_gettime]; [None] when it fails. *)
Class Clock (P : Type) := sys_gettime : M P (option timespec).

Record tqueue (A P : Type) := mk_tq {
  tq_heap : hstate timer A;
  tq_lock : bool;
  tq_signal : signal * P;
  tq_thr : Z;
}.
Arguments mk_tq {A P}.
Arguments tq_heap {A P}.
Arguments tq_lock {A P}.
Arguments tq_signal {A P}.
Arguments tq_thr {A P}.

Inductive signal_result := TIMER_SIGNAL_ERROR | TIMER_SIGNAL_NONE | TIMER_SIGNAL_SET | TIMER_SIGNAL_EXIT.

Section Ops.
Context {A P : Type} `{Allocator A} `{Pipe P} `{Clock P}.
Abbreviation TM := (M (tqueue A P)).
Context (code : Z -> addr -> TM unit) (self : Z).

(** ** Access to the parts *)
Definition set_heap (x : hstate timer A) (s : tqueue A P) : tqueue A P := mk_tq x (tq_lock s) (tq_signal s) (tq_thr s).
Definition set_lock (x : bool) (s : tqueue A P) : tqueue A P := mk_tq (tq_heap s) x (tq_signal s) (tq_thr s).
Definition set_signal (x : signal * P) (s : tqueue A P) : tqueue A P := mk_tq (tq_heap s) (tq_lock s) x (tq_thr s).
Definition set_thr (x : Z) (s : tqueue A P) : tqueue A P := mk_tq (tq_heap s) (tq_lock s) (tq_signal s) x.
Definition timers (s : tqueue A P) : gmap addr timer := objs (tq_heap s).
Definition set_timers x (s : tqueue A P) := set_heap (set_objs x (tq_heap s)) s.

Definition on_heap {B} (m : M (hstate timer A) B) : TM B := zoom tq_heap set_heap m.
Definition on_signal {B} (m : M (signal * P) B) : TM B := zoom tq_signal set_signal m.
Definition load_timer (t : addr) : TM timer := zoom timers set_timers (load t).
Definition update_timer (t : addr) (f : timer -> timer) : TM unit :=
  zoom timers set_timers (update t f).

(** The mutex as one thread sees it. *)
Definition tq_mutex_lock : TM unit := fun s =>
  if tq_lock s then OutOfFuel else Ok (tt, set_lock true s).
Definition tq_mutex_unlock : TM unit := fun s =>
  if tq_lock s then Ok (tt, set_lock false s) else Fault.

Definition gettime : TM (option timespec) := on_signal (on_os sys_gettime).

(** ** Timers *)
Definition zero_timer : timer :=
  mk_timer (mk_item 0 0) (mk_timespec 0 0) 0 None None NULL.
Definition timer_init (t : addr) : TM unit := update_timer t (fun _ => zero_timer).

Definition timer_new_callback (callback : option Z) (data : addr) : TM addr :=
  t ← on_heap (zoom arena_of set_arena (malloc sizeof_timer));
  if t =? NULL then mret NULL
  else
    modify (fun s => set_timers (<[t := zero_timer]> (timers s)) s);;
    timer_init t;;
    update_timer t (with_callback callback);;
    update_timer t (with_tdata data);;
    mret t.

Definition timer_free (t : addr) : TM unit :=
  on_heap (zoom arena_of set_arena (free t));;
  modify (fun s => set_timers (delete t (timers s)) s).

Definition timer_scheduled (t : addr) : TM bool :=
  tm ← load_timer t; mret (negb (active (t_hi tm) =? 0)).

(** ** The signal *)
Definition timer_queue_get_signal : TM Z := on_signal signal_get_fd.
Definition timer_queue_signal_raise : TM Z := on_signal signal_raise.
Definition timer_queue_signal_lower (fuel : nat) : TM signal_result :=
  r ← on_signal (signal_clear_val fuel 0);
  let (ret, val) := (r : Z * Z) in
  mret (if ret =? -1 then TIMER_SIGNAL_ERROR
        else if ret =? 0 then TIMER_SIGNAL_NONE
        else if val =? 0 then TIMER_SIGNAL_EXIT
        else if val =? -1 then TIMER_SIGNAL_ERROR
        else TIMER_SIGNAL_SET).

(** ** The queue *)

(** [_timer_del]. *)
Definition timer_del_locked (t : addr) : TM unit :=
  tm ← load_timer t;
  let idx := index (t_hi tm) in
  on_heap (heap_remove idx);;
  s ← get;
  if (idx =? 0) && negb (tq_thr s =? self) then timer_queue_signal_raise;; mret tt else mret tt.

Definition timer_del (t : addr) : TM unit :=
  tq_mutex_lock;;
  timer_del_locked t;;
  tq_mutex_unlock.

(** The first part of [timer_mod]: unschedule; the result is [was_first]. *)
Definition timer_unschedule (t : addr) (expires : Z) : TM Z :=
  sch ← timer_scheduled t;
  if (sch : bool) then
    tm ← load_timer t;
    let was_first := if index (t_hi tm) =? 0 then 1 else 0 in
    timer_del t;;
    update_timer t (with_expires (i64 expires));;
    mret was_first
  else mret 0.

(** The second part: the new time-out. *)
Definition timer_set_timeout (t : addr) : TM unit :=
  now ← gettime;
  match now with
  | Some ts => update_timer t (with_timeout ts)
  | None => mret tt
  end;;
  tm ← load_timer t;
  nsec ← lift (long (t_expires tm * 1000));
  ts ← lift (timespec_add_nsec (t_timeout tm) nsec);
  update_timer t (with_timeout ts).

(** The third part: link it in. *)
Definition timer_enqueue (t : addr) (was_first : Z) : TM Z :=
  tq_mutex_lock;;
  r ← on_heap (heap_insert t);
  if negb (r =? 0) then tq_mutex_unlock;; mret (-1)
  else
    s ← get;
    tm ← load_timer t;
    (if negb (tq_thr s =? self) && ((index (t_hi tm) =? 0) || (was_first =? 1))
     then timer_queue_signal_raise;; mret tt else mret tt);;
    tq_mutex_unlock;;
    mret 1.

Definition timer_mod (t : addr) (expires : Z) : TM Z :=
  was_first ← timer_unschedule t expires;
  timer_set_timeout t;;
  timer_enqueue t was_first.

Definition timer_add (t : addr) : TM Z :=
  sch ← timer_scheduled t;
  if (sch : bool) then mret (-1)
  else
    tm ← load_timer t;
    timer_mod t (u64 (t_expires tm)).

(** The result is the return value and the content of [*timeout]. *)
Definition timer_next_timeout (fuel : nat) (timeout : Z) : TM (Z * Z) :=
  tq_mutex_lock;;
  e ← on_heap heap_empty;
  if (e : bool) then
    tq_mutex_unlock;;
    timer_queue_signal_lower fuel;;
    mret (0, timeout)
  else
    now ← gettime;
    now ← of_option now;
    t ← on_heap heap_front;
    tm ← load_timer t;
    later ← lift (timespec_sub (t_timeout tm) now);
    us ← lift (long (tv_sec later * 1000000));
    us ← lift (long (us + Z.quot (tv_nsec later) 1000));
    tq_mutex_unlock;;
    timer_queue_signal_lower fuel;;
    mret (1, u64 us).

(** The two halves of [timer_next_timeout]: up to the unlock, and after it. *)
Definition next_timeout_locked : TM (option Z) :=
  tq_mutex_lock;;
  e ← on_heap heap_empty;
  if (e : bool) then
    tq_mutex_unlock;;
    mret None
  else
    now ← gettime;
    now ← of_option now;
    t ← on_heap heap_front;
    tm ← load_timer t;
    later ← lift (timespec_sub (t_timeout tm) now);
    us ← lift (long (tv_sec later * 1000000));
    us ← lift (long (us + Z.quot (tv_nsec later) 1000));
    tq_mutex_unlock;;
    mret (Some us).

Definition next_timeout_answer (timeout : Z) (r : option Z) : Z * Z :=
  match r with None => (0, timeout) | Some us => (1, u64 us) end.

Definition next_timeout_unlocked (fuel : nat) (timeout : Z) (r : option Z) : TM (Z * Z) :=
  timer_queue_signal_lower fuel;;
  mret (next_timeout_answer timeout r).

Definition timer_next_timeout_timespec (timeout : timespec) : TM (Z * timespec) :=
  tq_mutex_lock;;
  e ← on_heap heap_empty;
  if (e : bool) then
    tq_mutex_unlock;;
    mret (0, timeout)
  else
    now ← gettime;
    now ← of_option now;
    t ← on_heap heap_front;
    tm ← load_timer t;
    later ← lift (timespec_sub (t_timeout tm) now);
    let later := if tv_sec later <? 0 then mk_timespec 0 0 else later in
    tq_mutex_unlock;;
    mret (1, later).

(** [ts] is the content of the uninitialised local. *)
Definition timer_next_timeout_timeval (ts : timespec) : TM (Z * timeval) :=
  r ← timer_next_timeout_timespec ts;
  let (ret, ts) := (r : Z * timespec) in
  mret (ret, mk_timeval (tv_sec ts) (Z.quot (tv_nsec ts) 1000)).

Definition timer_handle_timeout : TM Z :=
  tq_mutex_lock;;
  e ← on_heap heap_empty;
  if (e : bool) then
    tq_mutex_unlock;;
    mret (-1)
  else
    t ← on_heap heap_remove_first;
    tq_mutex_unlock;;
    tm ← load_timer t;
    match t_callback tm with
    | Some f => code f t
    | None => mret tt
    end;;
    mret 0.

(** The same in two halves: up to the unlock, and after it. *)
Definition handle_locked : TM (option addr) :=
  tq_mutex_lock;;
  e ← on_heap heap_empty;
  if (e : bool) then
    tq_mutex_unlock;;
    mret None
  else
    t ← on_heap heap_remove_first;
    tq_mutex_unlock;;
    mret (Some t).

Definition handle_unlocked (r : option addr) : TM Z :=
  match r with
  | None => mret (-1)
  | Some t =>
      tm ← load_timer t;
      match t_callback tm with
      | Some f => code f t
      | None => mret tt
      end;;
      mret 0
  end.

Fixpoint destroy_loop (fuel : nat) : TM unit :=
  match fuel with
  | O => out_of_fuel
  | S fuel =>
      e ← on_heap heap_empty;
      if (e : bool) then mret tt
      else
        t ← on_heap heap_remove_first;
        tm ← load_timer t;
        match t_destruct tm with
        | Some f => code f t
        | None => mret tt
        end;;
        destroy_loop fuel
  end.

Definition timer_list_destroy (fuel : nat) : TM unit :=
  tq_mutex_lock;;
  destroy_loop fuel;;
  tq_mutex_unlock.

(** The [memset] also clears the heap, which [heap_init] then overwrites; its
    result is not looked at. *)
Definition timer_queue_init : TM Z :=
  modify (fun s => mk_tq (tq_heap s) false (mk_signal 0 0 0, (tq_signal s).2) 0);;
  ret ← on_signal (signal_init false);
  on_heap (heap_init 0 heap_cmp);;
  modify (set_thr self);;
  mret ret.

Definition timer_queue_fini (fuel : nat) : TM unit :=
  on_signal signal_destroy;;
  timer_list_destroy fuel;;
  on_heap heap_fini.

(** The macros of timer.h: times in microseconds, as [long], and scheduling by
    them. *)
Definition timer_secs (s : Z) : outcome Z := long (s * 1000000).
Definition timer_msecs (s : Z) : outcome Z := long (s * 1000).
Definition timer_usecs (s : Z) : Z := s.
Definition timer_set_secs (t : addr) (s : Z) : TM unit :=
  e ← lift (timer_secs s); update_timer t (with_expires e).
Definition timer_set_msecs (t : addr) (s : Z) : TM unit :=
  e ← lift (timer_msecs s); update_timer t (with_expires e).
Definition timer_set_usecs (t : addr) (s : Z) : TM unit := update_timer t (with_expires s).
Definition timer_schedule_secs (t : addr) (s : Z) : TM Z := timer_set_secs t s;; timer_add t.
Definition timer_schedule_msecs (t : addr) (s : Z) : TM Z := timer_set_msecs t s;; timer_add t.
Definition timer_destroy (t : addr) : TM unit :=
  tm ← load_timer t;
  match t_destruct tm with
  | Some f => code f t
  | None => mret tt
  end.
End Ops.

(** ** Symbolic execution *)
Section Steps.
Context {A P : Type} `{AllocatorLaws A} `{PipeLaws P} `{Clock P}.
Implicit Types (s : tqueue A P) (t : addr) (tm : timer).

Lemma set_heap_id s : set_heap (tq_heap s) s = s.
Proof. by destruct s. Qed.
Lemma set_timers_id s : set_timers (timers s) s = s.
Proof. by destruct s as [[] ? ? ?]. Qed.
Lemma set_signal_id s : set_signal (tq_signal s) s = s.
Proof. by destruct s. Qed.

Lemma wp_load_timer t Q s :
  wp (load_timer t) Q s <-> exists tm, timers s !! t = Some tm /\ Q tm s.
Proof. unfold load_timer. by rewrite wp_zoom, wp_load, set_timers_id. Qed.

Lemma wp_update_timer t f Q s :
  wp (update_timer t f) Q s <->
  exists tm, timers s !! t = Some tm /\ Q tt (set_timers (<[t := f tm]> (timers s)) s).
Proof. unfold update_timer. by rewrite wp_zoom, wp_update. Qed.

Lemma wp_on_heap {B} (m : M (hstate timer A) B) Q s :
  wp (on_heap m) Q s <-> wp m (fun b h => Q b (set_heap h s)) (tq_heap s).
Proof. apply wp_zoom. Qed.

Lemma wp_on_signal {B} (m : M (signal * P) B) Q s :
  wp (on_signal m) Q s <-> wp m (fun b x => Q b (set_signal x s)) (tq_signal s).
Proof. apply wp_zoom. Qed.

Lemma wp_tq_lock (Q : unit -> tqueue A P -> Prop) s :
  tq_lock s = false -> Q tt (set_lock true s) -> wp tq_mutex_lock Q s.
Proof. intros E HQ. unfold wp, tq_mutex_lock. by rewrite E. Qed.
Lemma wp_tq_unlock (Q : unit -> tqueue A P -> Prop) s :
  tq_lock s = true -> Q tt (set_lock false s) -> wp tq_mutex_unlock Q s.
Proof. intros E HQ. unfold wp, tq_mutex_unlock. by rewrite E. Qed.

Lemma wp_gettime s o p1 (Q : option timespec -> tqueue A P -> Prop) :
  sys_gettime (tq_signal s).2 = Ok (o, p1) -> Q o (set_signal ((tq_signal s).1, p1) s) ->
  wp gettime Q s.
Proof. intros E HQ. unfold gettime, on_os. rewrite wp_on_signal, wp_zoom. unfold wp. by rewrite E. Qed.

Lemma wp_timer_scheduled t tm Q s :
  timers s !! t = Some tm -> Q (negb (active (t_hi tm) =? 0)) s -> wp (timer_scheduled t) Q s.
Proof. intros Ht HQ. unfold timer_scheduled. rewrite wp_bind, wp_load_timer. eauto. Qed.

(** Raising the queue's signal. *)
Lemma wp_tq_raise s q (Q : Z -> tqueue A P -> Prop) :
  pending (tq_signal s) = Some q ->
  (forall r p', queue p' (fd0 (tq_signal s).1) (fd1 (tq_signal s).1) =
       Some (if decide (q = []) then [0] else q) ->
     Q r (set_signal ((tq_signal s).1, p') s)) ->
  wp timer_queue_signal_raise Q s.
Proof.
  intros Hq HQ. unfold timer_queue_signal_raise, signal_raise. rewrite wp_on_signal.
  eapply wp_signal_raise_val; [done|]. auto.
Qed.

(** Lowering it: it always reports that there was no signal. *)
Lemma wp_tq_lower s q fuel (Q : signal_result -> tqueue A P -> Prop) :
  pending (tq_signal s) = Some q -> (capacity + 1 < fuel)%nat ->
  (forall p', queue p' (fd0 (tq_signal s).1) (fd1 (tq_signal s).1) = Some [] ->
     Q TIMER_SIGNAL_NONE (set_signal ((tq_signal s).1, p') s)) ->
  wp (timer_queue_signal_lower fuel) Q s.
Proof.
  intros Hq Hf HQ. unfold timer_queue_signal_lower. rewrite wp_bind, wp_on_signal.
  eapply wp_signal_clear_val; [done..|]. intros p' Hp'. rewrite wp_ret. by apply HQ.
Qed.
End Steps.

#[export] Hint Rewrite @wp_load_timer @wp_update_timer : wp.

(** Compute the parts of an updated queue. *)
Ltac tq_simpl :=
  cbn [tq_heap tq_lock tq_signal tq_thr set_heap set_lock set_signal set_thr set_timers timers
       hp objs arena_of set_hp set_objs set_arena].

(** ** Adding a timer *)
Section Add.
Context {A P : Type} `{AllocatorLaws A} `{PipeLaws P} `{Clock P}.
Context (self : Z).
Implicit Types (s : tqueue A P) (t : addr) (tm : timer).

(** An object that is not in the heap may change. *)
Lemma heap_loose_outside (h : hstate timer A) xs t tm :
  heap_loose h xs -> t ∉ xs -> heap_loose (set_objs (<[t := tm]> (objs h)) h) xs.
Proof.
  intros [[] Hact ? ? ?] Ht.
  assert (forall x, x ∈ xs -> <[t := tm]> (objs h) !! x = objs h !! x) as Hsame.
  { intros x Hx. apply lookup_insert_ne. by intros ->. }
  split; try done; [split; try done|]; simpl.
  - intros x Hx. rewrite Hsame; auto.
  - intros x Hx. unfold active_of. rewrite Hsame by done. by apply Hact.
Qed.

Lemma knows_outside (os : gmap addr timer) xs t tm y :
  t ∉ xs -> knows os xs y -> knows (<[t := tm]> os) xs y.
Proof.
  intros Ht Hy k Hk. unfold index_of. rewrite lookup_insert_ne by (intros ->; by eapply Ht, list_elem_of_lookup_2).
  by apply Hy.
Qed.

Lemma heap_wf_outside (h : hstate timer A) xs t tm :
  heap_wf h xs -> t ∉ xs -> heap_wf (set_objs (<[t := tm]> (objs h)) h) xs.
Proof.
  rewrite !heap_wf_loose. intros [Hl Hk] Ht. split; [by apply heap_loose_outside|].
  intros y Hy. apply knows_outside; auto.
Qed.

(** [timer_set_timeout] computes the time-out from the clock. *)
Lemma wp_timer_set_timeout s t tm now p1 (Q : unit -> tqueue A P -> Prop) :
  timers s !! t = Some tm -> sys_gettime (tq_signal s).2 = Ok (Some now, p1) ->
  ts_ok now -> 0 <= t_expires tm * 1000 < 2 ^ 63 ->
  (forall ts, 0 <= tv_nsec ts < NSEC_PER_SEC -> ns_of ts = ns_of now + t_expires tm * 1000 ->
     Q tt (set_timers (<[t := with_timeout ts tm]> (timers s)) (set_signal ((tq_signal s).1, p1) s))) ->
  wp (timer_set_timeout t) Q s.
Proof.
  intros Ht Hclk Hnow Hexp HQ. unfold timer_set_timeout. rewrite wp_bind.
  eapply wp_gettime; [done|]. wp_simpl. exists tm. split; [done|]. wp_simpl.
  eexists. split; [apply lookup_insert_eq|]. wp_simpl. cbn [t_expires t_timeout with_timeout].
  eexists. split; [apply long_ok; lia|]. wp_simpl.
  destruct (timespec_add_nsec_spec now (t_expires tm * 1000) Hnow) as (ts & -> & Hn & Hns); [lia|].
  eexists. split; [done|]. wp_simpl. eexists. split; [apply lookup_insert_eq|]. tq_simpl.
  rewrite insert_insert_eq. by apply HQ.
Qed.

(** What else an insertion keeps: the order, if it was that of a max-heap, the
    comparison, the capacity up to one enlargement, and the timers outside. *)
Record grown s s' (xs ys : list addr) : Prop := {
  gr_order : max_heap (item_lt heap_cmp (timers s)) xs -> max_heap (item_lt heap_cmp (timers s)) ys;
  gr_cmp : cmp (hp (tq_heap s')) = heap_cmp;
  gr_max : max_size (hp (tq_heap s')) <= max_size (hp (tq_heap s)) + HEAP_DEFAULT_INCREASE_SIZE;
  gr_frame p : p ∉ ys -> timers s' !! p = timers s !! p;
}.

(** What linking [t] in does, and whom it wakes. *)
Lemma wp_timer_enqueue s xs t q wf (Q : Z -> tqueue A P -> Prop) :
  heap_loose (tq_heap s) xs -> cmp (hp (tq_heap s)) = heap_cmp ->
  max_size (hp (tq_heap s)) < 2 ^ 31 - 102 -> tq_lock s = false ->
  is_Some (timers s !! t) -> t ∉ xs -> pending (tq_signal s) = Some q ->
  (forall s', Z.of_nat (length xs) = max_size (hp (tq_heap s)) -> hp (tq_heap s') = hp (tq_heap s) ->
     timers s' = timers s -> tq_lock s' = false -> tq_signal s' = tq_signal s -> tq_thr s' = tq_thr s ->
     blocks (arena_of (tq_heap s')) = blocks (arena_of (tq_heap s)) -> Q (-1) s') ->
  (forall s' ys, heap_loose (tq_heap s') ys ->
     (forall y, y = t \/ knows (timers s) xs y -> knows (timers s') ys y) ->
     ys ≡ₚ t :: xs -> payload_eq (timers s) (timers s') ->
     tq_lock s' = false -> tq_thr s' = tq_thr s -> grown s s' xs ys ->
     blocks_kept (tq_heap s) (tq_heap s') ->
     pending (tq_signal s') = Some (if decide (tq_thr s <> self /\ (ys !! 0%nat = Some t \/ wf = 1))
                                    then if decide (q = []) then [0] else q else q) -> Q 1 s') ->
  wp (timer_enqueue self t wf) Q s.
Proof.
  intros Hwf Hcmp Hmax Hlk Ht Hout Hq Hfail Hok. unfold timer_enqueue. rewrite wp_bind.
  apply wp_tq_lock; [done|]. rewrite wp_bind, wp_on_heap. tq_simpl.
  eapply (wp_heap_insert_loose _ xs); [by rewrite Hcmp|done|done|done|done|..].
  - intros h' Hfull Hhp Hos Hbk. change (negb (-1 =? 0)) with true. cbn iota. rewrite wp_bind.
    apply wp_tq_unlock; [done|]. rewrite wp_ret. by apply Hfail.
  - intros h'. cbn zeta. set (ys := sift_up _ _ _ _). intros [Hwf' Hkn Hpl Hcmp' Hmx' Hfr Hbk].
    assert (ys ≡ₚ t :: xs) as Hys by apply insert_contents.
    assert (forall g, tq_heap g = h' -> grown s g xs ys) as Hgr.
    { intros g Hg. split; unfold timers; rewrite ?Hg; [|by rewrite Hcmp'| |].
      - unfold ys. rewrite Hcmp. apply insert_max_heap, _.
      - unfold HEAP_DEFAULT_INCREASE_SIZE in *. case_decide; lia.
      - intros p Hp. apply Hfr. by rewrite <-Hys. }
    assert (exists tm', objs h' !! t = Some tm') as [tm' Htm'].
    { eapply payload_eq_dom; [exact Hpl|exact Ht]. }
    assert (t ∈ ys) as Htys by (rewrite Hys; by left).
    apply list_elem_of_lookup in Htys as [k Hk].
    pose proof (Hkn t (or_introl eq_refl) k Hk) as Hidx. unfold index_of in Hidx. rewrite Htm' in Hidx.
    injection Hidx as Hidx. change (hi tm') with (t_hi tm') in Hidx.
    assert ((index (t_hi tm') =? 0) = bool_decide (ys !! 0%nat = Some t)) as Hfront.
    { rewrite Hidx. apply eq_true_iff_eq. rewrite bool_decide_eq_true, Z.eqb_eq. split.
      - intros Hk0. by replace 0%nat with k by lia.
      - intros H0'. replace k with 0%nat; [done|]. eapply NoDup_lookup; [|done|done].
        apply (c_nodup _ _ (hl_cells _ _ Hwf')). }
    change (negb (0 =? 0)) with false. cbn iota. wp_simpl. exists tm'. split; [exact Htm'|].
    rewrite Hfront. tq_simpl.
    destruct (tq_thr s =? self) eqn:Ethr; cbn [negb andb].
    + wp_simpl. apply wp_tq_unlock; [done|]. wp_simpl. apply (Hok _ ys); try done; [by apply Hgr|]. tq_simpl.
      rewrite decide_False; [exact Hq|]. apply Z.eqb_eq in Ethr. naive_solver.
    + apply Z.eqb_neq in Ethr.
      destruct (decide (ys !! 0%nat = Some t \/ wf = 1)) as [Hw|Hw].
      * replace (bool_decide (ys !! 0%nat = Some t) || (wf =? 1)) with true; cycle 1.
        { symmetry. rewrite orb_true_iff, bool_decide_eq_true, Z.eqb_eq. done. }
        rewrite !wp_bind. eapply wp_tq_raise; [exact Hq|]. intros r p' Hq'. wp_simpl.
        apply wp_tq_unlock; [done|]. wp_simpl. apply (Hok _ ys); try done; [by apply Hgr|]. tq_simpl.
        rewrite decide_True by done. exact Hq'.
      * replace (bool_decide (ys !! 0%nat = Some t) || (wf =? 1)) with false; cycle 1.
        { symmetry. rewrite orb_false_iff, bool_decide_eq_false, Z.eqb_neq. tauto. }
        wp_simpl. apply wp_tq_unlock; [done|]. wp_simpl. apply (Hok _ ys); try done; [by apply Hgr|]. tq_simpl.
        rewrite decide_False; [exact Hq|]. naive_solver.
Qed.

(** Adding a timer that is not scheduled. *)
Lemma wp_timer_add s xs t tm now p1 q (Q : Z -> tqueue A P -> Prop) :
  heap_wf (tq_heap s) xs -> cmp (hp (tq_heap s)) = heap_cmp ->
  max_size (hp (tq_heap s)) < 2 ^ 31 - 102 -> tq_lock s = false ->
  timers s !! t = Some tm -> active (t_hi tm) = 0 -> t ∉ xs ->
  sys_gettime (tq_signal s).2 = Ok (Some now, p1) ->
  queue p1 (fd0 (tq_signal s).1) (fd1 (tq_signal s).1) = Some q ->
  ts_ok now -> 0 <= t_expires tm * 1000 < 2 ^ 63 ->
  (forall s', Z.of_nat (length xs) = max_size (hp (tq_heap s)) -> tq_lock s' = false -> Q (-1) s') ->
  (forall s' ys tm0 tm', heap_wf (tq_heap s') ys -> ys ≡ₚ t :: xs -> tq_lock s' = false ->
     payload_eq (<[t := tm0]> (timers s)) (timers s') ->
     grown (set_timers (<[t := tm0]> (timers s)) s) s' xs ys ->
     timers s' !! t = Some tm' -> 0 <= tv_nsec (t_timeout tm') < NSEC_PER_SEC ->
     ns_of (t_timeout tm') = ns_of now + t_expires tm * 1000 ->
     (forall x, x <> t -> set_hi (mk_item 0 0) <$> timers s' !! x = set_hi (mk_item 0 0) <$> timers s !! x) ->
     pending (tq_signal s') = Some (if decide (tq_thr s <> self /\ ys !! 0%nat = Some t)
                                    then if decide (q = []) then [0] else q else q) -> Q 1 s') ->
  wp (timer_add self t) Q s.
Proof.
  intros Hwf Hcmp Hmax Hlk Ht Hact Hout Hclk Hq Hnow Hexp Hfail Hok.
  unfold timer_add. rewrite wp_bind. eapply wp_timer_scheduled; [done|]. rewrite Hact. cbn [Z.eqb negb].
  wp_simpl. exists tm. split; [done|]. unfold timer_mod. rewrite wp_bind. unfold timer_unschedule.
  rewrite wp_bind. eapply wp_timer_scheduled; [done|]. rewrite Hact. cbn [Z.eqb negb]. wp_simpl.
  eapply wp_timer_set_timeout; [done..|]. intros ts Hts Hns.
  eapply (wp_timer_enqueue _ xs t q 0); tq_simpl; try done.
  - apply heap_loose_outside; [|done]. by apply heap_wf_loose.
  - rewrite lookup_insert_eq. eauto.
  - intros s' Hfull _ _ Hlk' _ _ _. by apply Hfail.
  - intros s' ys Hloose Hkn Hys Hpl Hlk' _ [Hgo Hgc Hgm Hgf] _ Hp. pose proof (Hpl t) as Hplt.
    rewrite lookup_insert_eq in Hplt. change (objs (tq_heap s')) with (timers s') in Hplt.
    destruct (timers s' !! t) as [tm'|] eqn:Htm'; [|done]. injection Hplt as Hto _ _ _ _.
    assert (heap_wf (tq_heap s') ys) as Hwf'.
    { apply heap_wf_loose in Hwf as [_ Hk]. apply heap_wf_loose. split; [done|]. intros y Hy. apply Hkn.
      rewrite Hys, elem_of_cons in Hy. destruct Hy as [Hy|Hy]; [by left|right]. apply knows_outside; auto. }
    apply (Hok s' ys (with_timeout ts tm) tm'); rewrite <-?Hto; try done; try lia.
    + intros x Hx. pose proof (Hpl x) as Hplx. by rewrite lookup_insert_ne in Hplx.
    + rewrite Hp. f_equal.
      destruct (decide (tq_thr s <> self /\ ys !! 0%nat = Some t));
      destruct (decide (tq_thr s <> self /\ (ys !! 0%nat = Some t \/ 0 = 1))); naive_solver.
Qed.

(** C4: [timer_add] of a timer that is not scheduled sets its time-out to the
    current time plus [expires] microseconds, exactly, and adds it to the heap,
    or fails with -1 when the heap is full and cannot grow. When another thread
    than the queue's adds a timer that goes to the front, the signal is raised;
    otherwise it is left alone. The mutex is free again. *)
Theorem timer_add_correct s xs t tm now p1 q :
  heap_wf (tq_heap s) xs -> cmp (hp (tq_heap s)) = heap_cmp ->
  max_size (hp (tq_heap s)) < 2 ^ 31 - 102 -> tq_lock s = false ->
  timers s !! t = Some tm -> active (t_hi tm) = 0 -> t ∉ xs ->
  sys_gettime (tq_signal s).2 = Ok (Some now, p1) ->
  queue p1 (fd0 (tq_signal s).1) (fd1 (tq_signal s).1) = Some q ->
  ts_ok now -> 0 <= t_expires tm * 1000 < 2 ^ 63 ->
  exists r s', timer_add self t s = Ok (r, s') /\ tq_lock s' = false /\
    (r = -1 /\ Z.of_nat (length xs) = max_size (hp (tq_heap s)) \/
     r = 1 /\ exists ys tm', heap_wf (tq_heap s') ys /\ ys ≡ₚ t :: xs /\
       timers s' !! t = Some tm' /\ 0 <= tv_nsec (t_timeout tm') < NSEC_PER_SEC /\
       ns_of (t_timeout tm') = ns_of now + t_expires tm * 1000 /\
       (forall x, x <> t -> t_timeout <$> timers s' !! x = t_timeout <$> timers s !! x) /\
       pending (tq_signal s') = Some (if decide (tq_thr s <> self /\ ys !! 0%nat = Some t)
                                      then if decide (q = []) then [0] else q else q)).
Proof.
  intros Hwf Hcmp Hmax Hlk Ht Hact Hout Hclk Hq Hnow Hexp. apply wp_run.
  eapply wp_timer_add; [done..| |].
  - intros s' Hfull Hlk'. split; [done|]. by left.
  - intros s' ys tm0 tm' Hwf' Hys Hlk' _ _ Htm' Hn Hns Hfr Hp. split; [done|]. right. split; [done|].
    exists ys, tm'. split_and!; try done; try lia. intros x Hx. specialize (Hfr x Hx).
    destruct (timers s' !! x), (timers s !! x); try done. injection Hfr as E _ _ _ _. simpl. by rewrite E.
Qed.
End Add.

(** ** The next time-out *)
Section Next.
Context {A P : Type} `{AllocatorLaws A} `{PipeLaws P} `{Clock P}.
Context (self : Z).
Implicit Types (s : tqueue A P) (t : addr) (tm : timer).

(** A scheduled timer is not added again, and for one that is not scheduled
    [timer_mod] does not look at its [expires] argument: the time-out comes from
    the field of the timer. *)
Theorem timer_mod_guards s t tm e1 e2 :
  timers s !! t = Some tm ->
  (active (t_hi tm) <> 0 -> timer_add self t s = Ok (-1, s)) /\
  (active (t_hi tm) = 0 -> timer_mod self t e1 s = timer_mod self t e2 s).
Proof.
  intros Ht. assert (timer_scheduled t s = Ok (negb (active (t_hi tm) =? 0), s)) as Hsch.
  { apply wp_eq. by eapply wp_timer_scheduled. }
  split; intros Hact.
  - unfold timer_add. rewrite (run_bind _ _ _ _ _ Hsch).
    by rewrite (proj2 (Z.eqb_neq _ _) Hact).
  - unfold timer_mod. assert (forall e, timer_unschedule self t e s = Ok (0, s)) as Hun.
    { intros e. unfold timer_unschedule. rewrite (run_bind _ _ _ _ _ Hsch). by rewrite Hact. }
    by rewrite !(run_bind _ _ _ _ _ (Hun _)).
Qed.

Lemma wp_heap_empty (h : hstate timer A) xs (Q : bool -> hstate timer A -> Prop) :
  cells h xs -> Q (bool_decide (xs = [])) h -> wp heap_empty Q h.
Proof.
  intros Hc HQ. unfold heap_empty. wp_simpl. rewrite (c_size _ _ Hc).
  destruct xs; [exact HQ|]. cbn [length]. rewrite (proj2 (Z.eqb_neq _ _)) by lia. exact HQ.
Qed.

Lemma wp_heap_front (h : hstate timer A) x xs (Q : addr -> hstate timer A -> Prop) :
  cells h (x :: xs) -> Q x h -> wp heap_front Q h.
Proof. intros Hc HQ. apply (wp_map_get 0 x); [by apply (c_map _ _ Hc)|done]. Qed.

(** Within the range of seconds in which the microseconds fit a [long]. *)
Definition near (ts : timespec) : Prop :=
  0 <= tv_nsec ts < NSEC_PER_SEC /\ - 2 ^ 40 <= tv_sec ts <= 2 ^ 40.

Lemma near_sub (t1 t2 : timespec) : near t1 -> near t2 ->
  exists d, timespec_sub t1 t2 = Ok d /\ 0 <= tv_nsec d < NSEC_PER_SEC /\
    ns_of d = ns_of t1 - ns_of t2 /\ - 2 ^ 42 < tv_sec d < 2 ^ 42.
Proof.
  intros [Hn1 Hs1] [Hn2 Hs2]. destruct (timespec_sub_spec t1 t2) as (d & E & Hn & Hd).
  - split; [done|lia].
  - split; [done|lia].
  - exists d. split_and!; try done; try lia; time_unfold; lia.
Qed.

(** The interval in microseconds fits a [long]. *)
Lemma near_usec (t1 t2 : timespec) : near t1 -> near t2 ->
  - 2 ^ 63 <= (ns_of t1 - ns_of t2) / 1000 < 2 ^ 63.
Proof.
  intros [Hn1 Hs1] [Hn2 Hs2].
  assert (- 2 ^ 72 < ns_of t1 - ns_of t2 < 2 ^ 72) as Hb by (time_unfold; lia).
  split; [apply Z.div_le_lower_bound; lia|apply Z.div_lt_upper_bound; lia].
Qed.

(** A negative number as an [unsigned long]. *)
Lemma u64_negative k : - 2 ^ 63 <= k < 0 -> 2 ^ 63 <= u64 k < 2 ^ 64.
Proof.
  intros Hk. replace (u64 k) with (k + 2 ^ 64); [lia|]. unfold u64.
  rewrite <-(Z.mod_add k 1 (2 ^ 64)) by lia. rewrite Z.mod_small; lia.
Qed.

(** Whole microseconds of a normalised interval. *)
Lemma usec_of d : 0 <= tv_nsec d < NSEC_PER_SEC ->
  tv_sec d * 1000000 + Z.quot (tv_nsec d) 1000 = ns_of d / 1000.
Proof.
  intros Hd. rewrite Z.quot_div_nonneg by lia. time_unfold.
  replace (tv_sec d * 1000000000 + tv_nsec d) with (tv_nsec d + tv_sec d * 1000000 * 1000) by lia.
  rewrite Z.div_add by lia. lia.
Qed.

Lemma wp_timer_next_timespec s x xs tm now p1 ts0 (Q : Z * timespec -> tqueue A P -> Prop) :
  cells (tq_heap s) (x :: xs) -> tq_lock s = false -> timers s !! x = Some tm ->
  sys_gettime (tq_signal s).2 = Ok (Some now, p1) -> near now -> near (t_timeout tm) ->
  (forall r, ns_of r = Z.max 0 (ns_of (t_timeout tm) - ns_of now) -> 0 <= tv_nsec r < NSEC_PER_SEC ->
     Q (1, r) (set_signal ((tq_signal s).1, p1) s)) ->
  wp (timer_next_timeout_timespec ts0) Q s.
Proof.
  intros Hc Hlk Hx Hclk Hnow Htm HQ. destruct (near_sub _ _ Htm Hnow) as (d & Hsub & Hn & Hns & Hsec).
  unfold timer_next_timeout_timespec. rewrite wp_bind. apply wp_tq_lock; [done|].
  rewrite wp_bind, wp_on_heap. eapply wp_heap_empty; [exact Hc|]. rewrite bool_decide_false by done.
  cbn iota. rewrite wp_bind. eapply wp_gettime; [exact Hclk|]. wp_simpl. exists now. split; [done|].
  wp_simpl. rewrite wp_on_heap. eapply wp_heap_front; [exact Hc|]. wp_simpl. exists tm. split; [exact Hx|].
  wp_simpl. exists d. split; [done|]. wp_simpl. apply wp_tq_unlock; [done|]. wp_simpl. tq_simpl.
  destruct s as [h lk sg thr]. simpl in Hlk. subst lk.
  apply HQ; destruct (Z.ltb_spec (tv_sec d) 0); cbn [tv_sec tv_nsec]; time_unfold; lia.
Qed.

(** [timer_next_timeout] is its two halves. *)
Lemma next_timeout_halves fuel v0 s :
  timer_next_timeout fuel v0 s = (r ← next_timeout_locked; next_timeout_unlocked fuel v0 r) s.
Proof.
  unfold timer_next_timeout, next_timeout_locked, next_timeout_unlocked, mbind, M_bind.
  destruct (tq_mutex_lock s) as [[[] s1]| | |]; [|done..].
  destruct (on_heap heap_empty s1) as [[[] s2]| | |]; [| |done..].
  { by destruct (tq_mutex_unlock s2) as [[[] s3]| | |]. }
  destruct (gettime s2) as [[now s3]| | |]; [|done..].
  destruct (of_option now s3) as [[ts s4]| | |]; [|done..].
  destruct (on_heap heap_front s4) as [[t s5]| | |]; [|done..].
  destruct (load_timer t s5) as [[tm s6]| | |]; [|done..].
  destruct (lift (timespec_sub _ _) s6) as [[d s7]| | |]; [|done..].
  destruct (lift (long (_ * _)) s7) as [[us s8]| | |]; [|done..].
  destruct (lift (long (_ + _)) s8) as [[us' s9]| | |]; [|done..].
  by destruct (tq_mutex_unlock s9) as [[[] s10]| | |].
Qed.

Lemma wp_next_locked_empty s (Q : option Z -> tqueue A P -> Prop) :
  cells (tq_heap s) [] -> tq_lock s = false -> Q None s -> wp next_timeout_locked Q s.
Proof.
  intros Hc Hlk HQ. unfold next_timeout_locked. rewrite wp_bind. apply wp_tq_lock; [done|].
  rewrite wp_bind, wp_on_heap. eapply wp_heap_empty; [exact Hc|]. rewrite bool_decide_true by done.
  wp_simpl. apply wp_tq_unlock; [done|]. wp_simpl. destruct s as [h lk sg thr]. simpl in Hlk. by subst lk.
Qed.

Lemma wp_next_locked s x xs tm now p1 (Q : option Z -> tqueue A P -> Prop) :
  cells (tq_heap s) (x :: xs) -> tq_lock s = false -> timers s !! x = Some tm ->
  sys_gettime (tq_signal s).2 = Ok (Some now, p1) -> near now -> near (t_timeout tm) ->
  Q (Some ((ns_of (t_timeout tm) - ns_of now) / 1000)) (set_signal ((tq_signal s).1, p1) s) ->
  wp next_timeout_locked Q s.
Proof.
  intros Hc Hlk Hx Hclk Hnow Htm HQ.
  destruct (near_sub _ _ Htm Hnow) as (d & Hsub & Hn & Hns & Hsec).
  assert (0 <= Z.quot (tv_nsec d) 1000 < 1000000) as Hus.
  { rewrite Z.quot_div_nonneg by lia. unfold NSEC_PER_SEC in Hn. split; [apply Z.div_pos; lia|].
    apply Z.div_lt_upper_bound; lia. }
  unfold next_timeout_locked. rewrite wp_bind. apply wp_tq_lock; [done|].
  rewrite wp_bind, wp_on_heap. eapply wp_heap_empty; [exact Hc|]. rewrite bool_decide_false by done.
  cbn iota. rewrite wp_bind. eapply wp_gettime; [exact Hclk|]. wp_simpl. exists now. split; [done|].
  wp_simpl. rewrite wp_on_heap. eapply wp_heap_front; [exact Hc|]. wp_simpl. exists tm. split; [exact Hx|].
  wp_simpl. exists d. split; [done|]. wp_simpl.
  eexists. split; [apply long_ok; lia|]. wp_simpl.
  eexists. split; [apply long_ok; lia|].
  wp_simpl. apply wp_tq_unlock; [done|]. wp_simpl. rewrite usec_of, Hns by done.
  destruct s as [h lk sg thr]. simpl in Hlk. by subst lk.
Qed.

(** The second half clears the signal. *)
Lemma wp_next_unlocked s q fuel v0 r (Q : Z * Z -> tqueue A P -> Prop) :
  pending (tq_signal s) = Some q -> (capacity + 1 < fuel)%nat ->
  (forall p', queue p' (fd0 (tq_signal s).1) (fd1 (tq_signal s).1) = Some [] ->
     Q (next_timeout_answer v0 r) (set_signal ((tq_signal s).1, p') s)) ->
  wp (next_timeout_unlocked fuel v0 r) Q s.
Proof.
  intros Hq Hf HQ. unfold next_timeout_unlocked. rewrite wp_bind. eapply wp_tq_lower; [done..|].
  intros p' Hp'. rewrite wp_ret. by apply HQ.
Qed.

Lemma wp_timer_next_timeout s x xs tm now p1 q fuel v0 (Q : Z * Z -> tqueue A P -> Prop) :
  cells (tq_heap s) (x :: xs) -> tq_lock s = false -> timers s !! x = Some tm ->
  sys_gettime (tq_signal s).2 = Ok (Some now, p1) -> near now -> near (t_timeout tm) ->
  queue p1 (fd0 (tq_signal s).1) (fd1 (tq_signal s).1) = Some q -> (capacity + 1 < fuel)%nat ->
  (forall s', pending (tq_signal s') = Some [] -> tq_heap s' = tq_heap s -> tq_lock s' = false ->
     Q (1, u64 ((ns_of (t_timeout tm) - ns_of now) / 1000)) s') ->
  wp (timer_next_timeout fuel v0) Q s.
Proof.
  intros Hc Hlk Hx Hclk Hnow Htm Hq Hfuel HQ. unfold wp. rewrite next_timeout_halves.
  change (wp (r ← next_timeout_locked; next_timeout_unlocked fuel v0 r) Q s).
  rewrite wp_bind. eapply wp_next_locked; [done..|]. eapply wp_next_unlocked; [exact Hq|done|].
  intros p' Hp'. by apply HQ.
Qed.

(** C34: with a timer queued, the two functions report the time from now to the
    time-out of the timer at the front of the heap, in whole microseconds and in
    a timespec; but once that time-out has passed, [timer_next_timeout] gives
    the negative number of microseconds as an [unsigned long], at least [2^63],
    where the timespec variant gives zero. *)
Theorem timer_next_timeout_remaining s x xs tm now p1 q fuel v0 ts0 :
  cells (tq_heap s) (x :: xs) -> tq_lock s = false -> timers s !! x = Some tm ->
  sys_gettime (tq_signal s).2 = Ok (Some now, p1) -> near now -> near (t_timeout tm) ->
  queue p1 (fd0 (tq_signal s).1) (fd1 (tq_signal s).1) = Some q -> (capacity + 1 < fuel)%nat ->
  let d := ns_of (t_timeout tm) - ns_of now in
  exists v s1 r s2,
    timer_next_timeout fuel v0 s = Ok ((1, v), s1) /\
    timer_next_timeout_timespec ts0 s = Ok ((1, r), s2) /\
    ns_of r = Z.max 0 d /\
    (0 <= d -> v = d / 1000) /\ (d < 0 -> 2 ^ 63 <= v < 2 ^ 64) /\
    tq_lock s1 = false /\ tq_lock s2 = false.
Proof.
  intros Hc Hlk Hx Hclk Hnow Htm Hq Hfuel d.
  enough (wp (timer_next_timeout fuel v0) (fun r s1 => r = (1, u64 (d / 1000)) /\ tq_lock s1 = false) s /\
          wp (timer_next_timeout_timespec ts0)
            (fun r s2 => r.1 = 1 /\ ns_of r.2 = Z.max 0 d /\ tq_lock s2 = false) s)
    as [(v & s1 & E1 & -> & ?)%wp_run ([? r] & s2 & E2 & Hr1 & Hr2 & ?)%wp_run].
  { simpl in *. subst. exists (u64 (d / 1000)), s1, r, s2. split_and!; try done.
    - intros Hd. apply u64_id. pose proof (near_usec _ _ Htm Hnow) as Hb. fold d in Hb.
      split; [apply Z.div_pos; lia|lia].
    - intros Hd. apply u64_negative. pose proof (near_usec _ _ Htm Hnow) as Hb. fold d in Hb.
      split; [lia|]. apply Z.div_lt_upper_bound; lia. }
  split.
  - eapply wp_timer_next_timeout; [done..|]. by intros.
  - eapply wp_timer_next_timespec; [done..|]. intros r Hr _. done.
Qed.

(** [timer_queue_signal_lower] always answers [TIMER_SIGNAL_NONE], also when a
    signal was pending, because [signal_clear_val] never reports one; the signal
    itself is cleared. *)
Theorem timer_queue_signal_lower_none s q fuel :
  pending (tq_signal s) = Some q -> (capacity + 1 < fuel)%nat ->
  exists s', timer_queue_signal_lower fuel s = Ok (TIMER_SIGNAL_NONE, s') /\
    pending (tq_signal s') = Some [] /\ tq_heap s' = tq_heap s.
Proof.
  intros Hq Hf.
  enough (wp (timer_queue_signal_lower fuel) (fun r s' => r = TIMER_SIGNAL_NONE /\
    pending (tq_signal s') = Some [] /\ tq_heap s' = tq_heap s) s)
    as (r & s' & E & -> & ?)%wp_run by eauto.
  eapply wp_tq_lower; [done..|]. by intros.
Qed.
End Next.

(** ** Expiry and destruction *)
Section Expiry.
Context {A P : Type} `{AllocatorLaws A} `{PipeLaws P} `{Clock P}.
Context (code : Z -> addr -> M (tqueue A P) unit).
Implicit Types (s : tqueue A P) (t : addr) (tm : timer).

(** Taking the first timer off the heap. *)
Lemma wp_remove_front s x xs (Q : addr -> tqueue A P -> Prop) :
  cells (tq_heap s) (x :: xs) -> cmp (hp (tq_heap s)) = heap_cmp ->
  (forall h ys, removed (tq_heap s) h (x :: xs) ys 0 x -> ys ≡ₚ xs -> Q x (set_heap h s)) ->
  wp (on_heap heap_remove_first) Q s.
Proof.
  intros Hc Hcmp HQ. rewrite wp_on_heap. unfold heap_remove_first.
  assert (CmpOk (cmp (hp (tq_heap s)))) by (rewrite Hcmp; apply _).
  eapply wp_mono; [by apply (wp_heap_remove _ (x :: xs) 0 x)|].
  intros r h [-> Hr]. eapply HQ; [exact Hr|].
  apply (Permutation_cons_inv (a := x)). by rewrite sift_down_Permutation, replaced_Permutation.
Qed.

(** A timer keeps everything but its place in the heap. *)
Lemma removed_timer (h h' : hstate timer A) xs ys x y tm :
  removed h h' xs ys 0 x -> objs h !! y = Some tm ->
  exists tm', objs h' !! y = Some tm' /\ t_callback tm' = t_callback tm /\ t_destruct tm' = t_destruct tm.
Proof.
  intros Hr Hy. pose proof (rm_payload _ _ _ _ _ _ Hr y) as Hp. rewrite Hy in Hp.
  destruct (objs h' !! y) as [tm'|]; [|done]. injection Hp as ? ? Hcb Hd ?. eauto.
Qed.

Lemma handle_halves s :
  timer_handle_timeout code s = (r ← handle_locked; handle_unlocked code r) s.
Proof.
  unfold timer_handle_timeout, handle_locked, handle_unlocked, mbind, M_bind.
  destruct (tq_mutex_lock s) as [[[] s1]| | |]; [|done..].
  destruct (on_heap heap_empty s1) as [[[] s2]| | |]; [| |done..].
  { by destruct (tq_mutex_unlock s2) as [[[] s3]| | |]. }
  destruct (on_heap heap_remove_first s2) as [[t s3]| | |]; [|done..].
  by destruct (tq_mutex_unlock s3) as [[[] s4]| | |].
Qed.

Lemma wp_handle_locked s xs (Q : option addr -> tqueue A P -> Prop) :
  cells (tq_heap s) xs -> cmp (hp (tq_heap s)) = heap_cmp -> tq_lock s = false ->
  match xs with
  | [] => Q None s
  | x :: xs' => forall h ys, removed (tq_heap s) h xs ys 0 x -> ys ≡ₚ xs' -> Q (Some x) (set_heap h s)
  end ->
  wp handle_locked Q s.
Proof.
  intros Hc Hcmp Hlk HQ. unfold handle_locked. rewrite wp_bind. apply wp_tq_lock; [done|].
  rewrite wp_bind, wp_on_heap. eapply wp_heap_empty; [exact Hc|]. destruct xs as [|x xs].
  - rewrite bool_decide_true by done. cbn iota. rewrite wp_bind. apply wp_tq_unlock; [done|].
    rewrite wp_ret. destruct s. simpl in *. by subst.
  - rewrite bool_decide_false by done. cbn iota. rewrite wp_bind. tq_simpl.
    eapply wp_remove_front; [exact Hc|exact Hcmp|]. intros h ys Hr Hys. rewrite wp_bind.
    apply wp_tq_unlock; [done|]. rewrite wp_ret. specialize (HQ h ys Hr Hys). destruct s. simpl in *. by subst.
Qed.

(** With a timer at the front: its callback runs after everything else. *)
Lemma run_handle_front s x xs' :
  cells (tq_heap s) (x :: xs') -> cmp (hp (tq_heap s)) = heap_cmp -> tq_lock s = false ->
  exists tm s1 ys, timers s !! x = Some tm /\
    cells (tq_heap s1) ys /\ ys ≡ₚ xs' /\ tq_lock s1 = false /\
    active_of (timers s1) x = Some 0 /\ tq_signal s1 = tq_signal s /\
    timer_handle_timeout code s =
      (match t_callback tm with Some f => code f x | None => mret tt end;; mret 0) s1.
Proof.
  intros Hc Hcmp Hlk. destruct (c_objs _ _ Hc x) as [tm Htm]; [by left|].
  assert (wp handle_locked (fun r s1 => r = Some x /\ exists h ys, s1 = set_heap h s /\
    removed (tq_heap s) h (x :: xs') ys 0 x /\ ys ≡ₚ xs') s) as (r & s1 & E & -> & h & ys & -> & Hr & Hys)%wp_run.
  { eapply wp_handle_locked; [done..|]. simpl. eauto 8. }
  destruct (removed_timer _ _ _ _ _ _ _ Hr Htm) as (tm' & Htm' & Hcb & _).
  exists tm, (set_heap h s), ys. split_and!; try done; [apply Hr|apply Hr|].
  rewrite handle_halves, (run_bind _ _ _ _ _ E). unfold handle_unlocked.
  assert (load_timer x (set_heap h s) = Ok (tm', set_heap h s)) as Hload.
  { apply wp_eq. rewrite wp_load_timer. exists tm'. by split. }
  rewrite (run_bind _ _ _ _ _ Hload). by rewrite Hcb.
Qed.

(** C18: [timer_handle_timeout] on an empty queue returns -1; otherwise it takes
    the timer at the front off the heap, marks it as not scheduled, releases the
    mutex and only then calls its callback, so that the callback may use the
    queue. *)
Theorem timer_handle_timeout_correct s xs :
  cells (tq_heap s) xs -> cmp (hp (tq_heap s)) = heap_cmp -> tq_lock s = false ->
  match xs with
  | [] => timer_handle_timeout code s = Ok (-1, s)
  | x :: xs' => exists tm s1 ys, timers s !! x = Some tm /\
      cells (tq_heap s1) ys /\ ys ≡ₚ xs' /\ tq_lock s1 = false /\
      active_of (timers s1) x = Some 0 /\ tq_signal s1 = tq_signal s /\
      timer_handle_timeout code s =
        (match t_callback tm with Some f => code f x | None => mret tt end;; mret 0) s1
  end.
Proof.
  intros Hc Hcmp Hlk. destruct xs as [|x xs'].
  - rewrite handle_halves. assert (handle_locked s = Ok (None, s)) as E.
    { apply wp_eq. by eapply wp_handle_locked. }
    by rewrite (run_bind _ _ _ _ _ E).
  - by apply run_handle_front.
Qed.

(** The contract of a destructor: it touches only its own timer, which it may
    free, and no other block, and the system keeps a record of the calls. *)
Class Destructors (calls : P -> list addr) : Prop :=
  destructor_spec f t s : is_Some (timers s !! t) ->
    wp (code f t) (fun _ s' =>
      hp (tq_heap s') = hp (tq_heap s) /\ tq_lock s' = tq_lock s /\
      (forall p, p <> t -> timers s' !! p = timers s !! p) /\
      blocks (arena_of (tq_heap s)) ∖ {[t]} ⊆ blocks (arena_of (tq_heap s')) /\
      calls (tq_signal s').2 = calls (tq_signal s).2 ++ [t]) s.

Definition has_destruct s (x : addr) : bool :=
  match timers s !! x with
  | Some tm => match t_destruct tm with Some _ => true | None => false end
  | None => false
  end.

Lemma cells_outside (h h' : hstate timer A) xs :
  cells h xs -> hp h' = hp h -> (forall x, x ∈ xs -> is_Some (objs h !! x) -> is_Some (objs h' !! x)) ->
  cells h' xs.
Proof. intros [] Hhp Ho. split; rewrite ?Hhp; auto. Qed.

Lemma wp_destroy_loop calls `{!Destructors calls} fuel s xs (Q : unit -> tqueue A P -> Prop) :
  cells (tq_heap s) xs -> cmp (hp (tq_heap s)) = heap_cmp -> (length xs < fuel)%nat ->
  (forall s' l, cells (tq_heap s') [] -> tq_lock s' = tq_lock s ->
     map_ptr (hp (tq_heap s')) = map_ptr (hp (tq_heap s)) ->
     (forall b, b ∉ xs -> b ∈ blocks (arena_of (tq_heap s)) -> b ∈ blocks (arena_of (tq_heap s'))) ->
     calls (tq_signal s').2 = calls (tq_signal s).2 ++ l ->
     l ≡ₚ filter (fun x => has_destruct s x = true) xs -> Q tt s') ->
  wp (destroy_loop code fuel) Q s.
Proof.
  revert s xs Q. induction fuel as [|fuel IH]; intros s xs Q Hc Hcmp Hfuel HQ; [lia|].
  cbn [destroy_loop]. rewrite wp_bind, wp_on_heap. eapply wp_heap_empty; [exact Hc|].
  destruct xs as [|x xs].
  - rewrite bool_decide_true by done. cbn iota. rewrite wp_ret.
    apply (HQ _ []); [exact Hc|done|done|done|by rewrite app_nil_r|done].
  - rewrite bool_decide_false by done. cbn iota. rewrite wp_bind. 
    replace (set_heap (tq_heap s) s) with s by by destruct s.
    eapply wp_remove_front; [exact Hc|done|]. intros h ys Hr Hys.
    destruct (c_objs _ _ Hc x) as [tm Htm]; [by left|].
    destruct (removed_timer _ _ _ _ _ _ _ Hr Htm) as (tm' & Htm' & _ & Hd).
    rewrite wp_bind, wp_load_timer. exists tm'. split; [exact Htm'|].
    assert (length ys = length xs) as Hlen by by rewrite Hys.
    assert (x ∉ ys) as Hxy.
    { rewrite Hys. pose proof (c_nodup _ _ Hc) as [? _]%NoDup_cons. done. }
    set (s1 := set_heap h s).
    assert (forall y, y ∈ ys -> is_Some (objs h !! y) /\
      forall s2, timers s2 !! y = objs h !! y -> has_destruct s2 y = has_destruct s y) as Hsame.
    { intros y Hy. destruct (c_objs _ _ Hc y) as [ty Hty]; [right; by rewrite <-Hys|].
      destruct (removed_timer _ _ _ _ _ _ _ Hr Hty) as (ty' & Hty' & _ & Hdy).
      split; [eauto|]. intros s2 Hs2. unfold has_destruct. rewrite Hs2, Hty', Hdy.
      change (timers s) with (objs (tq_heap s)). by rewrite Hty. }
    assert (has_destruct s x = true <-> t_destruct tm <> None) as Hdx.
    { unfold has_destruct. change (timers s) with (objs (tq_heap s)). rewrite Htm.
      by destruct (t_destruct tm). }
    rewrite wp_bind. 
    eapply wp_mono with (Q := fun _ s2 => hp (tq_heap s2) = hp h /\ tq_lock s2 = tq_lock s /\
      (forall p, p <> x -> timers s2 !! p = objs h !! p) /\
      (forall b, b <> x -> b ∈ blocks (arena_of h) -> b ∈ blocks (arena_of (tq_heap s2))) /\
      calls (tq_signal s2).2 = calls (tq_signal s).2 ++ (if t_destruct tm is Some _ then [x] else [])).
    { rewrite Hd. destruct (t_destruct tm) as [f|].
      - eapply wp_mono; [apply (destructor_spec f x s1); eauto|].
        intros [] s2 (? & ? & ? & Hb & ?). split_and!; try done. intros b Hbx Hbh. apply Hb.
        apply elem_of_difference. split; [done|]. by rewrite elem_of_singleton.
      - rewrite wp_ret. by rewrite app_nil_r. }
    intros [] s2 (Hhp2 & Hlk2 & Ho2 & Hb2 & Hcalls2).
    simpl in Hfuel. apply (IH s2 ys); [| |lia|].
    + eapply cells_outside; [apply Hr|done|]. intros y Hy.
      change (objs (tq_heap s2)) with (timers s2). rewrite Ho2 by (by intros ->). done.
    + rewrite Hhp2, (rm_hp _ _ _ _ _ _ Hr). exact Hcmp.
    + intros s' l Hc' Hlk' Hmp Hb' Hcalls Hl.
      apply (HQ _ ((if t_destruct tm is Some _ then [x] else []) ++ l)); [done|congruence| | | |].
      * by rewrite Hmp, Hhp2, (rm_hp _ _ _ _ _ _ Hr).
      * intros b [Hbx Hbxs]%not_elem_of_cons Hb. apply Hb'; [by rewrite Hys|].
        apply Hb2; [done|]. by rewrite (rm_arena _ _ _ _ _ _ Hr).
      * by rewrite Hcalls, Hcalls2, (assoc_L app).
      * rewrite Hl, (filter_agree _ (has_destruct s)); cycle 1.
        { intros y Hy. apply Hsame; [done|]. apply Ho2. by intros ->. }
        rewrite filter_cons, Hys. case_decide as Hdec; rewrite Hdx in Hdec;
          destruct (t_destruct tm); naive_solver.
Qed.

(** [timer_list_destroy] returns with an empty queue and a free mutex, after
    calling the destructor of every queued timer that has one, once. *)
Theorem timer_list_destroy_all calls `{!Destructors calls} fuel s xs :
  cells (tq_heap s) xs -> cmp (hp (tq_heap s)) = heap_cmp -> tq_lock s = false ->
  (length xs < fuel)%nat ->
  exists s' l, timer_list_destroy code fuel s = Ok (tt, s') /\ size (hp (tq_heap s')) = 0 /\ tq_lock s' = false /\ calls (tq_signal s').2 = calls (tq_signal s).2 ++ l /\ l ≡ₚ filter (fun x => has_destruct s x = true) xs.
Proof.
  intros Hc Hcmp Hlk Hfuel.
  enough (wp (timer_list_destroy code fuel) (fun _ s' => exists l, size (hp (tq_heap s')) = 0 /\ tq_lock s' = false /\ calls (tq_signal s').2 = calls (tq_signal s).2 ++ l /\ l ≡ₚ filter (fun x => has_destruct s x = true) xs) s)
    as ([] & s' & E & l & ?)%wp_run by eauto.
  unfold timer_list_destroy. rewrite wp_bind. apply wp_tq_lock; [done|]. rewrite wp_bind.
  eapply (wp_destroy_loop calls fuel (set_lock true s) xs); [done..|].
  intros s' l Hc' Hlk' _ _ Hcalls Hl. apply wp_tq_unlock; [done|]. exists l.
  split_and!; [apply (c_size _ _ Hc')|done|done|exact Hl].
Qed.
End Expiry.

(** ** Witnesses

    A system with a pipe, a clock that stands still and a log of destructor
    calls. *)
Record system := mk_system { sys_fifo : list Z; sys_now : timespec; sys_log : list addr }.

Definition on_fifo {B} (m : M (list Z) B) : M system B :=
  zoom sys_fifo (fun q y => mk_system q (sys_now y) (sys_log y)) m.

#[export] Instance system_pipe : Pipe system := {
  sys_pipe := on_fifo sys_pipe;
  sys_nonblock fd := on_fifo (sys_nonblock fd);
  sys_close fd := on_fifo (sys_close fd);
  sys_read fd := on_fifo (sys_read fd);
  sys_poll fd t := on_fifo (sys_poll fd t);
  sys_write fd v := on_fifo (sys_write fd v);
  queue y := queue (sys_fifo y);
  capacity := fifo_capacity;
}.

#[export] Instance system_laws : PipeLaws system.
Proof.
  assert (forall B (m : M (list Z) B) y v p', m (sys_fifo y) = Ok (v, p') ->
    on_fifo m y = Ok (v, mk_system p' (sys_now y) (sys_log y))) as Hon.
  { intros B m y v p' E. unfold on_fifo, zoom. by rewrite E. }
  split.
  - intros y r w q Hq. pose proof (read_law (sys_fifo y) r w q Hq) as Hl. destruct q as [|v q].
    + apply Hon in Hl. by destruct y.
    + destruct Hl as (p' & E & ?). apply Hon in E. eauto.
  - intros y r w q t Hq. destruct (poll_law (sys_fifo y) r w q t Hq) as (n & p' & l & E & Hl).
    apply Hon in E. eauto 8.
  - intros y r w v Hq. destruct (write_law (sys_fifo y) r w v Hq) as (p' & E & Hl).
    apply Hon in E. eauto.
  - intros y r w q Hq. apply (capacity_law (sys_fifo y) r w q Hq).
Qed.

#[export] Instance system_clock : Clock system := fun y => Ok (Some (sys_now y), y).

(** The functions behind the pointers: each writes the timer to the log. *)
Definition demo_code (f : Z) (t : addr) : M (tqueue arena system) unit :=
  modify (fun s => set_signal ((tq_signal s).1,
    mk_system (sys_fifo (tq_signal s).2) (sys_now (tq_signal s).2) (sys_log (tq_signal s).2 ++ [t])) s).

#[export] Instance demo_destructors : Destructors demo_code sys_log.
Proof. intros f t s Ht. unfold demo_code. rewrite wp_modify. split_and!; try done. set_solver. Qed.

(** Thread 1's queue: timers at 16 and 32, due at 5 s and 9 s; the timer at 48
    is not scheduled. It is 7 s, and [q] is in the pipe. *)
Definition demo_timers : hstate timer arena :=
  mk_hstate (mk_heap 4 2 heap_cmp 8 [Some 16; Some 32; None; None])
    (list_to_map [(16, mk_timer (mk_item 0 1) (mk_timespec 5 0) 0 (Some 1) (Some 2) 0);
                  (32, mk_timer (mk_item 1 1) (mk_timespec 9 0) 0 None None 0);
                  (48, mk_timer (mk_item 0 0) (mk_timespec 0 0) 1500000 None None 0)])
    (mk_arena 4000 {[8]}).
Definition demo_tq (q : list Z) : tqueue arena system :=
  mk_tq demo_timers false (mk_signal 3 4 0, mk_system q (mk_timespec 7 500000000) []) 1.

Lemma demo_timers_wf : heap_wf demo_timers [16; 32].
Proof.
  split.
  - split; [done| | | |vm_compute; done].
    + intros [|[|i]] x; simpl; intros; by simplify_eq.
    + intros x Hx. apply list_elem_of_In in Hx. simpl in Hx.
      destruct Hx as [<-|[<-|[]]]; vm_compute; eauto.
    + apply NoDup_ListNoDup. repeat constructor; simpl; lia.
  - intros [|[|k]] x; simpl; intros; by simplify_eq.
  - intros x Hx. apply list_elem_of_In in Hx. simpl in Hx.
    destruct Hx as [<-|[<-|[]]]; vm_compute; done.
  - done.
  - vm_compute. done.
  - split; [done|]. vm_compute. done.
Qed.

(** Thread 2 adds a timer for 9 s: the later one goes to the front. *)
Lemma timer_add_correct_witness :
  exists r s', timer_add 2 48 (demo_tq []) = Ok (r, s') /\ r = 1 /\
    exists ys, heap_wf (tq_heap s') ys /\ ys ≡ₚ [48; 16; 32].
Proof.
  destruct (timer_add_correct 2 (demo_tq []) [16; 32] 48
    (mk_timer (mk_item 0 0) (mk_timespec 0 0) 1500000 None None 0) (mk_timespec 7 500000000)
    (mk_system [] (mk_timespec 7 500000000) []) []) as (r & s' & E & _ & Hr).
  - exact demo_timers_wf.
  - reflexivity.
  - simpl. lia.
  - reflexivity.
  - reflexivity.
  - reflexivity.
  - intros H. apply list_elem_of_In in H. simpl in H. lia.
  - reflexivity.
  - reflexivity.
  - vm_compute. split; [split; [discriminate|reflexivity]|split; discriminate].
  - vm_compute. split; [discriminate|reflexivity].
  - exists r, s'. split; [exact E|]. destruct Hr as [[_ Hfull]|(-> & ys & tm & Hwf & Hp & _)].
    + vm_compute in Hfull. discriminate.
    + split; [reflexivity|]. exists ys. split; [exact Hwf|exact Hp].
Defined.

Lemma timer_mod_guards_witness :
  timer_add 1 16 (demo_tq []) = Ok (-1, demo_tq []) /\
  timer_mod 1 48 5 (demo_tq []) = timer_mod 1 48 7000 (demo_tq []).
Proof.
  split.
  - destruct (timer_mod_guards 1 (demo_tq []) 16
      (mk_timer (mk_item 0 1) (mk_timespec 5 0) 0 (Some 1) (Some 2) 0) 0 0) as [H _]; [reflexivity|].
    apply H. discriminate.
  - destruct (timer_mod_guards 1 (demo_tq []) 48
      (mk_timer (mk_item 0 0) (mk_timespec 0 0) 1500000 None None 0) 5 7000) as [_ H]; [reflexivity|].
    apply H. reflexivity.
Defined.

(** The timer at the front was due 2.5 s ago. *)
Lemma timer_next_timeout_remaining_witness :
  exists v s1, timer_next_timeout 20 0 (demo_tq [0]) = Ok ((1, v), s1) /\ 2 ^ 63 <= v.
Proof.
  destruct (timer_next_timeout_remaining (demo_tq [0]) 16 [32]
    (mk_timer (mk_item 0 1) (mk_timespec 5 0) 0 (Some 1) (Some 2) 0) (mk_timespec 7 500000000)
    (mk_system [0] (mk_timespec 7 500000000) []) [0] 20 0 (mk_timespec 0 0))
    as (v & s1 & r & s2 & E & _ & _ & _ & Hv & _).
  - exact (hw_cells _ _ demo_timers_wf).
  - reflexivity.
  - reflexivity.
  - reflexivity.
  - vm_compute. split; split; congruence.
  - vm_compute. split; split; congruence.
  - reflexivity.
  - vm_compute. lia.
  - exists v, s1. split; [exact E|]. apply Hv. vm_compute. reflexivity.
Defined.

Lemma timer_queue_signal_lower_none_witness :
  exists s', timer_queue_signal_lower 20 (demo_tq [1; 1]) = Ok (TIMER_SIGNAL_NONE, s') /\
    pending (tq_signal s') = Some [].
Proof.
  destruct (timer_queue_signal_lower_none (demo_tq [1; 1]) [1; 1] 20) as (s' & E & Hp & _).
  - reflexivity.
  - vm_compute. lia.
  - exists s'. split; [exact E|exact Hp].
Defined.

Lemma timer_handle_timeout_correct_witness :
  exists s1, timer_handle_timeout demo_code (demo_tq []) = (demo_code 1 16;; mret 0) s1 /\
    tq_lock s1 = false /\ active_of (timers s1) 16 = Some 0.
Proof.
  destruct (timer_handle_timeout_correct demo_code (demo_tq []) [16; 32])
    as (tm & s1 & ys & Htm & _ & _ & Hlk & Hact & _ & E).
  - exact (hw_cells _ _ demo_timers_wf).
  - reflexivity.
  - reflexivity.
  - exists s1. split; [|split; [exact Hlk|exact Hact]].
    rewrite E. vm_compute in Htm. injection Htm as <-. reflexivity.
Defined.

Lemma timer_list_destroy_all_witness :
  exists s' l, timer_list_destroy demo_code 20 (demo_tq []) = Ok (tt, s') /\
    sys_log (tq_signal s').2 = l /\ l ≡ₚ [16].
Proof.
  destruct (timer_list_destroy_all demo_code sys_log 20 (demo_tq []) [16; 32])
    as (s' & l & E & _ & _ & Hc & Hl).
  - exact (hw_cells _ _ demo_timers_wf).
  - reflexivity.
  - reflexivity.
  - simpl. lia.
  - exists s', l. split; [exact E|split; [exact Hc|exact Hl]].
Defined.
