(* ===== verification/TimerQueue.v ===== *)
(** The timer queue in use: what the functions of Timer.v make of one another. *)
From S2P Require Import Prelude Malloc Time HeapSpec Heap Signal Timer.

(** [clock_gettime] succeeds, gives a normalised time after the clock's start, less
    than 2^39 seconds after it, and has no effect on the pipe. *)
Class ClockLaws (P : Type) `{Pipe P, Clock P} : Prop :=
  clock_law p : exists now p', sys_gettime p = Ok (Some now, p') /\
    0 <= tv_nsec now < NSEC_PER_SEC /\ 0 <= tv_sec now < 2 ^ 39 /\
    forall r w, queue p' r w = queue p r w.

(** ** The order in which timers fire *)
Section Order.
Context {A P : Type} `{AllocatorLaws A} `{PipeLaws P} `{Clock P} `{!ClockLaws P}.
Context (self : Z) (code : Z -> addr -> M (tqueue A P) unit).
Implicit Types (s : tqueue A P) (t : addr) (tm : timer).

(** Adding one timer after another. *)
Fixpoint timer_add_all (ts : list addr) : M (tqueue A P) Z :=
  match ts with
  | [] => mret 1
  | t :: ts =>
      r ← timer_add self t;
      if r =? 1 then timer_add_all ts else mret r
  end.

(** A queue that has been filled by [timer_add] alone. *)
Record filled s (xs : list addr) : Prop := {
  fl_wf : heap_wf (tq_heap s) xs;
  fl_cmp : cmp (hp (tq_heap s)) = heap_cmp;
  fl_order : max_heap (item_lt heap_cmp (timers s)) xs;
  fl_lock : tq_lock s = false;
  fl_pipe : exists q, pending (tq_signal s) = Some q;
  fl_near x tm : x ∈ xs -> timers s !! x = Some tm -> near (t_timeout tm);
}.

(** A timer that can be added. *)
Definition addable s t : Prop :=
  exists tm, timers s !! t = Some tm /\ active (t_hi tm) = 0 /\ 0 <= t_expires tm * 1000 < 2 ^ 63.

(** The order of the heap depends on the timers in it only. *)
Lemma max_heap_agree (os os' : gmap addr timer) xs :
  (forall x, x ∈ xs -> os' !! x = os !! x) ->
  max_heap (item_lt heap_cmp os) xs -> max_heap (item_lt heap_cmp os') xs.
Proof.
  intros Hos Hm i p c Hi Hc Hp. unfold item_lt.
  rewrite !Hos by (by eapply list_elem_of_lookup_2). by eapply Hm.
Qed.

Lemma near_ns ts : 0 <= tv_nsec ts < NSEC_PER_SEC -> 0 <= ns_of ts < 2 ^ 69 -> near ts.
Proof. intros Hn Hs. split; [done|]. time_unfold. lia. Qed.

(** Adding one timer keeps the queue filled. *)
Lemma wp_add_filled s xs t (Q : Z -> tqueue A P -> Prop) :
  filled s xs -> addable s t -> t ∉ xs -> max_size (hp (tq_heap s)) < 2 ^ 31 - 102 ->
  (forall s', Z.of_nat (length xs) = max_size (hp (tq_heap s)) -> tq_lock s' = false -> Q (-1) s') ->
  (forall s' ys, filled s' ys -> ys ≡ₚ t :: xs ->
     max_size (hp (tq_heap s')) <= max_size (hp (tq_heap s)) + HEAP_DEFAULT_INCREASE_SIZE ->
     (forall y, y <> t -> addable s y -> y ∉ xs -> addable s' y) ->
     (forall q, pending (tq_signal s) = Some q -> pending (tq_signal s') =
        Some (if decide (tq_thr s <> self /\ ys !! 0%nat = Some t)
              then if decide (q = []) then [0] else q else q)) -> Q 1 s') ->
  wp (timer_add self t) Q s.
Proof.
  intros [Hwf Hcmp Hord Hlk [q Hq] Hnear] (tm & Ht & Hact & Hexp) Hout Hmax Hfail Hok.
  destruct (clock_law (tq_signal s).2) as (now & p1 & Hclk & Hn & Hs & Hq1).
  eapply (wp_timer_add self s xs t tm now p1 q); try done; [by rewrite Hq1|split; [done|lia]|..].
  intros s' ys tm0 tm' Hwf' Hys Hlk' Hpl [Hgo Hgc Hgm Hgf] Htm' Hn' Hns' Hfr Hp. apply (Hok s' ys); try done.
  - split; try done; [|by eexists|].
    + intros i p c Hi Hc Hpc. rewrite <-Hpl. eapply Hgo; [|done..].
      eapply max_heap_agree; [|exact Hord]. intros y Hy. apply lookup_insert_ne. by intros <-.
    + intros y ty Hy Hty. destruct (decide (y = t)) as [->|Hyt].
      * simplify_eq. apply near_ns; [done|]. rewrite Hns'. time_unfold. lia.
      * rewrite Hys in Hy. apply elem_of_cons in Hy as [?|Hy]; [done|]. specialize (Hfr y Hyt).
        rewrite Hty in Hfr. destruct (timers s !! y) as [ty0|] eqn:Hty0; [|done].
        injection Hfr as E _ _ _ _. rewrite E. by eapply Hnear.
  - intros y Hyt (ty & Hty & Hay & Hey) Hyx. exists ty. split_and!; try done; try lia.
    rewrite Hgf by (rewrite Hys; by intros [?|?]%elem_of_cons). tq_simpl. by rewrite lookup_insert_ne by done.
  - intros q' Hq'. rewrite Hq in Hq'. injection Hq' as <-. exact Hp.
Qed.

Lemma wp_add_all ts s xs :
  filled s xs -> NoDup (ts ++ xs) -> (forall t, t ∈ ts -> addable s t) ->
  max_size (hp (tq_heap s)) + HEAP_DEFAULT_INCREASE_SIZE * Z.of_nat (length ts) < 2 ^ 31 - 102 ->
  wp (timer_add_all ts) (fun r s' => tq_lock s' = false /\
    (r = -1 \/ r = 1 /\ exists ys, filled s' ys /\ ys ≡ₚ ts ++ xs)) s.
Proof.
  revert s xs. unfold HEAP_DEFAULT_INCREASE_SIZE.
  induction ts as [|t ts IH]; intros s xs Hf Hnd Hadd Hmax; cbn [timer_add_all length app] in *.
  { rewrite wp_ret. split; [apply Hf|]. right. split; [done|]. by exists xs. }
  apply NoDup_cons in Hnd as [Ht Hnd]. rewrite wp_bind. eapply wp_add_filled; [done| | |lia|..].
  - apply Hadd. by left.
  - set_solver.
  - intros s' _ Hlk. change (-1 =? 1) with false. rewrite wp_ret. split; [done|by left].
  - intros s' ys Hf' Hys Hmax' Hadd' _. rewrite Z.eqb_refl. unfold HEAP_DEFAULT_INCREASE_SIZE in Hmax'.
    eapply wp_mono; [apply (IH s' ys Hf'); [|intros y Hy|lia]|].
    + rewrite Hys, <-Permutation_middle. by apply NoDup_cons.
    + assert (y ∉ xs) by (intros ?; apply NoDup_app in Hnd as (_ & Hnd & _); by eapply Hnd).
      apply Hadd'; [set_solver|apply Hadd; by right|done].
    + intros r s2 [Hlk2 Hr]. split; [done|]. destruct Hr as [->|(-> & zs & Hz & Hzs)]; [by left|right].
      split; [done|]. exists zs. split; [done|]. by rewrite Hzs, Hys, <-Permutation_middle.
Qed.

(** The front of a filled queue. *)
Lemma filled_front s x xs :
  filled s (x :: xs) -> exists tm, timers s !! x = Some tm /\ near (t_timeout tm) /\
    forall y ty, y ∈ x :: xs -> timers s !! y = Some ty -> ns_of (t_timeout ty) <= ns_of (t_timeout tm).
Proof.
  intros [Hwf Hcmp Hord Hlk _ Hnear]. destruct (c_objs _ _ (hw_cells _ _ Hwf) x) as [tm Htm]; [by left|].
  exists tm. split; [done|]. split; [eapply Hnear; [by left|done]|]. intros y ty Hy Hty.
  apply max_heap_root in Hord; [|apply _]. rewrite Forall_forall in Hord. specialize (Hord y Hy).
  unfold item_lt in Hord. change (objs (tq_heap s)) with (timers s) in Htm. rewrite Htm, Hty in Hord.
  unfold heap_cmp in Hord. rewrite timespec_lt_ns in Hord; [|apply (Hnear x); [by left|done]|by apply (Hnear y)].
  apply bool_decide_eq_false in Hord. lia.
Qed.

(** C5: timers that are added to an empty queue fire in the wrong order. However
    many are added, and whenever: unless memory runs out, the front of the queue
    is the timer with the latest time-out. [timer_next_timeout_timespec] has the
    thread wait until that one is due, though others are due before, and
    [timer_handle_timeout] then calls its callback first. *)
Theorem timers_latest_first s ts ts0 :
  filled s [] -> ts <> [] -> NoDup ts -> (forall t, t ∈ ts -> addable s t) ->
  max_size (hp (tq_heap s)) + HEAP_DEFAULT_INCREASE_SIZE * Z.of_nat (length ts) < 2 ^ 31 - 102 ->
  exists r s', timer_add_all ts s = Ok (r, s') /\ tq_lock s' = false /\
    (r = -1 \/ r = 1 /\ exists x tm now p1 w s1 s2,
       x ∈ ts /\ timers s' !! x = Some tm /\
       (forall y ty, y ∈ ts -> timers s' !! y = Some ty -> ns_of (t_timeout ty) <= ns_of (t_timeout tm)) /\
       sys_gettime (tq_signal s').2 = Ok (Some now, p1) /\
       timer_next_timeout_timespec ts0 s' = Ok ((1, w), s1) /\
       ns_of w = Z.max 0 (ns_of (t_timeout tm) - ns_of now) /\
       timer_handle_timeout code s' =
         (match t_callback tm with Some f => code f x | None => mret tt end;; mret 0) s2 /\
       tq_lock s2 = false).
Proof.
  intros Hf Hne Hnd Hadd Hmax.
  destruct (proj1 (wp_run _ _ _) (wp_add_all ts s [] Hf ltac:(by rewrite app_nil_r) Hadd Hmax))
    as (r & s' & E & Hlk & Hr).
  exists r, s'. split; [done|]. split; [done|]. destruct Hr as [->|(-> & ys & Hf' & Hys)]; [by left|right].
  split; [done|]. rewrite app_nil_r in Hys.
  destruct ys as [|x ys]; [by apply Permutation_nil_l in Hys; subst|].
  destruct (filled_front s' x ys Hf') as (tm & Htm & Hnear & Hlast).
  destruct (clock_law (tq_signal s').2) as (now & p1 & Hclk & Hn & Hs & _).
  pose proof (hw_cells _ _ (fl_wf _ _ Hf')) as Hc.
  destruct (run_handle_front code s' x ys Hc (fl_cmp _ _ Hf') Hlk)
    as (tm' & s2 & zs & Htm' & _ & _ & Hlk2 & _ & _ & Eh).
  rewrite Htm in Htm'. injection Htm' as <-.
  assert (wp (timer_next_timeout_timespec ts0) (fun r _ => r.1 = 1 /\
    ns_of r.2 = Z.max 0 (ns_of (t_timeout tm) - ns_of now)) s') as ([r w] & s1 & En & Hr1 & Hw)%wp_run.
  { eapply wp_timer_next_timespec; [done..|split; [done|lia]|done|]. by intros. }
  simpl in Hr1, Hw. subst r. exists x, tm, now, p1, w, s1, s2. split_and!; try done.
  - rewrite <-Hys. by left.
  - intros y ty Hy. apply Hlast. by rewrite Hys.
Qed.

(** [timer_schedule_msecs], and [timer_schedule_secs] with a thousand times as
    many, set the time-out of a timer that is not scheduled to so many
    milliseconds from now. *)
Theorem timer_schedule_correct s xs t tm n now p1 :
  filled s xs -> timers s !! t = Some tm -> active (t_hi tm) = 0 -> t ∉ xs ->
  Z.of_nat (length xs) < max_size (hp (tq_heap s)) < 2 ^ 31 - 102 ->
  sys_gettime (tq_signal s).2 = Ok (Some now, p1) -> 0 <= n * 1000000 < 2 ^ 63 ->
  (exists s' ys tm', timer_schedule_msecs self t n s = Ok (1, s') /\
    heap_wf (tq_heap s') ys /\ ys ≡ₚ t :: xs /\ timers s' !! t = Some tm' /\
    ns_of (t_timeout tm') = ns_of now + n * 1000000) /\
  (forall k, n = k * 1000 -> timer_schedule_secs self t k s = timer_schedule_msecs self t n s).
Proof.
  intros [Hwf Hcmp Hord Hlk [q Hq] Hnear] Ht Hact Hout Hmax Hclk Hn. split.
  - destruct (clock_law (tq_signal s).2) as (now' & p1' & Hclk' & Hnn & Hns & Hq1).
    rewrite Hclk in Hclk'. injection Hclk' as <- <-.
    enough (wp (timer_schedule_msecs self t n) (fun r s' => r = 1 /\ exists ys tm',
      heap_wf (tq_heap s') ys /\ ys ≡ₚ t :: xs /\ timers s' !! t = Some tm' /\
      ns_of (t_timeout tm') = ns_of now + n * 1000000) s) as (r & s' & E & -> & ys & tm' & ?)%wp_run by eauto.
    unfold timer_schedule_msecs, timer_set_msecs, timer_msecs. wp_simpl.
    exists (n * 1000). split; [apply long_ok; lia|]. wp_simpl. exists tm. split; [done|].
    eapply (wp_timer_add self _ xs t (with_expires (n * 1000) tm) now p1 q); tq_simpl; try done.
    + by apply heap_wf_outside.
    + lia.
    + apply lookup_insert_eq.
    + by rewrite Hq1.
    + split; [done|lia].
    + cbn. lia.
    + intros s' Hfull. lia.
    + intros s' ys tm0 tm' Hwf' Hys _ _ _ Htm' _ Hns' _ _. split; [done|]. exists ys, tm'.
      split_and!; try done. rewrite Hns'. cbn. lia.
  - intros k ->. unfold timer_schedule_secs, timer_schedule_msecs, timer_set_secs, timer_set_msecs, timer_secs, timer_msecs.
    by replace (k * 1000 * 1000) with (k * 1000000) by lia.
Qed.
End Order.

(** ** Taking a timer out

    What the heap holds when the timer at [k] has been unlinked. *)
Abbreviation taken s xs k := (sift_down (item_lt (cmp (hp (tq_heap s))) (objs (tq_heap s))) (length xs) (replaced xs k) k).

Section Delete.
Context {A P : Type} `{AllocatorLaws A} `{PipeLaws P} `{Clock P}.
Context (self : Z).
Implicit Types (s : tqueue A P) (t x : addr) (tm : timer).

Lemma taken_contents s xs k x : xs !! k = Some x -> x :: taken s xs k ≡ₚ xs.
Proof. intros Hx. by rewrite sift_down_Permutation, replaced_Permutation. Qed.

(** Taking out what is at the index of [t]. *)
Lemma wp_timer_del s xs t tm k x q (Q : unit -> tqueue A P -> Prop) :
  cells (tq_heap s) xs -> cmp (hp (tq_heap s)) = heap_cmp -> tq_lock s = false ->
  timers s !! t = Some tm -> index (t_hi tm) = Z.of_nat k -> xs !! k = Some x ->
  pending (tq_signal s) = Some q ->
  (forall s', removed (tq_heap s) (tq_heap s') xs (taken s xs k) k x ->
     tq_lock s' = false -> tq_thr s' = tq_thr s ->
     pending (tq_signal s') = Some (if decide (k = 0%nat /\ tq_thr s <> self)
                                    then if decide (q = []) then [0] else q else q) -> Q tt s') ->
  wp (timer_del self t) Q s.
Proof.
  intros Hc Hcmp Hlk Ht Hk Hx Hq HQ. assert (CmpOk (cmp (hp (tq_heap s)))) by (rewrite Hcmp; apply _).
  unfold timer_del, timer_del_locked. rewrite wp_bind. apply wp_tq_lock; [done|].
  wp_simpl. exists tm. split; [exact Ht|]. wp_simpl. rewrite wp_on_heap, Hk.
  eapply wp_mono; [by apply (wp_heap_remove _ xs k x)|]. intros r h [-> Hr].
  wp_simpl. tq_simpl.
  assert ((Z.of_nat k =? 0) && negb (tq_thr s =? self) = bool_decide (k = 0%nat /\ tq_thr s <> self)) as ->.
  { apply eq_true_iff_eq. rewrite andb_true_iff, negb_true_iff, Z.eqb_eq, Z.eqb_neq, bool_decide_eq_true.
    split; intros [? ?]; split; done || lia. }
  destruct (decide (k = 0%nat /\ tq_thr s <> self)) as [Hd|Hd].
  - rewrite bool_decide_true by done. wp_simpl. eapply wp_tq_raise; [exact Hq|]. intros r p' Hp'. wp_simpl.
    apply wp_tq_unlock; [done|]. by apply HQ.
  - rewrite bool_decide_false by done. wp_simpl. apply wp_tq_unlock; [done|]. by apply HQ.
Qed.

(** C25: [timer_del] goes by the index that is written in the timer: it takes out the
    timer at that place of the heap, and wakes the queue's thread when that is
    the front and another thread has called. For a scheduled timer the timer at
    that place is the timer itself. But nothing tests that the timer is
    scheduled, and the index of one that is not, as after it has fired, is 0: then
    the timer at the front is the one that is taken out. *)
Theorem timer_del_by_index s xs t tm k x q :
  cells (tq_heap s) xs -> cmp (hp (tq_heap s)) = heap_cmp -> tq_lock s = false ->
  timers s !! t = Some tm -> index (t_hi tm) = Z.of_nat k -> xs !! k = Some x ->
  pending (tq_signal s) = Some q ->
  exists s' ys, timer_del self t s = Ok (tt, s') /\ tq_lock s' = false /\
    cells (tq_heap s') ys /\ x :: ys ≡ₚ xs /\ active_of (timers s') x = Some 0 /\
    index_of (timers s') x = Some 0 /\
    (forall y, y <> x -> active_of (timers s') y = active_of (timers s) y) /\
    payload_eq (timers s) (timers s') /\
    pending (tq_signal s') = Some (if decide (k = 0%nat /\ tq_thr s <> self)
                                   then if decide (q = []) then [0] else q else q).
Proof.
  intros Hc Hcmp Hlk Ht Hk Hx Hq.
  enough (wp (timer_del self t) (fun _ s' => tq_lock s' = false /\
    removed (tq_heap s) (tq_heap s') xs (taken s xs k) k x /\
    pending (tq_signal s') = Some (if decide (k = 0%nat /\ tq_thr s <> self)
                                   then if decide (q = []) then [0] else q else q)) s)
    as ([] & s' & E & Hlk' & Hr & Hp)%wp_run.
  { exists s', (taken s xs k). split_and!; try done; try apply Hr. by apply taken_contents. }
  eapply wp_timer_del; [done..|]. by intros.
Qed.
End Delete.

(** ** A new queue *)
Section Init.
Context {A P : Type} `{AllocatorLaws A} `{PipeLaws P} `{Clock P}.
Context (self : Z).
Implicit Types (s : tqueue A P).

(** Once its signal has been set up, a new queue is empty and belongs to the
    calling thread; unless there was no memory for the heap, which the return
    value does not tell, timers can be added to it. *)
Lemma timer_queue_init_filled s ret sg q :
  signal_init false (mk_signal 0 0 0, (tq_signal s).2) = Ok (ret, sg) -> pending sg = Some q ->
  exists s', timer_queue_init self s = Ok (ret, s') /\ tq_thr s' = self /\
    (filled s' [] \/ blocks (arena_of (tq_heap s')) = blocks (arena_of (tq_heap s))).
Proof.
  intros Hsig Hq. enough (wp (timer_queue_init self) (fun r s' => r = ret /\ tq_thr s' = self /\
    (filled s' [] \/ blocks (arena_of (tq_heap s')) = blocks (arena_of (tq_heap s)))) s)
    as (r & s' & E & -> & ?)%wp_run by eauto.
  unfold timer_queue_init. rewrite wp_bind, wp_modify, wp_bind, wp_on_signal. tq_simpl.
  apply wp_run. exists ret, sg. split; [exact Hsig|].
  destruct (heap_init_correct (tq_heap s) 0 heap_cmp ltac:(lia)) as (r & h & E & Hos & Hr).
  rewrite wp_bind, wp_on_heap. tq_simpl. apply wp_run. exists r, h. split; [exact E|]. rewrite wp_bind, wp_modify, wp_ret. tq_simpl. split_and!; [done..|].
  destruct Hr as [[_ Hb]|(_ & Hwf & Hc & _)]; [by right|left]. split; try done; [by eexists|].
  intros x tm Hx. by apply not_elem_of_nil in Hx.
Qed.
End Init.

(** ** Witnesses

    The pipe of Signal.v and a clock that stands at 7 s. *)
#[export] Instance still_clock : Clock (list Z) := fun p => Ok (Some (mk_timespec 7 0), p).

#[export] Instance still_clock_laws : ClockLaws (list Z).
Proof. intros p. exists (mk_timespec 7 0), p. vm_compute. split_and!; congruence. Qed.

(** Thread 1's empty queue, and timers for 1 s, 5 s and 3 s. *)
Definition demo_timer (expires : Z) : timer :=
  mk_timer (mk_item 0 0) (mk_timespec 0 0) expires (Some expires) None 0.
Definition demo_queue : tqueue arena (list Z) :=
  mk_tq (mk_hstate (mk_heap 4 0 heap_cmp 8 (replicate 4 None))
           (list_to_map [(16, demo_timer 1000000); (32, demo_timer 5000000); (48, demo_timer 3000000)])
           (mk_arena 4000 {[8]}))
    false (mk_signal 3 4 0, []) 1.

Lemma demo_queue_filled : filled demo_queue [].
Proof.
  split; [split| | | | |].
  - split; [done|intros i x Hx; by rewrite lookup_nil in Hx|by intros x ?%not_elem_of_nil|constructor|done].
  - intros k x Hx. by rewrite lookup_nil in Hx.
  - by intros x ?%not_elem_of_nil.
  - done.
  - vm_compute. done.
  - split; [done|]. vm_compute. done.
  - done.
  - intros i p c _ Hc. by rewrite lookup_nil in Hc.
  - done.
  - by exists [].
  - by intros x tm ?%not_elem_of_nil.
Qed.

(** The callbacks write to the pipe. *)
Definition demo_calls (f : Z) (t : addr) : M (tqueue arena (list Z)) unit :=
  modify (fun s => set_signal ((tq_signal s).1, (tq_signal s).2 ++ [f]) s).

(** The thread waits for five seconds, and then the timer for 5 s comes first. *)
Lemma timers_latest_first_witness :
  exists s' w s1 s2, timer_add_all 1 [16; 32; 48] demo_queue = Ok (1, s') /\
    timer_next_timeout_timespec (mk_timespec 0 0) s' = Ok ((1, w), s1) /\
    timer_handle_timeout demo_calls s' = (demo_calls 5000000 32;; mret 0) s2 /\ tq_lock s2 = false.
Proof.
  destruct (timers_latest_first 1 demo_calls demo_queue [16; 32; 48] (mk_timespec 0 0))
    as (r & s' & E & _ & Hr).
  - exact demo_queue_filled.
  - discriminate.
  - apply NoDup_ListNoDup. repeat constructor; simpl; lia.
  - intros t Ht. apply list_elem_of_In in Ht. simpl in Ht.
    destruct Ht as [<-|[<-|[<-|[]]]]; eexists; (split; [reflexivity|split; [reflexivity|simpl; lia]]).
  - vm_compute. reflexivity.
  - destruct Hr as [->|(-> & x & tm & now & p1 & w & s1 & s2 & Hx & Htm & Hl & _ & Ew & _ & Eh & Hlk)].
    { vm_compute in E. discriminate. }
    exists s', w, s1, s2. split; [exact E|split; [exact Ew|split; [|exact Hlk]]].
    assert (Hs : s' = match timer_add_all 1 [16; 32; 48] demo_queue with Ok (_, s) => s | _ => demo_queue end).
    { rewrite E. reflexivity. }
    assert (Hx32 : x = 32).
    { vm_compute in Hs. subst s'. apply list_elem_of_In in Hx. simpl in Hx.
      assert (H32 : 32 ∈ [16; 32; 48]) by (apply list_elem_of_In; simpl; lia).
      specialize (Hl 32 _ H32 eq_refl).
      destruct Hx as [<-|[<-|[<-|[]]]]; [|reflexivity|]; vm_compute in Htm; injection Htm as <-;
        vm_compute in Hl; destruct (Hl eq_refl). }
    subst x. rewrite Eh. vm_compute in Hs. subst s'. vm_compute in Htm. injection Htm as <-. reflexivity.
Defined.

(** Thread 2 deletes the timer at 48, which is not scheduled, from a queue whose
    front is the timer at 16: that one is taken out, and thread 1 is woken. *)
Lemma timer_del_by_index_witness :
  exists s', timer_del 2 48 (demo_tq []) = Ok (tt, s') /\
    active_of (timers (demo_tq [])) 48 = Some 0 /\ active_of (timers (demo_tq [])) 16 = Some 1 /\
    active_of (timers s') 16 = Some 0 /\ pending (tq_signal s') = Some [0].
Proof.
  destruct (timer_del_by_index 2 (demo_tq []) [16; 32] 48
    (mk_timer (mk_item 0 0) (mk_timespec 0 0) 1500000 None None 0) 0 16 [])
    as (s' & ys & E & _ & _ & _ & Ha & _ & _ & _ & Hp).
  - exact (hw_cells _ _ demo_timers_wf).
  - reflexivity.
  - reflexivity.
  - reflexivity.
  - reflexivity.
  - reflexivity.
  - reflexivity.
  - exists s'. split; [exact E|split; [reflexivity|split; [reflexivity|split; [exact Ha|exact Hp]]]].
Defined.

(** Five seconds. *)
Lemma timer_schedule_correct_witness :
  exists s' tm', timer_schedule_secs 1 16 5 demo_queue = Ok (1, s') /\ timers s' !! 16 = Some tm' /\
    ns_of (t_timeout tm') = 12000000000.
Proof.
  destruct (timer_schedule_correct 1 demo_queue [] 16 (demo_timer 1000000) 5000 (mk_timespec 7 0) [])
    as ((s' & ys & tm' & E & _ & _ & Htm & Hns) & Hsecs).
  - exact demo_queue_filled.
  - reflexivity.
  - reflexivity.
  - apply not_elem_of_nil.
  - vm_compute. split; reflexivity.
  - reflexivity.
  - lia.
  - exists s', tm'. split; [rewrite <-E; apply Hsecs; reflexivity|split; [exact Htm|exact Hns]].
Defined.
