(* ===== verification/TimerRace.v ===== *)
(** The timer queue between two threads (src/timer.c): the thread the queue belongs
    to asks how long to wait while another thread adds a timer.

    [timer_next_timeout] reads the queue under the lock and clears the signal
    after it has released the lock; [next_timeout_locked] and
    [next_timeout_unlocked] of Timer.v are these two halves, and another thread
    can come between them. *)
From S2P Require Import Prelude Malloc Time HeapSpec Heap Signal Timer TimerQueue.

Section Race.
Context {A P : Type} `{AllocatorLaws A} `{PipeLaws P} `{Clock P} `{!ClockLaws P}.
Context (other : Z).
Implicit Types (s : tqueue A P) (t : addr).

Lemma filled_signal s xs p' q :
  filled s xs -> queue p' (fd0 (tq_signal s).1) (fd1 (tq_signal s).1) = Some q ->
  filled (set_signal ((tq_signal s).1, p') s) xs.
Proof. intros [] Hq. split; try done. by exists q. Qed.

Lemma addable_signal s x t : addable s t -> addable (set_signal x s) t.
Proof. done. Qed.

(** The first half, on a filled queue: it only reads, but for the clock. *)
Lemma wp_next_locked_filled s xs (Q : option Z -> tqueue A P -> Prop) :
  filled s xs ->
  (forall w p', (forall r w, queue p' r w = queue (tq_signal s).2 r w) ->
     Q w (set_signal ((tq_signal s).1, p') s)) ->
  wp next_timeout_locked Q s.
Proof.
  intros Hf HQ. pose proof (hw_cells _ _ (fl_wf _ _ Hf)) as Hc. destruct xs as [|x xs].
  - eapply wp_next_locked_empty; [done|apply Hf|].
    specialize (HQ None (tq_signal s).2 ltac:(done)). destruct s as [h lk [sg p] thr]. exact HQ.
  - destruct (filled_front s x xs Hf) as (tm & Htm & Hnear & _).
    destruct (clock_law (tq_signal s).2) as (now & p1 & Hclk & Hn & Hs & Hq).
    eapply wp_next_locked; [done|apply Hf|done..|split; [done|lia]|done|]. by apply HQ.
Qed.

(** With room in the heap, adding succeeds, and wakes the queue's thread when the
    timer goes to the front. *)
Lemma add_first s xs t q :
  filled s xs -> addable s t -> t ∉ xs ->
  Z.of_nat (length xs) < max_size (hp (tq_heap s)) < 2 ^ 31 - 102 ->
  tq_thr s <> other -> pending (tq_signal s) = Some q ->
  exists s' ys, timer_add other t s = Ok (1, s') /\ filled s' ys /\ ys ≡ₚ t :: xs /\
    pending (tq_signal s') = Some (if decide (ys !! 0%nat = Some t) then if decide (q = []) then [0] else q else q).
Proof.
  intros Hf Hadd Ht Hmax Hthr Hq.
  enough (wp (timer_add other t) (fun r s' => r = 1 /\ exists ys, filled s' ys /\ ys ≡ₚ t :: xs /\
    pending (tq_signal s') = Some (if decide (ys !! 0%nat = Some t) then if decide (q = []) then [0] else q else q)) s)
    as (r & s' & E & -> & ys & ?)%wp_run by eauto.
  eapply wp_add_filled; [done..|lia| |].
  - intros s' Hfull. lia.
  - intros s' ys Hf' Hys _ _ Hp. split; [done|]. exists ys. split_and!; [done..|]. rewrite (Hp q Hq). f_equal.
    destruct (decide (ys !! 0%nat = Some t)) as [E|E].
    + by rewrite (decide_True (P := _ /\ _)).
    + rewrite (decide_False (P := _ /\ _)); [done|tauto].
Qed.

(** The second half on a filled queue. *)
Lemma unlocked_run s xs fuel v0 w q :
  filled s xs -> pending (tq_signal s) = Some q -> (capacity + 1 < fuel)%nat ->
  exists s', next_timeout_unlocked fuel v0 w s = Ok (next_timeout_answer v0 w, s') /\
    filled s' xs /\ pending (tq_signal s') = Some [] /\ tq_heap s' = tq_heap s /\ tq_thr s' = tq_thr s.
Proof.
  intros Hf Hq Hfuel.
  enough (wp (next_timeout_unlocked fuel v0 w) (fun r s' => r = next_timeout_answer v0 w /\
    filled s' xs /\ pending (tq_signal s') = Some [] /\ tq_heap s' = tq_heap s /\ tq_thr s' = tq_thr s) s)
    as (r & s' & E & -> & ?)%wp_run by eauto.
  eapply wp_next_unlocked; [done..|]. intros p' Hp'. split_and!; try done. by eapply filled_signal.
Qed.

(** C14: A wake-up can be lost. The queue's thread has read the queue and released
    the lock; before it clears the signal, another thread adds a timer. If that
    goes to the front the signal is raised, so that the thread reschedules; but
    the thread clears it then, and goes to wait with the answer for the queue
    as it was before, and no signal pending. Had the timer been added after
    [timer_next_timeout], the signal would wake it. *)
Theorem timer_wakeup_lost s xs t fuel v0 :
  filled s xs -> addable s t -> t ∉ xs ->
  Z.of_nat (length xs) < max_size (hp (tq_heap s)) < 2 ^ 31 - 102 ->
  tq_thr s <> other -> (capacity + 1 < fuel)%nat ->
  exists w s1 s2 s3 ys,
    next_timeout_locked s = Ok (w, s1) /\
    timer_add other t s1 = Ok (1, s2) /\
    next_timeout_unlocked fuel v0 w s2 = Ok (next_timeout_answer v0 w, s3) /\
    filled s3 ys /\ ys ≡ₚ t :: xs /\
    (ys !! 0%nat = Some t -> exists q, pending (tq_signal s2) = Some q /\ q <> []) /\
    pending (tq_signal s3) = Some [] /\
    exists s1' s2' ys',
      timer_next_timeout fuel v0 s = Ok (next_timeout_answer v0 w, s1') /\
      timer_add other t s1' = Ok (1, s2') /\ filled s2' ys' /\ ys' ≡ₚ t :: xs /\
      (ys' !! 0%nat = Some t -> pending (tq_signal s2') = Some [0]).
Proof.
  intros Hf Hadd Ht Hmax Hthr Hfuel.
  assert (wp next_timeout_locked (fun _ s1 => exists p', s1 = set_signal ((tq_signal s).1, p') s /\
    forall r w, queue p' r w = queue (tq_signal s).2 r w) s) as (w & s1 & E1 & p1 & -> & Hq1)%wp_run.
  { eapply wp_next_locked_filled; [done|]. eauto. }
  destruct (fl_pipe _ _ Hf) as [q Hq]. set (s1 := set_signal ((tq_signal s).1, p1) s) in *.
  assert (pending (tq_signal s1) = Some q) as Hp1 by (unfold pending; cbn; by rewrite Hq1).
  assert (filled s1 xs) as Hf1 by (eapply filled_signal; [done|]; exact Hp1).
  destruct (add_first s1 xs t q Hf1 Hadd Ht Hmax Hthr Hp1) as (s2 & ys & E2 & Hf2 & Hys & Hp2).
  destruct (fl_pipe _ _ Hf2) as [q2 Hq2].
  destruct (unlocked_run s2 ys fuel v0 w q2 Hf2 Hq2 Hfuel) as (s3 & E3 & Hf3 & Hp3 & _).
  destruct (unlocked_run s1 xs fuel v0 w q Hf1 Hp1 Hfuel) as (s1' & E4 & Hf4 & Hp4 & Eh & Et).
  destruct (add_first s1' xs t [] Hf4) as (s2' & ys' & E5 & Hf5 & Hys' & Hp5); try done.
  { unfold addable, timers. by rewrite Eh. }
  { by rewrite Eh. }
  { by rewrite Et. }
  exists w, s1, s2, s3, ys. split_and!; try done.
  - intros Hh. exists (if decide (q = []) then [0] else q). rewrite Hp2, decide_True by done.
    split; [done|]. by destruct (decide (q = [])) as [_|Hne].
  - exists s1', s2', ys'. split_and!; try done.
    + rewrite next_timeout_halves, (run_bind _ _ _ _ _ E1). exact E4.
    + intros Hh. by rewrite Hp5, decide_True by done.
Qed.
End Race.

(** ** A witness

    Thread 1's empty queue: it learns that there is no timer, thread 2 adds one for
    1 s and raises the signal, and thread 1 clears it. *)
Lemma timer_wakeup_lost_witness : exists s1 s2 s3,
  next_timeout_locked demo_queue = Ok (None, s1) /\ timer_add 2 16 s1 = Ok (1, s2) /\
  pending (tq_signal s2) = Some [0] /\
  next_timeout_unlocked 20 5 None s2 = Ok ((0, 5), s3) /\ pending (tq_signal s3) = Some [] /\ filled s3 [16].
Proof.
  destruct (timer_wakeup_lost 2 demo_queue [] 16 20 5) as (w & s1 & s2 & s3 & ys & E1 & E2 & E3 & Hf & Hys & _ & Hp & _).
  - exact demo_queue_filled.
  - eexists. split; [reflexivity|split; [reflexivity|simpl; lia]].
  - by intros ?%not_elem_of_nil.
  - vm_compute. split; reflexivity.
  - discriminate.
  - vm_compute. lia.
  - assert (w = None) as ->. { vm_compute in E1. by injection E1 as <- _. }
    apply Permutation_singleton_r in Hys. subst ys.
    exists s1, s2, s3. split; [exact E1|split; [exact E2|split; [|split; [exact E3|split; [exact Hp|exact Hf]]]]].
    vm_compute in E1. injection E1 as <-. vm_compute in E2. injection E2 as <-. reflexivity.
Defined.
