(* ===== verification/TimerMod.v ===== *)
(** Rescheduling timers (src/timer.c): [timer_mod] of a timer that is scheduled,
    and what the position that [heap_remove] leaves wrong means for the next
    call that relies on it. *)
From S2P Require Import Prelude Malloc Time HeapSpec Heap Signal Timer TimerQueue.

Section Mod.
Context {A P : Type} `{AllocatorLaws A} `{PipeLaws P} `{Clock P} `{!ClockLaws P}.
Context (self : Z).
Implicit Types (s : tqueue A P) (t l x : addr) (tm : timer).

(** A raised signal stays raised. *)
Definition raised (b : bool) (q : list Z) : list Z :=
  if b then (if decide (q = []) then [0] else q) else q.

Lemma raised_twice b1 b2 q : raised b1 (raised b2 q) = raised (b1 || b2) q.
Proof. unfold raised. destruct b1, b2; simpl; repeat case_decide; done. Qed.

Lemma raised_if (Q : Prop) `{!Decision Q} q :
  (if decide Q then if decide (q = []) then [0] else q else q) = raised (bool_decide Q) q.
Proof. unfold raised. by destruct (decide Q); [rewrite bool_decide_true|rewrite bool_decide_false]. Qed.

(** A scheduled timer and where it is. *)
Lemma wf_scheduled (h : hstate timer A) xs t tm k :
  heap_wf h xs -> xs !! k = Some t -> objs h !! t = Some tm ->
  index (t_hi tm) = Z.of_nat k /\ active (t_hi tm) = 1.
Proof.
  intros Hwf Hk Ht. pose proof (hw_index _ _ Hwf _ _ Hk) as Hi.
  pose proof (hw_active _ _ Hwf t ltac:(by eapply list_elem_of_lookup_2)) as Ha.
  unfold index_of, active_of in *. rewrite Ht in *. simpl in *. by simplify_eq.
Qed.

(** The first part of [timer_mod]: the timer is out of the heap, and the new
    [expires] is in it. *)
Lemma wp_timer_unschedule s xs t tm k e q (Q : Z -> tqueue A P -> Prop) :
  heap_wf (tq_heap s) xs -> cmp (hp (tq_heap s)) = heap_cmp -> tq_lock s = false ->
  timers s !! t = Some tm -> xs !! k = Some t -> 0 <= e < 2 ^ 63 -> pending (tq_signal s) = Some q ->
  (forall s1 tm1, timer_del self t s = Ok (tt, s1) ->
     removed (tq_heap s) (tq_heap s1) xs (taken s xs k) k t ->
     tq_lock s1 = false -> tq_thr s1 = tq_thr s -> timers s1 !! t = Some tm1 ->
     pending (tq_signal s1) = Some (raised (bool_decide (k = 0%nat /\ tq_thr s <> self)) q) ->
     Q (if decide (k = 0%nat) then 1 else 0)
       (set_timers (<[t := with_expires e tm1]> (timers s1)) s1)) ->
  wp (timer_unschedule self t e) Q s.
Proof.
  intros Hwf Hcmp Hlk Ht Hk He Hq HQ. destruct (wf_scheduled _ _ _ _ _ Hwf Hk Ht) as [Hi Ha].
  assert (wp (timer_del self t) (fun _ s1 => removed (tq_heap s) (tq_heap s1) xs (taken s xs k) k t /\
    tq_lock s1 = false /\ tq_thr s1 = tq_thr s /\
    pending (tq_signal s1) = Some (raised (bool_decide (k = 0%nat /\ tq_thr s <> self)) q)) s)
    as ([] & s1 & E & Hr & Hlk1 & Hthr1 & Hp1)%wp_run.
  { eapply wp_timer_del; [apply Hwf|done..|]. intros s1 ??? Hp. by rewrite raised_if in Hp. }
  destruct (payload_eq_dom _ _ t (rm_payload _ _ _ _ _ _ Hr)) as [tm1 Htm1]; [by eexists|].
  unfold timer_unschedule. rewrite wp_bind. eapply wp_timer_scheduled; [done|]. rewrite Ha.
  cbn [Z.eqb negb]. wp_simpl. exists tm. split; [exact Ht|]. rewrite wp_bind. apply wp_run.
  exists tt, s1. split; [exact E|]. wp_simpl. exists tm1. split; [exact Htm1|].
  rewrite Hi, i64_id by lia. specialize (HQ s1 tm1 E Hr Hlk1 Hthr1 Htm1 Hp1).
  by destruct k.
Qed.

(** C6: [timer_mod] of a scheduled timer takes it out of the heap, sets its time-out
    to [expires] microseconds from then, and puts it back: the same timers are
    scheduled, the others with the time-outs they had. It cannot fail, since
    the timer has just made room. The queue's thread is woken when another
    thread has called and the timer was or is now at the front. The timer knows
    its new position, and so does every other timer but, possibly, the one that
    was last in the heap. *)
Theorem timer_mod_correct s xs t tm k l e q :
  heap_wf (tq_heap s) xs -> cmp (hp (tq_heap s)) = heap_cmp ->
  max_size (hp (tq_heap s)) < 2 ^ 31 - 102 -> tq_lock s = false ->
  timers s !! t = Some tm -> xs !! k = Some t -> last xs = Some l ->
  0 <= e * 1000 < 2 ^ 63 -> pending (tq_signal s) = Some q ->
  exists s1 now p1 s' ys tm',
    timer_del self t s = Ok (tt, s1) /\ sys_gettime (tq_signal s1).2 = Ok (Some now, p1) /\
    timer_mod self t e s = Ok (1, s') /\ tq_lock s' = false /\
    heap_loose (tq_heap s') ys /\ ys ≡ₚ xs /\
    timers s' !! t = Some tm' /\ t_expires tm' = e /\
    0 <= tv_nsec (t_timeout tm') < NSEC_PER_SEC /\ ns_of (t_timeout tm') = ns_of now + e * 1000 /\
    (forall y, y <> t -> set_hi (mk_item 0 0) <$> timers s' !! y = set_hi (mk_item 0 0) <$> timers s !! y) /\
    (forall y, y <> l \/ y = t -> knows (timers s') ys y) /\
    pending (tq_signal s') =
      Some (raised (bool_decide (tq_thr s <> self /\ (k = 0%nat \/ ys !! 0%nat = Some t))) q).
Proof.
  intros Hwf Hcmp Hmax Hlk Ht Hk Hl He Hq.
  assert (wp (timer_mod self t e) (fun r s' => r = 1 /\ exists s1 now p1 ys tm',
    timer_del self t s = Ok (tt, s1) /\ sys_gettime (tq_signal s1).2 = Ok (Some now, p1) /\
    tq_lock s' = false /\
    heap_loose (tq_heap s') ys /\ ys ≡ₚ xs /\
    timers s' !! t = Some tm' /\ t_expires tm' = e /\
    0 <= tv_nsec (t_timeout tm') < NSEC_PER_SEC /\ ns_of (t_timeout tm') = ns_of now + e * 1000 /\
    (forall y, y <> t -> set_hi (mk_item 0 0) <$> timers s' !! y = set_hi (mk_item 0 0) <$> timers s !! y) /\
    (forall y, y <> l \/ y = t -> knows (timers s') ys y) /\
    pending (tq_signal s') =
      Some (raised (bool_decide (tq_thr s <> self /\ (k = 0%nat \/ ys !! 0%nat = Some t))) q)) s)
    as (r & s' & E & -> & s1 & now & p1 & ys & tm' & ?)%wp_run; [|naive_solver].
  unfold timer_mod. rewrite wp_bind. eapply wp_timer_unschedule; [done..|lia|done|].
  intros s1 tm1 E Hr Hlk1 Hthr1 Htm1 Hp1. rewrite wp_bind.
  destruct (clock_law (tq_signal s1).2) as (now & p1 & Hclk & Hn & Hsec & Hpq).
  pose proof (taken_contents s xs k t Hk) as Htk.
  pose proof (proj1 (proj1 (heap_wf_loose _ _) Hwf)) as Hl0.
  pose proof (removed_loose _ _ _ _ _ _ Hl0 Hr Htk) as Hl1.
  destruct (removed_knows _ _ _ _ _ _ Hwf Hk Hl Hr) as [Hkn _].
  assert (t ∉ taken s xs k) as Hout.
  { enough (NoDup (t :: taken s xs k)) as [? _]%NoDup_cons by done.
    rewrite Htk. apply (c_nodup _ _ (hw_cells _ _ Hwf)). }
  eapply (wp_timer_set_timeout _ t (with_expires e tm1) now p1); tq_simpl; [by rewrite lookup_insert_eq|done|split; [done|lia]|done|].
  intros ts Hts Hns. rewrite insert_insert_eq.
  eapply (wp_timer_enqueue _ _ (taken s xs k) t (raised (bool_decide (k = 0%nat /\ tq_thr s <> self)) q)); tq_simpl; try done.
  - exact (heap_loose_outside (tq_heap s1) _ t _ Hl1 Hout).
  - by rewrite (rm_hp _ _ _ _ _ _ Hr).
  - by rewrite (rm_hp _ _ _ _ _ _ Hr).
  - rewrite lookup_insert_eq. eauto.
  - unfold pending in *. cbn. by rewrite Hpq.
  - intros s' Hfull. exfalso. pose proof (hl_full _ _ Hl0) as Hcap.
    pose proof (Permutation_length Htk) as Hlen. simpl in Hlen. rewrite (rm_hp _ _ _ _ _ _ Hr) in Hfull.
    cbn in Hfull. lia.
  - intros s' ys Hl' Hkn' Hys Hpl Hlk' _ _ _ Hp'. split; [done|].
    pose proof (Hpl t) as Hplt. rewrite lookup_insert_eq in Hplt.
    destruct (timers s' !! t) as [tm'|] eqn:Htm'; [|done]. injection Hplt as Hto Hex _ _ _.
    exists s1, now, p1, ys, tm'. rewrite <-Hto, <-Hex. split_and!; try done; try lia.
    + by rewrite Hys.
    + intros y Hy. rewrite <-(Hpl y), lookup_insert_ne by done. symmetry. apply (rm_payload _ _ _ _ _ _ Hr).
    + intros y Hy. apply Hkn'. destruct (decide (y = t)) as [->|Hne]; [by left|right].
      apply knows_outside; [done|]. apply Hkn; [naive_solver|done].
    + rewrite Hp', raised_if, Hthr1, raised_twice. f_equal. f_equal.
      rewrite <-bool_decide_or. apply bool_decide_ext. destruct (decide (k = 0%nat)); naive_solver.
Qed.

(** An index behind the end of the heap takes out nothing. *)
Lemma run_timer_del_out s xs l tl :
  cells (tq_heap s) xs -> tq_lock s = false -> timers s !! l = Some tl ->
  (0 < length xs)%nat -> Z.of_nat (length xs) <= index (t_hi tl) ->
  timer_del self l s = Ok (tt, s).
Proof.
  intros Hc Hlk Htl Hpos Hi. apply wp_eq. unfold timer_del, timer_del_locked. rewrite wp_bind.
  apply wp_tq_lock; [done|]. wp_simpl. exists tl. split; [exact Htl|]. wp_simpl. rewrite wp_on_heap.
  apply wp_run. exists NULL, (tq_heap s). split; [by apply (heap_remove_oob _ xs)|]. wp_simpl. tq_simpl.
  rewrite (proj2 (Z.eqb_neq _ _)) by lia. cbn [andb]. wp_simpl. apply wp_tq_unlock; [done|].
  split; [done|]. destruct s. simpl in *. by subst.
Qed.

(** C7: Deleting one timer can make another impossible to delete. When the timer at
    position [k] is deleted the last one of the heap takes its place; if
    [heap_heapify] has no reason to move it on, as when [k] has no children, its
    index is not corrected. It points behind the end of the heap then, and
    [timer_del] of that timer does nothing at all: the timer is still in the
    heap, still marked as scheduled, and will fire; a client that frees it
    leaves a dangling pointer in the queue. *)
Theorem timer_del_leaves_next s xs t tm k l q :
  heap_wf (tq_heap s) xs -> cmp (hp (tq_heap s)) = heap_cmp -> tq_lock s = false ->
  timers s !! t = Some tm -> xs !! k = Some t -> last xs = Some l -> l <> t ->
  (forall j y, (0 < j)%nat -> parent j = k -> replaced xs k !! j = Some y ->
     item_lt heap_cmp (timers s) y l = false) ->
  pending (tq_signal s) = Some q ->
  exists s1, timer_del self t s = Ok (tt, s1) /\ tq_lock s1 = false /\
    heap_loose (tq_heap s1) (replaced xs k) /\ replaced xs k !! k = Some l /\
    active_of (timers s1) l = Some 1 /\ index_of (timers s1) l = Some (Z.of_nat (length xs) - 1) /\
    timer_del self l s1 = Ok (tt, s1).
Proof.
  intros Hwf Hcmp Hlk Ht Hk Hl Hlt Hch Hq. destruct (wf_scheduled _ _ _ _ _ Hwf Hk Ht) as [Hi _].
  assert (StrictWeak (cmp (hp (tq_heap s)))) as Hsw by (rewrite Hcmp; apply _).
  assert (wp (timer_del self t) (fun _ s1 => removed (tq_heap s) (tq_heap s1) xs (taken s xs k) k t /\
    tq_lock s1 = false) s) as ([] & s1 & E & Hr & Hlk1)%wp_run.
  { eapply wp_timer_del; [apply Hwf|done..|]. by intros. }
  pose proof (lookup_lt_Some _ _ _ Hk) as Hkl. pose proof Hl as Hl'. rewrite last_lookup in Hl'.
  assert (k <> Nat.pred (length xs)) as Hne by congruence.
  assert (replaced xs k !! k = Some l) as Hrl.
  { unfold replaced. rewrite Hl. apply list_lookup_insert_eq. rewrite length_take. lia. }
  assert (smallest_of (item_lt (cmp (hp (tq_heap s))) (objs (tq_heap s))) (replaced xs k) k = k) as Hs.
  { apply (smallest_of_stay _ _ _ l); [exact Hrl|]. rewrite Hcmp. exact Hch. }
  destruct (rm_stay _ _ _ _ _ _ Hr Hs) as [Hys Hobj].
  pose proof (removed_loose _ _ _ _ _ _ (proj1 (proj1 (heap_wf_loose _ _) Hwf)) Hr (taken_contents s xs k t Hk)) as Hl1.
  rewrite Hys in Hl1. specialize (Hobj l Hlt).
  assert (index_of (timers s1) l = Some (Z.of_nat (length xs) - 1)) as Hix.
  { unfold index_of, timers. rewrite Hobj. fold (index_of (objs (tq_heap s)) l).
    rewrite (hw_index _ _ Hwf _ _ Hl'). f_equal. lia. }
  exists s1. split_and!; try done.
  - apply (hl_active _ _ Hl1). by eapply list_elem_of_lookup_2.
  - unfold index_of in Hix. destruct (timers s1 !! l) as [tl|] eqn:Htl; [|done]. injection Hix as Hix.
    change (hi tl) with (t_hi tl) in Hix.
    eapply run_timer_del_out; [apply Hl1|done|exact Htl|..]; rewrite length_replaced; lia.
Qed.
End Mod.

(** ** Witnesses

    Thread 1's queue at 7 s: timers at 16, 32 and 48, due at 9 s, 5 s and 3 s, all
    three from [malloc]. *)
Definition demo_three : tqueue arena (list Z) :=
  mk_tq (mk_hstate (mk_heap 4 3 heap_cmp 8 [Some 16; Some 32; Some 48; None])
           (list_to_map [(16, mk_timer (mk_item 0 1) (mk_timespec 9 0) 0 None None 0);
                         (32, mk_timer (mk_item 1 1) (mk_timespec 5 0) 0 None None 0);
                         (48, mk_timer (mk_item 2 1) (mk_timespec 3 0) 0 None None 0)])
           (mk_arena 4000 {[8; 16; 32; 48]}))
    false (mk_signal 3 4 0, []) 1.

Lemma demo_three_wf : heap_wf (tq_heap demo_three) [16; 32; 48].
Proof.
  split.
  - split; [done| | | |vm_compute; done].
    + intros [|[|[|i]]] x; simpl; intros; by simplify_eq.
    + intros x Hx. apply list_elem_of_In in Hx. simpl in Hx.
      destruct Hx as [<-|[<-|[<-|[]]]]; vm_compute; eauto.
    + apply NoDup_ListNoDup. repeat constructor; simpl; lia.
  - intros [|[|[|k]]] x; simpl; intros; by simplify_eq.
  - intros x Hx. apply list_elem_of_In in Hx. simpl in Hx.
    destruct Hx as [<-|[<-|[<-|[]]]]; vm_compute; done.
  - done.
  - vm_compute. done.
  - split; [done|]. vm_compute. done.
Qed.

(** Thread 2 moves the timer at the front to 1 s from now. *)
Lemma timer_mod_correct_witness :
  exists s' ys, timer_mod 2 16 1000000 demo_three = Ok (1, s') /\
    heap_loose (tq_heap s') ys /\ ys ≡ₚ [16; 32; 48] /\ pending (tq_signal s') = Some [0].
Proof.
  destruct (timer_mod_correct 2 demo_three [16; 32; 48] 16
    (mk_timer (mk_item 0 1) (mk_timespec 9 0) 0 None None 0) 0 48 1000000 [])
    as (s1 & now & p1 & s' & ys & tm' & _ & _ & E & _ & Hl & Hys & _ & _ & _ & _ & _ & _ & Hp).
  - exact demo_three_wf.
  - reflexivity.
  - vm_compute. reflexivity.
  - reflexivity.
  - reflexivity.
  - reflexivity.
  - reflexivity.
  - lia.
  - reflexivity.
  - exists s', ys. split; [exact E|split; [exact Hl|split; [exact Hys|]]].
    rewrite Hp. rewrite bool_decide_true by (split; [discriminate|left; reflexivity]). reflexivity.
Defined.

(** Two timers are deleted and freed. The second is still in the queue: the timer
    at 16 fires, and then the queue goes through the dangling pointer. *)
Lemma timer_del_leaves_next_witness :
  exists s1 s2 s3, timer_del 1 32 demo_three = Ok (tt, s1) /\ timer_del 1 48 s1 = Ok (tt, s1) /\
    (timer_free 32;; timer_free 48) s1 = Ok (tt, s2) /\
    timer_handle_timeout demo_calls s2 = Ok (0, s3) /\ timer_handle_timeout demo_calls s3 = Fault.
Proof.
  destruct (timer_del_leaves_next 1 demo_three [16; 32; 48] 32
    (mk_timer (mk_item 1 1) (mk_timespec 5 0) 0 None None 0) 1 48 [])
    as (s1 & E & _ & _ & _ & _ & _ & E2).
  - exact demo_three_wf.
  - reflexivity.
  - reflexivity.
  - reflexivity.
  - reflexivity.
  - reflexivity.
  - discriminate.
  - intros [|[|[|j]]] y Hj Hp Hy; [lia|discriminate Hp|discriminate Hy|discriminate Hy].
  - reflexivity.
  - assert (Hs : s1 = match timer_del 1 32 demo_three with Ok (_, s) => s | _ => demo_three end).
    { rewrite E. reflexivity. }
    exists s1, (match (timer_free 32;; timer_free 48) s1 with Ok (_, s) => s | _ => s1 end),
      (match (timer_free 32;; timer_free 48) s1 with
       | Ok (_, s) => match timer_handle_timeout demo_calls s with Ok (_, s) => s | _ => s1 end
       | _ => s1
       end).
    split; [exact E|split; [exact E2|]]. vm_compute in Hs. subst s1. vm_compute.
    split; [reflexivity|split; reflexivity].
Defined.

(** A timer that cannot be deleted is scheduled twice by [timer_mod]. *)
Example timer_mod_schedules_twice : exists s,
  (timer_del 1 32;; timer_mod 1 48 1000000) demo_three = Ok (1, s) /\
  map (hp (tq_heap s)) = [Some 16; Some 48; Some 48; None] /\ size (hp (tq_heap s)) = 3.
Proof.
  destruct ((timer_del 1 32;; timer_mod 1 48 1000000) demo_three) as [[r s]| | |] eqn:E;
    vm_compute in E; try discriminate E.
  injection E as <- <-. eexists. split; [reflexivity|split; reflexivity].
Qed.
