(* ===== verification/TimerFini.v ===== *)
(** Taking a timer queue down (src/timer.c): [timer_queue_fini]. *)
From S2P Require Import Prelude Atomic Malloc Time HeapSpec Heap Signal Timer.

(** [close] of the descriptors of a pipe returns; [closed] is a record of the calls,
    apart from that of the destructors. *)
Class Closing (P : Type) `{Pipe P} (closed : P -> list Z) (calls : P -> list addr) : Prop :=
  close_law fd p : exists p', sys_close fd p = Ok (tt, p') /\
    closed p' = closed p ++ [fd] /\ calls p' = calls p.

Section Fini.
Context {A P : Type} `{AllocatorLaws A} `{PipeLaws P} `{Clock P}.
Context (code : Z -> addr -> M (tqueue A P) unit) (calls : P -> list addr) (closed : P -> list Z).
Context `{!Destructors code calls, !Closing P closed calls}.
Implicit Types (s : tqueue A P).

Lemma run_signal_destroy (sg : signal) (p : P) :
  exists p', signal_destroy (sg, p) = Ok (tt, (sg, p')) /\
    closed p' = closed p ++ [fd0 sg; fd1 sg] /\ calls p' = calls p.
Proof.
  destruct (close_law (fd0 sg) p) as (p1 & E1 & Hc1 & Hd1), (close_law (fd1 sg) p1) as (p2 & E2 & Hc2 & Hd2).
  exists p2. split_and!; [|by rewrite Hc2, Hc1, <-(assoc_L app)|congruence].
  unfold signal_destroy. erewrite run_bind by reflexivity. cbn [fst].
  unfold on_os. erewrite run_bind by (unfold zoom; cbn; by rewrite E1). unfold zoom. cbn. by rewrite E2.
Qed.

(** The array of the heap goes back to the allocator. *)
Lemma wp_heap_fini (h : hstate timer A) (Q : unit -> hstate timer A -> Prop) :
  map_ptr (hp h) <> NULL -> map_ptr (hp h) ∈ blocks (arena_of h) ->
  (forall a, blocks a = blocks (arena_of h) ∖ {[map_ptr (hp h)]} -> Q tt (set_arena a h)) ->
  wp heap_fini Q h.
Proof.
  intros Hn Hb HQ. unfold heap_fini. rewrite wp_bind, wp_gets, wp_zoom. apply wp_free; [done..|].
  intros a Ha. by apply HQ.
Qed.

(** C28: [timer_queue_fini] closes both ends of the signal's pipe, then empties the
    queue, calling the destructor of every timer in it that has one once, and
    frees the array of the heap; it returns with the mutex free. No block is
    freed but the array and, if their destructors do it, those of the timers
    that were in the queue. *)
Theorem timer_queue_fini_correct fuel s xs :
  heap_loose (tq_heap s) xs -> cmp (hp (tq_heap s)) = heap_cmp -> tq_lock s = false ->
  map_ptr (hp (tq_heap s)) ∉ xs -> (length xs < fuel)%nat ->
  exists p1 s' l,
    signal_destroy (tq_signal s) = Ok (tt, ((tq_signal s).1, p1)) /\
    closed p1 = closed (tq_signal s).2 ++ [fd0 (tq_signal s).1; fd1 (tq_signal s).1] /\
    timer_queue_fini code fuel s = Ok (tt, s') /\ tq_lock s' = false /\
    size (hp (tq_heap s')) = 0 /\
    calls (tq_signal s').2 = calls (tq_signal s).2 ++ l /\
    l ≡ₚ filter (fun x => has_destruct s x = true) xs /\
    map_ptr (hp (tq_heap s)) ∉ blocks (arena_of (tq_heap s')) /\
    (forall b, b ∉ map_ptr (hp (tq_heap s)) :: xs ->
       b ∈ blocks (arena_of (tq_heap s)) -> b ∈ blocks (arena_of (tq_heap s'))).
Proof.
  intros [Hc _ _ _ [Hpn Hpb]] Hcmp Hlk Hpx Hfuel.
  destruct (run_signal_destroy (tq_signal s).1 (tq_signal s).2) as (p1 & E1 & Hcl & Hca).
  rewrite <-surjective_pairing in E1.
  enough (wp (timer_queue_fini code fuel) (fun _ s' => exists l, tq_lock s' = false /\
    size (hp (tq_heap s')) = 0 /\
    calls (tq_signal s').2 = calls (tq_signal s).2 ++ l /\
    l ≡ₚ filter (fun x => has_destruct s x = true) xs /\
    map_ptr (hp (tq_heap s)) ∉ blocks (arena_of (tq_heap s')) /\
    (forall b, b ∉ map_ptr (hp (tq_heap s)) :: xs ->
       b ∈ blocks (arena_of (tq_heap s)) -> b ∈ blocks (arena_of (tq_heap s')))) s)
    as ([] & s' & E & l & ?)%wp_run by (destruct_and?; exists p1, s', l; by split_and!).
  unfold timer_queue_fini. rewrite wp_bind, wp_on_signal. apply wp_run. exists tt, ((tq_signal s).1, p1).
  split; [done|]. rewrite wp_bind. unfold timer_list_destroy. rewrite wp_bind.
  apply wp_tq_lock; [done|]. rewrite wp_bind.
  eapply (wp_destroy_loop code calls fuel _ xs); [exact Hc|exact Hcmp|exact Hfuel|].
  intros s1 l Hc1 Hlk1 Hmp Hb1 Hcalls Hl. apply wp_tq_unlock; [rewrite Hlk1; reflexivity|]. rewrite wp_on_heap.
  apply wp_heap_fini; tq_simpl; rewrite ?Hmp; [done|by apply Hb1|].
  intros a Ha. exists l. tq_simpl. rewrite Ha. split_and!; try done.
  - apply (c_size _ _ Hc1).
  - rewrite Hcalls. cbn. by rewrite Hca.
  - set_solver.
  - intros b [Hbp Hbx]%not_elem_of_cons Hb. apply elem_of_difference. split; [by apply Hb1|].
    by rewrite elem_of_singleton.
Qed.
End Fini.

(** ** A witness

    The pipe of Signal.v with a record of the descriptors that were closed and of
    the destructors that were called. *)
Record shutdown := mk_shutdown { sd_fifo : list Z; sd_closed : list Z; sd_calls : list addr }.

Definition sd_pipe {B} (m : M (list Z) B) : M shutdown B :=
  zoom sd_fifo (fun q y => mk_shutdown q (sd_closed y) (sd_calls y)) m.

#[export] Instance shutdown_pipe : Pipe shutdown := {
  sys_pipe := sd_pipe sys_pipe;
  sys_nonblock fd := sd_pipe (sys_nonblock fd);
  sys_close fd y := Ok (tt, mk_shutdown (sd_fifo y) (sd_closed y ++ [fd]) (sd_calls y));
  sys_read fd := sd_pipe (sys_read fd);
  sys_poll fd t := sd_pipe (sys_poll fd t);
  sys_write fd v := sd_pipe (sys_write fd v);
  queue y := queue (sd_fifo y);
  capacity := fifo_capacity;
}.

Lemma run_sd_pipe {B} (m : M (list Z) B) y v p' :
  m (sd_fifo y) = Ok (v, p') -> sd_pipe m y = Ok (v, mk_shutdown p' (sd_closed y) (sd_calls y)).
Proof. intros E. unfold sd_pipe, zoom. by rewrite E. Qed.

#[export] Instance shutdown_laws : PipeLaws shutdown.
Proof.
  split.
  - intros y r w q Hq. pose proof (read_law (sd_fifo y) r w q Hq) as Hl. destruct q as [|v q].
    + apply run_sd_pipe in Hl. by destruct y.
    + destruct Hl as (p' & E & ?). apply run_sd_pipe in E. eauto.
  - intros y r w q t Hq. destruct (poll_law (sd_fifo y) r w q t Hq) as (n & p' & l & E & Hl).
    apply run_sd_pipe in E. eauto 8.
  - intros y r w v Hq. destruct (write_law (sd_fifo y) r w v Hq) as (p' & E & Hl).
    apply run_sd_pipe in E. eauto.
  - intros y r w q Hq. apply (capacity_law (sd_fifo y) r w q Hq).
Qed.

#[export] Instance shutdown_closing : Closing shutdown sd_closed sd_calls.
Proof. intros fd y. by eexists. Qed.

(** A destructor that gives its timer back, when it came from the allocator. *)
Definition demo_release (f : Z) (t : addr) : M (tqueue arena shutdown) unit := fun s =>
  let a := arena_of (tq_heap s) in
  Ok (tt, set_signal ((tq_signal s).1, mk_shutdown (sd_fifo (tq_signal s).2) (sd_closed (tq_signal s).2)
                                         (sd_calls (tq_signal s).2 ++ [t]))
            (set_heap (set_arena (mk_arena (avail a) (live a ∖ {[t]}))
               (set_objs (delete t (timers s)) (tq_heap s))) s)).

#[export] Instance demo_release_destructors : Destructors demo_release sd_calls.
Proof.
  intros f t s _. unfold wp, demo_release. tq_simpl. split_and!; try done.
  intros p Hp. by rewrite lookup_delete_ne.
Qed.

(** Timers at 16 and 32, of which the first has a destructor. *)
Definition demo_down : tqueue arena shutdown :=
  mk_tq (mk_hstate (mk_heap 4 2 heap_cmp 8 [Some 16; Some 32; None; None])
    (list_to_map [(16, mk_timer (mk_item 0 1) (mk_timespec 5 0) 0 None (Some 2) 0);
                  (32, mk_timer (mk_item 1 1) (mk_timespec 9 0) 0 None None 0)])
    (mk_arena 4000 {[8; 16; 24]})) false (mk_signal 3 4 0, mk_shutdown [] [] []) 1.

Lemma demo_down_loose : heap_loose (tq_heap demo_down) [16; 32].
Proof.
  split.
  - split; [done| | | |vm_compute; done].
    + intros [|[|i]] x; simpl; intros; by simplify_eq.
    + intros x Hx. apply list_elem_of_In in Hx. simpl in Hx.
      destruct Hx as [<-|[<-|[]]]; vm_compute; eauto.
    + apply NoDup_ListNoDup. repeat constructor; simpl; lia.
  - intros x Hx. apply list_elem_of_In in Hx. simpl in Hx.
    destruct Hx as [<-|[<-|[]]]; vm_compute; done.
  - done.
  - vm_compute. done.
  - split; [done|]. vm_compute. done.
Qed.

Lemma timer_queue_fini_correct_witness : exists s' l,
  timer_queue_fini demo_release 20 demo_down = Ok (tt, s') /\
  sd_calls (tq_signal s').2 = l /\ l ≡ₚ [16] /\ 8 ∉ blocks (arena_of (tq_heap s')) /\
  24 ∈ blocks (arena_of (tq_heap s')).
Proof.
  destruct (timer_queue_fini_correct demo_release sd_calls sd_closed 20 demo_down [16; 32])
    as (p1 & s' & l & _ & _ & E & _ & _ & Hc & Hl & H8 & Hb).
  - exact demo_down_loose.
  - reflexivity.
  - reflexivity.
  - intros Hx. apply list_elem_of_In in Hx. simpl in Hx. lia.
  - simpl. lia.
  - exists s', l. split; [exact E|split; [exact Hc|split; [exact Hl|split; [exact H8|]]]].
    apply Hb.
    + intros Hx. apply list_elem_of_In in Hx. simpl in Hx. lia.
    + vm_compute. reflexivity.
Defined.
