(* ===== verification/TimerConc.v ===== *)
(** A timer queue under several threads (src/timer.c).

    The steps of a thread are the critical sections of timer.c and what it does
    with timers of its own: [timer_mod] is [timer_del], an assignment to [expires],
    [timer_set_timeout] and [timer_enqueue]; [timer_add] the last two of these;
    [timer_handle_timeout] and [timer_next_timeout] are the halves of Timer.v, and
    a callback is more steps of the thread that calls it. Other threads can come
    in between. What the functions read before they take the lock only decides
    which of these they do, and [was_first], which a step leaves open.

    Every timer is in the queue or belongs to one thread: to the one that made
    it, took it out of the queue or got it from another thread. *)
From S2P Require Import Prelude Conc Malloc Time HeapSpec Heap Signal Timer TimerQueue.

Section Threads.
Context {A P : Type} `{AllocatorLaws A} `{PipeLaws P} `{Clock P} `{!ClockLaws P}.
Context (fuel : nat) (Hfuel : (capacity + 1 < fuel)%nat).
Implicit Types (s : tqueue A P) (t x : addr) (xs l : list addr).

(** A thread: what [pthread_self] gives, and its timers. *)
Record worker := mk_worker { w_self : Z; w_own : list addr }.
Implicit Types (w : worker) (ws : list worker).

(** A timer in the queue that knows its position. *)
Definition sits s t : Prop :=
  exists k tm, Z.of_nat k < size (hp (tq_heap s)) /\ map (hp (tq_heap s)) !! k = Some (Some t) /\
    timers s !! t = Some tm /\ index (t_hi tm) = Z.of_nat k.

(** Room for one more enlargement of the heap within [int]. *)
Definition may_grow s : Prop := max_size (hp (tq_heap s)) < 2 ^ 31 - 102.

(** Time-outs within 2^40 seconds. *)
Definition timers_near s : Prop := forall x tm, timers s !! x = Some tm -> near (t_timeout tm).

Inductive tq_step : tqueue A P -> worker -> tqueue A P -> worker -> Prop :=
| do_new s self l cb data p s' :
    timer_new_callback cb data s = Ok (p, s') ->
    tq_step s (mk_worker self l) s' (mk_worker self (if p =? NULL then l else p :: l))
| do_free s self l1 t l2 s' :
    timer_free t s = Ok (tt, s') -> tq_step s (mk_worker self (l1 ++ t :: l2)) s' (mk_worker self (l1 ++ l2))
| do_write s self l t f s' :
    t ∈ l -> (forall tm, t_hi (f tm) = t_hi tm) ->
    update_timer t f s = Ok (tt, s') -> tq_step s (mk_worker self l) s' (mk_worker self l)
| do_set_timeout s self l t s' :
    t ∈ l -> (forall tm, timers s !! t = Some tm -> 0 <= t_expires tm * 1000 < 2 ^ 63) ->
    timer_set_timeout t s = Ok (tt, s') -> tq_step s (mk_worker self l) s' (mk_worker self l)
| do_enqueue s self l1 t l2 was_first r s' :
    may_grow s -> timer_enqueue self t was_first s = Ok (r, s') ->
    tq_step s (mk_worker self (l1 ++ t :: l2)) s' (mk_worker self (if r =? 1 then l1 ++ l2 else l1 ++ t :: l2))
| do_del s self l t s' :
    sits s t -> timer_del self t s = Ok (tt, s') -> tq_step s (mk_worker self l) s' (mk_worker self (t :: l))
| do_handle s self l o s' :
    handle_locked s = Ok (o, s') ->
    tq_step s (mk_worker self l) s' (mk_worker self (match o with Some t => t :: l | None => l end))
| do_next s w o s' :
    timers_near s -> next_timeout_locked s = Ok (o, s') -> tq_step s w s' w
| do_next_timespec s w ts0 r s' :
    timers_near s -> timer_next_timeout_timespec ts0 s = Ok (r, s') -> tq_step s w s' w
| do_lower s w v0 o r s' :
    next_timeout_unlocked fuel v0 o s = Ok (r, s') -> tq_step s w s' w
| do_raise s w r s' :
    timer_queue_signal_raise s = Ok (r, s') -> tq_step s w s' w.

(** A timer goes from one thread to another. *)
Inductive give : worker -> worker -> worker -> worker -> Prop :=
| give_timer self1 l1 t l2 self2 l :
    give (mk_worker self1 (l1 ++ t :: l2)) (mk_worker self2 l)
         (mk_worker self1 (l1 ++ l2)) (mk_worker self2 (t :: l)).

(** What the functions of timer.c are made of. *)
Lemma timer_add_steps self s t tm : timers s !! t = Some tm -> active (t_hi tm) = 0 ->
  timer_add self t s = (timer_set_timeout t;; timer_enqueue self t 0) s.
Proof.
  intros Ht Ha. assert (timer_scheduled t s = Ok (false, s)) as Hsch.
  { apply wp_eq. eapply wp_timer_scheduled; [done|]. by rewrite Ha. }
  unfold timer_add, timer_mod, timer_unschedule. rewrite (run_bind _ _ _ _ _ Hsch). cbn iota.
  assert (load_timer t s = Ok (tm, s)) as Hload by (apply wp_eq; rewrite wp_load_timer; by exists tm).
  rewrite (run_bind _ _ _ _ _ Hload). unfold mbind at 1, M_bind at 1.
  by rewrite (run_bind _ _ _ _ _ Hsch).
Qed.

Lemma timer_mod_steps self s t tm e : timers s !! t = Some tm -> active (t_hi tm) <> 0 ->
  timer_mod self t e s =
    (timer_del self t;; update_timer t (with_expires (i64 e));; timer_set_timeout t;;
     timer_enqueue self t (if index (t_hi tm) =? 0 then 1 else 0)) s.
Proof.
  intros Ht Ha. assert (timer_scheduled t s = Ok (true, s)) as Hsch.
  { apply wp_eq. eapply wp_timer_scheduled; [done|]. by rewrite (proj2 (Z.eqb_neq _ _) Ha). }
  unfold timer_mod, timer_unschedule. unfold mbind at 1, M_bind at 1.
  rewrite (run_bind _ _ _ _ _ Hsch). cbn iota.
  assert (load_timer t s = Ok (tm, s)) as Hload by (apply wp_eq; rewrite wp_load_timer; by exists tm).
  rewrite (run_bind _ _ _ _ _ Hload). unfold mbind, M_bind.
  destruct (timer_del self t s) as [[[] s1]| | |]; [|done..].
  by destruct (update_timer t _ s1) as [[[] s2]| | |].
Qed.

(** ** The books *)
Definition times (x : addr) l : nat := count_occ Z.eq_dec l x.
Definition owned (x : addr) w : nat := times x (w_own w).
Definition present s x : nat := if decide (is_Some (timers s !! x)) then 1 else 0.

(** The queue itself, whatever the threads have. *)
Record queue_ok s xs : Prop := {
  qo_heap : heap_loose (tq_heap s) xs;
  qo_cmp : cmp (hp (tq_heap s)) = heap_cmp;
  qo_lock : tq_lock s = false;
  qo_pipe : exists q, pending (tq_signal s) = Some q;
}.

(** Every timer there is is in one place: once in the queue and marked as scheduled,
    or once with one thread and not marked; and it is a block of its own. *)
Record tq_books s ws xs : Prop := {
  tb_queue : queue_ok s xs;
  tb_place x : (times x xs + total (owned x) ws = present s x)%nat;
  tb_idle x : (0 < total (owned x) ws)%nat -> active_of (timers s) x = Some 0;
  tb_block x : is_Some (timers s !! x) ->
    x <> NULL /\ x ∈ blocks (arena_of (tq_heap s)) /\ x <> map_ptr (hp (tq_heap s));
}.

Lemma times_cons x y l : times x (y :: l) = ((if decide (y = x) then 1 else 0) + times x l)%nat.
Proof. unfold times. simpl. destruct (Z.eq_dec y x), (decide (y = x)); done. Qed.
Lemma times_middle x y l1 l2 :
  times x (l1 ++ y :: l2) = ((if decide (y = x) then 1 else 0) + times x (l1 ++ l2))%nat.
Proof. unfold times. rewrite !count_occ_app. simpl. destruct (Z.eq_dec y x), (decide (y = x)); try done; lia. Qed.
Lemma times_pos x l : x ∈ l <-> (0 < times x l)%nat.
Proof. rewrite list_elem_of_In, (count_occ_In Z.eq_dec). unfold times. lia. Qed.
#[local] Instance times_perm x : Proper ((≡ₚ) ==> eq) (times x).
Proof. intros l1 l2 Hp. unfold times. by apply Permutation_count_occ. Qed.
Lemma present_le s x : (present s x <= 1)%nat.
Proof. unfold present. case_decide; lia. Qed.
Lemma present_pos s x : (0 < present s x)%nat <-> is_Some (timers s !! x).
Proof. unfold present. case_decide; split; intros; done || lia. Qed.


Lemma present_active s s' x : active_of (timers s') x = active_of (timers s) x -> present s' x = present s x.
Proof.
  unfold active_of, present. intros E. apply decide_ext.
  destruct (timers s' !! x), (timers s !! x); try done; split; eauto.
Qed.

(** The thread that works on a timer is the only one that has it. *)
Lemma sole s ws xs i w t :
  tq_books s ws xs -> ws !! i = Some w ->
  (0 < times t xs + owned t w)%nat \/ present s t = 0%nat ->
  total (owned t) ws = owned t w /\ (times t xs + owned t w = present s t)%nat.
Proof.
  intros Hb Hi Ht. pose proof (tb_place _ _ _ Hb t). pose proof (present_le s t).
  pose proof (total_lookup (owned t) ws i w Hi). lia.
Qed.

(** A step of one thread that concerns one timer, [t]. *)
Lemma books_update s ws xs i w s' w' xs' t :
  tq_books s ws xs -> ws !! i = Some w -> queue_ok s' xs' ->
  (0 < times t xs + owned t w)%nat \/ present s t = 0%nat ->
  (forall x, x <> t -> times x xs' = times x xs /\ owned x w' = owned x w /\
     active_of (timers s') x = active_of (timers s) x) ->
  (times t xs' + owned t w' = present s' t)%nat ->
  ((0 < owned t w')%nat -> active_of (timers s') t = Some 0) ->
  (forall x, is_Some (timers s' !! x) ->
     x <> NULL /\ x ∈ blocks (arena_of (tq_heap s')) /\ x <> map_ptr (hp (tq_heap s'))) ->
  tq_books s' (<[i := w']> ws) xs'.
Proof.
  intros Hb Hi Hq Ht Hother Hplace Hidle Hblock.
  destruct (sole _ _ _ _ _ _ Hb Hi Ht) as [Hsole _].
  assert (forall x, (total (owned x) (<[i := w']> ws) + owned x w = total (owned x) ws + owned x w')%nat) as Htot.
  { intros x. by apply total_insert. }
  split; [done|..|done]; intros x; specialize (Htot x); destruct (decide (x = t)) as [->|Hx].
  - lia.
  - destruct (Hother x Hx) as (E1 & E2 & E3). rewrite (present_active s s') by done.
    pose proof (tb_place _ _ _ Hb x). lia.
  - intros Hp. apply Hidle. lia.
  - destruct (Hother x Hx) as (E1 & E2 & E3). rewrite E3. intros Hp. apply (tb_idle _ _ _ Hb). lia.
Qed.

(** A step that leaves the timers alone. *)
Lemma books_same s ws xs s' :
  tq_books s ws xs -> queue_ok s' xs -> timers s' = timers s ->
  blocks_kept (tq_heap s) (tq_heap s') -> tq_books s' ws xs.
Proof.
  intros [_ Hplace Hidle Hblock] Hq Ht Hbk. split; [done| | |].
  - intros x. unfold present. rewrite Ht. apply Hplace.
  - intros x. rewrite Ht. apply Hidle.
  - intros x. rewrite Ht. intros Hx. destruct (Hblock x Hx) as (Hn & Hb & Hm). split; [done|by apply Hbk].
Qed.

Lemma blocks_same s h : hp h = hp (tq_heap s) -> arena_of h = arena_of (tq_heap s) -> blocks_kept (tq_heap s) h.
Proof. intros E1 E2 b. by rewrite E1, E2. Qed.

Definition next_books ws i s w : Prop := exists xs, tq_books s (<[i := w]> ws) xs.

(** ** The steps *)

(** A new timer, or none. *)
Lemma wp_timer_new_callback s cb data (Q : addr -> tqueue A P -> Prop) :
  (forall a, blocks a = blocks (arena_of (tq_heap s)) -> Q NULL (set_heap (set_arena a (tq_heap s)) s)) ->
  (forall p a tm, p <> NULL -> p ∉ blocks (arena_of (tq_heap s)) ->
     blocks a = {[p]} ∪ blocks (arena_of (tq_heap s)) -> t_hi tm = mk_item 0 0 ->
     Q p (set_timers (<[p := tm]> (timers s)) (set_heap (set_arena a (tq_heap s)) s))) ->
  wp (timer_new_callback cb data) Q s.
Proof.
  intros Hnull Hok. unfold timer_new_callback. rewrite wp_bind, wp_on_heap, wp_zoom. apply wp_malloc; [done|..].
  - intros a Hb _. rewrite Z.eqb_refl, wp_ret. by apply Hnull.
  - intros p a Hn Hp Hb _. rewrite (proj2 (Z.eqb_neq _ _) Hn). rewrite wp_bind, wp_modify. tq_simpl.
    unfold timer_init. wp_simpl. tq_simpl. eexists. split; [apply lookup_insert_eq|]. wp_simpl. tq_simpl.
    eexists. split; [rewrite insert_insert_eq; apply lookup_insert_eq|]. wp_simpl. tq_simpl.
    eexists. split; [rewrite !insert_insert_eq; apply lookup_insert_eq|]. wp_simpl. rewrite !insert_insert_eq.
    by apply Hok.
Qed.

Lemma wp_timer_free s t (Q : unit -> tqueue A P -> Prop) :
  t <> NULL -> t ∈ blocks (arena_of (tq_heap s)) ->
  (forall a, blocks a = blocks (arena_of (tq_heap s)) ∖ {[t]} ->
     Q tt (set_timers (delete t (timers s)) (set_heap (set_arena a (tq_heap s)) s))) ->
  wp (timer_free t) Q s.
Proof.
  intros Hn Ht HQ. unfold timer_free. rewrite wp_bind, wp_on_heap, wp_zoom. apply wp_free; [done..|].
  intros a Ha. rewrite wp_modify. tq_simpl. by apply HQ.
Qed.

(** The queue does not depend on objects that are not in it, nor on other blocks. *)
Lemma queue_ok_objects s xs os a :
  queue_ok s xs -> (forall x, x ∈ xs -> os !! x = timers s !! x) ->
  (map_ptr (hp (tq_heap s)) ∈ blocks (arena_of (tq_heap s)) -> map_ptr (hp (tq_heap s)) ∈ blocks a) ->
  queue_ok (set_timers os (set_heap (set_arena a (tq_heap s)) s)) xs.
Proof.
  intros [[[] Hact ? ? [? ?]] ? ? ?] Hos Ha. split; try done. tq_simpl. split; try done; tq_simpl.
  - split; try done; tq_simpl. intros x Hx. rewrite Hos by done. by apply c_objs.
  - intros x Hx. unfold active_of. rewrite Hos by done. by apply Hact.
  - split; [done|]. by apply Ha.
Qed.

Lemma next_same s s' ws xs i w :
  tq_books s ws xs -> ws !! i = Some w -> queue_ok s' xs -> timers s' = timers s ->
  blocks_kept (tq_heap s) (tq_heap s') -> next_books ws i s' w.
Proof. intros. exists xs. rewrite list_insert_id by done. by eapply books_same. Qed.

Lemma new_books s ws xs i self l cb data :
  tq_books s ws xs -> ws !! i = Some (mk_worker self l) ->
  wp (timer_new_callback cb data)
     (fun p s' => next_books ws i s' (mk_worker self (if p =? NULL then l else p :: l))) s.
Proof.
  intros Hb Hi. apply wp_timer_new_callback.
  - intros a Ha. rewrite Z.eqb_refl. eapply next_same; [done..| |done|].
    + apply (queue_ok_objects s xs (timers s) a); [apply Hb|done|by rewrite Ha].
    + intros b. tq_simpl. by rewrite Ha.
  - intros p a tm Hn Hp Ha Hhi. rewrite (proj2 (Z.eqb_neq _ _) Hn).
    assert (timers s !! p = None) as Hnone.
    { apply eq_None_not_Some. intros Hx. by destruct (tb_block _ _ _ Hb p Hx) as (_ & ? & _). }
    assert (present s p = 0%nat) as Hz by (unfold present; by rewrite Hnone, decide_False by (by intros [])).
    pose proof (tb_place _ _ _ Hb p) as Hplace. destruct (sole _ _ _ _ _ _ Hb Hi (or_intror Hz)) as [_ Hsole].
    exists xs. eapply (books_update s ws xs i _ _ _ xs p); [done..| | | | | |].
    + apply queue_ok_objects; [apply Hb| |rewrite Ha; set_solver].
      intros x Hx. apply lookup_insert_ne. intros ->. apply times_pos in Hx. lia.
    + by right.
    + intros x Hx. unfold owned. cbn [w_own]. rewrite times_cons, decide_False by done.
      split_and!; [done|done|]. unfold active_of. tq_simpl. by rewrite lookup_insert_ne.
    + unfold owned, present in *. cbn [w_own] in *. tq_simpl. rewrite times_cons, decide_True by done.
      rewrite lookup_insert_eq, decide_True by eauto. lia.
    + intros _. unfold active_of. tq_simpl. rewrite lookup_insert_eq. simpl. by rewrite Hhi.
    + intros x. tq_simpl. rewrite Ha. destruct (decide (x = p)) as [->|Hx].
      * intros _. split; [done|]. split; [set_solver|]. intros ->. by destruct (qo_heap _ _ (tb_queue _ _ _ Hb)) as [? ? ? ? [? ?]].
      * rewrite lookup_insert_ne by done. intros Hs. destruct (tb_block _ _ _ Hb x Hs) as (? & ? & ?). set_solver.
Qed.

(** A thread's own timer: there, idle and not in the queue. *)
Lemma own_timer s ws xs i self l t :
  tq_books s ws xs -> ws !! i = Some (mk_worker self l) -> t ∈ l ->
  exists tm, timers s !! t = Some tm /\ active (t_hi tm) = 0 /\ t ∉ xs /\ times t l = 1%nat /\
    t <> NULL /\ t ∈ blocks (arena_of (tq_heap s)) /\ t <> map_ptr (hp (tq_heap s)).
Proof.
  intros Hb Hi Ht. apply times_pos in Ht.
  destruct (sole _ _ _ _ _ t Hb Hi) as [Htot Hplace]; [left; unfold owned; cbn [w_own]; lia|].
  unfold owned in *. cbn [w_own] in *. pose proof (present_le s t).
  assert (is_Some (timers s !! t)) as [tm Htm] by (apply present_pos; lia).
  exists tm. pose proof (tb_idle _ _ _ Hb t ltac:(unfold owned; lia)) as Ha. unfold active_of in Ha.
  rewrite Htm in Ha. simpl in Ha. split_and!; [done|congruence| |lia|..].
  - intros Hx. apply times_pos in Hx. lia.
  - apply (tb_block _ _ _ Hb t); by eexists.
  - apply (tb_block _ _ _ Hb t); by eexists.
  - apply (tb_block _ _ _ Hb t); by eexists.
Qed.

Lemma free_books s ws xs i self l1 t l2 :
  tq_books s ws xs -> ws !! i = Some (mk_worker self (l1 ++ t :: l2)) ->
  wp (timer_free t) (fun _ s' => next_books ws i s' (mk_worker self (l1 ++ l2))) s.
Proof.
  intros Hb Hi. destruct (own_timer _ _ _ _ _ _ t Hb Hi ltac:(set_solver)) as (tm & Htm & _ & Hx & Hone & Hn & Hbl & Hm).
  rewrite times_middle, decide_True in Hone by done.
  apply wp_timer_free; [done..|]. intros a Ha. exists xs.
  eapply (books_update s ws xs i _ _ _ xs t); [done..| | | | | |].
  - apply queue_ok_objects; [apply Hb| |rewrite Ha; set_solver].
    intros x Hx'. apply lookup_delete_ne. by intros ->.
  - left. unfold owned. cbn [w_own]. rewrite times_middle, decide_True by done. lia.
  - intros x Hne. unfold owned. cbn [w_own]. rewrite times_middle, decide_False by done.
    split_and!; [done|done|]. unfold active_of. tq_simpl. by rewrite lookup_delete_ne.
  - unfold owned, present. cbn [w_own]. tq_simpl. rewrite lookup_delete_eq, decide_False by (by intros []).
    assert (~ (0 < times t xs)%nat) by (by rewrite <-times_pos). lia.
  - unfold owned. cbn [w_own]. lia.
  - intros x. tq_simpl. rewrite Ha. intros [tx [Hne Hs]%lookup_delete_Some].
    destruct (tb_block _ _ _ Hb x ltac:(eauto)) as (? & ? & ?). set_solver.
Qed.

(** Work on an own timer. *)
Lemma own_books s s' ws xs i self l t tm' :
  tq_books s ws xs -> ws !! i = Some (mk_worker self l) -> t ∈ l -> active (t_hi tm') = 0 ->
  timers s' = <[t := tm']> (timers s) -> hp (tq_heap s') = hp (tq_heap s) ->
  arena_of (tq_heap s') = arena_of (tq_heap s) -> tq_lock s' = false ->
  (exists q, pending (tq_signal s') = Some q) -> next_books ws i s' (mk_worker self l).
Proof.
  intros Hb Hi Ht Ha Hos Hhp Har Hlk Hq.
  destruct (own_timer _ _ _ _ _ _ t Hb Hi Ht) as (tm & Htm & _ & Hx & Hone & Hn & Hbl & Hm).
  assert (~ (0 < times t xs)%nat) by (by rewrite <-times_pos).
  exists xs. eapply (books_update s ws xs i _ _ _ xs t); [done..| | | | | |].
  - destruct (tb_queue _ _ _ Hb) as [Hl Hcmp _ _]. split; [|by rewrite Hhp|done|done].
    pose proof (heap_loose_outside (tq_heap s) xs t tm' Hl Hx) as Hl'.
    replace (tq_heap s') with (set_objs (<[t := tm']> (objs (tq_heap s))) (tq_heap s)); [done|].
    destruct (tq_heap s') as [h' os' a'] eqn:E. unfold timers in Hos. rewrite E in *. simpl in *. by subst.
  - left. unfold owned. cbn [w_own]. lia.
  - intros x Hne. split_and!; [done|done|]. unfold active_of. rewrite Hos. by rewrite lookup_insert_ne.
  - unfold owned, present. cbn [w_own]. rewrite Hos, lookup_insert_eq, decide_True by eauto. lia.
  - intros _. unfold active_of. rewrite Hos, lookup_insert_eq. simpl. by f_equal.
  - intros x. rewrite Hos, Hhp, Har. destruct (decide (x = t)) as [->|Hne]; [done|].
    rewrite lookup_insert_ne by done. apply Hb.
Qed.

Lemma write_books s ws xs i self l t f :
  tq_books s ws xs -> ws !! i = Some (mk_worker self l) -> t ∈ l -> (forall tm, t_hi (f tm) = t_hi tm) ->
  wp (update_timer t f) (fun _ s' => next_books ws i s' (mk_worker self l)) s.
Proof.
  intros Hb Hi Ht Hf. destruct (own_timer _ _ _ _ _ _ t Hb Hi Ht) as (tm & Htm & Ha & _).
  rewrite wp_update_timer. exists tm. split; [done|].
  eapply (own_books s _ ws xs i self l t (f tm)); try done; [by rewrite Hf|apply Hb|apply Hb].
Qed.

Lemma set_timeout_books s ws xs i self l t :
  tq_books s ws xs -> ws !! i = Some (mk_worker self l) -> t ∈ l ->
  (forall tm, timers s !! t = Some tm -> 0 <= t_expires tm * 1000 < 2 ^ 63) ->
  wp (timer_set_timeout t) (fun _ s' => next_books ws i s' (mk_worker self l)) s.
Proof.
  intros Hb Hi Ht He. destruct (own_timer _ _ _ _ _ _ t Hb Hi Ht) as (tm & Htm & Ha & _).
  destruct (clock_law (tq_signal s).2) as (now & p1 & Hclk & Hn & Hsec & Hpq).
  eapply wp_timer_set_timeout; [done|done|split; [done|lia]|by apply He|]. intros ts _ _.
  eapply (own_books s _ ws xs i self l t (with_timeout ts tm)); try done; [apply Hb|].
  destruct (qo_pipe _ _ (tb_queue _ _ _ Hb)) as [q Hq]. exists q. unfold pending in *. cbn. by rewrite Hpq.
Qed.

Lemma payload_is_Some (os os' : gmap addr timer) x :
  payload_eq os os' -> is_Some (os' !! x) <-> is_Some (os !! x).
Proof. intros Hp. split; apply payload_eq_dom; [by symmetry|done]. Qed.

(** From the thread into the queue. *)
Lemma enqueue_books s ws xs i self l1 t l2 wf :
  tq_books s ws xs -> ws !! i = Some (mk_worker self (l1 ++ t :: l2)) -> may_grow s ->
  wp (timer_enqueue self t wf) (fun r s' => (r = 1 \/ r = -1) /\
    next_books ws i s' (mk_worker self (if r =? 1 then l1 ++ l2 else l1 ++ t :: l2))) s.
Proof.
  intros Hb Hi Hmax. destruct (own_timer _ _ _ _ _ _ t Hb Hi ltac:(set_solver)) as (tm & Htm & _ & Hx & Hone & Hn & Hbl & Hm).
  rewrite times_middle, decide_True in Hone by done. pose proof (tb_queue _ _ _ Hb) as [Hl Hcmp Hlk [q Hq]].
  assert (~ (0 < times t xs)%nat) by (by rewrite <-times_pos).
  eapply wp_timer_enqueue; try done.
  - intros s' _ Hhp Hos Hlk' Hsg _ Hbk. split; [by right|]. change (-1 =? 1) with false. cbn iota.
    eapply next_same; [done..| |done|intros b; by rewrite Hhp, Hbk].
    split; [|by rewrite Hhp|done|exists q; by rewrite Hsg].
    assert (objs (tq_heap s') = objs (tq_heap s)) as Hos' by exact Hos.
    destruct Hl as [[] Hact Hlen Hmx [Hp1 Hp2]].
    split; [split|..]; rewrite ?Hhp, ?Hos', ?Hbk; done.
  - intros s' ys Hl' _ Hys Hpl Hlk' _ [_ Hcmp' _ Hfr] Hbk Hp. split; [by left|]. rewrite Z.eqb_refl. exists ys.
    eapply (books_update s ws xs i _ _ _ ys t); [done..| | | | | |].
    + split; [done|done|done|]. eexists; exact Hp.
    + left. unfold owned. cbn [w_own]. rewrite times_middle, decide_True by done. lia.
    + intros x Hne. unfold owned. cbn [w_own]. rewrite times_middle, decide_False by done.
      rewrite Hys, times_cons, decide_False by done. split_and!; [done|done|].
      destruct (decide (x ∈ xs)) as [Hxx|Hxx].
      * transitivity (Some 1).
        { apply (hl_active _ _ Hl'). rewrite Hys. by right. }
        symmetry. by apply (hl_active _ _ Hl).
      * unfold active_of. rewrite Hfr; [done|]. rewrite Hys. by intros [?|?]%elem_of_cons.
    + unfold owned, present. cbn [w_own]. rewrite Hys, times_cons, decide_True by done.
      rewrite decide_True; [lia|]. apply (payload_is_Some _ _ _ Hpl). eauto.
    + unfold owned. cbn [w_own]. lia.
    + intros x Hs. apply (payload_is_Some _ _ _ Hpl) in Hs. destruct (tb_block _ _ _ Hb x Hs) as (? & Hb1 & Hb2).
      split; [done|]. by apply Hbk.
Qed.

(** From the queue to the thread. *)
Lemma removed_books s s' ws xs ys i self l t k :
  tq_books s ws xs -> ws !! i = Some (mk_worker self l) -> t ∈ xs ->
  removed (tq_heap s) (tq_heap s') xs ys k t -> t :: ys ≡ₚ xs ->
  tq_lock s' = false -> (exists q, pending (tq_signal s') = Some q) ->
  next_books ws i s' (mk_worker self (t :: l)).
Proof.
  intros Hb Hi Ht Hr Hys Hlk Hq. pose proof (tb_queue _ _ _ Hb) as [Hl Hcmp _ _].
  apply times_pos in Ht. destruct (sole _ _ _ _ _ t Hb Hi) as [Htot Hplace]; [left; lia|].
  pose proof (present_le s t). exists ys. rewrite <-Hys, times_cons, decide_True in Hplace by done.
  eapply (books_update s ws xs i _ _ _ ys t); [done..| | | | | |].
  - split; [by eapply removed_loose|by rewrite (rm_hp _ _ _ _ _ _ Hr)|done|done].
  - left. lia.
  - intros x Hne. unfold owned. cbn [w_own]. rewrite <-Hys, !times_cons, decide_False by done.
    split_and!; [done|done|]. by apply (rm_active _ _ _ _ _ _ Hr).
  - unfold owned in *. cbn [w_own] in *. rewrite times_cons, decide_True by done.
    assert (present s' t = present s t) as ->; [|lia]. unfold present. apply decide_ext.
    apply payload_is_Some, (rm_payload _ _ _ _ _ _ Hr).
  - intros _. apply (rm_inactive _ _ _ _ _ _ Hr).
  - intros x Hs. apply (payload_is_Some _ _ _ (rm_payload _ _ _ _ _ _ Hr)) in Hs.
    rewrite (rm_hp _ _ _ _ _ _ Hr), (rm_arena _ _ _ _ _ _ Hr). by apply Hb.
Qed.

Lemma sits_at s xs t : cells (tq_heap s) xs -> sits s t ->
  exists k tm, xs !! k = Some t /\ timers s !! t = Some tm /\ index (t_hi tm) = Z.of_nat k.
Proof.
  intros Hc (k & tm & Hk & Hm & Htm & Hi). exists k, tm. split_and!; try done.
  rewrite (c_size _ _ Hc) in Hk. destruct (lookup_lt_is_Some_2 xs k) as [y Hy]; [lia|].
  pose proof (c_map _ _ Hc _ _ Hy). congruence.
Qed.

Lemma del_books s ws xs i self l t :
  tq_books s ws xs -> ws !! i = Some (mk_worker self l) -> sits s t ->
  wp (timer_del self t) (fun _ s' => next_books ws i s' (mk_worker self (t :: l))) s.
Proof.
  intros Hb Hi Hs. pose proof (tb_queue _ _ _ Hb) as [Hl Hcmp Hlk [q Hq]].
  destruct (sits_at _ _ _ (hl_cells _ _ Hl) Hs) as (k & tm & Hk & Htm & Hix).
  eapply wp_timer_del; [apply Hl|done..|]. intros s' Hr Hlk' _ Hp.
  eapply removed_books; [done|done| |done| |done|by eexists].
  - by eapply list_elem_of_lookup_2.
  - by apply taken_contents.
Qed.

Lemma handle_books s ws xs i self l :
  tq_books s ws xs -> ws !! i = Some (mk_worker self l) ->
  wp handle_locked (fun o s' => (o = None <-> xs = []) /\
    next_books ws i s' (mk_worker self (match o with Some t => t :: l | None => l end))) s.
Proof.
  intros Hb Hi. pose proof (tb_queue _ _ _ Hb) as [Hl Hcmp Hlk Hq].
  eapply wp_handle_locked; [apply Hl|done|done|]. destruct xs as [|x xs].
  - split; [done|]. eapply next_same; [done..|by apply blocks_same].
  - intros h ys Hr Hys. split; [done|]. eapply (removed_books s _ ws (x :: xs)); [done|done|by left|done| |done|done].
    by rewrite Hys.
Qed.

(** The signal. *)
Lemma pipe_books s ws xs i w p' q :
  tq_books s ws xs -> ws !! i = Some w ->
  queue p' (fd0 (tq_signal s).1) (fd1 (tq_signal s).1) = Some q ->
  next_books ws i (set_signal ((tq_signal s).1, p') s) w.
Proof.
  intros Hb Hi Hq. eapply next_same; [done..| |done|by apply blocks_same].
  destruct (tb_queue _ _ _ Hb). split; try done. by exists q.
Qed.

Lemma raise_books s ws xs i w :
  tq_books s ws xs -> ws !! i = Some w -> wp timer_queue_signal_raise (fun _ s' => next_books ws i s' w) s.
Proof.
  intros Hb Hi. destruct (qo_pipe _ _ (tb_queue _ _ _ Hb)) as [q Hq].
  eapply wp_tq_raise; [exact Hq|]. intros r p' Hp. by eapply pipe_books.
Qed.

Lemma lower_books s ws xs i w v0 o :
  tq_books s ws xs -> ws !! i = Some w ->
  wp (next_timeout_unlocked fuel v0 o) (fun _ s' => next_books ws i s' w) s.
Proof.
  intros Hb Hi. destruct (qo_pipe _ _ (tb_queue _ _ _ Hb)) as [q Hq].
  eapply wp_next_unlocked; [exact Hq|done|]. intros p' Hp. by eapply pipe_books.
Qed.

(** Asking for the next time-out. *)
Lemma clock_books s ws xs i w p1 :
  tq_books s ws xs -> ws !! i = Some w -> (forall r e, queue p1 r e = queue (tq_signal s).2 r e) ->
  next_books ws i (set_signal ((tq_signal s).1, p1) s) w.
Proof.
  intros Hb Hi Hp. destruct (qo_pipe _ _ (tb_queue _ _ _ Hb)) as [q Hq].
  eapply pipe_books; [done..|]. rewrite Hp. exact Hq.
Qed.

Lemma next_books_locked s ws xs i w :
  tq_books s ws xs -> ws !! i = Some w -> timers_near s ->
  wp next_timeout_locked (fun _ s' => next_books ws i s' w) s.
Proof.
  intros Hb Hi Hnear. pose proof (tb_queue _ _ _ Hb) as [Hl Hcmp Hlk Hq]. destruct xs as [|x xs].
  - eapply wp_next_locked_empty; [apply Hl|done|]. exists []. by rewrite list_insert_id.
  - destruct (c_objs _ _ (hl_cells _ _ Hl) x) as [tm Htm]; [by left|].
    destruct (clock_law (tq_signal s).2) as (now & p1 & Hclk & Hn & Hsec & Hpq).
    eapply wp_next_locked; [apply Hl|done|exact Htm|done|split; [done|lia]|by eapply Hnear|].
    by eapply clock_books.
Qed.

Lemma wp_next_timespec_empty s ts0 (Q : Z * timespec -> tqueue A P -> Prop) :
  cells (tq_heap s) [] -> tq_lock s = false -> Q (0, ts0) s -> wp (timer_next_timeout_timespec ts0) Q s.
Proof.
  intros Hc Hlk HQ. unfold timer_next_timeout_timespec. rewrite wp_bind. apply wp_tq_lock; [done|].
  rewrite wp_bind, wp_on_heap. eapply wp_heap_empty; [exact Hc|]. rewrite bool_decide_true by done.
  wp_simpl. apply wp_tq_unlock; [done|]. wp_simpl. destruct s as [h lk sg thr]. simpl in Hlk. by subst lk.
Qed.

Lemma next_books_timespec s ws xs i w ts0 :
  tq_books s ws xs -> ws !! i = Some w -> timers_near s ->
  wp (timer_next_timeout_timespec ts0) (fun _ s' => next_books ws i s' w) s.
Proof.
  intros Hb Hi Hnear. pose proof (tb_queue _ _ _ Hb) as [Hl Hcmp Hlk Hq]. destruct xs as [|x xs].
  - eapply wp_next_timespec_empty; [apply Hl|done|]. exists []. by rewrite list_insert_id.
  - destruct (c_objs _ _ (hl_cells _ _ Hl) x) as [tm Htm]; [by left|].
    destruct (clock_law (tq_signal s).2) as (now & p1 & Hclk & Hn & Hsec & Hpq).
    eapply wp_timer_next_timespec; [apply Hl|done|exact Htm|done|split; [done|lia]|by eapply Hnear|].
    intros r _ _. by eapply clock_books.
Qed.

(** ** All runs *)
Lemma wp_then {B} (m : M (tqueue A P) B) Q s r s' : wp m Q s -> m s = Ok (r, s') -> Q r s'.
Proof. intros Hw E. unfold wp in Hw. by rewrite E in Hw. Qed.

Lemma tq_step_books s ws xs i w s' w' :
  tq_books s ws xs -> ws !! i = Some w -> tq_step s w s' w' -> next_books ws i s' w'.
Proof.
  intros Hb Hi Hst.
  destruct Hst as [s self l cb data p s' E|s self l1 t l2 s' E|s self l t f s' Ht Hf E|s self l t s' Ht He E|
    s self l1 t l2 wf r s' Hg E|s self l t s' Hs E|s self l o s' E|s w o s' Hn E|s w ts0 r s' Hn E|
    s w v0 o r s' E|s w r s' E].
  - by eapply (wp_then _ _ _ _ _ (new_books _ _ _ _ _ _ _ _ Hb Hi)).
  - by eapply (wp_then _ _ _ _ _ (free_books _ _ _ _ _ _ _ _ Hb Hi)).
  - by eapply (wp_then _ _ _ _ _ (write_books _ _ _ _ _ _ _ _ Hb Hi Ht Hf)).
  - by eapply (wp_then _ _ _ _ _ (set_timeout_books _ _ _ _ _ _ _ Hb Hi Ht He)).
  - by eapply (wp_then _ _ _ _ _ (enqueue_books _ _ _ _ _ _ _ _ _ Hb Hi Hg)).
  - by eapply (wp_then _ _ _ _ _ (del_books _ _ _ _ _ _ _ Hb Hi Hs)).
  - by eapply (wp_then _ _ _ _ _ (handle_books _ _ _ _ _ _ Hb Hi)).
  - by eapply (wp_then _ _ _ _ _ (next_books_locked _ _ _ _ _ Hb Hi Hn)).
  - by eapply (wp_then _ _ _ _ _ (next_books_timespec _ _ _ _ _ _ Hb Hi Hn)).
  - by eapply (wp_then _ _ _ _ _ (lower_books _ _ _ _ _ _ _ Hb Hi)).
  - by eapply (wp_then _ _ _ _ _ (raise_books _ _ _ _ _ Hb Hi)).
Qed.

Lemma give_books s ws xs i j w1 w2 w1' w2' :
  tq_books s ws xs -> i <> j -> ws !! i = Some w1 -> ws !! j = Some w2 -> give w1 w2 w1' w2' ->
  tq_books s (<[j := w2']> (<[i := w1']> ws)) xs.
Proof.
  intros [] Hij Hi Hj Hg. destruct Hg as [self1 la t lb self2 l].
  assert (forall x, total (owned x) (<[j := mk_worker self2 (t :: l)]> (<[i := mk_worker self1 (la ++ lb)]> ws)) =
    total (owned x) ws) as Htot.
  { intros x. assert (<[i := mk_worker self1 (la ++ lb)]> ws !! j = Some (mk_worker self2 l)) as Hj'
      by (by rewrite list_lookup_insert_ne).
    pose proof (total_insert (owned x) _ _ _ (mk_worker self1 (la ++ lb)) Hi) as E1.
    pose proof (total_insert (owned x) _ _ _ (mk_worker self2 (t :: l)) Hj') as E2.
    unfold owned in *. cbn [w_own] in *. rewrite times_middle, times_cons in *. lia. }
  split; try done; intros x; rewrite Htot; auto.
Qed.

Lemma tq_reachable_books c c' xs :
  tq_books (shared c) (threads c) xs -> reachable tq_step give c c' ->
  exists xs', tq_books (shared c') (threads c') xs'.
Proof.
  intros Hb. apply (reachable_invariant _ _ (fun d => exists xs, tq_books (shared d) (threads d) xs)); [by eauto|].
  intros d d' (xs1 & Hd) Hst. destruct Hst as [s ws i w s' w' Hi Hst|s ws i j w1 w2 w1' w2' Hij Hi Hj Hg].
  - by eapply tq_step_books.
  - exists xs1. by eapply give_books.
Qed.

End Threads.

(** ** Witnesses

    An empty queue; thread 1 has the timer at 16, thread 2 the one at 32. *)
Definition demo_shared : tqueue arena (list Z) :=
  mk_tq (mk_hstate (mk_heap 4 0 heap_cmp 8 (replicate 4 None))
           (list_to_map [(16, demo_timer 1000000); (32, demo_timer 5000000)])
           (mk_arena 4000 {[8; 16; 32]}))
    false (mk_signal 3 4 0, []) 1.

Lemma demo_shared_books : tq_books demo_shared [mk_worker 1 [16]; mk_worker 2 [32]] [].
Proof.
  assert (forall x, is_Some (timers demo_shared !! x) -> x = 16 \/ x = 32) as Hdom.
  { intros x [tm Hx]. unfold demo_shared in Hx. cbn in Hx.
    apply lookup_insert_Some in Hx as [[-> _]|[_ Hx]]; [by left|].
    apply lookup_insert_Some in Hx as [[-> _]|[_ Hx]]; [by right|by rewrite lookup_empty in Hx]. }
  split.
  - split; [|done|done|by exists []]. split; [split; [done| |by intros x ?%not_elem_of_nil|constructor|done]|by intros x ?%not_elem_of_nil|done|vm_compute; done|].
    + intros i x Hx. by rewrite lookup_nil in Hx.
    + split; [done|]. vm_compute. done.
  - intros x. destruct (decide (x = 16)) as [->|]; [done|]. destruct (decide (x = 32)) as [->|]; [done|].
    unfold present. rewrite decide_False; [|intros Hx; destruct (Hdom x Hx); done].
    rewrite !total_cons. unfold owned. cbn [w_own]. by rewrite !times_cons, !decide_False by done.
  - intros x Hx. destruct (decide (x = 16)) as [->|]; [done|]. destruct (decide (x = 32)) as [->|]; [done|].
    exfalso. rewrite !total_cons in Hx. unfold owned in Hx. cbn [w_own] in Hx.
    rewrite !times_cons, !decide_False in Hx by done. cbn in Hx. lia.
  - intros x Hx. destruct (Hdom x Hx) as [->| ->]; vm_compute; split; (split || discriminate); done || discriminate.
Qed.


(** The rule that a timer belongs to one thread is not one the code enforces:
    [timer_add] looks whether the timer is scheduled before it takes the lock, so
    that two threads that add the same timer can both find that it is not, and it
    is in the queue twice. *)
Example timer_added_twice : exists s,
  (sch1 ← timer_scheduled 16; sch2 ← timer_scheduled 16;
   timer_set_timeout 16;; timer_set_timeout 16;;
   timer_enqueue 1 16 0;; r ← timer_enqueue 2 16 0; mret (sch1, sch2, r)) demo_shared = Ok ((false, false, 1), s) /\
  map (hp (tq_heap s)) = [Some 16; Some 16; None; None].
Proof.
  match goal with |- exists s, ?m demo_shared = _ /\ _ => destruct (m demo_shared) as [[r s]| | |] eqn:E end;
    vm_compute in E; try discriminate E.
  injection E as <- <-. eexists. split; reflexivity.
Qed.
