(* ===== verification/Rbtree.v ===== *)
(** The red-black tree (src/rbtree.c, include/ckit/rbtree.h): the nodes, the
    binary insertion and its fix-up, the traversal that threads the tree, and
    its destruction, over a store of nodes, a store of byte blocks and the
    allocator. RbtreeThms.v holds what the operations do.

    A pointer to a key's or a value's bytes is the address of their block. The
    functions of [struct rb_node_ops] are fields of [ops]. The debug messages
    are modelled where they are the purpose of the function, in
    [rb_tree_print_in_order], which appends a line per node to [out]. *)
From stdpp Require Import strings.
From S2P Require Import Prelude Malloc.

(** ** Data *)
Inductive rb_color_t := RB_COLOR_BLACK | RB_COLOR_RED.
Record rb_key_t := mk_key { k_len : Z; k_data : addr }.
Record rb_value_t := mk_value { v_len : Z; v_data : addr }.
Record rb_node_t := mk_node {
  color : rb_color_t;
  left : addr;
  right : addr;
  parent : addr;
  debug : Z;
  key : rb_key_t;
  val : rb_value_t;
}.
Definition sizeof_rb_node : Z := 72.

#[export] Instance rb_color_eq_dec : EqDecision rb_color_t.
Proof. solve_decision. Defined.

Definition with_color (c : rb_color_t) (n : rb_node_t) : rb_node_t :=
  mk_node c (left n) (right n) (parent n) (debug n) (key n) (val n).
Definition with_left (p : addr) (n : rb_node_t) : rb_node_t :=
  mk_node (color n) p (right n) (parent n) (debug n) (key n) (val n).
Definition with_right (p : addr) (n : rb_node_t) : rb_node_t :=
  mk_node (color n) (left n) p (parent n) (debug n) (key n) (val n).
Definition with_parent (p : addr) (n : rb_node_t) : rb_node_t :=
  mk_node (color n) (left n) (right n) p (debug n) (key n) (val n).
Definition with_key (k : rb_key_t) (n : rb_node_t) : rb_node_t :=
  mk_node (color n) (left n) (right n) (parent n) (debug n) k (val n).
Definition with_val (v : rb_value_t) (n : rb_node_t) : rb_node_t :=
  mk_node (color n) (left n) (right n) (parent n) (debug n) (key n) v.

(** The bytes behind the pointers. *)
Abbreviation bytes := (gmap addr (list Z)).

(** What the functions of the client see: the blocks and the allocator. *)
Record rb_node_ops_t (A : Type) := mk_ops {
  key_compare : rb_key_t -> rb_key_t -> M bytes Z;
  key_print : rb_key_t -> string;
  value_print : rb_value_t -> string;
  key_free : option (rb_key_t -> M (bytes * A) rb_key_t);
  value_free : option (rb_value_t -> M (bytes * A) rb_value_t);
}.
Arguments mk_ops {A}.
Arguments key_compare {A}.
Arguments key_print {A}.
Arguments value_print {A}.
Arguments key_free {A}.
Arguments value_free {A}.

(** The tree and everything it points to. *)
Record rb_tree_t (A : Type) := mk_tree {
  root : addr;
  ops : rb_node_ops_t A;
  size : Z;
  nodes : gmap addr rb_node_t;
  heap : bytes * A;
  out : list (string * string);
}.
Arguments mk_tree {A}.
Arguments root {A}.
Arguments ops {A}.
Arguments size {A}.
Arguments nodes {A}.
Arguments heap {A}.
Arguments out {A}.

(** [memcmp], of which the code uses the sign only. *)
Fixpoint memcmp_bytes (a b : list Z) : Z :=
  match a, b with
  | x :: a', y :: b' => if x <? y then -1 else if y <? x then 1 else memcmp_bytes a' b'
  | _, _ => 0
  end.
Definition memcmp (p q : addr) (n : Z) : M bytes Z :=
  a ← load p;
  b ← load q;
  if (n <=? Z.of_nat (length a)) && (n <=? Z.of_nat (length b))
  then mret (memcmp_bytes (take (Z.to_nat n) a) (take (Z.to_nat n) b))
  else fault.

(** [memcpy(dst, src, n)] to a block of [n] bytes. *)
Definition memcpy (dst src : addr) (n : Z) : M bytes unit :=
  b ← load src;
  if n <=? Z.of_nat (length b)
  then update dst (fun d => take (Z.to_nat n) b ++ drop (Z.to_nat n) d)
  else fault.

(** An [int] at [p]: four bytes, the lowest first. *)
Definition load_int (p : addr) : M bytes Z :=
  b ← load p;
  match b with
  | b0 :: b1 :: b2 :: b3 :: _ => mret (i32 (b0 + 2 ^ 8 * b1 + 2 ^ 16 * b2 + 2 ^ 24 * b3))
  | _ => fault
  end.

Definition default_comp (k1 k2 : rb_key_t) : M bytes Z :=
  if negb (k_len k1 =? k_len k2)
  then mret (if k_len k1 <? k_len k2 then 1 else 0)
  else memcmp (k_data k1) (k_data k2) (k_len k1).
Definition default_key_print (k : rb_key_t) : string := EmptyString.
Definition default_value_print (v : rb_value_t) : string := EmptyString.

Section Ops.
Context {A : Type} `{Allocator A}.
Abbreviation RM := (M (rb_tree_t A)).

(** ** Access to the parts *)
Definition set_root (p : addr) (s : rb_tree_t A) : rb_tree_t A :=
  mk_tree p (ops s) (size s) (nodes s) (heap s) (out s).
Definition set_nodes (m : gmap addr rb_node_t) (s : rb_tree_t A) : rb_tree_t A :=
  mk_tree (root s) (ops s) (size s) m (heap s) (out s).
Definition set_heap (h : bytes * A) (s : rb_tree_t A) : rb_tree_t A :=
  mk_tree (root s) (ops s) (size s) (nodes s) h (out s).
Definition set_out (l : list (string * string)) (s : rb_tree_t A) : rb_tree_t A :=
  mk_tree (root s) (ops s) (size s) (nodes s) (heap s) l.

Definition on_nodes {B} (m : M (gmap addr rb_node_t) B) : RM B := zoom nodes set_nodes m.
Definition on_heap {B} (m : M (bytes * A) B) : RM B := zoom heap set_heap m.
Definition on_bytes {B} (m : M bytes B) : M (bytes * A) B := zoom fst (fun b h => (b, h.2)) m.
Definition on_arena {B} (m : M A B) : M (bytes * A) B := zoom snd (fun a h => (h.1, a)) m.

Definition node_at (p : addr) : RM rb_node_t := on_nodes (load p).
Definition set_color (p : addr) (c : rb_color_t) : RM unit := on_nodes (update p (with_color c)).
Definition set_left (p q : addr) : RM unit := on_nodes (update p (with_left q)).
Definition set_right (p q : addr) : RM unit := on_nodes (update p (with_right q)).
Definition set_parent (p q : addr) : RM unit := on_nodes (update p (with_parent q)).

(** A block of [n] bytes, and its end. *)
Definition malloc_bytes (n : Z) : M (bytes * A) addr :=
  p ← on_arena (malloc n);
  if p =? NULL then mret NULL
  else on_bytes (modify (<[p := replicate (Z.to_nat n) 0]>));; mret p.
Definition free_bytes (p : addr) : M (bytes * A) unit :=
  on_arena (free p);; on_bytes (modify (delete p)).

Definition default_key_free (k : rb_key_t) : M (bytes * A) rb_key_t :=
  if k_data k =? NULL then mret k
  else free_bytes (k_data k);; mret (mk_key (k_len k) NULL).
Definition default_value_free (v : rb_value_t) : M (bytes * A) rb_value_t :=
  if v_data v =? NULL then mret v
  else free_bytes (v_data v);; mret (mk_value (v_len v) NULL).

Definition default_tree_ops : rb_node_ops_t A :=
  mk_ops default_comp default_key_print default_value_print
    (Some default_key_free) (Some default_value_free).

(** ** Insertion *)
Definition rb_node_alloc (key : addr) (key_len : Z) (val : addr) (val_len : Z) (parent : addr)
    : RM addr :=
  let tot_len := u64 (sizeof_rb_node + key_len + val_len) in
  n ← on_heap (on_arena (malloc tot_len));
  if n =? NULL then mret NULL
  else if tot_len <? sizeof_rb_node then fault
  else
    d ← (if val_len =? 4 then on_heap (on_bytes (load_int val)) else mret 0);
    on_nodes (modify (<[n := mk_node RB_COLOR_RED NULL NULL parent d
                               (mk_key key_len key) (mk_value val_len val)]>));;
    mret n.

(** The [while (1)] loop; the result is the last [curr]. *)
Fixpoint bst_loop (fuel : nat) (key : addr) (key_len : Z) (val : addr) (val_len : Z)
    (curr : addr) : RM addr :=
  match fuel with
  | O => out_of_fuel
  | S fuel =>
      let parent := curr in
      n ← node_at curr;
      s ← get;
      comp ← on_heap (on_bytes (key_compare (ops s) (mk_key key_len key) (Rbtree.key n)));
      if comp <? 0 then
        let curr := left n in
        if curr =? NULL then
          curr ← rb_node_alloc key key_len val val_len parent;
          set_left parent curr;;
          mret curr
        else bst_loop fuel key key_len val val_len curr
      else
        let curr := right n in
        if curr =? NULL then
          curr ← rb_node_alloc key key_len val val_len parent;
          set_right parent curr;;
          mret curr
        else bst_loop fuel key key_len val val_len curr
  end.

(** [new_node] is the content of [*new_node], or [None] when the pointer is
    [NULL]; the result is the return value and the content afterwards. *)
Definition bst_insert (fuel : nat) (key : addr) (key_len : Z) (val : addr) (val_len : Z)
    (new_node : option addr) : RM (Z * option addr) :=
  s ← get;
  let curr := root s in
  if curr =? NULL then
    r ← rb_node_alloc key key_len val val_len NULL;
    modify (set_root r);;
    if r =? NULL then mret (-1, new_node)
    else mret (1, (fun _ => r) <$> new_node)
  else
    curr ← bst_loop fuel key key_len val val_len curr;
    mret (if negb (curr =? NULL) then 1 else -1, (fun _ => curr) <$> new_node).

Definition grandparent (node : addr) : RM addr :=
  if node =? NULL then mret NULL
  else
    n ← node_at node;
    if parent n =? NULL then mret NULL
    else p ← node_at (parent n); mret (parent p).

Definition uncle (node : addr) : RM addr :=
  gp ← grandparent node;
  if gp =? NULL then mret NULL
  else
    n ← node_at node;
    g ← node_at gp;
    mret (if parent n =? left g then right g else left g).

Definition sibling (node : addr) : RM addr :=
  if node =? NULL then mret NULL
  else
    n ← node_at node;
    if parent n =? NULL then mret NULL
    else p ← node_at (parent n); mret (if negb (right p =? node) then right p else left p).

(** *** Rotations *)
Definition rb_tree_rotate_right_side_right (node : addr) : RM unit :=
  if node =? NULL then mret tt
  else
    n ← node_at node;
    if left n =? NULL then mret tt
    else
      let child := left n in
      let parent := Rbtree.parent n in
      set_right parent child;;
      set_parent child parent;;
      set_parent node child;;
      c ← node_at child;
      set_left node (right c);;
      set_right child node.

Definition rb_tree_rotate_left_side_right (node : addr) : RM unit :=
  if node =? NULL then mret tt
  else
    n ← node_at node;
    if left n =? NULL then mret tt
    else
      let child := left n in
      let parent := Rbtree.parent n in
      set_left parent child;;
      set_parent child parent;;
      set_parent node child;;
      c ← node_at child;
      set_left node (right c);;
      set_right child node.

Definition rb_tree_rotate_right_side_left (node : addr) : RM unit :=
  if node =? NULL then mret tt
  else
    n ← node_at node;
    if right n =? NULL then mret tt
    else
      let child := right n in
      let parent := Rbtree.parent n in
      set_right parent child;;
      set_parent child parent;;
      set_parent node child;;
      c ← node_at child;
      set_right node (left c);;
      set_left child node.

Definition rb_tree_rotate_left_side_left (node : addr) : RM unit :=
  if node =? NULL then mret tt
  else
    n ← node_at node;
    if right n =? NULL then mret tt
    else
      let child := right n in
      let parent := Rbtree.parent n in
      set_left parent child;;
      set_parent child parent;;
      set_parent node child;;
      c ← node_at child;
      set_right node (left c);;
      set_left child node.

(** *** The fix-up *)
Definition rb_tree_insert_case5 (node : addr) : RM unit :=
  g ← grandparent node;
  n ← node_at node;
  set_color (parent n) RB_COLOR_BLACK;;
  set_color g RB_COLOR_RED;;
  n ← node_at node;
  p ← node_at (parent n);
  if left p =? node then rb_tree_rotate_left_side_right g
  else rb_tree_rotate_right_side_left g.

Definition rb_tree_insert_case4 (node : addr) : RM unit :=
  g ← grandparent node;
  n ← node_at node;
  p ← node_at (parent n);
  inner_left ← (if right p =? node then gn ← node_at g; mret (parent n =? left gn)
                else mret false);
  node ← (if (inner_left : bool) then
            rb_tree_rotate_left_side_left (parent n);;
            n ← node_at node; mret (left n)
          else
            inner_right ← (if left p =? node then gn ← node_at g; mret (parent n =? right gn)
                           else mret false);
            if (inner_right : bool) then
              rb_tree_rotate_right_side_right (parent n);;
              n ← node_at node; mret (right n)
            else mret node);
  if node =? NULL then mret tt else rb_tree_insert_case5 node.

(** The cases call one another; [case1] stands for the recursive call. *)
Definition rb_tree_insert_case3 (case1 : addr -> RM unit) (node : addr) : RM unit :=
  u ← uncle node;
  red ← (if u =? NULL then mret false
         else un ← node_at u; mret (bool_decide (color un = RB_COLOR_RED)));
  if (red : bool) then
    n ← node_at node;
    set_color (parent n) RB_COLOR_BLACK;;
    set_color u RB_COLOR_BLACK;;
    g ← grandparent node;
    set_color g RB_COLOR_RED;;
    case1 g
  else rb_tree_insert_case4 node.

Definition rb_tree_insert_case2 (case1 : addr -> RM unit) (node : addr) : RM unit :=
  n ← node_at node;
  p ← node_at (parent n);
  if bool_decide (color p = RB_COLOR_BLACK) then mret tt
  else rb_tree_insert_case3 case1 node.

Fixpoint rb_tree_insert_case1 (fuel : nat) (node : addr) : RM unit :=
  match fuel with
  | O => out_of_fuel
  | S fuel =>
      n ← node_at node;
      if parent n =? NULL then set_color node RB_COLOR_BLACK
      else rb_tree_insert_case2 (rb_tree_insert_case1 fuel) node
  end.

Definition _rb_tree_insert (fuel : nat) (key : addr) (key_len : Z) (val : addr) (val_len : Z)
    : RM Z :=
  r ← bst_insert fuel key key_len val val_len (Some NULL);
  let (ret, new_node) := (r : Z * option addr) in
  if ret <=? 0 then mret ret
  else
    rb_tree_insert_case1 fuel (default NULL new_node);;
    mret ret.

(** It calls itself. *)
Fixpoint rb_tree_insert (fuel : nat) (key : addr) (key_len : Z) (val : addr) (val_len : Z)
    : RM Z :=
  match fuel with
  | O => out_of_fuel
  | S fuel =>
      key_copy ← on_heap (malloc_bytes key_len);
      if key_copy =? NULL then mret (-1)
      else
        val_copy ← on_heap (malloc_bytes val_len);
        if val_copy =? NULL then mret (-1)
        else
          on_heap (on_bytes (memcpy key_copy key key_len));;
          on_heap (on_bytes (memcpy val_copy val val_len));;
          rb_tree_insert fuel key_copy key_len val_copy val_len
  end.

Definition rb_tree_delete (key : addr) (key_len : Z) : RM Z := mret 0.

(** ** Destruction *)
Fixpoint rb_tree_node_destroy (fuel : nat) (node : addr) : RM unit :=
  match fuel with
  | O => out_of_fuel
  | S fuel =>
      if node =? NULL then mret tt
      else
        n ← node_at node;
        rb_tree_node_destroy fuel (left n);;
        n ← node_at node;
        rb_tree_node_destroy fuel (right n);;
        s ← get;
        match key_free (ops s) with
        | Some f => n ← node_at node; k ← on_heap (f (key n)); on_nodes (update node (with_key k))
        | None => mret tt
        end;;
        match value_free (ops s) with
        | Some f => n ← node_at node; v ← on_heap (f (val n)); on_nodes (update node (with_val v))
        | None => mret tt
        end;;
        on_heap (on_arena (free node));;
        on_nodes (dealloc node)
  end.

Definition rb_tree_destroy (fuel : nat) : RM unit :=
  s ← get; rb_tree_node_destroy fuel (root s).

(** ** Printing *)
Definition color_name (c : rb_color_t) : string :=
  match c with RB_COLOR_RED => "red" | RB_COLOR_BLACK => "black" end.

(** The line for one node. *)
Definition print_node (n : rb_node_t) : RM unit :=
  modify (fun s => set_out (out s ++ [(value_print (ops s) (val n), color_name (color n))]) s).

(** [while (prev->right != NULL && prev->right != curr)]. *)
Fixpoint last_right (fuel : nat) (curr prev : addr) : RM addr :=
  match fuel with
  | O => out_of_fuel
  | S fuel =>
      p ← node_at prev;
      if negb (right p =? NULL) && negb (right p =? curr)
      then last_right fuel curr (right p)
      else mret prev
  end.

(** [while (curr != NULL)]; [w] is the fuel of the inner loop. *)
Fixpoint print_loop (w fuel : nat) (curr : addr) : RM unit :=
  match fuel with
  | O => out_of_fuel
  | S fuel =>
      if curr =? NULL then mret tt
      else
        c ← node_at curr;
        if left c =? NULL then
          print_node c;;
          print_loop w fuel (right c)
        else
          prev ← last_right w curr (left c);
          p ← node_at prev;
          if right p =? NULL then
            set_right prev curr;;
            c ← node_at curr;
            print_loop w fuel (left c)
          else
            set_right prev NULL;;
            c ← node_at curr;
            print_node c;;
            print_loop w fuel (right c)
  end.

(** [null]: whether the pointer to the tree is [NULL]. *)
Definition rb_tree_print_in_order (fuel : nat) (null : bool) : RM unit :=
  if null then mret tt
  else
    s ← get;
    if root s =? NULL then mret tt else print_loop fuel fuel (root s).
End Ops.
