(* ===== verification/RbtreeThms.v ===== *)
(** The red-black tree of Rbtree.v as a tree of addresses; the traversal visits
    the nodes in order and restores the tree; destruction frees every block. *)
From stdpp Require Import strings.
From S2P Require Import Prelude Malloc Rbtree.

(** ** Trees of addresses *)
Inductive tree := Leaf | Node (l : tree) (p : addr) (r : tree).

#[export] Instance tree_eq_dec : EqDecision tree.
Proof. solve_decision. Defined.

Fixpoint inorder (t : tree) : list addr :=
  match t with Leaf => [] | Node l p r => inorder l ++ p :: inorder r end.
Fixpoint depth (t : tree) : nat :=
  match t with Leaf => O | Node l p r => S (Nat.max (depth l) (depth r)) end.
Definition count (t : tree) : nat := length (inorder t).

(** The pointer to [t]; an empty tree leaves [e] in its place. *)
Definition top (t : tree) (e : addr) : addr :=
  match t with Leaf => e | Node _ p _ => p end.

(** The last node in order, or [d] in an empty tree. *)
Fixpoint rightmost (d : addr) (t : tree) : addr :=
  match t with Leaf => d | Node _ p r => rightmost p r end.

(** The links of the nodes of [t] in [m]; [e] is what the last node in order
    has on its right: [NULL], or a thread to the node that follows. *)
Fixpoint shape (m : gmap addr rb_node_t) (e : addr) (t : tree) : Prop :=
  match t with
  | Leaf => True
  | Node l p r =>
      (exists n, m !! p = Some n /\ left n = top l NULL /\ right n = top r e) /\
      shape m NULL l /\ shape m e r
  end.

(** The parent pointers, [q] above the root. *)
Fixpoint parents (m : gmap addr rb_node_t) (q : addr) (t : tree) : Prop :=
  match t with
  | Leaf => True
  | Node l p r => (parent <$> m !! p) = Some q /\ parents m p l /\ parents m p r
  end.

Record tree_ok (m : gmap addr rb_node_t) (t : tree) : Prop := {
  tk_shape : shape m NULL t;
  tk_nodup : NoDup (inorder t);
  tk_null : m !! NULL = None;
}.

Lemma count_node l p r : count (Node l p r) = S (count l + count r).
Proof. unfold count. simpl. rewrite length_app. simpl. lia. Qed.

Lemma depth_count t : (depth t <= count t)%nat.
Proof. induction t as [|l IHl p r IHr]; simpl; [lia|]. rewrite count_node. lia. Qed.

Lemma NoDup_tree l p r : NoDup (inorder (Node l p r)) ->
  NoDup (inorder l) /\ NoDup (inorder r) /\ p ∉ inorder l /\ p ∉ inorder r /\
  (forall q, q ∈ inorder l -> q ∈ inorder r -> False).
Proof.
  simpl. intros (Hl & Hd & [Hp Hr]%NoDup_cons)%NoDup_app. split_and!; try done.
  - intros Hin. apply (Hd _ Hin). by left.
  - intros q Hq Hq'. apply (Hd _ Hq). by right.
Qed.

Lemma shape_lookup m e t p : shape m e t -> p ∈ inorder t -> is_Some (m !! p).
Proof.
  revert e. induction t as [|l IHl q r IHr]; simpl; intros e Hs Hp; [by apply elem_of_nil in Hp|].
  destruct Hs as ((n & Hn & _) & Hl & Hr). apply elem_of_app in Hp as [Hp|[->|Hp]%elem_of_cons]; eauto.
Qed.

Lemma shape_frame m m' e t :
  (forall p, p ∈ inorder t -> m' !! p = m !! p) -> shape m e t -> shape m' e t.
Proof.
  revert e. induction t as [|l IHl q r IHr]; simpl; intros e Hf Hs; [done|].
  destruct Hs as (Hn & Hl & Hr). rewrite Hf by set_solver. split_and!; [done| |].
  - apply IHl; [|done]. intros p Hp. apply Hf. set_solver.
  - apply IHr; [|done]. intros p Hp. apply Hf. set_solver.
Qed.

Lemma parents_frame m m' q t :
  (forall p, p ∈ inorder t -> m' !! p = m !! p) -> parents m q t -> parents m' q t.
Proof.
  revert q. induction t as [|l IHl p r IHr]; simpl; intros q Hf Hs; [done|].
  destruct Hs as (Hn & Hl & Hr). rewrite Hf by set_solver. split_and!; [done| |].
  - apply IHl; [|done]. intros p' Hp. apply Hf. set_solver.
  - apply IHr; [|done]. intros p' Hp. apply Hf. set_solver.
Qed.

Lemma top_in t e : t <> Leaf -> top t e ∈ inorder t.
Proof. destruct t; [done|]. set_solver. Qed.

Lemma rightmost_in d t : t <> Leaf -> rightmost d t ∈ inorder t.
Proof.
  revert d. induction t as [|l _ p r IHr]; intros d; [done|]. intros _. simpl.
  destruct r as [|rl q rr]; [set_solver|]. specialize (IHr p). set_solver.
Qed.

Lemma rightmost_default d d' t : t <> Leaf -> rightmost d t = rightmost d' t.
Proof. by destruct t. Qed.

(** The right pointer of the last node is the thread, and can be moved. *)
Lemma shape_rightmost m e t : shape m e t -> t <> Leaf ->
  exists n, m !! rightmost NULL t = Some n /\ right n = e.
Proof.
  intros Hs Ht. rewrite (rightmost_default _ (top t e)) by done.
  induction t as [|l _ p r IHr]; [done|]. destruct Hs as ((n & Hn & _ & Hr) & _ & Hs).
  destruct r as [|rl q rr]; [by exists n|]. simpl in *. by apply IHr.
Qed.

Lemma shape_thread m e e' t n : NoDup (inorder t) -> shape m e t -> t <> Leaf ->
  m !! rightmost NULL t = Some n ->
  shape (<[rightmost NULL t := with_right e' n]> m) e' t.
Proof.
  intros Hd Hs Ht Hn. induction t as [|l _ p r IHr]; [done|].
  destruct (NoDup_tree _ _ _ Hd) as (_ & Hdr & Hpl & Hpr & Hlr).
  destruct Hs as ((n' & Hn' & Hln & Hrn) & Hsl & Hsr). simpl in *.
  destruct r as [|rl q rr].
  - simpl in *. rewrite Hn in Hn'. injection Hn' as <-. split_and!; [|by eapply shape_frame; [|exact Hsl];
      intros; apply lookup_insert_ne; set_solver|done].
    exists (with_right e' n). by rewrite lookup_insert_eq.
  - assert (rightmost p (Node rl q rr) ∈ inorder (Node rl q rr)) as Hin by by apply rightmost_in.
    rewrite (rightmost_default _ NULL) in * by done.
    split_and!.
    + exists n'. rewrite lookup_insert_ne by set_solver. done.
    + eapply shape_frame; [|exact Hsl]. intros p' Hp'. apply lookup_insert_ne. naive_solver.
    + by apply IHr.
Qed.

(** ** Symbolic execution *)
Section Steps.
Context {A : Type} `{Allocator A}.
Implicit Types (s : rb_tree_t A) (p q : addr).

Lemma rb_set_nodes_id s : set_nodes (nodes s) s = s.
Proof. by destruct s. Qed.
Lemma rb_set_heap_id s : set_heap (heap s) s = s.
Proof. by destruct s. Qed.

Lemma wp_node_at p Q s :
  wp (node_at p) Q s <-> exists n, nodes s !! p = Some n /\ Q n s.
Proof. unfold node_at, on_nodes. by rewrite wp_zoom, wp_load, rb_set_nodes_id. Qed.

Lemma wp_on_nodes_update p f Q s :
  wp (on_nodes (update p f)) Q s <->
  exists n, nodes s !! p = Some n /\ Q tt (set_nodes (<[p := f n]> (nodes s)) s).
Proof. unfold on_nodes. by rewrite wp_zoom, wp_update. Qed.

Lemma rb_wp_on_heap {B} (m : M (bytes * A) B) Q s :
  wp (on_heap m) Q s <-> wp m (fun b h => Q b (set_heap h s)) (heap s).
Proof. apply wp_zoom. Qed.
Lemma wp_on_bytes {B} (m : M bytes B) Q (h : bytes * A) :
  wp (on_bytes m) Q h <-> wp m (fun b x => Q b (x, h.2)) h.1.
Proof. unfold on_bytes. by rewrite wp_zoom. Qed.
Lemma wp_on_arena {B} (m : M A B) Q (h : bytes * A) :
  wp (on_arena m) Q h <-> wp m (fun b x => Q b (h.1, x)) h.2.
Proof. unfold on_arena. by rewrite wp_zoom. Qed.

Lemma run_node_at p n s : nodes s !! p = Some n -> node_at p s = Ok (n, s).
Proof. intros Hn. apply wp_eq. rewrite wp_node_at. eauto. Qed.
Lemma run_set_right p q n s : nodes s !! p = Some n ->
  set_right p q s = Ok (tt, set_nodes (<[p := with_right q n]> (nodes s)) s).
Proof. intros Hn. apply wp_eq. unfold set_right. rewrite wp_on_nodes_update. eauto. Qed.
End Steps.

#[export] Hint Rewrite @wp_node_at @wp_on_nodes_update @rb_wp_on_heap @wp_on_bytes @wp_on_arena : wp.

(** Compute the parts of an updated tree. *)
Ltac rb_simpl :=
  cbn [root ops size nodes heap out set_root set_nodes set_heap set_out
       color left right parent debug key val
       with_color with_left with_right with_parent with_key with_val fst snd].

(** ** Printing *)
Section Printing.
Context {A : Type} `{Allocator A}.
Implicit Types (s : rb_tree_t A) (t : tree).

(** The lines for the nodes of [t], in order. *)
Definition lines s t : list (string * string) :=
  omap (fun p => (fun n => (value_print (ops s) (val n), color_name (color n))) <$> nodes s !! p)
    (inorder t).

Definition printed s t : rb_tree_t A := set_out (out s ++ lines s t) s.

(** The walk to the last node of the left subtree, before and after the
    thread to [c] is there. *)
Lemma run_last_right w c t x s :
  shape (nodes s) x t -> t <> Leaf -> nodes s !! NULL = None -> c ∉ inorder t ->
  x = NULL \/ x = c -> (count t < w)%nat ->
  last_right w c (top t NULL) s = Ok (rightmost NULL t, s).
Proof.
  intros Hs Ht Hnull Hc Hx. revert w. induction t as [|l _ p r IHr]; [done|]. intros w Hw.
  rewrite count_node in Hw. destruct w as [|w]; [lia|].
  destruct Hs as ((n & Hn & _ & Hrn) & _ & Hsr). cbn [last_right top rightmost].
  rewrite (run_bind _ _ _ _ _ (run_node_at _ _ _ Hn)), Hrn.
  destruct r as [|rl q rr].
  - cbn [top rightmost]. destruct Hx as [->| ->]; rewrite Z.eqb_refl; [done|]. by rewrite andb_false_r.
  - cbn [top]. assert (q ∈ inorder (Node rl q rr)) as Hq by by apply (top_in (Node rl q rr) NULL).
    rewrite !(proj2 (Z.eqb_neq q _)); cycle 1.
    + set_solver.
    + intros ->. destruct (shape_lookup _ _ _ _ Hsr Hq). congruence.
    + cbn [negb andb]. rewrite (rightmost_default p NULL) by done. apply IHr; [done..| |lia].
      set_solver.
Qed.

(** The two visits to a node with a left subtree: the first lays the thread, the
    second takes it up and prints the node. *)
Lemma print_loop_first w fuel p n l nq s :
  nodes s !! p = Some n -> left n = top l NULL -> shape (nodes s) NULL l -> l <> Leaf ->
  nodes s !! NULL = None -> p ∉ inorder l -> (count l < w)%nat ->
  nodes s !! rightmost NULL l = Some nq -> right nq = NULL ->
  print_loop w (S fuel) p s =
  print_loop w fuel (left n) (set_nodes (<[rightmost NULL l := with_right p nq]> (nodes s)) s).
Proof.
  intros Hn Hln Hsl Hl Hnull Hpl Hw Hnq Hrq. set (q := rightmost NULL l) in *.
  assert (q <> p) as Hqp by (intros <-; by apply Hpl, rightmost_in).
  destruct (shape_lookup _ _ _ _ Hsl (top_in l NULL Hl)) as [nl Hnl].
  cbn [print_loop].
  rewrite (proj2 (Z.eqb_neq p NULL)), (run_bind _ _ _ _ _ (run_node_at _ _ _ Hn)), Hln by congruence.
  rewrite (proj2 (Z.eqb_neq _ NULL)) by congruence.
  erewrite run_bind by (apply (run_last_right w p l NULL); by auto).
  fold q. rewrite (run_bind _ _ _ _ _ (run_node_at _ _ _ Hnq)), Hrq, Z.eqb_refl.
  rewrite (run_bind _ _ _ _ _ (run_set_right _ _ _ _ Hnq)).
  erewrite run_bind by (apply run_node_at; rb_simpl; by rewrite lookup_insert_ne). by rewrite Hln.
Qed.

Lemma print_loop_second w fuel p n l nq s m :
  nodes s = <[rightmost NULL l := with_right p nq]> m ->
  m !! p = Some n -> left n = top l NULL -> shape (nodes s) p l -> l <> Leaf ->
  m !! NULL = None -> p ∉ inorder l -> (count l < w)%nat ->
  m !! rightmost NULL l = Some nq -> right nq = NULL ->
  print_loop w (S fuel) p s =
  print_loop w fuel (right n)
    (set_out (out s ++ [(value_print (ops s) (val n), color_name (color n))]) (set_nodes m s)).
Proof.
  intros Hs Hn Hln Hsl Hl Hnull Hpl Hw Hnq Hrq. set (q := rightmost NULL l) in *.
  assert (q <> p) as Hqp by (intros <-; by apply Hpl, rightmost_in).
  assert (nodes s !! p = Some n) as Hn' by (by rewrite Hs, lookup_insert_ne).
  assert (nodes s !! q = Some (with_right p nq)) as Hnq' by (by rewrite Hs, lookup_insert_eq).
  assert (nodes s !! NULL = None) as Hnull' by (rewrite Hs, lookup_insert_ne; congruence).
  destruct (shape_lookup _ _ _ _ Hsl (top_in l NULL Hl)) as [nl Hnl].
  cbn [print_loop].
  rewrite (proj2 (Z.eqb_neq p NULL)), (run_bind _ _ _ _ _ (run_node_at _ _ _ Hn')), Hln by congruence.
  rewrite (proj2 (Z.eqb_neq _ NULL)) by congruence.
  erewrite run_bind by (apply (run_last_right w p l p); by auto).
  fold q. rewrite (run_bind _ _ _ _ _ (run_node_at _ _ _ Hnq')). cbn [right with_right].
  rewrite (proj2 (Z.eqb_neq p NULL)) by congruence.
  rewrite (run_bind _ _ _ _ _ (run_set_right _ _ _ _ Hnq')).
  rewrite Hs, insert_insert_eq.
  replace (<[q := with_right NULL (with_right p nq)]> m) with m; cycle 1.
  { symmetry. apply insert_id. rewrite Hnq. destruct nq. simpl in *. by subst. }
  erewrite run_bind by (by apply run_node_at). by erewrite run_bind by reflexivity.
Qed.

(** A subtree whose last node points to [x]: the loop goes through it and on to
    [x], with the store as it was. *)
Lemma print_loop_tree w t : forall s x,
  shape (nodes s) x t -> NoDup (inorder t) -> nodes s !! NULL = None -> (count t < w)%nat ->
  exists k, (k <= 2 * count t)%nat /\
    forall fuel, print_loop w (k + fuel) (top t x) s = print_loop w fuel x (printed s t).
Proof.
  induction t as [|l IHl p r IHr]; intros s x Hs Hd Hnull Hw.
  { exists O. split; [lia|]. intros fuel. unfold printed, lines. simpl. rewrite app_nil_r. by destruct s. }
  rewrite count_node in *. destruct (NoDup_tree _ _ _ Hd) as (Hdl & Hdr & Hpl & Hpr & Hlr).
  destruct Hs as ((n & Hn & Hln & Hrn) & Hsl & Hsr).
  set (line := (value_print (ops s) (val n), color_name (color n))).
  set (s1 := set_out (out s ++ lines s l ++ [line]) s).
  destruct (IHr s1 x) as (kr & Hkr & Hr); [done..|lia|].
  assert (printed s1 r = printed s (Node l p r)) as Hout.
  { unfold printed, s1, lines. rb_simpl. cbn [inorder]. rewrite omap_app. cbn. rewrite Hn. cbn.
    by rewrite <-!(assoc_L app). }
  rewrite <-Hout. cbn [top]. destruct (decide (l = Leaf)) as [->|Hl].
  { exists (S kr). split; [lia|]. intros fuel. cbn [print_loop Nat.add].
    rewrite (proj2 (Z.eqb_neq p NULL)), (run_bind _ _ _ _ _ (run_node_at _ _ _ Hn)), Hln by congruence.
    cbn [top]. rewrite Z.eqb_refl. erewrite run_bind by reflexivity. by rewrite Hrn, <-Hr. }
  destruct (shape_rightmost _ _ _ Hsl Hl) as (nq & Hnq & Hrq).
  assert (rightmost NULL l ∈ inorder l) as Hq by by apply rightmost_in.
  set (m' := <[rightmost NULL l := with_right p nq]> (nodes s)).
  set (s0 := set_nodes m' s).
  assert (shape m' p l) as Hsl' by by apply (shape_thread _ NULL).
  destruct (IHl s0 p) as (kl & Hkl & Hll); [done|done| |lia|].
  { unfold s0, m'. rb_simpl. rewrite lookup_insert_ne; [done|congruence]. }
  exists (S (kl + S kr)). split; [lia|]. intros fuel. cbn [Nat.add].
  rewrite (print_loop_first w _ p n l nq) by (done || lia). rewrite Hln.
  replace (top l NULL) with (top l p) by by destruct l. fold m' s0. rewrite <-Nat.add_assoc, Hll.
  cbn [Nat.add]. rewrite (print_loop_second w _ p n l nq _ (nodes s)) by (done || lia).
  rewrite Hrn, <-Hr. f_equal. unfold s1, printed, s0, lines, set_out, set_nodes. rb_simpl.
  rewrite <-(assoc_L app). do 3 f_equal. apply omap_agree. intros p' Hp'.
  unfold m'. destruct (decide (p' = rightmost NULL l)) as [->|]; [|by rewrite lookup_insert_ne].
  by rewrite lookup_insert_eq, Hnq.
Qed.

(** C22: [rb_tree_print_in_order] prints one line per node, in order, and gives the
    tree back as it was, although it threads it on the way: within twice as many
    steps as there are nodes, every thread is taken up again. On an empty tree,
    or without a tree, it does nothing. *)
Theorem rb_tree_print_in_order_restores s t fuel :
  tree_ok (nodes s) t -> root s = top t NULL -> (2 * count t + 1 < fuel)%nat ->
  rb_tree_print_in_order fuel false s = Ok (tt, printed s t) /\
  rb_tree_print_in_order fuel true s = Ok (tt, s).
Proof.
  intros [Hs Hd Hnull] Hroot Hf. split; [|done]. unfold rb_tree_print_in_order.
  erewrite run_bind by reflexivity. rewrite Hroot.
  destruct (print_loop_tree fuel t s NULL) as (k & Hk & E); [done..|lia|].
  destruct t as [|l p r]; cbn [top] in *.
  - unfold printed, lines. simpl. rewrite app_nil_r. by destruct s.
  - destruct Hs as ((n & Hn & _) & _). rewrite (proj2 (Z.eqb_neq p NULL)) by congruence.
    specialize (E (S (fuel - k - 1))). replace (k + S (fuel - k - 1))%nat with fuel in E by lia.
    by rewrite E.
Qed.
End Printing.

(** ** Destruction *)
Section Destruction.
Context {A : Type} `{AllocatorLaws A}.
Implicit Types (s : rb_tree_t A) (t : tree) (h : bytes * A).

(** The blocks that belong to the node [n] at [p], and to a tree. *)
Definition node_blocks (n : rb_node_t) (p : addr) : list addr :=
  filter (fun q => q <> NULL) [k_data (key n); v_data (val n)] ++ [p].
Definition blocks_at (m : gmap addr rb_node_t) (p : addr) : list addr :=
  match m !! p with Some n => node_blocks n p | None => [] end.
Fixpoint owned (m : gmap addr rb_node_t) t : list addr :=
  match t with Leaf => [] | Node l p r => owned m l ++ owned m r ++ blocks_at m p end.

Lemma owned_frame m m' t :
  (forall p, p ∈ inorder t -> m' !! p = m !! p) -> owned m' t = owned m t.
Proof.
  induction t as [|l IHl p r IHr]; intros Hf; [done|]. cbn [owned inorder] in *.
  unfold blocks_at. rewrite IHl, IHr, Hf; [done|set_solver..].
Qed.

(** The blocks [h] has left after those of [l] are gone. *)
Definition freed (l : list addr) h h' : Prop := blocks h'.2 = blocks h.2 ∖ list_to_set l.

Lemma freed_app l1 l2 h1 h2 h3 : freed l1 h1 h2 -> freed l2 h2 h3 -> freed (l1 ++ l2) h1 h3.
Proof. unfold freed. intros E1 ->. rewrite E1, list_to_set_app_L. set_solver. Qed.

(** What is left is still live. *)
Lemma freed_live l1 l2 h h' : freed l1 h h' -> NoDup (l1 ++ l2) ->
  (forall b, b ∈ l1 ++ l2 -> b ∈ blocks h.2) -> forall b, b ∈ l2 -> b ∈ blocks h'.2.
Proof.
  unfold freed. intros -> (_ & Hd & _)%NoDup_app Hl b Hb. apply elem_of_difference. split.
  - apply Hl. set_solver.
  - rewrite elem_of_list_to_set. intros Hb'. by apply (Hd b).
Qed.

Lemma wp_free_bytes p Q h : p <> NULL -> p ∈ blocks h.2 ->
  (forall h', freed [p] h h' -> Q tt h') -> wp (free_bytes p) Q h.
Proof.
  intros Hp Hb HQ. unfold free_bytes. wp_simpl. apply wp_free; [done..|]. intros a' Ha'. wp_simpl.
  apply HQ. unfold freed. cbn [snd list_to_set list_to_set]. rewrite Ha'. set_solver.
Qed.

Lemma wp_default_key_free k Q h :
  (forall b, b ∈ filter (fun q => q <> NULL) [k_data k] -> b ∈ blocks h.2) ->
  (forall k' h', freed (filter (fun q => q <> NULL) [k_data k]) h h' -> Q k' h') ->
  wp (default_key_free k) Q h.
Proof.
  intros Hb HQ. unfold default_key_free. rewrite filter_cons in *. destruct (Z.eqb_spec (k_data k) NULL).
  - wp_simpl. apply HQ. unfold freed. rewrite decide_False by naive_solver. set_solver.
  - rewrite decide_True in * by done. wp_simpl. apply wp_free_bytes; [done|apply Hb; by left|].
    intros h' Hf. wp_simpl. by apply HQ.
Qed.

Lemma wp_default_value_free v Q h :
  (forall b, b ∈ filter (fun q => q <> NULL) [v_data v] -> b ∈ blocks h.2) ->
  (forall v' h', freed (filter (fun q => q <> NULL) [v_data v]) h h' -> Q v' h') ->
  wp (default_value_free v) Q h.
Proof.
  intros Hb HQ. unfold default_value_free. rewrite filter_cons in *. destruct (Z.eqb_spec (v_data v) NULL).
  - wp_simpl. apply HQ. unfold freed. rewrite decide_False by naive_solver. set_solver.
  - rewrite decide_True in * by done. wp_simpl. apply wp_free_bytes; [done|apply Hb; by left|].
    intros h' Hf. wp_simpl. by apply HQ.
Qed.

(** What destroying [t] leaves. *)
Record destroyed t s s' : Prop := {
  ds_nodes q : nodes s' !! q = if decide (q ∈ inorder t) then None else nodes s !! q;
  ds_heap : freed (owned (nodes s) t) (heap s) (heap s');
  ds_ops : ops s' = ops s;
  ds_root : root s' = root s;
  ds_out : out s' = out s;
}.

(** The end of [rb_tree_node_destroy]. *)
Definition node_free (node : addr) : M (rb_tree_t A) unit :=
  s ← get;
  match key_free (ops s) with
  | Some f => n ← node_at node; k ← on_heap (f (key n)); on_nodes (update node (with_key k))
  | None => mret tt
  end;;
  match value_free (ops s) with
  | Some f => n ← node_at node; v ← on_heap (f (val n)); on_nodes (update node (with_val v))
  | None => mret tt
  end;;
  on_heap (on_arena (free node));;
  on_nodes (dealloc node).

Lemma wp_node_free s p n Q :
  nodes s !! p = Some n -> p <> NULL ->
  key_free (ops s) = Some default_key_free -> value_free (ops s) = Some default_value_free ->
  NoDup (node_blocks n p) -> (forall b, b ∈ node_blocks n p -> b ∈ blocks (heap s).2) ->
  (forall h', freed (node_blocks n p) (heap s) h' ->
     Q tt (set_nodes (delete p (nodes s)) (set_heap h' s))) ->
  wp (node_free p) Q s.
Proof.
  intros Hn Hp Hk Hv Hd Hb HQ. unfold node_free. wp_simpl. rewrite Hk, Hv. wp_simpl.
  exists n. split; [done|]. wp_simpl.
  unfold node_blocks in *. change [k_data (key n); v_data (val n)] with
    ([k_data (key n)] ++ [v_data (val n)]) in *. rewrite filter_app, <-(assoc_L app) in *.
  apply wp_default_key_free; [intros; apply Hb; set_solver|]. intros k' h1 Hf1. wp_simpl.
  exists n. split; [done|]. wp_simpl. rb_simpl. eexists. rewrite lookup_insert_eq. split; [done|]. wp_simpl. rb_simpl.
  pose proof (freed_live _ _ _ _ Hf1 Hd Hb) as Hb1. apply NoDup_app in Hd as (_ & _ & Hd).
  apply wp_default_value_free; [intros; apply Hb1; set_solver|]. intros v' h2 Hf2. wp_simpl. rb_simpl.
  eexists. rewrite lookup_insert_eq. split; [done|]. wp_simpl. rb_simpl.
  pose proof (freed_live _ _ _ _ Hf2 Hd Hb1) as Hb2.
  apply wp_free; [done|apply Hb2; by left|]. intros a' Ha'. unfold on_nodes. rewrite wp_zoom, wp_dealloc.
  rb_simpl. eexists. rewrite lookup_insert_eq. split; [done|].
  rewrite !delete_insert_eq. apply (HQ (h2.1, a')). eapply freed_app; [exact Hf1|]. eapply freed_app; [exact Hf2|].
  unfold freed. simpl. rewrite Ha'. set_solver.
Qed.

Lemma rb_tree_node_destroy_S fuel p :
  p <> NULL ->
  rb_tree_node_destroy (A := A) (S fuel) p =
  (n ← node_at p; rb_tree_node_destroy fuel (left n);;
   n ← node_at p; rb_tree_node_destroy fuel (right n);; node_free p).
Proof. intros Hp. cbn [rb_tree_node_destroy]. by rewrite (proj2 (Z.eqb_neq _ _) Hp). Qed.

Lemma wp_node_destroy t : forall fuel s Q,
  shape (nodes s) NULL t -> NoDup (inorder t) -> nodes s !! NULL = None ->
  key_free (ops s) = Some default_key_free -> value_free (ops s) = Some default_value_free ->
  NoDup (owned (nodes s) t) -> (forall b, b ∈ owned (nodes s) t -> b ∈ blocks (heap s).2) ->
  (depth t < fuel)%nat -> (forall s', destroyed t s s' -> Q tt s') ->
  wp (rb_tree_node_destroy fuel (top t NULL)) Q s.
Proof.
  induction t as [|l IHl p r IHr]; intros fuel s Q Hs Hd Hnull Hk Hv Ho Hb Hf HQ.
  { destruct fuel; [simpl in Hf; lia|]. cbn [rb_tree_node_destroy top]. rewrite Z.eqb_refl, wp_ret.
    apply HQ. split; try done. unfold freed. set_solver. }
  destruct fuel as [|fuel]; [simpl in Hf; lia|]. simpl in Hf. cbn [owned] in *.
  destruct (NoDup_tree _ _ _ Hd) as (Hdl & Hdr & Hpl & Hpr & Hlr).
  destruct Hs as ((n & Hn & Hln & Hrn) & Hsl & Hsr). unfold blocks_at in *. rewrite Hn in *.
  assert (p <> NULL) as Hp by congruence. cbn [top]. rewrite rb_tree_node_destroy_S by done.
  wp_simpl. exists n. split; [done|]. wp_simpl. rewrite Hln.
  apply IHl; try done; [by apply NoDup_app in Ho as (? & _)|set_solver|lia|].
  intros s1 [Hn1 Hh1 Ho1 Hr1 Hu1]. pose proof (freed_live _ _ _ _ Hh1 Ho Hb) as Hb1.
  apply NoDup_app in Ho as (_ & _ & Ho).
  assert (forall q, q ∉ inorder l -> nodes s1 !! q = nodes s !! q) as Hsame1.
  { intros q Hq. by rewrite Hn1, decide_False. }
  assert (forall q, q ∈ inorder r -> nodes s1 !! q = nodes s !! q) as Hsame1r by naive_solver.
  assert (NULL ∉ inorder l /\ NULL ∉ inorder r) as [Hnl Hnr].
  { split; intros Hin; [destruct (shape_lookup _ _ _ _ Hsl Hin)|destruct (shape_lookup _ _ _ _ Hsr Hin)];
      congruence. }
  wp_simpl. exists n. rewrite Hsame1 by done. split; [done|]. wp_simpl. rewrite Hrn.
  apply IHr; rewrite ?Ho1, ?Hsame1; try done; [by apply (shape_frame (nodes s))| | |lia|];
    rewrite ?(owned_frame (nodes s)) by done; [by apply NoDup_app in Ho as (? & _)|set_solver|].
  intros s2 [Hn2 Hh2 Ho2 Hr2 Hu2]. rewrite (owned_frame (nodes s)) in Hh2 by done.
  pose proof (freed_live _ _ _ _ Hh2 Ho Hb1) as Hb2. apply NoDup_app in Ho as (_ & _ & Ho).
  apply (wp_node_free _ _ n); rewrite ?Ho2, ?Ho1, ?Hn2, ?decide_False, ?Hsame1; try done.
  intros h3 Hh3. apply HQ. split; rb_simpl; try congruence.
  - intros q. rewrite lookup_delete. cbn [inorder]. rewrite Hn2, Hn1. repeat case_decide; set_solver.
  - cbn [owned]. unfold blocks_at. rewrite Hn. eapply freed_app; [done|]. by eapply freed_app.
Qed.

(** C23: [rb_tree_destroy] with the library's own free functions gives back every
    block of the tree once - the bytes of the keys and values, and the nodes -
    and nothing else. The root pointer is left as it was, pointing to a node
    that no longer exists. *)
Theorem rb_tree_destroy_frees s t fuel :
  tree_ok (nodes s) t -> root s = top t NULL ->
  key_free (ops s) = Some default_key_free -> value_free (ops s) = Some default_value_free ->
  NoDup (owned (nodes s) t) -> (forall b, b ∈ owned (nodes s) t -> b ∈ blocks (heap s).2) ->
  (count t < fuel)%nat ->
  exists s', rb_tree_destroy fuel s = Ok (tt, s') /\
    (forall q, nodes s' !! q = if decide (q ∈ inorder t) then None else nodes s !! q) /\
    blocks (heap s').2 = blocks (heap s).2 ∖ list_to_set (owned (nodes s) t) /\
    root s' = root s /\ (t <> Leaf -> nodes s' !! root s' = None).
Proof.
  intros [Hs Hd Hnull] Hroot Hk Hv Ho Hb Hf. apply wp_run_tt. unfold rb_tree_destroy. wp_simpl.
  rewrite Hroot. apply wp_node_destroy; try done; [pose proof (depth_count t); lia|].
  intros s' [Hn Hh _ Hr _]. split_and!; [done|done|congruence|]. intros Ht.
  by rewrite Hn, Hr, Hroot, decide_True by by apply top_in.
Qed.
End Destruction.

(** ** An example: a tree of the keys 10, 20 and 30 *)

(** The bytes of the keys 5, 10, 20, 24, 25 and 30, one each at the number of the
    key, and of the values, the same numbers as [int]s, 100 higher. *)
Definition demo_keys : list Z := [5; 10; 20; 24; 25; 30].
Definition demo_bytes : bytes :=
  list_to_map (((fun k => (k, [k])) <$> demo_keys) ++ ((fun k => (100 + k, [k; 0; 0; 0])) <$> demo_keys)).
Definition demo_node (c : rb_color_t) (l r p k : Z) : rb_node_t :=
  mk_node c l r p k (mk_key 1 k) (mk_value 4 (100 + k)).
Definition demo_with (l : list (addr * rb_node_t)) : rb_tree_t arena :=
  mk_tree 16 default_tree_ops 0 (list_to_map l)
    (demo_bytes, mk_arena 4000 (list_to_set l.*1 ∪ dom demo_bytes)) [].
Definition demo_tree : rb_tree_t arena :=
  demo_with [(16, demo_node RB_COLOR_BLACK 32 48 0 20); (32, demo_node RB_COLOR_RED 0 0 16 10);
             (48, demo_node RB_COLOR_RED 0 0 16 30)].
Definition demo_t : tree := Node (Node Leaf 32 Leaf) 16 (Node Leaf 48 Leaf).

(** The members of a concrete list. *)
Ltac in_cases H := apply list_elem_of_In in H; cbn in H; repeat destruct H as [<-|H]; [..|by destruct H].

Lemma demo_tree_ok : tree_ok (nodes demo_tree) demo_t.
Proof.
  split.
  - cbn [shape demo_t]. split_and!; try done; (eexists; split; [vm_compute; reflexivity|done]).
  - apply NoDup_ListNoDup. cbn. repeat constructor; simpl; lia.
  - reflexivity.
Qed.

Lemma rb_tree_print_in_order_restores_witness :
  rb_tree_print_in_order 10 false demo_tree =
    Ok (tt, set_out [(EmptyString, "red"%string); (EmptyString, "black"%string); (EmptyString, "red"%string)] demo_tree).
Proof.
  destruct (rb_tree_print_in_order_restores demo_tree demo_t 10) as [E _].
  - exact demo_tree_ok.
  - reflexivity.
  - vm_compute. lia.
  - rewrite E. vm_compute. reflexivity.
Defined.

Lemma rb_tree_destroy_frees_witness :
  exists s', rb_tree_destroy 5 demo_tree = Ok (tt, s') /\
    (forall q, q ∈ [16; 32; 48] -> nodes s' !! q = None) /\
    110 ∉ blocks (heap s').2 /\ root s' = 16.
Proof.
  destruct (rb_tree_destroy_frees demo_tree demo_t 5) as (s' & E & Hn & Hb & Hr & _).
  - exact demo_tree_ok.
  - reflexivity.
  - reflexivity.
  - reflexivity.
  - apply NoDup_ListNoDup. vm_compute. repeat constructor; simpl; lia.
  - intros b Hb. replace (owned (nodes demo_tree) demo_t) with
      [10; 110; 32; 30; 130; 48; 20; 120; 16] in Hb by (vm_compute; reflexivity).
    in_cases Hb; refine (bool_decide_eq_true_1 _ _); vm_compute; reflexivity.
  - vm_compute. lia.
  - exists s'. split; [exact E|split; [|split; [|exact Hr]]].
    + intros q Hq. rewrite Hn. apply decide_True. in_cases Hq; apply list_elem_of_In; cbn; lia.
    + rewrite Hb. intros [_ H]%elem_of_difference. apply H, elem_of_list_to_set, list_elem_of_In. vm_compute. lia.
Defined.
