(* ===== verification/RbtreeInsert.v ===== *)
(** Insertion into the red-black tree of Rbtree.v: binary insertion refines
    insertion into the ordered sequence of nodes; what the rotations do, with and
    without a node above; and what the two entry points make of them. *)
From stdpp Require Import strings.
From S2P Require Import Prelude Malloc Rbtree RbtreeThms.

(** ** Binary insertion *)

(** The specification: [x] goes to the first free place on the way down, to the
    left of the nodes for which [less] holds. *)
Fixpoint grow (less : addr -> bool) (x : addr) (t : tree) : tree :=
  match t with
  | Leaf => Node Leaf x Leaf
  | Node l p r => if less p then Node (grow less x l) p r else Node l p (grow less x r)
  end.

(** In a tree in order, it goes after the nodes that are not greater. *)
Lemma grow_inorder less x t a b :
  inorder t = a ++ b -> Forall (fun p => less p = false) a -> Forall (fun p => less p = true) b ->
  inorder (grow less x t) = a ++ x :: b.
Proof.
  revert a b. induction t as [|l IHl p r IHr]; simpl; intros a b E Ha Hb.
  { symmetry in E. apply app_nil in E as [-> ->]. done. }
  apply app_eq_inv in E as [(k & E & ->)|(k & -> & E)].
  - pose proof Hb as [Hk [Hp Hr]%Forall_cons]%Forall_app. rewrite Hp. cbn [inorder].
    rewrite (IHl a k) by done. by rewrite <-(assoc_L app).
  - pose proof Ha as [_ Hk]%Forall_app. destruct k as [|y k]; simplify_eq/=.
    + apply Forall_cons in Hb as [Hp Hr]. rewrite Hp. cbn [inorder].
      rewrite (IHl (inorder l) []) by (by rewrite ?app_nil_r in * ). by rewrite app_nil_r, <-(assoc_L app).
    + apply Forall_cons in Hk as [Hp Hk]. rewrite Hp. cbn [inorder].
      rewrite (IHr k b) by done. by rewrite <-(assoc_L app).
Qed.

Lemma inorder_grow less x t : inorder (grow less x t) ≡ₚ x :: inorder t.
Proof.
  induction t as [|l IHl p r IHr]; simpl; [done|]. destruct (less p); simpl.
  - by rewrite IHl.
  - rewrite IHr. rewrite (Permutation_swap x p). by rewrite Permutation_middle.
Qed.

Lemma top_grow less x t e : t <> Leaf -> top (grow less x t) e = top t e.
Proof. destruct t; [done|]. simpl. by case_match. Qed.

Section Insertion.
Context {A : Type} `{AllocatorLaws A}.
Context (k : addr) (klen : Z) (v : addr) (vlen : Z).
Implicit Types (s : rb_tree_t A) (t : tree).

(** The sizes do not wrap, and a value of the size of an [int] can be read. *)
Record args_ok s : Prop := {
  ar_klen : 0 <= klen;
  ar_vlen : 0 <= vlen;
  ar_size : sizeof_rb_node + klen + vlen < 2 ^ 64;
  ar_int : vlen = 4 -> exists z, load_int v (heap s).1 = Ok (z, (heap s).1);
}.

(** [less] is what the comparison says about the new key and the nodes of [t]. *)
Definition compares s (less : addr -> bool) t : Prop :=
  forall p n, p ∈ inorder t -> nodes s !! p = Some n ->
    exists c, key_compare (ops s) (mk_key klen k) (key n) (heap s).1 = Ok (c, (heap s).1) /\
      less p = (c <? 0).

(** What a node keeps while nodes are hung under it. *)
Definition unlinked (n : rb_node_t) : rb_node_t := with_left NULL (with_right NULL n).

Definition fresh_node (q : addr) (n : rb_node_t) : Prop :=
  exists d, n = mk_node RB_COLOR_RED NULL NULL q d (mk_key klen k) (mk_value vlen v).

Lemma wp_rb_node_alloc s q Q :
  args_ok s ->
  (forall a', blocks a' = blocks (heap s).2 -> Q NULL (set_heap ((heap s).1, a') s)) ->
  (forall p a' n, p <> NULL -> p ∉ blocks (heap s).2 -> blocks a' = {[p]} ∪ blocks (heap s).2 ->
     fresh_node q n ->
     Q p (set_nodes (<[p := n]> (nodes s)) (set_heap ((heap s).1, a') s))) ->
  wp (rb_node_alloc k klen v vlen q) Q s.
Proof.
  intros [Hk Hv Hsz Hint] Hnull Hok. unfold rb_node_alloc. unfold sizeof_rb_node in *.
  rewrite u64_id by lia. wp_simpl. apply wp_malloc; [lia|..].
  - intros a' Ha' _. rewrite Z.eqb_refl. wp_simpl. by apply Hnull.
  - intros p a' Hp Hf Hb _. rewrite (proj2 (Z.eqb_neq p NULL)) by done.
    rewrite (proj2 (Z.ltb_ge _ _)) by lia. wp_simpl. rb_simpl. destruct (Z.eqb_spec vlen 4) as [E|E].
    + destruct (Hint E) as [z Hz]. wp_simpl. rb_simpl. unfold wp at 1. rewrite Hz. wp_simpl.
      apply Hok; try done. by eexists.
    + wp_simpl. apply Hok; try done. by eexists.
Qed.

(** A store in which the tree [t] under [q] has grown by the node [x]. *)
Record grown less t q x s s' : Prop := {
  gr_shape : shape (nodes s') NULL (grow less x t);
  gr_parents : parents (nodes s) q t -> parents (nodes s') q (grow less x t);
  gr_new : exists n q', nodes s' !! x = Some n /\ fresh_node q' n;
  gr_frame p : p ∉ x :: inorder t -> nodes s' !! p = nodes s !! p;
  gr_keep p : p <> x -> unlinked <$> nodes s' !! p = unlinked <$> nodes s !! p;
  gr_fresh : x <> NULL /\ nodes s !! x = None;
  gr_heap : (heap s').1 = (heap s).1 /\ blocks (heap s').2 = {[x]} ∪ blocks (heap s).2;
  gr_rest : ops s' = ops s /\ out s' = out s /\ (t <> Leaf -> root s' = root s);
}.

(** Nothing changed. *)
Record unchanged s s' : Prop := {
  un_nodes : nodes s' = nodes s;
  un_heap : (heap s').1 = (heap s).1 /\ blocks (heap s').2 = blocks (heap s).2;
  un_rest : ops s' = ops s /\ root s' = root s /\ out s' = out s;
}.

(** Hanging a new node under [p], on a side that is free. *)
Definition hang (on_left : bool) (x : addr) (n : rb_node_t) : rb_node_t :=
  if on_left then with_left x n else with_right x n.

Lemma hang_shape (m : gmap addr rb_node_t) p n l r q x nx on_left (less : addr -> bool) :
  m !! p = Some n -> shape m NULL (Node l p r) -> NoDup (inorder (Node l p r)) ->
  m !! x = None -> fresh_node p nx -> less p = on_left -> (if on_left then l else r) = Leaf ->
  let m' := <[p := hang on_left x n]> (<[x := nx]> m) in
  shape m' NULL (grow less x (Node l p r)) /\
  (parents m q (Node l p r) -> parents m' q (grow less x (Node l p r))).
Proof.
  intros Hn ((n' & Hn' & Hl & Hr) & Hsl & Hsr) Hd Hx [d ->] Hless Hside m'.
  rewrite Hn in Hn'. injection Hn' as <-.
  destruct (NoDup_tree _ _ _ Hd) as (_ & _ & Hpl & Hpr & _).
  assert (m' !! p = Some (hang on_left x n)) as Hp by apply lookup_insert_eq.
  assert (x <> p) as Hxp by congruence.
  assert (exists nx, m' !! x = Some nx /\ left nx = NULL /\ right nx = NULL /\ parent nx = p)
    as (nx & Hx' & Hxl & Hxr & Hxq).
  { unfold m'. rewrite lookup_insert_ne, lookup_insert_eq by done. by eexists. }
  assert (forall t' y, shape m NULL t' -> p ∉ inorder t' -> y ∈ inorder t' -> m' !! y = m !! y) as Hother.
  { intros t' y Ht' Hpt Hy. destruct (shape_lookup _ _ _ _ Ht' Hy).
    unfold m'. rewrite !lookup_insert_ne; congruence. }
  assert (parent (hang on_left x n) = parent n) as Hpar by by destruct on_left.
  cbn [grow]. rewrite Hless. destruct on_left; subst; simpl in *; rewrite ?Hp, ?Hx', ?Hn; simpl.
  - split; [|intros (E & _ & Hpr'); split_and!; try done; try congruence;
               by eapply parents_frame; [intros; by eapply Hother|]].
    split_and!; try done; [eauto..|]. eapply shape_frame; [intros; by eapply Hother|done].
  - split; [|intros (E & Hpl' & _); split_and!; try done; try congruence;
               by eapply parents_frame; [intros; by eapply Hother|]].
    split_and!; try done; [eauto| |eauto]. eapply shape_frame; [intros; by eapply Hother|done].
Qed.

Lemma wp_bst_hang (less : addr -> bool) s p n l r q on_left Q :
  nodes s !! p = Some n -> args_ok s ->
  shape (nodes s) NULL (Node l p r) -> NoDup (inorder (Node l p r)) ->
  (forall p, is_Some (nodes s !! p) -> p ∈ blocks (heap s).2) ->
  less p = on_left -> (if on_left then l else r) = Leaf ->
  (forall s', unchanged s s' -> Q NULL s') ->
  (forall x s', grown less (Node l p r) q x s s' -> Q x s') ->
  wp (curr ← rb_node_alloc k klen v vlen p;
      (if on_left then set_left p curr else set_right p curr);; mret curr) Q s.
Proof.
  intros Hn Har Hs Hd Hlive Hless Hside Hun Hgr. wp_simpl.
  assert (forall x s0 Q0, nodes s0 !! p = Some n ->
    Q0 tt (set_nodes (<[p := hang on_left x n]> (nodes s0)) s0) ->
    wp (if on_left then set_left p x else set_right p x) Q0 s0) as Hset.
  { intros x s0 Q0 Hn0 HQ0. unfold set_left, set_right.
    destruct on_left; rewrite wp_on_nodes_update; eauto. }
  apply wp_rb_node_alloc; [done|..].
  - intros a' Ha'. wp_simpl. apply Hset; [done|]. wp_simpl. apply Hun. split; rb_simpl; try done.
    apply insert_id. rewrite Hn. f_equal. destruct Hs as ((n' & Hn' & Hl & Hr) & _).
    rewrite Hn in Hn'. injection Hn' as <-.
    destruct n. simpl in *. destruct on_left; subst; unfold hang, with_left, with_right; simpl; by f_equal.
  - intros x a' nx Hx Hf Hb Hnew. wp_simpl.
    assert (nodes s !! x = None) as Hxn by (apply eq_None_not_Some; naive_solver).
    assert (x <> p) as Hxp by congruence.
    apply Hset; [rb_simpl; by rewrite lookup_insert_ne|]. wp_simpl. apply Hgr. rb_simpl.
    destruct (hang_shape _ _ _ _ _ q _ _ _ _ Hn Hs Hd Hxn Hnew Hless Hside) as [Hs' Hp'].
    split; rb_simpl; try done.
    + rewrite lookup_insert_ne, lookup_insert_eq by done. by exists nx, p.
    + intros y Hy. cbn [inorder] in Hy. rewrite !lookup_insert_ne by set_solver. done.
    + intros y Hy. destruct (decide (y = p)) as [->|]; [|by rewrite !lookup_insert_ne by done].
      rewrite lookup_insert_eq, Hn. unfold hang. by destruct on_left, n.
Qed.

(** A subtree that grows makes the tree grow. *)
Lemma grown_under less l p r q x s s' (on_left : bool) :
  shape (nodes s) NULL (Node l p r) -> NoDup (inorder (Node l p r)) -> less p = on_left ->
  (if on_left then l else r) <> Leaf ->
  grown less (if on_left then l else r) p x s s' -> grown less (Node l p r) q x s s'.
Proof.
  intros ((n & Hn & Hl & Hr) & Hsl & Hsr) Hd Hless Hne [Gs Gp Gn Gf Gk [Hx0 Hx] Gh Gr].
  destruct (NoDup_tree _ _ _ Hd) as (_ & _ & Hpl & Hpr & Hlr).
  assert (x <> p) as Hxp by congruence.
  assert (nodes s' !! p = Some n) as Hp.
  { rewrite Gf; [done|]. destruct on_left; set_solver. }
  assert (forall t', shape (nodes s) NULL t' -> x ∉ inorder t') as Hxt.
  { intros t' Ht' Hin. destruct (shape_lookup _ _ _ _ Ht' Hin). congruence. }
  split; try done; cbn [grow inorder]; rewrite ?Hless.
  - destruct on_left; cbn [shape]; split_and!; try done.
    + exists n. by rewrite top_grow.
    + eapply shape_frame; [|exact Hsr]. intros y Hy. apply Gf. intros [->|Hin]%elem_of_cons; naive_solver.
    + exists n. by rewrite top_grow.
    + eapply shape_frame; [|exact Hsl]. intros y Hy. apply Gf. intros [->|Hin]%elem_of_cons; naive_solver.
  - intros (E & Hql & Hqr). destruct on_left; cbn [parents]; rewrite Hp, <-E, Hn; split_and!; auto.
    + eapply parents_frame; [|exact Hqr]. intros y Hy. apply Gf. intros [->|Hin]%elem_of_cons; naive_solver.
    + eapply parents_frame; [|exact Hql]. intros y Hy. apply Gf. intros [->|Hin]%elem_of_cons; naive_solver.
  - intros y Hy. apply Gf. destruct on_left; set_solver.
  - destruct on_left; naive_solver.
Qed.

Lemma wp_bst_loop less t : forall fuel q s Q,
  t <> Leaf -> tree_ok (nodes s) t -> args_ok s -> compares s less t ->
  (forall p, is_Some (nodes s !! p) -> p ∈ blocks (heap s).2) -> (depth t <= fuel)%nat ->
  (forall s', unchanged s s' -> Q NULL s') ->
  (forall x s', grown less t q x s s' -> Q x s') ->
  wp (bst_loop fuel k klen v vlen (top t NULL)) Q s.
Proof.
  induction t as [|l IHl p r IHr]; [done|]. intros fuel q s Q _ [Hs Hd Hnull] Har Hcmp Hlive Hf Hun Hgr.
  simpl in Hf. destruct fuel as [|fuel]; [lia|]. pose proof Hs as ((n & Hn & Hln & Hrn) & Hsl & Hsr).
  destruct (NoDup_tree _ _ _ Hd) as (Hdl & Hdr & Hpl & Hpr & _).
  cbn [bst_loop top]. wp_simpl. exists n. split; [done|]. wp_simpl.
  destruct (Hcmp p n) as (c & Hc & Hless); [cbn; set_solver|done|]. unfold wp at 1. rewrite Hc. wp_simpl.
  replace (set_heap _ s) with s by by destruct s as [? ? ? ? [] ?].
  assert (forall t', t' <> Leaf -> shape (nodes s) NULL t' -> top t' NULL <> NULL) as Htop.
  { intros t' Ht' Hst. destruct (shape_lookup _ _ _ _ Hst (top_in t' NULL Ht')). congruence. }
  destruct (c <? 0) eqn:Ec.
  - destruct (decide (l = Leaf)) as [->|Hl].
    + rewrite Hln. cbn [top]. rewrite Z.eqb_refl. by apply (wp_bst_hang less s p n Leaf r q true).
    + rewrite Hln, (proj2 (Z.eqb_neq _ NULL)) by by apply Htop.
      apply (IHl _ p); try done; [|lia|].
      * intros p' n' Hp'. apply Hcmp. cbn. set_solver.
      * intros x s' Hg. apply Hgr. by apply (grown_under _ _ _ _ _ _ _ _ true).
  - destruct (decide (r = Leaf)) as [->|Hr].
    + rewrite Hrn. cbn [top]. rewrite Z.eqb_refl. by apply (wp_bst_hang less s p n l Leaf q false).
    + rewrite Hrn, (proj2 (Z.eqb_neq _ NULL)) by by apply Htop.
      apply (IHr _ p); try done; [|lia|].
      * intros p' n' Hp'. apply Hcmp. cbn. set_solver.
      * intros x s' Hg. apply Hgr. by apply (grown_under _ _ _ _ _ _ _ _ false).
Qed.

(** Either memory has run out or the tree has grown by a node. *)
Lemma wp_bst_insert less s t fuel :
  tree_ok (nodes s) t -> root s = top t NULL -> args_ok s -> compares s less t ->
  (forall p, is_Some (nodes s !! p) -> p ∈ blocks (heap s).2) -> (count t <= fuel)%nat ->
  wp (bst_insert fuel k klen v vlen (Some NULL)) (fun r s' =>
    r = (-1, Some NULL) /\ nodes s' = nodes s /\ root s' = root s \/
    exists x, r = (1, Some x) /\ root s' = top (grow less x t) NULL /\ grown less t NULL x s s') s.
Proof.
  intros Htk Hroot Har Hcmp Hlive Hf.
  unfold bst_insert. wp_simpl. rewrite Hroot. destruct (decide (t = Leaf)) as [->|Ht].
  - cbn [top]. rewrite Z.eqb_refl. wp_simpl. apply wp_rb_node_alloc; [done|..].
    + intros a' _. wp_simpl. rewrite Z.eqb_refl. wp_simpl. by left.
    + intros x a' n Hx Hxb Hb' Hnew. wp_simpl. rewrite (proj2 (Z.eqb_neq x NULL)) by done. wp_simpl.
      right. exists x. split; [done|]. split; [done|]. destruct Hnew as [d ->].
      assert (nodes s !! x = None) as Hxn by (apply eq_None_not_Some; naive_solver).
      split; rb_simpl; cbn [grow shape parents inorder]; try done.
      all: rewrite ?lookup_insert_eq; try done.
      * split; [by eexists|done].
      * eexists _, NULL. split; [done|by eexists].
      * intros p Hp. rewrite lookup_insert_ne; [done|set_solver].
      * intros p Hp. by rewrite lookup_insert_ne.
  - assert (top t NULL <> NULL) as Hn0.
    { destruct Htk as [Hs _ Hnull]. destruct (shape_lookup _ _ _ _ Hs (top_in t NULL Ht)). congruence. }
    rewrite (proj2 (Z.eqb_neq _ _) Hn0). wp_simpl.
    assert (depth t <= fuel)%nat as Hdep by (pose proof (depth_count t); lia).
    apply (wp_bst_loop less t fuel NULL); try done.
    + intros s' [Hn' _ (_ & Hr' & _)]. rewrite wp_ret. cbn beta. left. split_and!; [done|done|congruence].
    + intros x s' Hg. pose proof (gr_fresh _ _ _ _ _ _ Hg) as [Hx _].
      rewrite wp_ret, (proj2 (Z.eqb_neq x NULL)) by done. cbn beta. right. exists x. split; [done|]. split; [|done].
      rewrite top_grow by done. pose proof (gr_rest _ _ _ _ _ _ Hg) as (_ & _ & ->); done.
Qed.

(** The new node is not one of the old ones, and all together are a tree. *)
Lemma grown_tree_ok less t x s s' :
  tree_ok (nodes s) t -> grown less t NULL x s s' -> tree_ok (nodes s') (grow less x t).
Proof.
  intros Htk [Gs _ _ Gf _ [Hx0 Hx] _ _]. split; [done| |].
  - rewrite inorder_grow. apply NoDup_cons. split; [|apply Htk].
    intros Hin. destruct (shape_lookup _ _ _ _ (tk_shape _ _ Htk) Hin). congruence.
  - rewrite Gf; [apply Htk|]. intros [E0'|Hin]%elem_of_cons; [congruence|].
    destruct (shape_lookup _ _ _ _ (tk_shape _ _ Htk) Hin) as [? E0]. by rewrite (tk_null _ _ Htk) in E0.
Qed.

(** C21: [bst_insert] hangs a new red node with the key and the value in the tree,
    where the specification [grow] has it, with its parent pointer, and keeps
    every other node's contents; when memory runs out it returns -1 and the
    tree is as it was. In a tree in order the new node goes after those whose
    keys are not greater and before the others, so an equal key is inserted
    again. *)
Theorem bst_insert_correct less s t fuel a b :
  tree_ok (nodes s) t -> root s = top t NULL -> parents (nodes s) NULL t ->
  args_ok s -> compares s less t ->
  (forall p, is_Some (nodes s !! p) -> p ∈ blocks (heap s).2) -> (count t <= fuel)%nat ->
  inorder t = a ++ b -> Forall (fun p => less p = false) a -> Forall (fun p => less p = true) b ->
  exists r x s', bst_insert fuel k klen v vlen (Some NULL) s = Ok ((r, Some x), s') /\
    (r = -1 /\ x = NULL /\ nodes s' = nodes s /\ root s' = root s \/
     r = 1 /\ tree_ok (nodes s') (grow less x t) /\ root s' = top (grow less x t) NULL /\
     parents (nodes s') NULL (grow less x t) /\ inorder (grow less x t) = a ++ x :: b /\
     (exists n q, nodes s' !! x = Some n /\ fresh_node q n) /\
     (forall p, p <> x -> unlinked <$> nodes s' !! p = unlinked <$> nodes s !! p)).
Proof.
  intros Htk Hroot Hpar Har Hcmp Hlive Hf Hab Ha Hb. pose proof (grow_inorder less) as Hgi.
  destruct (proj1 (wp_run _ _ _) (wp_bst_insert less s t fuel Htk Hroot Har Hcmp Hlive Hf))
    as ([r o] & s' & E & Hr).
  rewrite E. destruct Hr as [([= -> ->] & ? & ?)|(x & [= -> ->] & Ht & Hg)].
  { exists (-1), NULL, s'. split; [done|by left]. }
  pose proof Hg as [_ Gp Gn _ Gk _ _ _].
  exists 1, x, s'. split; [done|]. right. split_and!; try done; [by eapply grown_tree_ok|by apply Gp|by apply Hgi].
Qed.
End Insertion.

(** ** Rotations *)

(** Look up a node in an updated store, and run to the end. *)
Ltac rb_lookup :=
  rb_simpl; repeat first [rewrite lookup_insert_eq | rewrite lookup_insert_ne by congruence];
  solve [eassumption | reflexivity].
Ltac rb_go :=
  repeat (wp_simpl; rb_simpl;
    lazymatch goal with
    | |- exists n, _ !! _ = Some n /\ _ => eexists; split; [rb_lookup|]
    end); wp_simpl; rb_simpl.
(** Two updated stores are equal. *)
Ltac store_eq :=
  let i := fresh "i" in
  apply map_eq; intros i;
  repeat match goal with |- context [<[?k := _]> _ !! i] =>
    destruct (decide (i = k)) as [->|];
    [try congruence; repeat first [rewrite lookup_insert_eq | rewrite (lookup_insert_ne _ _ k) by congruence]
    |rewrite !(lookup_insert_ne _ k i) by congruence]
  end; try reflexivity.

Section Rotations.
Context {A : Type} `{Allocator A}.
Implicit Types (s : rb_tree_t A) (t : tree).

Definition rotate_right (on_left : bool) : addr -> M (rb_tree_t A) unit :=
  if on_left then rb_tree_rotate_left_side_right else rb_tree_rotate_right_side_right.
Definition rotate_left (on_left : bool) : addr -> M (rb_tree_t A) unit :=
  if on_left then rb_tree_rotate_left_side_left else rb_tree_rotate_right_side_left.

(** The nodes a rotation of [p] under [q] writes, when the child [c] goes up and
    [x] is the pointer that changes sides. *)
Definition rotated_right (on_left : bool) (q p c : addr) (nq np nc : rb_node_t) s : rb_tree_t A :=
  set_nodes (<[c := with_right p (with_parent q nc)]>
    (<[p := with_left (right nc) (with_parent c np)]>
      (<[q := hang on_left c nq]> (nodes s)))) s.
Definition rotated_left (on_left : bool) (q p c : addr) (nq np nc : rb_node_t) s : rb_tree_t A :=
  set_nodes (<[c := with_left p (with_parent q nc)]>
    (<[p := with_right (left nc) (with_parent c np)]>
      (<[q := hang on_left c nq]> (nodes s)))) s.

Lemma run_set_parent p q n s : nodes s !! p = Some n ->
  set_parent p q s = Ok (tt, set_nodes (<[p := with_parent q n]> (nodes s)) s).
Proof. intros Hn. apply wp_eq. unfold set_parent. rb_go. done. Qed.

Lemma run_hang (on_left : bool) p q n s : nodes s !! p = Some n ->
  (if on_left then set_left p q else set_right p q) s =
  Ok (tt, set_nodes (<[p := hang on_left q n]> (nodes s)) s).
Proof. intros Hn. apply wp_eq. unfold set_left, set_right. destruct on_left; rb_go; done. Qed.

Lemma run_rotate_right on_left q p c nq np nc s :
  nodes s !! q = Some nq -> nodes s !! p = Some np -> nodes s !! c = Some nc ->
  nodes s !! NULL = None -> left np = c -> parent np = q -> q <> p -> q <> c -> p <> c ->
  rotate_right on_left p s = Ok (tt, rotated_right on_left q p c nq np nc s).
Proof.
  intros Hq Hp Hc Hnull Hl Hpar Hqp Hqc Hpc.
  assert (rotate_right on_left p = (if p =? NULL then mret tt else
    n ← node_at p; if left n =? NULL then mret tt else
      (if on_left then set_left (parent n) (left n) else set_right (parent n) (left n));;
      set_parent (left n) (parent n);; set_parent p (left n);;
      c ← node_at (left n); set_left p (right c);; set_right (left n) p)) as -> by by destruct on_left.
  rewrite (proj2 (Z.eqb_neq p NULL)) by congruence.
  rewrite (run_bind _ _ _ _ _ (run_node_at _ _ _ Hp)), Hl, Hpar.
  rewrite (proj2 (Z.eqb_neq c NULL)) by congruence.
  erewrite run_bind by (apply run_hang; exact Hq). apply wp_eq.
  unfold set_parent, set_left, set_right. rb_go. split; [done|].
  unfold rotated_right, set_nodes. rb_simpl. f_equal. store_eq.
Qed.

Lemma run_rotate_left on_left q p c nq np nc s :
  nodes s !! q = Some nq -> nodes s !! p = Some np -> nodes s !! c = Some nc ->
  nodes s !! NULL = None -> right np = c -> parent np = q -> q <> p -> q <> c -> p <> c ->
  rotate_left on_left p s = Ok (tt, rotated_left on_left q p c nq np nc s).
Proof.
  intros Hq Hp Hc Hnull Hr Hpar Hqp Hqc Hpc.
  assert (rotate_left on_left p = (if p =? NULL then mret tt else
    n ← node_at p; if right n =? NULL then mret tt else
      (if on_left then set_left (parent n) (right n) else set_right (parent n) (right n));;
      set_parent (right n) (parent n);; set_parent p (right n);;
      c ← node_at (right n); set_right p (left c);; set_left (right n) p)) as -> by by destruct on_left.
  rewrite (proj2 (Z.eqb_neq p NULL)) by congruence.
  rewrite (run_bind _ _ _ _ _ (run_node_at _ _ _ Hp)), Hr, Hpar.
  rewrite (proj2 (Z.eqb_neq c NULL)) by congruence.
  erewrite run_bind by (apply run_hang; exact Hq). apply wp_eq.
  unfold set_parent, set_left, set_right. rb_go. split; [done|].
  unfold rotated_left, set_nodes. rb_simpl. f_equal. store_eq.
Qed.

(** Without a node above there is none whose pointer could be set. *)
Lemma rotate_root_faults on_left p np s :
  nodes s !! p = Some np -> nodes s !! NULL = None -> parent np = NULL ->
  (left np <> NULL -> rotate_right on_left p s = Fault) /\
  (right np <> NULL -> rotate_left on_left p s = Fault).
Proof.
  intros Hp Hnull Hpar.
  assert (forall q, set_left NULL q s = Fault /\ set_right NULL q s = Fault) as Hset.
  { intros q. unfold set_left, set_right, on_nodes, zoom, update. by rewrite Hnull. }
  split; intros Hc; unfold rotate_right, rotate_left; destruct on_left;
    unfold rb_tree_rotate_left_side_right, rb_tree_rotate_right_side_right,
      rb_tree_rotate_left_side_left, rb_tree_rotate_right_side_left;
    rewrite (proj2 (Z.eqb_neq p NULL)) by congruence;
    rewrite (run_bind _ _ _ _ _ (run_node_at _ _ _ Hp)), (proj2 (Z.eqb_neq _ _) Hc), Hpar;
    apply run_fault, Hset.
Qed.

(** What a rotation leaves: [t1] has become [t2], in which [b] has changed sides. *)
Record turned on_left q nq p c b t1 t2 s s' : Prop := {
  tn_order : inorder t2 = inorder t1;
  tn_shape : shape (nodes s') NULL t2;
  tn_above : nodes s' !! q = Some (hang on_left c nq);
  tn_frame y : y ∉ [q; p; c] -> nodes s' !! y = nodes s !! y;
  tn_stale : parents (nodes s') c b;
  tn_parents : parents (nodes s') q t2 <-> b = Leaf;
  tn_color y : color <$> nodes s' !! y = color <$> nodes s !! y;
  tn_rest : s' = set_nodes (nodes s') s;
}.

(** The subtrees keep their links and parents. *)
Lemma turn_frames m m' q p c t e x :
  (forall y, y ∉ [q; p; c] -> m' !! y = m !! y) ->
  q ∉ inorder t -> p ∉ inorder t -> c ∉ inorder t ->
  shape m e t -> parents m x t -> shape m' e t /\ parents m' x t.
Proof.
  intros Hf Hq Hp Hc Hs Hpar.
  assert (forall y, y ∈ inorder t -> m' !! y = m !! y) as Hsame.
  { intros y Hy. apply Hf. rewrite !elem_of_cons. intros [->|[->|[->|Hn]]]; try done. by apply elem_of_nil in Hn. }
  split; [by eapply shape_frame|by eapply parents_frame].
Qed.

(** The root of a non-empty subtree has one parent. *)
Lemma parents_unique m x y t : parents m x t -> parents m y t -> x <> y -> t = Leaf.
Proof. destruct t; [done|]. intros (E & _) (E' & _). congruence. Qed.

Lemma turn_colors (m m' : gmap addr rb_node_t) q p c nq np nc q' p' c' :
  (forall y, y ∉ [q; p; c] -> m' !! y = m !! y) ->
  m !! q = Some nq -> m !! p = Some np -> m !! c = Some nc ->
  m' !! q = Some q' -> m' !! p = Some p' -> m' !! c = Some c' ->
  color q' = color nq -> color p' = color np -> color c' = color nc ->
  forall y, color <$> m' !! y = color <$> m !! y.
Proof.
  intros Hf Hq Hp Hc Hq' Hp' Hc' E1 E2 E3 y.
  destruct (decide (y = q)) as [->|]; [by rewrite Hq, Hq'; simpl; rewrite E1|].
  destruct (decide (y = p)) as [->|]; [by rewrite Hp, Hp'; simpl; rewrite E2|].
  destruct (decide (y = c)) as [->|]; [by rewrite Hc, Hc'; simpl; rewrite E3|].
  rewrite Hf; [done|]. rewrite !elem_of_cons. intros [?|[?|[?|?%not_elem_of_nil]]]; done.
Qed.

Lemma hang_color on_left x n : color (hang on_left x n) = color n.
Proof. by destruct on_left. Qed.

Lemma rotate_right_turns on_left s q nq a c b p r :
  let t1 := Node (Node a c b) p r in let t2 := Node a c (Node b p r) in
  shape (nodes s) NULL t1 -> NoDup (inorder t1) -> nodes s !! NULL = None ->
  parents (nodes s) q t1 -> nodes s !! q = Some nq -> q ∉ inorder t1 ->
  exists s', rotate_right on_left p s = Ok (tt, s') /\ turned on_left q nq p c b t1 t2 s s'.
Proof.
  intros t1 t2 Hs Hd Hnull Hpar Hq Hqt. unfold t1, t2 in *.
  destruct (NoDup_tree _ _ _ Hd) as (Hd1 & _ & Hp1 & Hpr & Hc1).
  destruct (NoDup_tree _ _ _ Hd1) as (_ & _ & Hca & Hcb & _). cbn [inorder] in *.
  destruct Hs as ((np & Hp & Hlp & Hrp) & ((nc & Hc & Hlc & Hrc) & Hsa & Hsb) & Hsr).
  destruct Hpar as (Hpp & (Hpc & Hpa & Hpb) & Hpr'). rewrite Hp in Hpp. rewrite Hc in Hpc.
  simpl in Hpp, Hpc, Hlp. injection Hpp as Hpp. injection Hpc as Hpc.
  assert (q <> p /\ q <> c /\ p <> c) as (Hqp & Hqc & Hpc') by (split_and!; set_solver).
  eexists. split; [by apply (run_rotate_right on_left q p c nq np nc)|].
  unfold rotated_right.
  set (m' := <[c := _]> _).
  assert (m' !! c = Some (with_right p (with_parent q nc))) as Hc' by (unfold m'; rb_lookup).
  assert (m' !! p = Some (with_left (right nc) (with_parent c np))) as Hp' by (unfold m'; rb_lookup).
  assert (m' !! q = Some (hang on_left c nq)) as Hq' by (unfold m'; rb_lookup).
  assert (forall y, y ∉ [q; p; c] -> m' !! y = nodes s !! y) as Hf.
  { intros y Hy. unfold m'. rewrite !lookup_insert_ne by set_solver. done. }
  destruct (turn_frames _ m' q p c a NULL c Hf) as [Hsa' Hpa']; [set_solver..|done|done|].
  destruct (turn_frames _ m' q p c b NULL c Hf) as [Hsb' Hpb']; [set_solver..|done|done|].
  destruct (turn_frames _ m' q p c r NULL p Hf) as [Hsr' Hpr'']; [set_solver..|done|done|].
  split; rb_simpl; fold m'; try done.
  - cbn [inorder]. by rewrite <-(assoc_L app).
  - cbn [shape top]. rewrite Hc', Hp'. rb_simpl. split_and!; eauto.
  - cbn [parents]. rewrite Hc', Hp'. simpl. split.
    + intros (_ & _ & _ & Hb & _). by apply (parents_unique m' p c).
    + intros ->. by split_and!.
  - by eapply (turn_colors _ _ q p c nq np nc); try done; apply hang_color.
Qed.

Lemma rotate_left_turns on_left s q nq a c b p r :
  let t1 := Node r p (Node b c a) in let t2 := Node (Node r p b) c a in
  shape (nodes s) NULL t1 -> NoDup (inorder t1) -> nodes s !! NULL = None ->
  parents (nodes s) q t1 -> nodes s !! q = Some nq -> q ∉ inorder t1 ->
  exists s', rotate_left on_left p s = Ok (tt, s') /\
    turned on_left q nq p c b t1 t2 s s'.
Proof.
  intros t1 t2 Hs Hd Hnull Hpar Hq Hqt. unfold t1, t2 in *.
  destruct (NoDup_tree _ _ _ Hd) as (_ & Hd1 & Hpr & Hp1 & Hc1).
  destruct (NoDup_tree _ _ _ Hd1) as (_ & _ & Hcb & Hca & _). cbn [inorder] in *.
  destruct Hs as ((np & Hp & Hlp & Hrp) & Hsr & ((nc & Hc & Hlc & Hrc) & Hsb & Hsa)).
  destruct Hpar as (Hpp & Hpr' & (Hpc & Hpb & Hpa)). rewrite Hp in Hpp. rewrite Hc in Hpc.
  simpl in Hpp, Hpc, Hrp. injection Hpp as Hpp. injection Hpc as Hpc.
  assert (q <> p /\ q <> c /\ p <> c) as (Hqp & Hqc & Hpc') by (split_and!; set_solver).
  eexists. split; [by apply (run_rotate_left on_left q p c nq np nc)|].
  unfold rotated_left.
  set (m' := <[c := _]> _).
  assert (m' !! c = Some (with_left p (with_parent q nc))) as Hc' by (unfold m'; rb_lookup).
  assert (m' !! p = Some (with_right (left nc) (with_parent c np))) as Hp' by (unfold m'; rb_lookup).
  assert (m' !! q = Some (hang on_left c nq)) as Hq' by (unfold m'; rb_lookup).
  assert (forall y, y ∉ [q; p; c] -> m' !! y = nodes s !! y) as Hf.
  { intros y Hy. unfold m'. rewrite !lookup_insert_ne by set_solver. done. }
  destruct (turn_frames _ m' q p c a NULL c Hf) as [Hsa' Hpa']; [set_solver..|done|done|].
  destruct (turn_frames _ m' q p c b NULL c Hf) as [Hsb' Hpb']; [set_solver..|done|done|].
  destruct (turn_frames _ m' q p c r NULL p Hf) as [Hsr' Hpr'']; [set_solver..|done|done|].
  split; rb_simpl; fold m'; try done.
  - cbn [inorder]. by rewrite <-(assoc_L app).
  - cbn [shape top]. rewrite Hc', Hp'. rb_simpl. split_and!; eauto.
  - cbn [parents]. rewrite Hc', Hp'. simpl. split.
    + intros (_ & (_ & _ & Hb) & _). by apply (parents_unique m' p c).
    + intros ->. by split_and!.
  - by eapply (turn_colors _ _ q p c nq np nc); try done; apply hang_color.
Qed.

(** Each rotation turns the subtree it is applied to: the order of the nodes
    stays, the pointer of the node above is set on the side in the rotation's
    name, and no other node is touched. The parent pointer of the subtree that
    changes sides still leads to the node it came from, so that the parent
    pointers are right afterwards only if that subtree is empty. *)
Theorem rb_tree_rotations_turn on_left s q nq a c b p r (going_right : bool) :
  let t1 := if going_right then Node (Node a c b) p r else Node r p (Node b c a) in
  let t2 := if going_right then Node a c (Node b p r) else Node (Node r p b) c a in
  shape (nodes s) NULL t1 -> NoDup (inorder t1) -> nodes s !! NULL = None ->
  parents (nodes s) q t1 -> nodes s !! q = Some nq -> q ∉ inorder t1 ->
  exists s',
    (if going_right then rotate_right on_left p else rotate_left on_left p) s = Ok (tt, s') /\
    inorder t2 = inorder t1 /\ shape (nodes s') NULL t2 /\
    nodes s' !! q = Some (hang on_left c nq) /\
    (forall y, y ∉ [q; p; c] -> nodes s' !! y = nodes s !! y) /\
    parents (nodes s') c b /\ (parents (nodes s') q t2 <-> b = Leaf).
Proof.
  intros t1 t2 Hs Hd Hnull Hpar Hq Hqt. unfold t1, t2 in *. destruct going_right.
  - destruct (rotate_right_turns on_left s q nq a c b p r) as (s' & E & []); try done.
    exists s'. by split_and!.
  - destruct (rotate_left_turns on_left s q nq a c b p r) as (s' & E & []); try done.
    exists s'. by split_and!.
Qed.
End Rotations.

(** ** The fix-up at the root *)
Section Fixup.
Context {A : Type} `{AllocatorLaws A}.
Implicit Types (s : rb_tree_t A) (x p g : addr).

Lemma run_grandparent x p nx np s :
  nodes s !! x = Some nx -> parent nx = p -> nodes s !! p = Some np -> nodes s !! NULL = None ->
  grandparent x s = Ok (parent np, s).
Proof.
  intros Hx Hpx Hp Hnull. unfold grandparent.
  rewrite (proj2 (Z.eqb_neq x NULL)), (run_bind _ _ _ _ _ (run_node_at _ _ _ Hx)), Hpx by congruence.
  rewrite (proj2 (Z.eqb_neq p NULL)), (run_bind _ _ _ _ _ (run_node_at _ _ _ Hp)) by congruence. done.
Qed.

Lemma run_set_color p c n s : nodes s !! p = Some n ->
  set_color p c s = Ok (tt, set_nodes (<[p := with_color c n]> (nodes s)) s).
Proof. intros Hn. apply wp_eq. unfold set_color. rb_go. done. Qed.

(** The grandparent is the root: [case5] rotates it. *)
Lemma case5_root_faults x p g nx np ng s :
  nodes s !! x = Some nx -> nodes s !! p = Some np -> nodes s !! g = Some ng ->
  parent nx = p -> parent np = g -> parent ng = NULL -> nodes s !! NULL = None ->
  NoDup [x; p; g] -> (if left np =? x then left ng else right ng) <> NULL ->
  rb_tree_insert_case5 x s = Fault.
Proof.
  intros Hx Hp Hg Hxp Hpg Hg0 Hnull Hd Hc. unfold rb_tree_insert_case5.
  assert (p <> x /\ g <> x /\ p <> g) as (Hpx & Hgx & Hpg').
  { apply NoDup_cons in Hd as [? [? _]%NoDup_cons]. set_solver. }
  rewrite (run_bind _ _ _ _ _ (run_grandparent _ _ _ _ _ Hx Hxp Hp Hnull)), Hpg.
  rewrite (run_bind _ _ _ _ _ (run_node_at _ _ _ Hx)), Hxp.
  rewrite (run_bind _ _ _ _ _ (run_set_color _ _ _ _ Hp)).
  erewrite run_bind by (apply run_set_color; rb_lookup).
  erewrite run_bind by (apply run_node_at; rb_lookup). rewrite Hxp.
  erewrite run_bind by (apply run_node_at; rb_lookup). rb_simpl.
  set (s' := set_nodes _ _).
  assert (nodes s' !! g = Some (with_color RB_COLOR_RED ng) /\ nodes s' !! NULL = None) as [Hg' Hnull'].
  { unfold s'. split; [rb_lookup|]. rb_simpl. rewrite !lookup_insert_ne by congruence. done. }
  destruct (rotate_root_faults true g _ s' Hg' Hnull' Hg0) as [Hr _].
  destruct (rotate_root_faults false g _ s' Hg' Hnull' Hg0) as [_ Hl].
  unfold rotate_right, rotate_left in *. destruct (left np =? x); [by apply Hr|by apply Hl].
Qed.

(** [x] has no children; [gl] and [pl] say on which side [p] and [x] hang. *)
Definition child (on_left : bool) (n : rb_node_t) : addr := if on_left then left n else right n.

(** After the rotation of [case4], too. *)
Lemma inner_root_faults (gl : bool) x p g nx np ng s :
  nodes s !! x = Some nx -> nodes s !! p = Some np -> nodes s !! g = Some ng ->
  parent np = g -> parent ng = NULL -> nodes s !! NULL = None ->
  NoDup [x; p; g] -> left nx = NULL ->
  rb_tree_insert_case5 p
    (if gl then rotated_left true g p x ng np nx s else rotated_right false g p x ng np nx s) = Fault.
Proof.
  intros Hx Hp Hg Hpg Hg0 Hnull Hd Hxl.
  assert (p <> x /\ g <> x /\ p <> g) as (Hpx & Hgx & Hpg').
  { apply NoDup_cons in Hd as [? [? _]%NoDup_cons]. set_solver. }
  assert (NoDup [p; x; g]) as Hd' by (by rewrite (Permutation_swap x p [g])).
  assert (x <> NULL /\ p <> NULL) as [Hx0 Hp0] by (split; congruence).
  destruct gl; unfold rotated_left, rotated_right;
    (eapply (case5_root_faults p x g); [rb_lookup..| | | | |exact Hd'|]; rb_simpl; try done;
     [by rewrite !lookup_insert_ne by congruence|]).
  - by rewrite Z.eqb_refl.
  - by rewrite Hxl, (proj2 (Z.eqb_neq NULL p)) by congruence.
Qed.

Lemma case4_root_faults gl pl x p g nx np ng s :
  nodes s !! x = Some nx -> nodes s !! p = Some np -> nodes s !! g = Some ng ->
  parent nx = p -> parent np = g -> parent ng = NULL -> nodes s !! NULL = None ->
  NoDup [x; p; g] -> left nx = NULL -> right nx = NULL ->
  child gl ng = p -> child (negb gl) ng <> p -> child pl np = x -> child (negb pl) np <> x ->
  rb_tree_insert_case4 x s = Fault.
Proof.
  intros Hx Hp Hg Hxp Hpg Hg0 Hnull Hd Hxl Hxr Hgp Hgu Hpx Hpu. unfold rb_tree_insert_case4.
  assert (p <> x /\ g <> x /\ p <> g) as (Hpx' & Hgx & Hpg').
  { apply NoDup_cons in Hd as [? [? _]%NoDup_cons]. set_solver. }
  rewrite (run_bind _ _ _ _ _ (run_grandparent _ _ _ _ _ Hx Hxp Hp Hnull)), Hpg.
  rewrite (run_bind _ _ _ _ _ (run_node_at _ _ _ Hx)), Hxp.
  rewrite (run_bind _ _ _ _ _ (run_node_at _ _ _ Hp)).
  assert (forall b c, child b np =? x = eqb b pl /\ (p =? child c ng) = eqb c gl) as Hside.
  { intros b c. destruct b, c, pl, gl; simpl in *; split;
      first [apply Z.eqb_eq; congruence|apply Z.eqb_neq; congruence]. }
  pose proof (Hside true true) as [Hl1 Hl2]. pose proof (Hside false false) as [Hr1 Hr2].
  cbn [child] in Hl1, Hl2, Hr1, Hr2.
  erewrite run_bind with (a := negb pl && gl) (s' := s); cycle 1.
  { rewrite Hr1. destruct pl; [done|]. cbn [eqb negb andb].
    rewrite (run_bind _ _ _ _ _ (run_node_at _ _ _ Hg)), Hl2. by destruct gl. }
  assert (NULL <> p) as Hp0 by congruence. assert (g <> p) as Hgp' by congruence.
  destruct (negb pl && gl) eqn:E1.
  { destruct pl, gl; simpl in *; try discriminate.
    pose proof (run_rotate_left true g p x ng np nx s Hg Hp Hx Hnull Hpx Hpg Hgp' Hgx Hpx') as Hrot.
    unfold rotate_left in Hrot. erewrite run_bind; cycle 1.
    { rewrite (run_bind _ _ _ _ _ Hrot).
      erewrite run_bind by (apply run_node_at; unfold rotated_left; rb_lookup). reflexivity. }
    rb_simpl. rewrite (proj2 (Z.eqb_neq p NULL)) by done. by apply (inner_root_faults true). }
  destruct (pl && negb gl) eqn:E2.
  { destruct pl, gl; simpl in *; try discriminate.
    pose proof (run_rotate_right false g p x ng np nx s Hg Hp Hx Hnull Hpx Hpg Hgp' Hgx Hpx') as Hrot.
    unfold rotate_right in Hrot. erewrite run_bind; cycle 1.
    { rewrite Hl1. erewrite run_bind by (by erewrite run_bind by (by apply run_node_at)).
      rewrite Hr2. rewrite (run_bind _ _ _ _ _ Hrot).
      erewrite run_bind by (apply run_node_at; unfold rotated_right; rb_lookup). reflexivity. }
    rb_simpl. rewrite (proj2 (Z.eqb_neq p NULL)) by done. by apply (inner_root_faults false). }
  rewrite (run_bind _ _ _ x s); cycle 1.
  { rewrite Hl1. erewrite run_bind with (a := false) (s' := s); [done|].
    destruct pl; [|done]. cbn [eqb]. rewrite (run_bind _ _ _ _ _ (run_node_at _ _ _ Hg)), Hr2.
    by destruct gl. }
  rewrite (proj2 (Z.eqb_neq x NULL)) by congruence.
  eapply (case5_root_faults x p g); try done. rewrite Hl1.
  destruct pl, gl; simpl in *; try discriminate; congruence.
Qed.

Lemma run_uncle gl x p g nx np ng s :
  nodes s !! x = Some nx -> nodes s !! p = Some np -> nodes s !! g = Some ng ->
  parent nx = p -> parent np = g -> nodes s !! NULL = None ->
  child gl ng = p -> child (negb gl) ng <> p -> uncle x s = Ok (child (negb gl) ng, s).
Proof.
  intros Hx Hp Hg Hxp Hpg Hnull Hgp Hgu. unfold uncle.
  rewrite (run_bind _ _ _ _ _ (run_grandparent _ _ _ _ _ Hx Hxp Hp Hnull)), Hpg.
  rewrite (proj2 (Z.eqb_neq g NULL)) by congruence.
  rewrite (run_bind _ _ _ _ _ (run_node_at _ _ _ Hx)), (run_bind _ _ _ _ _ (run_node_at _ _ _ Hg)), Hxp.
  destruct gl; simpl in *; [by rewrite Hgp, Z.eqb_refl|].
  rewrite (proj2 (Z.eqb_neq p _)); [done|congruence].
Qed.

(** A red node under a red child of the root, with no red uncle. *)
Lemma case1_root_faults fuel gl pl x p g nx np ng s :
  nodes s !! x = Some nx -> nodes s !! p = Some np -> nodes s !! g = Some ng ->
  parent nx = p -> parent np = g -> parent ng = NULL -> nodes s !! NULL = None ->
  NoDup [x; p; g] -> left nx = NULL -> right nx = NULL ->
  child gl ng = p -> child (negb gl) ng <> p -> child pl np = x -> child (negb pl) np <> x ->
  color np = RB_COLOR_RED ->
  (forall nu, nodes s !! child (negb gl) ng = Some nu -> color nu = RB_COLOR_BLACK) ->
  (child (negb gl) ng = NULL \/ is_Some (nodes s !! child (negb gl) ng)) ->
  rb_tree_insert_case1 (S fuel) x s = Fault.
Proof.
  intros Hx Hp Hg Hxp Hpg Hg0 Hnull Hd Hxl Hxr Hgp Hgu Hpx Hpu Hred Hblack Hsome.
  cbn [rb_tree_insert_case1]. rewrite (run_bind _ _ _ _ _ (run_node_at _ _ _ Hx)), Hxp.
  rewrite (proj2 (Z.eqb_neq p NULL)) by congruence. unfold rb_tree_insert_case2.
  rewrite (run_bind _ _ _ _ _ (run_node_at _ _ _ Hx)), Hxp.
  rewrite (run_bind _ _ _ _ _ (run_node_at _ _ _ Hp)), Hred. cbn [bool_decide].
  rewrite bool_decide_false by done. unfold rb_tree_insert_case3.
  erewrite run_bind by (by eapply (run_uncle gl x p g)).
  erewrite run_bind with (a := false) (s' := s); cycle 1.
  { destruct (Z.eqb_spec (child (negb gl) ng) NULL) as [|Hu]; [done|].
    destruct Hsome as [?|[nu Hnu]]; [done|]. rewrite (run_bind _ _ _ _ _ (run_node_at _ _ _ Hnu)).
    by rewrite (Hblack _ Hnu). }
  by eapply (case4_root_faults gl pl x p g).
Qed.

(** A key that goes under the red child of a root with one child crashes
    [_rb_tree_insert], unless memory runs out first: in all four
    configurations the fix-up rotates the root, and writes through its parent
    pointer, which is [NULL]. *)
Theorem rb_tree_insert_third_faults less s k klen v vlen (gl : bool) p g np fuel :
  let t := if gl then Node (Node Leaf p Leaf) g Leaf else Node Leaf g (Node Leaf p Leaf) in
  tree_ok (nodes s) t -> root s = g -> parents (nodes s) NULL t ->
  nodes s !! p = Some np -> color np = RB_COLOR_RED ->
  args_ok klen v vlen s -> compares k klen s less t -> less g = gl ->
  (forall p, is_Some (nodes s !! p) -> p ∈ blocks (heap s).2) -> (2 <= fuel)%nat ->
  _rb_tree_insert fuel k klen v vlen s = Fault \/
  exists s', _rb_tree_insert fuel k klen v vlen s = Ok (-1, s') /\ nodes s' = nodes s.
Proof.
  intros t Htk Hroot Hpar Hp Hred Har Hcmp Hless Hlive Hf.
  assert (wp (bst_insert fuel k klen v vlen (Some NULL)) (fun r s' =>
    r = (-1, Some NULL) /\ nodes s' = nodes s /\ root s' = root s \/
    exists x, r = (1, Some x) /\ root s' = top (grow less x t) NULL /\
      grown k klen v vlen less t NULL x s s') s) as ([r o] & s' & E & Hr)%wp_run.
  { apply wp_bst_insert; try done; unfold t, count; by destruct gl. }
  unfold _rb_tree_insert. rewrite (run_bind _ _ _ _ _ E).
  destruct Hr as [([= -> ->] & Hn & _)|(x & [= -> ->] & _ & [Gs Gp Gn Gf Gk [Hx0 Hx] _ _])].
  { right. exists s'. by split. }
  left. cbn [Z.leb default]. apply run_fault.
  assert (x <> p /\ x <> g /\ p <> g) as (Hxp & Hxg & Hpg).
  { pose proof (tk_nodup _ _ Htk) as Hd. pose proof (shape_lookup _ _ _ g (tk_shape _ _ Htk)) as Hg.
    unfold t in *. split_and!; [congruence| |]; destruct gl; simpl in *.
    1-2: intros ->; destruct Hg; [set_solver|congruence].
    all: apply NoDup_cons in Hd as [? _]; set_solver. }
  destruct fuel as [|fuel]; [lia|].
  assert (exists np', nodes s' !! p = Some np' /\ color np' = color np) as (np' & Hp' & Hc').
  { pose proof (Gk p ltac:(congruence)) as Hk. rewrite Hp in Hk. destruct (nodes s' !! p) as [np'|]; [|done].
    exists np'. split; [done|]. by injection Hk. }
  assert (nodes s' !! NULL = None) as Hnull'.
  { rewrite Gf; [apply Htk|]. intros Hin.
    enough (is_Some (nodes s !! NULL)) as [? E0] by (by rewrite (tk_null _ _ Htk) in E0).
    apply elem_of_cons in Hin as [?|Hin]; [congruence|]. by apply (shape_lookup _ _ _ _ (tk_shape _ _ Htk)). }
  assert (exists pl nx ng, nodes s' !! x = Some nx /\ nodes s' !! g = Some ng /\
    parent nx = p /\ parent np' = g /\ parent ng = NULL /\ left nx = NULL /\ right nx = NULL /\
    child gl ng = p /\ child (negb gl) ng = NULL /\ child pl np' = x /\ child (negb pl) np' = NULL)
    as (pl & nx & ng & Hx' & Hg' & Hxp' & Hpg' & Hg0 & Hxl & Hxr & Hgp & Hgu & Hpx & Hpu).
  { exists (less p). specialize (Gp Hpar). clear Hpar. unfold t in *.
    destruct gl, (less p) eqn:Hlp; simpl in *; rewrite Hless in *; simpl in *;
      rewrite ?Hlp in *; simpl in *; rewrite Hp' in *;
      destruct (nodes s' !! x) as [nx|], (nodes s' !! g) as [ng|]; [exists nx, ng|..]; naive_solver. }
  apply (case1_root_faults fuel gl pl x p g nx np' ng); try done; try congruence.
  - apply NoDup_ListNoDup. repeat constructor; set_solver.
  - by left.
Qed.
End Fixup.

(** ** The public entry point *)
Section Copying.
Context {A : Type} `{AllocatorLaws A}.
Implicit Types (s : rb_tree_t A).

(** A block of at least [n] bytes. *)
Definition readable (m : bytes) (p : addr) (n : Z) : Prop :=
  exists b, m !! p = Some b /\ n <= Z.of_nat (length b).

(** Every block with contents is live. *)
Definition bytes_live (h : bytes * A) : Prop := forall p, is_Some (h.1 !! p) -> p ∈ blocks h.2.

(** More blocks, and those there were as they were. *)
Definition extends (h h' : bytes * A) : Prop :=
  blocks h.2 ⊆ blocks h'.2 /\ forall p b, h.1 !! p = Some b -> h'.1 !! p = Some b.

#[export] Instance extends_preorder : PreOrder extends.
Proof.
  split.
  - by intros h.
  - intros h1 h2 h3 [Hb1 Hc1] [Hb2 Hc2]. split; [set_solver|auto].
Qed.

Lemma wp_malloc_bytes n Q h : 0 <= n -> bytes_live h ->
  (forall h', extends h h' -> h'.1 = h.1 -> Q NULL h') ->
  (forall p h', p <> NULL -> h.1 !! p = None -> extends h h' -> bytes_live h' ->
     h'.1 = <[p := replicate (Z.to_nat n) 0]> h.1 -> (room h'.2 < room h.2)%nat -> Q p h') ->
  wp (malloc_bytes n) Q h.
Proof.
  intros Hn Hlive Hnull Hok. unfold malloc_bytes. wp_simpl. apply wp_malloc; [done|..].
  - intros a' Hb _. rewrite Z.eqb_refl. wp_simpl. apply Hnull; [|done]. split; rb_simpl; [set_solver|done].
  - intros p a' Hp Hf Hb Hr. rewrite (proj2 (Z.eqb_neq p NULL)) by done. wp_simpl. rb_simpl.
    assert (h.1 !! p = None) as Hfr by (apply eq_None_not_Some; naive_solver).
    apply Hok; rb_simpl; try done.
    + split; rb_simpl; [set_solver|]. intros q b Hq. rewrite lookup_insert_ne; [done|congruence].
    + intros q. rb_simpl. rewrite Hb, lookup_insert_is_Some'. intros [->|Hq]; [set_solver|].
      apply Hlive in Hq. set_solver.
Qed.

(** Filling a new block. *)
Lemma wp_memcpy dst src n Q (m : bytes) :
  readable m src n -> 0 <= n -> dst <> src -> m !! dst = Some (replicate (Z.to_nat n) 0) ->
  (forall b, length b = Z.to_nat n -> Q tt (<[dst := b]> m)) -> wp (memcpy dst src n) Q m.
Proof.
  intros (b & Hb & Hn) Hn0 Hne Hd HQ. unfold memcpy. wp_simpl. exists b. split; [done|].
  rewrite (proj2 (Z.leb_le _ _) Hn). wp_simpl. eexists. split; [done|]. apply HQ.
  rewrite length_app, length_take, length_drop, length_replicate. lia.
Qed.

(** [rb_tree_insert] never inserts anything: it copies the key and the value
    and calls itself with the copies until memory runs out, and returns -1. The
    tree is as it was, and the blocks of all the copies stay allocated. *)
Theorem rb_tree_insert_never fuel s k klen v vlen :
  0 <= klen -> 0 <= vlen -> readable (heap s).1 k klen -> readable (heap s).1 v vlen ->
  bytes_live (heap s) -> (room (heap s).2 < fuel)%nat ->
  exists s', rb_tree_insert fuel k klen v vlen s = Ok (-1, s') /\
    nodes s' = nodes s /\ root s' = root s /\ extends (heap s) (heap s').
Proof.
  intros Hk0 Hv0 Hk Hv Hlive Hf.
  enough (wp (rb_tree_insert fuel k klen v vlen) (fun r s' => r = -1 /\
    nodes s' = nodes s /\ root s' = root s /\ extends (heap s) (heap s')) s)
    as (r & s' & E & -> & ?)%wp_run by eauto.
  revert s k v Hk Hv Hlive Hf. induction fuel as [|fuel IH]; intros s k v Hk Hv Hlive Hf; [lia|].
  cbn [rb_tree_insert]. wp_simpl. apply wp_malloc_bytes; [done..| |].
  { intros h' He _. rewrite Z.eqb_refl. wp_simpl. by rb_simpl. }
  intros p1 h1 Hp1 Hn1 He1 Hl1 E1 Hr1. rewrite (proj2 (Z.eqb_neq p1 NULL)) by done. wp_simpl.
  apply wp_malloc_bytes; [done..| |].
  { intros h' He _. rewrite Z.eqb_refl. wp_simpl. rb_simpl. split_and!; try done. by transitivity h1. }
  intros p2 h2 Hp2 Hn2 He2 Hl2 E2 Hr2. rewrite (proj2 (Z.eqb_neq p2 NULL)) by done. wp_simpl.
  change (heap (set_heap h1 s)) with h1 in *. rb_simpl.
  assert (h2.1 !! p1 = Some (replicate (Z.to_nat klen) 0)) as Hp1' by (apply He2; rewrite E1; apply lookup_insert_eq).
  assert (h2.1 !! p2 = Some (replicate (Z.to_nat vlen) 0)) as Hp2' by (rewrite E2; apply lookup_insert_eq).
  assert (extends (heap s) h2) as He by by transitivity h1.
  assert (p1 <> p2) as Hp12 by (intros ->; rewrite E1, lookup_insert_eq in Hn2; done).
  assert (readable h2.1 k klen) as (bk & Hbk & Hlk).
  { destruct Hk as (b & Hb & ?). exists b. split; [by apply He|done]. }
  assert (readable h2.1 v vlen) as (bv & Hbv & Hlv).
  { destruct Hv as (b & Hb & ?). exists b. split; [by apply He|done]. }
  assert (p1 <> k /\ p2 <> k /\ p1 <> v /\ p2 <> v) as (Hp1k & Hp2k & Hp1v & Hp2v).
  { destruct Hk as (bk' & Hbk' & _), Hv as (bv' & Hbv' & _). apply He1 in Hbk' as Hbk1. apply He1 in Hbv' as Hbv1.
    split_and!; congruence. }
  apply (wp_memcpy _ _ _ _ _ ltac:(by exists bk)); [done..|]. intros b1 Hb1. wp_simpl. rb_simpl.
  assert (forall q, q <> p1 -> <[p1 := b1]> h2.1 !! q = h2.1 !! q) as Hq1 by (intros; by apply lookup_insert_ne).
  apply wp_memcpy; [exists bv; by rewrite Hq1|done..|by rewrite Hq1|]. intros b2 Hb2. wp_simpl. rb_simpl.
  assert (extends (heap s) (<[p2 := b2]> (<[p1 := b1]> h2.1), h2.2)) as He3.
  { split; rb_simpl; [apply He|]. intros q b Hq. pose proof Hq as Hq'. apply He in Hq'.
    apply He1 in Hq as Hq1'. rewrite !lookup_insert_ne; congruence. }
  eapply wp_mono; [apply IH; rb_simpl|].
  - exists b1. split; [by rewrite lookup_insert_ne, lookup_insert_eq|lia].
  - exists b2. split; [by rewrite lookup_insert_eq|lia].
  - intros q. rb_simpl. rewrite !lookup_insert_is_Some'. intros [->|[->|Hq]]; apply Hl2; [by rewrite Hp2'|by rewrite Hp1'|done].
  - lia.
  - intros r s' (-> & Hn & Hr & He'). split_and!; try done. by etransitivity.
Qed.
End Copying.

(** [default_comp] does not order keys of different lengths: whichever is
    inserted, it goes to the right of the other. *)
Lemma default_comp_lengths k1 k2 m :
  k_len k1 <> k_len k2 ->
  exists c d, default_comp k1 k2 m = Ok (c, m) /\ default_comp k2 k1 m = Ok (d, m) /\ 0 <= c /\ 0 <= d.
Proof.
  intros Hl. unfold default_comp.
  rewrite !(proj2 (Z.eqb_neq _ _)) by congruence. cbn [negb].
  eexists _, _. split_and!; [done..| |]; by case_match.
Qed.

(** ** Example trees *)

Definition demo_empty : rb_tree_t arena :=
  mk_tree NULL default_tree_ops 0 ∅ (demo_bytes, mk_arena 4000 (dom demo_bytes)) [].

(** Insert keys one after the other, all results being 1. *)
Fixpoint insert_all (keys : list Z) : M (rb_tree_t arena) bool :=
  match keys with
  | [] => mret true
  | k :: keys =>
      r ← _rb_tree_insert 20 k 1 (100 + k) 4;
      if r =? 1 then insert_all keys else mret false
  end.
Definition state_after {S X} (m : M S X) (s : S) : S := match m s with Ok (_, s') => s' | _ => s end.

(** The [debug] fields in order. *)
Fixpoint dump (fuel : nat) (m : gmap addr rb_node_t) (p : addr) : list Z :=
  match fuel, m !! p with
  | S fuel, Some n => dump fuel m (left n) ++ debug n :: dump fuel m (right n)
  | _, _ => []
  end.
Definition dump_of (s : rb_tree_t arena) : list Z := dump 20 (nodes s) (root s).

(** The third key of an ascending sequence crashes; so does of a descending one. *)
Example ascending_faults :
  insert_all [10; 20; 30] demo_empty = Fault /\ insert_all [30; 20; 10] demo_empty = Fault.
Proof. split; vm_compute; reflexivity. Qed.

(** A rotation on the left side of a node that hangs on the right loses keys:
    5 and 10 are gone, and 30 is in the tree twice. *)
Example rotation_loses_keys :
  dump_of (state_after (insert_all [20; 10; 30; 5; 25]) demo_empty) = [5; 10; 20; 25; 30] /\
  match insert_all [20; 10; 30; 5; 25; 24] demo_empty with
  | Ok (b, s) => b = true /\ dump_of s = [24; 25; 30; 20; 30]
  | _ => False
  end.
Proof. split; vm_compute; [reflexivity|split; reflexivity]. Qed.

(** Trees of the keys 20, 30 and 25; and 20 and 30. *)
Definition demo_bent : rb_tree_t arena :=
  demo_with [(16, demo_node RB_COLOR_BLACK 0 48 0 20); (48, demo_node RB_COLOR_RED 64 0 16 30);
             (64, demo_node RB_COLOR_RED 0 0 48 25)].
Definition demo_two : rb_tree_t arena :=
  demo_with [(16, demo_node RB_COLOR_BLACK 0 48 0 20); (48, demo_node RB_COLOR_RED 0 0 16 30)].
Definition demo_t2 : tree := Node Leaf 16 (Node Leaf 48 Leaf).

Lemma demo_two_ok : tree_ok (nodes demo_two) demo_t2.
Proof.
  split.
  - cbn [shape demo_t2]. split_and!; try done; (eexists; split; [vm_compute; reflexivity|done]).
  - apply NoDup_ListNoDup. cbn. repeat constructor; simpl; lia.
  - reflexivity.
Qed.

(** Every node is live. *)
Lemma demo_live l p : is_Some (nodes (demo_with l) !! p) -> p ∈ blocks (heap (demo_with l)).2.
Proof.
  intros [n Hn]. cbn in *. apply elem_of_list_to_map_2 in Hn. apply elem_of_union_l.
  apply elem_of_list_to_set, list_elem_of_fmap. by exists (p, n).
Qed.

Lemma demo_args l : args_ok 1 110 4 (demo_with l).
Proof. split; [lia|lia|vm_compute; done|]. intros _. exists 10. vm_compute. reflexivity. Qed.

Lemma bst_insert_correct_witness :
  exists x s', bst_insert 20 25 1 125 4 (Some NULL) demo_tree = Ok ((1, Some x), s') /\
    inorder (grow (fun p => p =? 48) x demo_t) = [32; 16; x; 48] /\
    tree_ok (nodes s') (grow (fun p => p =? 48) x demo_t).
Proof.
  destruct (bst_insert_correct 25 1 125 4 (fun p => p =? 48) demo_tree demo_t 20 [32; 16] [48])
    as (r & x & s' & E & Hr).
  - exact demo_tree_ok.
  - reflexivity.
  - cbn. split_and!; reflexivity.
  - split; [lia|lia|vm_compute; done|]. intros _. exists 25. vm_compute. reflexivity.
  - intros p n Hp Hn. in_cases Hp; vm_compute in Hn; injection Hn as <-;
      (eexists; split; [vm_compute; reflexivity|reflexivity]).
  - apply demo_live.
  - vm_compute. lia.
  - reflexivity.
  - repeat constructor.
  - repeat constructor.
  - destruct Hr as [(-> & _)|(-> & Hok & _ & _ & Hin & _)].
    + vm_compute in E. discriminate.
    + exists x, s'. split; [exact E|split; [exact Hin|exact Hok]].
Defined.

Lemma rb_tree_rotations_turn_witness :
  exists s', rb_tree_rotate_right_side_right 48 demo_bent = Ok (tt, s') /\
    shape (nodes s') NULL (Node Leaf 64 (Node Leaf 48 Leaf)) /\ (right <$> nodes s' !! 16) = Some 64.
Proof.
  destruct (rb_tree_rotations_turn false demo_bent 16 (demo_node RB_COLOR_BLACK 0 48 0 20)
    Leaf 64 Leaf 48 Leaf true) as (s' & E & _ & Hs & Hq & _).
  - cbn [shape]. split_and!; try done; (eexists; split; [vm_compute; reflexivity|done]).
  - apply NoDup_ListNoDup. cbn. repeat constructor; simpl; lia.
  - reflexivity.
  - cbn. split_and!; reflexivity.
  - reflexivity.
  - intros H. apply list_elem_of_In in H. cbn in H. lia.
  - exists s'. split; [exact E|split; [exact Hs|]]. rewrite Hq. reflexivity.
Defined.

Lemma rb_tree_insert_third_faults_witness :
  _rb_tree_insert 20 25 1 125 4 demo_two = Fault.
Proof.
  destruct (rb_tree_insert_third_faults (fun p => p =? 48) demo_two 25 1 125 4 false 48 16
    (demo_node RB_COLOR_RED 0 0 16 30) 20) as [H|(s' & H & _)].
  - exact demo_two_ok.
  - reflexivity.
  - cbn. split_and!; reflexivity.
  - reflexivity.
  - reflexivity.
  - split; [lia|lia|vm_compute; done|]. intros _. exists 25. vm_compute. reflexivity.
  - intros p n Hp Hn. in_cases Hp; vm_compute in Hn; injection Hn as <-;
      (eexists; split; [vm_compute; reflexivity|reflexivity]).
  - reflexivity.
  - apply demo_live.
  - lia.
  - exact H.
  - vm_compute in H. discriminate.
Defined.

Lemma rb_tree_insert_never_witness :
  exists s', rb_tree_insert 4001 10 1 110 4 demo_two = Ok (-1, s') /\ nodes s' = nodes demo_two.
Proof.
  destruct (rb_tree_insert_never 4001 demo_two 10 1 110 4) as (s' & E & Hn & _).
  - lia.
  - lia.
  - exists [10]. split; [reflexivity|simpl; lia].
  - exists [10; 0; 0; 0]. split; [reflexivity|simpl; lia].
  - intros p Hp. cbn. apply elem_of_union_r, elem_of_dom. exact Hp.
  - vm_compute. lia.
  - exists s'. split; [exact E|exact Hn].
Defined.
