(* ===== verification/RbtreeColor.v ===== *)
(** Insertion into the red-black tree of Rbtree.v as far as the fix-up recolours:
    then the tree is red and black as it should be. What happens when it has to
    rotate is in RbtreeInsert.v and RbtreeRotate.v. *)
From stdpp Require Import functions strings.
From S2P Require Import Prelude Malloc Rbtree RbtreeThms RbtreeInsert.

(** ** Red-black trees

    [rb col c n t]: under the colouring [col], [t] has a root of colour [c] - an
    empty tree is black -, no red node has a red child, and every path from the
    root to a leaf has [n] black nodes. *)
Inductive rb (col : addr -> rb_color_t) : rb_color_t -> nat -> tree -> Prop :=
| rb_leaf : rb col RB_COLOR_BLACK 0 Leaf
| rb_red n l p r :
    col p = RB_COLOR_RED -> rb col RB_COLOR_BLACK n l -> rb col RB_COLOR_BLACK n r ->
    rb col RB_COLOR_RED n (Node l p r)
| rb_black n c1 c2 l p r :
    col p = RB_COLOR_BLACK -> rb col c1 n l -> rb col c2 n r ->
    rb col RB_COLOR_BLACK (S n) (Node l p r).

Lemma rb_frame col col' c n t :
  (forall p, p ∈ inorder t -> col' p = col p) -> rb col c n t -> rb col' c n t.
Proof.
  intros Hf. induction 1 as [|n l p r Hp Hl IHl Hr IHr|n c1 c2 l p r Hp Hl IHl Hr IHr]; [constructor| |].
  - apply rb_red; [rewrite Hf; [done|set_solver]|apply IHl|apply IHr]; intros; apply Hf; set_solver.
  - eapply rb_black; [rewrite Hf; [done|set_solver]|apply IHl|apply IHr]; intros; apply Hf; set_solver.
Qed.

(** ** Paths

    A frame is a node with the subtree on its other side; a path is the frames
    from a subtree up to the root. *)
Record frame := mk_frame { on_left : bool; node : addr; other : tree }.

Definition fill (f : frame) (t : tree) : tree :=
  if on_left f then Node t (node f) (other f) else Node (other f) (node f) t.
Fixpoint plug (path : list frame) (t : tree) : tree :=
  match path with [] => t | f :: path => plug path (fill f t) end.

(** The path to the place of a new node. *)
Fixpoint descend (less : addr -> bool) (t : tree) (path : list frame) : list frame :=
  match t with
  | Leaf => path
  | Node l p r =>
      if less p then descend less l (mk_frame true p r :: path)
      else descend less r (mk_frame false p l :: path)
  end.

Lemma descend_grow less x t path :
  plug path (grow less x t) = plug (descend less t path) (Node Leaf x Leaf).
Proof.
  revert path. induction t as [|l IHl p r IHr]; intros path; simpl; [done|].
  destruct (less p); [by rewrite <-IHl|by rewrite <-IHr].
Qed.

Lemma descend_length less t path : (length (descend less t path) <= length path + count t)%nat.
Proof.
  revert path. induction t as [|l IHl p r IHr]; intros path; simpl; [lia|]. rewrite count_node.
  destruct (less p); [specialize (IHl (mk_frame true p r :: path))|specialize (IHr (mk_frame false p l :: path))];
    simpl in *; lia.
Qed.

Definition above (path : list frame) : addr := match path with [] => NULL | f :: _ => node f end.

Lemma shape_plug m path t : shape m NULL (plug path t) -> shape m NULL t.
Proof.
  revert t. induction path as [|[[] p u] path IH]; intros t; simpl; [done|intros Hs..]; apply IH in Hs; apply Hs.
Qed.
Lemma parents_plug m path t : parents m NULL (plug path t) -> parents m (above path) t.
Proof.
  revert t. induction path as [|[[] p u] path IH]; intros t; simpl; [done|intros Hs..]; apply IH in Hs; apply Hs.
Qed.
Lemma inorder_plug path t : exists a b, inorder (plug path t) = a ++ inorder t ++ b.
Proof.
  revert t. induction path as [|[[] p u] path IH]; intros t; cbn [plug fill on_left node other].
  - exists [], []. by rewrite app_nil_r.
  - destruct (IH (Node t p u)) as (a & b & E). exists a, (p :: inorder u ++ b). rewrite E. simpl.
    by rewrite <-!(assoc_L app).
  - destruct (IH (Node u p t)) as (a & b & E). exists (a ++ inorder u ++ [p]), b. rewrite E. simpl.
    by rewrite <-!(assoc_L app).
Qed.

(** [ctx col n path]: under [col], the tree is red-black once a subtree with a black
    root and [n] black nodes on each path is put at the end of [path]. *)
Definition black_above (col : addr -> rb_color_t) (path : list frame) : Prop :=
  match path with [] => False | f :: _ => col (node f) = RB_COLOR_BLACK end.

Inductive ctx (col : addr -> rb_color_t) : nat -> list frame -> Prop :=
| ctx_top n : ctx col n []
| ctx_red n f path :
    col (node f) = RB_COLOR_RED -> rb col RB_COLOR_BLACK n (other f) ->
    black_above col path -> ctx col n path -> ctx col n (f :: path)
| ctx_black n c f path :
    col (node f) = RB_COLOR_BLACK -> rb col c n (other f) -> ctx col (S n) path -> ctx col n (f :: path).

Lemma rb_fill_red col n f t :
  col (node f) = RB_COLOR_RED -> rb col RB_COLOR_BLACK n (other f) -> rb col RB_COLOR_BLACK n t ->
  rb col RB_COLOR_RED n (fill f t).
Proof. intros. unfold fill. destruct (on_left f); by apply rb_red. Qed.
Lemma rb_fill_black col n c c' f t :
  col (node f) = RB_COLOR_BLACK -> rb col c n (other f) -> rb col c' n t ->
  rb col RB_COLOR_BLACK (S n) (fill f t).
Proof. intros. unfold fill. destruct (on_left f); by eapply rb_black. Qed.

(** A subtree fits when it is black, or red under a black node. *)
Lemma ctx_plug col n path t c :
  ctx col n path -> rb col c n t -> (c = RB_COLOR_RED -> black_above col path) ->
  exists m, rb col RB_COLOR_BLACK m (plug path t).
Proof.
  intros Hc. revert t c. induction Hc as [n|n f path Hf Hu Hab Hc IH|n c' f path Hf Hu Hc IH];
    intros t c Ht Hb; cbn [plug].
  - exists n. destruct c; [done|]. by destruct Hb.
  - eapply IH; [apply rb_fill_red; [done..|]|done]. destruct c; [done|].
    simpl in Hb. rewrite Hf in Hb. by specialize (Hb eq_refl).
  - eapply IH; [by eapply rb_fill_black|done].
Qed.

Lemma descend_ctx col less t : forall n c path,
  rb col c n t -> ctx col n path -> (c = RB_COLOR_RED -> black_above col path) ->
  ctx col 0 (descend less t path).
Proof.
  induction t as [|l IHl p r IHr]; intros n c path Ht Hc Hb; cbn [descend].
  - by inversion Ht; subst.
  - inversion Ht as [|n' l' p' r' Hp Hl Hr|n' c1 c2 l' p' r' Hp Hl Hr]; subst; destruct (less p).
    + eapply IHl; [exact Hl|apply ctx_red; auto|done].
    + eapply IHr; [exact Hr|apply ctx_red; auto|done].
    + eapply IHl; [exact Hl|by eapply ctx_black|done].
    + eapply IHr; [exact Hr|by eapply ctx_black|done].
Qed.

(** The nodes of a path. *)
Definition path_nodes (path : list frame) : list addr :=
  concat ((fun f => node f :: inorder (other f)) <$> path).

Lemma inorder_fill f t : inorder (fill f t) ≡ₚ inorder t ++ node f :: inorder (other f).
Proof.
  unfold fill. destruct (on_left f); simpl; [done|]. rewrite <-!Permutation_middle. by rewrite Permutation_app_comm.
Qed.
Lemma plug_nodes path t : inorder (plug path t) ≡ₚ inorder t ++ path_nodes path.
Proof.
  revert t. induction path as [|f path IH]; intros t; cbn [plug].
  - unfold path_nodes. simpl. by rewrite app_nil_r.
  - rewrite IH, inorder_fill. unfold path_nodes. simpl. by rewrite <-(assoc_L app).
Qed.

Lemma ctx_frame col col' n path :
  (forall p, p ∈ path_nodes path -> col' p = col p) -> ctx col n path -> ctx col' n path.
Proof.
  unfold path_nodes. intros Hf. induction 1 as [n|n f path Hp Hu Hab Hc IH|n c f path Hp Hu Hc IH]; simpl in Hf.
  - constructor.
  - apply ctx_red; [rewrite Hf; [done|by left]| | |].
    + eapply rb_frame; [|exact Hu]. intros. apply Hf. set_solver.
    + destruct path as [|g path]; [done|]. simpl in *. rewrite Hf; [done|set_solver].
    + apply IH. intros. apply Hf. set_solver.
  - eapply ctx_black; [rewrite Hf; [done|by left]| |].
    + eapply rb_frame; [|exact Hu]. intros. apply Hf. set_solver.
    + apply IH. intros. apply Hf. set_solver.
Qed.

(** Going up the path there are red uncles until there is a black parent. *)
Fixpoint recolours (col : addr -> rb_color_t) (path : list frame) : bool :=
  match path with
  | [] => true
  | f :: path =>
      bool_decide (col (node f) = RB_COLOR_BLACK) ||
      match path with
      | [] => false
      | g :: path =>
          match other g with
          | Leaf => false
          | Node _ v _ => bool_decide (col v = RB_COLOR_RED) && recolours col path
          end
      end
  end.

Lemma recolours_frame col col' path :
  (forall p, p ∈ path_nodes path -> col' p = col p) -> recolours col' path = recolours col path.
Proof.
  enough (forall n path, (length path <= n)%nat -> (forall p, p ∈ path_nodes path -> col' p = col p) ->
    recolours col' path = recolours col path) by eauto.
  unfold path_nodes. clear path. induction n as [|n IH]; intros [|f path] Hn Hf; try done; simpl in Hn; [lia|].
  simpl in Hf. cbn [recolours]. rewrite (Hf (node f)) by (by left). f_equal.
  destruct path as [|g path]; [done|]. simpl in Hf, Hn. destruct (other g) as [|vl v vr] eqn:Eg; [done|].
  rewrite (Hf v) by (simpl; set_solver). f_equal. apply IH; [lia|]. intros p Hp. apply Hf. set_solver.
Qed.

(** One round of the fix-up: parent and uncle black, grandparent red. *)
Definition recolour (col : addr -> rb_color_t) (f g : frame) (v : addr) : addr -> rb_color_t :=
  <[node g := RB_COLOR_RED]> (<[v := RB_COLOR_BLACK]> (<[node f := RB_COLOR_BLACK]> col)).

Lemma recolour_ne col f g v p :
  p <> node f -> p <> v -> p <> node g -> recolour col f g v p = col p.
Proof. intros. unfold recolour. by rewrite !fn_lookup_insert_ne. Qed.

(** Parent, uncle and grandparent are three nodes, and none of the others. *)
Lemma three_apart f g path t vl v vr :
  other g = Node vl v vr -> NoDup (inorder (plug (f :: g :: path) t)) ->
  node f <> node g /\ node f <> v /\ node g <> v /\
  forall p, p ∈ inorder t ++ inorder (other f) ++ (inorder vl ++ inorder vr) ++ path_nodes path ->
    p <> node f /\ p <> v /\ p <> node g.
Proof.
  intros Eg Hd. rewrite plug_nodes in Hd. unfold path_nodes in *. simpl in *. rewrite Eg in Hd. cbn [inorder] in Hd.
  rewrite <-(Permutation_middle (inorder vl)) in Hd. cbn [app] in Hd. rewrite <-!Permutation_middle in Hd.
  rewrite !NoDup_cons in Hd. destruct Hd as (Hnf & Hng & Hnv & _).
  rewrite !not_elem_of_cons in Hnf. rewrite not_elem_of_cons in Hng.
  destruct Hnf as (Hfg & Hfv & Hnf), Hng as (Hgv & Hng). split_and!; try done.
  intros p Hp. split_and!; by intros ->.
Qed.

Lemma recolour_step col n f g path t vl v vr :
  ctx col n (f :: g :: path) -> col (node f) = RB_COLOR_RED -> rb col RB_COLOR_RED n t ->
  other g = Node vl v vr -> col v = RB_COLOR_RED -> NoDup (inorder (plug (f :: g :: path) t)) ->
  let col' := recolour col f g v in
  rb col' RB_COLOR_RED (S n) (fill g (fill f t)) /\ ctx col' (S n) path /\
  recolours col' path = recolours col path.
Proof.
  intros Hc Hf Ht Eg Hv Hd col'.
  assert (rb col RB_COLOR_BLACK n (other f) /\ exists c, rb col c n (other g) /\ ctx col (S n) path)
    as (Hu & c & Hog & Hc').
  { inversion Hc as [|n1 f1 p1 _ Hu Hab Hg|n1 c1 f1 p1 Hf']; subst; [|congruence]. split; [done|].
    simpl in Hab. inversion Hg as [|n2 f2 p2 Hg'|n2 c2 f2 p2 _ Hog Hc']; subst; [congruence|]. eauto. }
  rewrite Eg in Hog. inversion Hog as [|n3 ? ? ? _ Hvl Hvr|n3 ? ? ? ? ? Hv']; subst; [|congruence].
  destruct (three_apart _ _ _ _ _ _ _ Eg Hd) as (Hfg & Hfv & Hgv & Hrest).
  set (rest := inorder t ++ _) in Hrest.
  assert (forall p, p ∈ rest -> col' p = col p) as Hsame.
  { intros p Hp. destruct (Hrest p Hp) as (? & ? & ?). by apply recolour_ne. }
  assert (col' (node f) = RB_COLOR_BLACK /\ col' v = RB_COLOR_BLACK /\ col' (node g) = RB_COLOR_RED)
    as (Ef & Ev & Eg').
  { unfold col', recolour. split_and!.
    - rewrite !fn_lookup_insert_ne by done. apply fn_lookup_insert.
    - rewrite fn_lookup_insert_ne by done. apply fn_lookup_insert.
    - apply fn_lookup_insert. }
  split_and!.
  - apply rb_fill_red; [done| |].
    + rewrite Eg. eapply rb_black; [done| |]; (eapply rb_frame; [|done]; intros; apply Hsame; unfold rest; set_solver).
    + eapply rb_fill_black; [done| |]; (eapply rb_frame; [|done]; intros; apply Hsame; unfold rest; set_solver).
  - eapply ctx_frame; [|done]. intros; apply Hsame; unfold rest; set_solver.
  - apply recolours_frame. intros; apply Hsame; unfold rest; set_solver.
Qed.

(** ** The fix-up *)
Section Recolour.
Context {A : Type} `{AllocatorLaws A}.
Implicit Types (s : rb_tree_t A) (x y p g : addr) (col : addr -> rb_color_t).

Definition colored (m : gmap addr rb_node_t) col t : Prop :=
  forall p n, p ∈ inorder t -> m !! p = Some n -> color n = col p.

(** Nodes that differ in their colours only. *)
Definition same_links (m m' : gmap addr rb_node_t) : Prop :=
  forall p, with_color RB_COLOR_BLACK <$> m !! p = with_color RB_COLOR_BLACK <$> m' !! p.

#[export] Instance same_links_equiv : Equivalence same_links.
Proof. unfold same_links. split; intros ?; intros; congruence. Qed.

Lemma same_links_node m m' p n : same_links m m' -> m !! p = Some n ->
  exists n', m' !! p = Some n' /\ left n' = left n /\ right n' = right n /\ parent n' = parent n.
Proof.
  intros Hm Hn. specialize (Hm p). rewrite Hn in Hm. destruct (m' !! p) as [n'|]; [|done].
  exists n'. injection Hm as -> -> -> _ _. done.
Qed.
Lemma same_links_insert m p c n :
  m !! p = Some n -> same_links m (<[p := with_color c n]> m).
Proof.
  intros Hn q. destruct (decide (q = p)) as [->|]; [|by rewrite lookup_insert_ne].
  by rewrite lookup_insert_eq, Hn.
Qed.
Lemma same_links_shape m m' e t : same_links m m' -> shape m e t -> shape m' e t.
Proof.
  intros Hm. revert e. induction t as [|l IHl p r IHr]; simpl; intros e; [done|].
  intros ((n & Hn & Hl & Hr) & Hsl & Hsr). destruct (same_links_node _ _ _ _ Hm Hn) as (n' & Hn' & El & Er & _).
  split_and!; auto. exists n'. by rewrite El, Er.
Qed.
Lemma same_links_parents m m' q t : same_links m m' -> parents m q t -> parents m' q t.
Proof.
  intros Hm. revert q. induction t as [|l IHl p r IHr]; simpl; intros q; [done|].
  intros (Hn & Hsl & Hsr). apply fmap_Some in Hn as (n & Hn & ->).
  destruct (same_links_node _ _ _ _ Hm Hn) as (n' & Hn' & _ & _ & Ep). split_and!; auto. by rewrite Hn', <-Ep.
Qed.

(** The nodes of three generations. *)
Lemma generations m (f g : frame) (path : list frame) (l r vl vr : tree) y v :
  shape m NULL (plug (f :: g :: path) (Node l y r)) -> parents m NULL (plug (f :: g :: path) (Node l y r)) ->
  node f <> v -> other g = Node vl v vr ->
  exists ny np ng nv, m !! y = Some ny /\ m !! node f = Some np /\ m !! node g = Some ng /\ m !! v = Some nv /\
    parent ny = node f /\ parent np = node g /\ child (on_left g) ng = node f /\
    child (negb (on_left g)) ng = v.
Proof.
  intros Hs Hp Hfv Eg. cbn [plug] in *. apply shape_plug in Hs. apply parents_plug in Hp.
  unfold fill in Hs, Hp. rewrite Eg in *.
  destruct (m !! node g) as [ng|] eqn:Hg, (m !! node f) as [np|] eqn:Hf, (m !! y) as [ny|] eqn:Hy, (m !! v) as [nv|] eqn:Hv;
    destruct (on_left g), (on_left f); simpl in *; rewrite ?Hg, ?Hf, ?Hy, ?Hv in *; simpl in *;
    first [by (exists ny, np, ng, nv; naive_solver) | naive_solver].
Qed.

Lemma parent_at m (f : frame) (path : list frame) (l r : tree) y :
  shape m NULL (plug (f :: path) (Node l y r)) -> parents m NULL (plug (f :: path) (Node l y r)) ->
  exists ny np, m !! y = Some ny /\ m !! node f = Some np /\ parent ny = node f.
Proof.
  intros Hs Hp. cbn [plug] in *. apply shape_plug in Hs. apply parents_plug in Hp.
  unfold fill in *. destruct (m !! node f) as [np|] eqn:Hf, (m !! y) as [ny|] eqn:Hy, (on_left f); simpl in *;
    rewrite ?Hf, ?Hy in *; simpl in *; first [by (exists ny, np; naive_solver) | naive_solver].
Qed.

Lemma fill_node f t : exists l r, fill f t = Node l (node f) r.
Proof. unfold fill. destruct (on_left f); eauto. Qed.

Lemma colored_insert m col t p c n : m !! p = Some n -> colored m col t ->
  colored (<[p := with_color c n]> m) (<[p := c]> col) t.
Proof.
  intros Hn Hc q nq Hq. destruct (decide (q = p)) as [->|].
  - rewrite lookup_insert_eq, fn_lookup_insert. intros [= <-]. done.
  - rewrite lookup_insert_ne, fn_lookup_insert_ne by done. by apply Hc.
Qed.

(** One round: the parent and the uncle of [y] become black, the grandparent red. *)
Lemma wp_recolour_round fuel y p g v ny np ng nv gl s Q :
  nodes s !! y = Some ny -> nodes s !! p = Some np -> nodes s !! g = Some ng -> nodes s !! v = Some nv ->
  nodes s !! NULL = None -> parent ny = p -> parent np = g ->
  child gl ng = p -> child (negb gl) ng = v -> p <> v -> p <> g -> g <> v -> y <> p -> y <> v -> y <> g ->
  color np = RB_COLOR_RED -> color nv = RB_COLOR_RED ->
  wp (rb_tree_insert_case1 fuel g) Q
    (set_nodes (<[g := with_color RB_COLOR_RED ng]> (<[v := with_color RB_COLOR_BLACK nv]>
      (<[p := with_color RB_COLOR_BLACK np]> (nodes s)))) s) ->
  wp (rb_tree_insert_case1 (S fuel) y) Q s.
Proof.
  intros Hy Hp Hg Hv Hnull Hyp Hpg Hgp Hgv Hpv Hpg' Hgv' Hyp' Hyv Hyg Hred Hvred HQ.
  assert (p <> NULL /\ v <> NULL) as [Hp0 Hv0] by (split; congruence).
  cbn [rb_tree_insert_case1]. unfold wp. unfold wp in HQ.
  rewrite (run_bind _ _ _ _ _ (run_node_at _ _ _ Hy)), Hyp, (proj2 (Z.eqb_neq p NULL)) by done.
  unfold rb_tree_insert_case2.
  rewrite (run_bind _ _ _ _ _ (run_node_at _ _ _ Hy)), Hyp, (run_bind _ _ _ _ _ (run_node_at _ _ _ Hp)), Hred.
  rewrite bool_decide_false by done. unfold rb_tree_insert_case3.
  erewrite run_bind by (eapply (run_uncle gl y p g); try done; congruence). rewrite Hgv.
  erewrite run_bind with (a := true) (s' := s); cycle 1.
  { rewrite (proj2 (Z.eqb_neq v NULL)) by done. rewrite (run_bind _ _ _ _ _ (run_node_at _ _ _ Hv)), Hvred. done. }
  rewrite (run_bind _ _ _ _ _ (run_node_at _ _ _ Hy)), Hyp.
  rewrite (run_bind _ _ _ _ _ (run_set_color _ _ _ _ Hp)).
  erewrite run_bind by (apply run_set_color; rb_lookup). rb_simpl.
  set (s2 := set_nodes _ _).
  assert (nodes s2 !! y = Some ny /\ nodes s2 !! p = Some (with_color RB_COLOR_BLACK np) /\
    nodes s2 !! NULL = None) as (Hy2 & Hp2 & Hnull2).
  { unfold s2. rb_simpl. split_and!; [rb_lookup..|]. by rewrite !lookup_insert_ne by congruence. }
  rewrite (run_bind _ _ _ _ _ (run_grandparent y p ny _ s2 Hy2 Hyp Hp2 Hnull2)).
  cbn [parent with_color]. rewrite Hpg.
  erewrite run_bind by (apply run_set_color; unfold s2; rb_lookup). unfold s2. rb_simpl. exact HQ.
Qed.

(** The whole fix-up. *)
Lemma wp_recolours fuel : forall path s col n l y r Q,
  let t := plug path (Node l y r) in
  shape (nodes s) NULL t -> parents (nodes s) NULL t -> NoDup (inorder t) -> nodes s !! NULL = None ->
  colored (nodes s) col t -> rb col RB_COLOR_RED n (Node l y r) -> ctx col n path ->
  recolours col path = true -> (length path < fuel)%nat ->
  (forall m' col' k, same_links (nodes s) m' -> colored m' col' t -> rb col' RB_COLOR_BLACK k t ->
     Q tt (set_nodes m' s)) ->
  wp (rb_tree_insert_case1 fuel y) Q s.
Proof.
  induction fuel as [|fuel IH]; intros path s col n l y r Q t Hs Hp Hd Hnull Hcol Hrb Hctx Hrec Hf HQ; [lia|].
  destruct path as [|f path].
  { assert (exists ny, nodes s !! y = Some ny /\ parent ny = NULL) as (ny & Hy & Hyp).
    { unfold t in *. simpl in *. destruct (nodes s !! y) as [ny|]; naive_solver. }
    cbn [rb_tree_insert_case1]. unfold wp. rewrite (run_bind _ _ _ _ _ (run_node_at _ _ _ Hy)), Hyp, Z.eqb_refl.
    rewrite (run_set_color _ _ _ _ Hy). apply (HQ _ (<[y := RB_COLOR_BLACK]> col) (S n)).
    - by apply same_links_insert.
    - by apply colored_insert.
    - unfold t in *. cbn [plug inorder] in *. destruct (NoDup_tree _ _ _ Hd) as (_ & _ & Hyl & Hyr & _).
      inversion Hrb; subst. eapply rb_black; [apply fn_lookup_insert| |];
        (eapply rb_frame; [|done]; intros q Hq; apply fn_lookup_insert_ne; by intros <-). }
  assert (forall q nq, q ∈ path_nodes (f :: path) \/ q ∈ inorder (Node l y r) ->
    nodes s !! q = Some nq -> color nq = col q) as Hcol'.
  { intros q nq Hq. apply Hcol. unfold t. rewrite plug_nodes. set_solver. }
  destruct (parent_at _ _ _ _ _ _ Hs Hp) as (ny & np & Hy & Hpn & Hyp).
  assert (color np = col (node f)) as Hcp by (apply Hcol'; [left; unfold path_nodes; simpl; by left|done]).
  cbn [recolours] in Hrec. destruct (decide (col (node f) = RB_COLOR_BLACK)) as [Hb|Hb].
  { cbn [rb_tree_insert_case1]. unfold wp. rewrite (run_bind _ _ _ _ _ (run_node_at _ _ _ Hy)), Hyp.
    rewrite (proj2 (Z.eqb_neq (node f) NULL)) by congruence. unfold rb_tree_insert_case2.
    rewrite (run_bind _ _ _ _ _ (run_node_at _ _ _ Hy)), Hyp, (run_bind _ _ _ _ _ (run_node_at _ _ _ Hpn)).
    rewrite bool_decide_true by congruence. destruct (ctx_plug _ _ _ _ _ Hctx Hrb) as [k Hk]; [done|].
    replace s with (set_nodes (nodes s) s) by (by destruct s). by apply (HQ _ col k). }
  rewrite bool_decide_false in Hrec by done. cbn [orb] in Hrec.
  destruct path as [|g path]; [done|]. destruct (other g) as [|vl v vr] eqn:Eg; [done|].
  apply andb_true_iff in Hrec as [Hv Hrec]. apply bool_decide_eq_true in Hv.
  destruct (three_apart _ _ _ _ _ _ _ Eg Hd) as (Hfg & Hfv & Hgv & Hrest).
  destruct (generations _ _ _ _ _ _ _ _ _ _ Hs Hp Hfv Eg)
    as (ny' & np' & ng & nv & Hy' & Hp' & Hg & Hvn & _ & Hpg & Hgp & Hgu).
  rewrite Hy in Hy'. injection Hy' as <-. rewrite Hpn in Hp'. injection Hp' as <-.
  destruct (Hrest y) as (Hyf & Hyv & Hyg); [set_solver|].
  assert (col (node f) = RB_COLOR_RED) as Hred by (by destruct (col (node f))).
  eapply (wp_recolour_round fuel y (node f) (node g) v); try done; try congruence.
  { rewrite (Hcol' v nv); [done| |done]. left. unfold path_nodes. simpl. rewrite Eg. set_solver. }
  destruct (recolour_step _ _ _ _ _ _ _ _ _ Hctx Hred Hrb Eg Hv Hd) as (Hrb' & Hctx' & Hrec').
  destruct (fill_node g (fill f (Node l y r))) as (gl & gr & Et).
  set (m1 := <[node g := _]> _).
  assert (same_links (nodes s) m1) as Hm1.
  { unfold m1. transitivity (<[node f := with_color RB_COLOR_BLACK np]> (nodes s)); [by apply same_links_insert|].
    etransitivity; [apply (same_links_insert _ v RB_COLOR_BLACK nv)|apply same_links_insert].
    - by rewrite lookup_insert_ne.
    - by rewrite !lookup_insert_ne by congruence. }
  apply (IH path _ (recolour col f g v) (S n) gl (node g) gr); rewrite <-?Et; rb_simpl; try done.
  - by eapply same_links_shape.
  - by eapply same_links_parents.
  - unfold m1. rewrite !lookup_insert_ne by congruence. done.
  - unfold m1, recolour. apply colored_insert; [by rewrite !lookup_insert_ne by congruence|].
    apply colored_insert; [by rewrite lookup_insert_ne|]. by apply colored_insert.
  - by rewrite Hrec'.
  - simpl in Hf. lia.
  - intros m' col' k Hm' Hc' Hk. apply (HQ m' col' k); try done. by transitivity m1.
Qed.

(** The colours after [bst_insert]: the new node is red. *)
Lemma grown_colored k klen v vlen less t col x s s' :
  colored (nodes s) col t -> grown k klen v vlen less t NULL x s s' ->
  colored (nodes s') (<[x := RB_COLOR_RED]> col) (grow less x t).
Proof.
  intros Hc [_ _ (nx & q & Hx & d & ->) _ Gk _ _ _] p n Hp Hn.
  rewrite inorder_grow in Hp. destruct (decide (p = x)) as [->|Hpx].
  - rewrite Hx in Hn. injection Hn as <-. by rewrite fn_lookup_insert.
  - rewrite fn_lookup_insert_ne by done. apply elem_of_cons in Hp as [?|Hp]; [done|].
    specialize (Gk p Hpx). rewrite Hn in Gk. destruct (nodes s !! p) as [n0|] eqn:Hn0; [|done].
    injection Gk as -> _ _ _ _. by apply Hc.
Qed.

(** What [_rb_tree_insert] does up to the fix-up: the new node is a red leaf at the
    end of the path that binary search takes. *)
Lemma run_insert less s k klen v vlen t fuel col m :
  tree_ok (nodes s) t -> root s = top t NULL -> parents (nodes s) NULL t ->
  colored (nodes s) col t -> rb col RB_COLOR_BLACK m t ->
  args_ok klen v vlen s -> compares k klen s less t ->
  (forall p, is_Some (nodes s !! p) -> p ∈ blocks (heap s).2) -> (count t < fuel)%nat ->
  let path := descend less t [] in
  exists s1,
    (_rb_tree_insert fuel k klen v vlen s = Ok (-1, s1) /\ nodes s1 = nodes s /\ root s1 = root s) \/
    exists x, _rb_tree_insert fuel k klen v vlen s = (rb_tree_insert_case1 fuel x;; mret 1) s1 /\
      grow less x t = plug path (Node Leaf x Leaf) /\
      tree_ok (nodes s1) (grow less x t) /\ root s1 = top (grow less x t) NULL /\
      parents (nodes s1) NULL (grow less x t) /\
      colored (nodes s1) (<[x := RB_COLOR_RED]> col) (grow less x t) /\
      ctx (<[x := RB_COLOR_RED]> col) 0 path /\
      forall p, p ∈ path_nodes path -> (<[x := RB_COLOR_RED]> col) p = col p.
Proof.
  intros Htk Hroot Hpar Hcol Hrb Har Hcmp Hlive Hf path.
  destruct (proj1 (wp_run _ _ _) (wp_bst_insert k klen v vlen less s t fuel Htk Hroot Har Hcmp Hlive ltac:(lia)))
    as ([r o] & s1 & E & Hr). exists s1.
  unfold _rb_tree_insert. rewrite (run_bind _ _ _ _ _ E).
  destruct Hr as [([= -> ->] & Hn & Hr)|(x & [= -> ->] & Hr & Hg)]; [by left|right].
  exists x. pose proof (grown_tree_ok _ _ _ _ _ _ _ _ _ Htk Hg) as Hok.
  pose proof (descend_grow less x t []) as Hplug. cbn [plug] in Hplug. fold path in Hplug.
  assert (forall p, p ∈ path_nodes path -> (<[x := RB_COLOR_RED]> col) p = col p) as Hsame.
  { intros p Hp. apply fn_lookup_insert_ne. intros <-. pose proof (tk_nodup _ _ Hok) as Hd.
    rewrite Hplug, plug_nodes in Hd. cbn [inorder app] in Hd. by apply NoDup_cons in Hd as [? _]. }
  split_and!; try done.
  - by apply (gr_parents _ _ _ _ _ _ _ _ _ _ Hg).
  - by eapply grown_colored.
  - eapply ctx_frame; [exact Hsame|]. eapply descend_ctx; [exact Hrb|constructor|done].
Qed.

(** C19: insertion into a red-black tree, as long as the fix-up finds red uncles up to
    a black parent or to the root, which [recolours] says: the new node is where
    binary search has it, every node is linked as before, and the result is
    again a red-black tree - no red node has a red child, and all paths have the
    same number of black nodes. When memory runs out the tree is as it was. *)
Theorem rb_tree_insert_recolours less s k klen v vlen t fuel col m a b :
  tree_ok (nodes s) t -> root s = top t NULL -> parents (nodes s) NULL t ->
  colored (nodes s) col t -> rb col RB_COLOR_BLACK m t ->
  args_ok klen v vlen s -> compares k klen s less t ->
  (forall p, is_Some (nodes s !! p) -> p ∈ blocks (heap s).2) ->
  inorder t = a ++ b -> Forall (fun p => less p = false) a -> Forall (fun p => less p = true) b ->
  recolours col (descend less t []) = true -> (count t < fuel)%nat ->
  exists r s', _rb_tree_insert fuel k klen v vlen s = Ok (r, s') /\
    (r = -1 /\ nodes s' = nodes s /\ root s' = root s \/
     r = 1 /\ exists x col' m', let t' := grow less x t in
       inorder t' = a ++ x :: b /\ tree_ok (nodes s') t' /\ root s' = top t' NULL /\
       parents (nodes s') NULL t' /\ colored (nodes s') col' t' /\ rb col' RB_COLOR_BLACK m' t').
Proof.
  intros Htk Hroot Hpar Hcol Hrb Har Hcmp Hlive Hab Ha Hb Hrec Hf.
  destruct (run_insert less s k klen v vlen t fuel col m) as (s1 & [(E & Hn & Hr)|(x & E & Hplug & [Hs1 Hd1 Hnull1] &
    Hr & Hp1 & Hcol1 & Hctx & Hsame)]); try done.
  { exists (-1), s1. split; [done|by left]. }
  set (path := descend less t []) in *.
  assert (wp (rb_tree_insert_case1 fuel x;; mret 1) (fun r s' => r = 1 /\ exists m1 col' m',
    s' = set_nodes m1 s1 /\ same_links (nodes s1) m1 /\ colored m1 col' (grow less x t) /\
    rb col' RB_COLOR_BLACK m' (grow less x t)) s1) as (r & s2 & E2 & -> & m1 & col' & m' & -> & Hm1 & Hc' & Hk)%wp_run.
  { rewrite wp_bind. rewrite Hplug in *.
    eapply (wp_recolours fuel path s1 (<[x := RB_COLOR_RED]> col) 0 Leaf x Leaf); try done.
    - apply rb_red; [apply fn_lookup_insert|constructor..].
    - by rewrite (recolours_frame _ _ _ Hsame).
    - pose proof (descend_length less t []) as Hl. fold path in Hl. simpl in Hl. lia.
    - intros m1 col' m' Hm1 Hc' Hk. rewrite wp_ret. split; [done|]. by exists m1, col', m'. }
  exists 1, (set_nodes m1 s1). split; [by rewrite E|right]. split; [done|]. exists x, col', m'. cbv zeta.
  split; [by apply grow_inorder|]. rb_simpl. split_and!; try done; [split; [|done|]|].
  - by eapply same_links_shape.
  - apply eq_None_not_Some. intros [n Hn]. symmetry in Hm1.
    destruct (same_links_node _ _ _ _ Hm1 Hn) as (? & ? & _). congruence.
  - by eapply same_links_parents.
Qed.
End Recolour.

(** ** Witness

    The key 25 in the tree of the keys 10, 20 and 30, where 10 and 30 are red:
    they and the root become black. *)
Definition demo_col (p : addr) : rb_color_t := if p =? 16 then RB_COLOR_BLACK else RB_COLOR_RED.

Lemma rb_tree_insert_recolours_witness :
  exists x s', _rb_tree_insert 20 25 1 125 4 demo_tree = Ok (1, s') /\
    (color <$> nodes s' !! 32) = Some RB_COLOR_BLACK /\
    exists col' m', rb col' RB_COLOR_BLACK m' (grow (fun p => p =? 48) x demo_t).
Proof.
  destruct (rb_tree_insert_recolours (fun p => p =? 48) demo_tree 25 1 125 4 demo_t 20 demo_col 1 [32; 16] [48])
    as (r & s' & E & Hr).
  - exact demo_tree_ok.
  - reflexivity.
  - cbn. split_and!; reflexivity.
  - intros p n Hp Hn. in_cases Hp; vm_compute in Hn; injection Hn as <-; reflexivity.
  - eapply rb_black; [reflexivity|apply rb_red; [reflexivity|constructor..]|apply rb_red; [reflexivity|constructor..]].
  - split; [lia|lia|vm_compute; done|]. intros _. exists 25. vm_compute. reflexivity.
  - intros p n Hp Hn. in_cases Hp; vm_compute in Hn; injection Hn as <-;
      (eexists; split; [vm_compute; reflexivity|reflexivity]).
  - apply demo_live.
  - reflexivity.
  - repeat constructor.
  - repeat constructor.
  - reflexivity.
  - vm_compute. lia.
  - destruct Hr as [(-> & _)|(-> & x & col' & m' & _ & Hok & _ & _ & Hc & Hk)].
    + vm_compute in E. discriminate.
    + exists x, s'. split; [exact E|split; [|exists col', m'; exact Hk]].
      assert (match _rb_tree_insert 20 25 1 125 4 demo_tree with
              | Ok (_, s1) => color <$> nodes s1 !! 32 | _ => None end = Some RB_COLOR_BLACK) as H32
        by (vm_compute; reflexivity).
      rewrite E in H32. exact H32.
Defined.
