(* ===== verification/RbtreeRotate.v ===== *)
(** Insertion into the red-black tree of Rbtree.v where the fix-up rotates below the
    root: what case 4 and case 5 make of the nodes, when that is right, and what it
    leads to when it is not. *)
From stdpp Require Import functions strings.
From S2P Require Import Prelude Malloc Rbtree RbtreeThms RbtreeInsert RbtreeColor.

(** ** Another subtree at the end of a path *)
Lemma plug_inorder path t1 t2 :
  inorder t2 = inorder t1 -> inorder (plug path t2) = inorder (plug path t1).
Proof.
  revert t1 t2. induction path as [|f path IH]; intros t1 t2 E; [done|].
  apply IH. unfold fill. destruct (on_left f); simpl; by rewrite E.
Qed.

Lemma top_fill f t e : top (fill f t) e = node f.
Proof. unfold fill. by destruct (on_left f). Qed.

Lemma shape_replug (m m' : gmap addr rb_node_t) path t1 t2 :
  shape m NULL (plug path t1) -> (forall p, p ∈ path_nodes path -> m' !! p = m !! p) ->
  top t2 NULL = top t1 NULL -> shape m' NULL t2 -> shape m' NULL (plug path t2).
Proof.
  revert t1 t2. induction path as [|f path IH]; intros t1 t2 Hs Hf Ht Hs2; [done|].
  unfold path_nodes in Hf. simpl in Hf.
  apply (IH (fill f t1)); [done| |by rewrite !top_fill|].
  - intros p Hp. apply Hf. set_solver.
  - cbn [plug] in Hs. apply shape_plug in Hs. assert (shape m' NULL (other f)) as Ho.
    { eapply shape_frame; [intros p Hp; apply Hf; set_solver|]. unfold fill in Hs. by destruct (on_left f); simpl in Hs; destruct Hs as (_ & ? & ?). }
    assert (m' !! node f = m !! node f) as Hn by (apply Hf; by left).
    unfold fill in *. destruct (on_left f); simpl in *; destruct Hs as (? & ? & ?); rewrite Hn, Ht; by split_and!.
Qed.

Lemma parents_replug (m m' : gmap addr rb_node_t) path t1 t2 :
  parents m NULL (plug path t1) -> (forall p, p ∈ path_nodes path -> m' !! p = m !! p) ->
  parents m' (above path) t2 -> parents m' NULL (plug path t2).
Proof.
  revert t1 t2. induction path as [|f path IH]; intros t1 t2 Hs Hf Hs2; [done|].
  unfold path_nodes in Hf. simpl in Hf. apply (IH (fill f t1)); [done| |].
  - intros p Hp. apply Hf. set_solver.
  - cbn [plug] in Hs. apply parents_plug in Hs. assert (parents m' (node f) (other f)) as Ho.
    { eapply parents_frame; [intros p Hp; apply Hf; set_solver|]. unfold fill in Hs. by destruct (on_left f); simpl in Hs; destruct Hs as (_ & ? & ?). }
    assert (m' !! node f = m !! node f) as Hn by (apply Hf; by left).
    unfold fill in *. destruct (on_left f); simpl in *; destruct Hs as (? & ? & ?); rewrite Hn; by split_and!.
Qed.

(** The node above gets a new child on the side the path comes from. *)
Lemma hang_replug (m m' : gmap addr rb_node_t) f path t1 t2 nq :
  shape m NULL (plug (f :: path) t1) -> parents m NULL (plug (f :: path) t1) ->
  m !! node f = Some nq -> m' !! node f = Some (hang (on_left f) (top t2 NULL) nq) ->
  (forall p, p ∈ inorder (other f) ++ path_nodes path -> m' !! p = m !! p) ->
  shape m' NULL t2 ->
  shape m' NULL (plug (f :: path) t2) /\
  (parents m' (node f) t2 -> parents m' NULL (plug (f :: path) t2)).
Proof.
  intros Hs Hp Hq Hq' Hf Hs2. cbn [plug] in *.
  pose proof (shape_plug _ _ _ Hs) as Hsf. pose proof (parents_plug _ _ _ Hp) as Hpf. split.
  - apply (shape_replug m m' path (fill f t1)); [done| |by rewrite !top_fill|].
    + intros p Hp'. apply Hf. set_solver.
    + unfold fill in *. destruct (on_left f); simpl in *; rewrite Hq' ; destruct Hsf as ((n & Hn & El & Er) & Hs1 & Hso);
        rewrite Hq in Hn; injection Hn as <-; (split_and!; [eexists; split; [done|]; by split| |]); try done;
        (eapply shape_frame; [|done]; intros; apply Hf; set_solver).
  - intros Hp2. apply (parents_replug m m' path (fill f t1)); [done| |].
    + intros p Hp'. apply Hf. set_solver.
    + unfold fill in *. destruct (on_left f); simpl in *; rewrite Hq'; simpl; destruct Hpf as (Hn & Hp1 & Hpo);
        rewrite Hq in Hn; injection Hn as <-; (split_and!; [done| |]); try done;
        (eapply parents_frame; [|done]; intros; apply Hf; set_solver).
Qed.

(** The subtree before and after a rotation of [p], in which [c] goes up. *)
Definition before (rt : bool) a c b p r : tree := if rt then Node (Node a c b) p r else Node r p (Node b c a).
Definition after (rt : bool) a c b p r : tree := if rt then Node a c (Node b p r) else Node (Node r p b) c a.

Section Rotate.
Context {A : Type} `{Allocator A}.
Implicit Types (s : rb_tree_t A) (x y p c : addr) (f g h : frame) (path : list frame).

Definition rotate (rt on_left : bool) : addr -> M (rb_tree_t A) unit :=
  if rt then rotate_right on_left else rotate_left on_left.

Definition same_colors (m m' : gmap addr rb_node_t) : Prop :=
  forall y, color <$> m' !! y = color <$> m !! y.

(** A tree with a subtree in it, linked both ways. *)
Record linked (m : gmap addr rb_node_t) path t : Prop := {
  lk_shape : shape m NULL (plug path t);
  lk_parents : parents m NULL (plug path t);
  lk_nodup : NoDup (inorder (plug path t));
  lk_null : m !! NULL = None;
}.

(** The nodes of a path are not those of the subtree. *)
Lemma path_apart path t : NoDup (inorder (plug path t)) ->
  NoDup (inorder t) /\ NoDup (path_nodes path) /\ forall p, p ∈ inorder t -> p ∈ path_nodes path -> False.
Proof. rewrite plug_nodes. intros (? & Hd & ?)%NoDup_app. split_and!; [done..|]. intros p Hp. by apply Hd. Qed.

Lemma node_in_path f path : node f ∈ path_nodes (f :: path).
Proof. unfold path_nodes. simpl. by left. Qed.

(** A rotation under the node of a frame, which sets its pointer on either side. *)
Lemma rotate_under rt ol s f path a c b p r :
  linked (nodes s) (f :: path) (before rt a c b p r) ->
  exists nq s', nodes s !! node f = Some nq /\ child (on_left f) nq = p /\
    child (negb (on_left f)) nq = top (other f) NULL /\
    rotate rt ol p s = Ok (tt, s') /\
    turned ol (node f) nq p c b (before rt a c b p r) (after rt a c b p r) s s'.
Proof.
  intros [Hs Hp Hd Hnull]. destruct (path_apart _ _ Hd) as (Hdt & _ & Hap).
  pose proof (shape_plug _ _ _ Hs) as Hs1. pose proof (parents_plug _ _ _ Hp) as Hp1. cbn [above] in Hp1.
  assert (node f ∉ inorder (before rt a c b p r)) as Hqt by (intros Hin; eapply Hap, node_in_path; exact Hin).
  assert (top (before rt a c b p r) NULL = p) as Htop by by destruct rt.
  assert (exists nq, nodes s !! node f = Some nq /\ child (on_left f) nq = p /\
    child (negb (on_left f)) nq = top (other f) NULL) as (nq & Hnq & Hc1 & Hc2).
  { cbn [plug] in Hs. apply shape_plug in Hs. unfold fill in Hs.
    destruct (on_left f); simpl in Hs; destruct Hs as ((n & Hn & El & Er) & _); exists n; rewrite <-Htop; by split_and!. }
  destruct rt; [destruct (rotate_right_turns ol s (node f) nq a c b p r) as (s' & E & Ht)|
    destruct (rotate_left_turns ol s (node f) nq a c b p r) as (s' & E & Ht)]; try done;
    exists nq, s'; by split_and!.
Qed.

(** A rotation that sets the pointer on the side where the subtree is keeps the
    tree linked, if the subtree that changes sides is empty. *)
Lemma rotate_in_place rt s f path a c p r :
  linked (nodes s) (f :: path) (before rt a c Leaf p r) ->
  exists s', rotate rt (on_left f) p s = Ok (tt, s') /\ s' = set_nodes (nodes s') s /\
    linked (nodes s') (f :: path) (after rt a c Leaf p r) /\ same_colors (nodes s) (nodes s').
Proof.
  intros Hlk. destruct (rotate_under rt (on_left f) s f path a c Leaf p r Hlk)
    as (nq & s' & Hnq & _ & _ & E & [Hord Hsh Hab Hfr _ Hpar Hcol Hrest]).
  destruct Hlk as [Hs Hp Hd Hnull]. destruct (path_apart _ _ Hd) as (_ & Hdp & Hap).
  unfold path_nodes in Hdp. simpl in Hdp. apply NoDup_cons in Hdp as [Hq Hdp].
  exists s'. split_and!; try done.
  assert (forall y, y ∈ inorder (other f) ++ path_nodes path -> nodes s' !! y = nodes s !! y) as Hfr'.
  { intros y Hy. apply Hfr. rewrite !elem_of_cons. intros [->|Hy']; [by apply Hq|].
    apply (Hap y); [|unfold path_nodes; simpl; by right].
    destruct rt, Hy' as [->|[->|?%not_elem_of_nil]]; try done; unfold before; simpl; set_solver. }
  destruct (hang_replug (nodes s) (nodes s') f path _ (after rt a c Leaf p r) nq Hs Hp Hnq) as [Hs2 Hp2]; try done.
  { rewrite Hab. by destruct rt. }
  split; [done|by apply Hp2, Hpar|by rewrite (plug_inorder _ _ _ Hord)|].
  specialize (Hcol NULL). rewrite Hnull in Hcol. by destruct (nodes s' !! NULL).
Qed.

(** What is at the nodes of four generations. *)
Record family (m : gmap addr rb_node_t) (x : addr) f g (u : addr) (nx np ng : rb_node_t) : Prop := {
  fm_x : m !! x = Some nx;
  fm_p : m !! node f = Some np;
  fm_g : m !! node g = Some ng;
  fm_xp : parent nx = node f;
  fm_pg : parent np = node g;
  fm_gq : parent ng = u;
  fm_child : child (on_left f) np = x;
  fm_sibling : child (negb (on_left f)) np = top (other f) NULL;
  fm_parent : child (on_left g) ng = node f;
  fm_uncle : child (negb (on_left g)) ng = top (other g) NULL;
}.

Lemma linked_family m f g path l x r :
  linked m (f :: g :: path) (Node l x r) ->
  exists nx np ng, family m x f g (above path) nx np ng.
Proof.
  intros [Hs Hp _ _]. cbn [plug] in *. apply shape_plug in Hs. apply parents_plug in Hp.
  unfold fill in Hs, Hp.
  destruct (m !! node g) as [ng|] eqn:Hg, (m !! node f) as [np|] eqn:Hf, (m !! x) as [nx|] eqn:Hx;
    destruct (on_left g) eqn:Eg, (on_left f) eqn:Ef; simpl in *; rewrite ?Hg, ?Hf, ?Hx in *; simpl in *;
    first [by (exists nx, np, ng; split; rewrite ?Eg, ?Ef; simpl; naive_solver) | naive_solver].
Qed.

Lemma same_links_linked m m' path t : same_links m m' -> linked m path t -> linked m' path t.
Proof.
  intros Hm [Hs Hp Hd Hnull]. split; [by eapply same_links_shape|by eapply same_links_parents|done|].
  apply eq_None_not_Some. intros [n Hn]. symmetry in Hm.
  destruct (same_links_node _ _ _ _ Hm Hn) as (? & ? & _). congruence.
Qed.

Lemma same_colors_colored m m' col t : same_colors m m' -> colored m col t -> colored m' col t.
Proof.
  intros Hm Hc p n Hp Hn. specialize (Hm p). rewrite Hn in Hm.
  destruct (m !! p) as [n0|] eqn:E; [|done]. injection Hm as ->. by apply Hc.
Qed.

(** Case 5 colours the parent black and the grandparent red, and rotates the
    grandparent. The side of the pointer above that it sets is the one on which
    the parent is under the grandparent. *)
Lemma run_case5_colors s f g path l x r col T :
  linked (nodes s) (f :: g :: path) (Node l x r) -> colored (nodes s) col T ->
  other f = Leaf -> on_left f = on_left g ->
  exists s1, rb_tree_insert_case5 x s = rotate (on_left g) (on_left g) (node g) s1 /\
    s1 = set_nodes (nodes s1) s /\ same_links (nodes s) (nodes s1) /\
    linked (nodes s1) path (before (on_left g) (Node l x r) (node f) Leaf (node g) (other g)) /\
    colored (nodes s1) (<[node g := RB_COLOR_RED]> (<[node f := RB_COLOR_BLACK]> col)) T.
Proof.
  intros Hlk Hcol Hf Hfg. destruct (linked_family _ _ _ _ _ _ _ Hlk) as (nx & np & ng & []).
  pose proof (lk_null _ _ _ Hlk) as Hnull. destruct (path_apart _ _ (lk_nodup _ _ _ Hlk)) as (_ & Hdp & Hap).
  assert (x <> node f /\ x <> node g /\ node f <> node g) as (Hxf & Hxg & Hpg).
  { unfold path_nodes in *. simpl in *. rewrite Hf in *. simpl in *. apply NoDup_cons in Hdp as [Hdp _].
    split_and!; [intros ->; apply (Hap (node f)); set_solver|intros ->; apply (Hap (node g)); set_solver|set_solver]. }
  unfold rb_tree_insert_case5.
  rewrite (run_bind _ _ _ _ _ (run_grandparent _ _ _ _ _ fm_x0 fm_xp0 fm_p0 Hnull)), fm_pg0.
  rewrite (run_bind _ _ _ _ _ (run_node_at _ _ _ fm_x0)), fm_xp0.
  rewrite (run_bind _ _ _ _ _ (run_set_color _ _ _ _ fm_p0)).
  erewrite run_bind by (apply run_set_color; rb_lookup).
  erewrite run_bind by (apply run_node_at; rb_lookup). rewrite fm_xp0.
  erewrite run_bind by (apply run_node_at; rb_lookup). rb_simpl.
  set (s1 := set_nodes _ _).
  assert (same_links (nodes s) (nodes s1)) as Hsl.
  { unfold s1. rb_simpl.
    transitivity (<[node f := with_color RB_COLOR_BLACK np]> (nodes s)); [by apply same_links_insert|].
    apply same_links_insert. by rewrite lookup_insert_ne. }
  exists s1. split_and!; [|done|done| |].
  - unfold rotate, rotate_right, rotate_left. rewrite Hfg in *. destruct (on_left g); cbn [child] in *.
    + by rewrite fm_child0, Z.eqb_refl.
    + rewrite Hf in fm_sibling0. simpl in fm_sibling0. rewrite fm_sibling0, (proj2 (Z.eqb_neq NULL x)) by congruence. done.
  - replace (before _ _ _ _ _ _) with (fill g (fill f (Node l x r))).
    + destruct (same_links_linked _ _ _ _ Hsl Hlk). by split.
    + unfold fill, before. rewrite Hfg, Hf. by destruct (on_left g).
  - unfold s1. rb_simpl. apply colored_insert; [by rewrite lookup_insert_ne|]. by apply colored_insert.
Qed.

(** With the node above on the same side the parent becomes the root of the subtree. *)
Lemma run_case5 s f g h path l x r col T :
  linked (nodes s) (f :: g :: h :: path) (Node l x r) -> colored (nodes s) col T ->
  other f = Leaf -> on_left f = on_left g -> on_left h = on_left g ->
  exists s', rb_tree_insert_case5 x s = Ok (tt, s') /\ s' = set_nodes (nodes s') s /\
    linked (nodes s') (h :: path) (after (on_left g) (Node l x r) (node f) Leaf (node g) (other g)) /\
    colored (nodes s') (<[node g := RB_COLOR_RED]> (<[node f := RB_COLOR_BLACK]> col)) T.
Proof.
  intros Hlk Hcol Hf Hfg Hhg.
  destruct (run_case5_colors s f g (h :: path) l x r col T Hlk Hcol Hf Hfg) as (s1 & E & Hs1 & _ & Hlk1 & Hcol1).
  destruct (rotate_in_place (on_left g) s1 h path (Node l x r) (node f) (node g) (other g) Hlk1)
    as (s' & E' & Hs' & Hlk' & Hcol'). exists s'.
  split_and!; [by rewrite E, <-E', Hhg|by rewrite Hs', Hs1|done|by eapply same_colors_colored].
Qed.

(** Case 4 looks whether the node is an inner grandchild. *)
Lemma run_case4 s f g h path l x r :
  linked (nodes s) (f :: g :: h :: path) (Node l x r) -> other f = Leaf ->
  rb_tree_insert_case4 x s =
    if eqb (on_left f) (on_left g) then rb_tree_insert_case5 x s
    else (rotate (on_left f) (on_left g) (node f);;
          n ← node_at x;
          if child (on_left g) n =? NULL then mret tt else rb_tree_insert_case5 (child (on_left g) n)) s.
Proof.
  intros Hlk Hf. destruct (linked_family _ _ _ _ _ _ _ Hlk) as (nx & np & ng & []).
  pose proof (lk_null _ _ _ Hlk) as Hnull. destruct (path_apart _ _ (lk_nodup _ _ _ Hlk)) as (_ & Hdp & Hap).
  assert (top (other g) NULL <> node f) as Hu.
  { destruct (other g) as [|ul u ur] eqn:Eg; simpl; [congruence|]. intros ->. unfold path_nodes in Hdp.
    simpl in Hdp. rewrite Eg in Hdp. simpl in Hdp. apply NoDup_cons in Hdp as [Hdp _]. set_solver. }
  assert (forall b, (child b np =? x) = eqb b (on_left f)) as Hside.
  { intros b. rewrite Hf in fm_sibling0. simpl in fm_sibling0.
    destruct b, (on_left f); simpl in *; first [apply Z.eqb_eq; congruence|apply Z.eqb_neq; congruence]. }
  assert (forall b, (node f =? child b ng) = eqb b (on_left g)) as Hgside.
  { intros b. destruct b, (on_left g); simpl in *; first [apply Z.eqb_eq; congruence|apply Z.eqb_neq; congruence]. }
  pose proof (Hside true) as Hl. pose proof (Hside false) as Hr.
  pose proof (Hgside true) as Hgl. pose proof (Hgside false) as Hgr. cbn [child] in Hl, Hr, Hgl, Hgr.
  unfold rb_tree_insert_case4.
  rewrite (run_bind _ _ _ _ _ (run_grandparent _ _ _ _ _ fm_x0 fm_xp0 fm_p0 Hnull)), fm_pg0.
  rewrite (run_bind _ _ _ _ _ (run_node_at _ _ _ fm_x0)), fm_xp0.
  rewrite (run_bind _ _ _ _ _ (run_node_at _ _ _ fm_p0)), Hl, Hr.
  assert ((gn ← node_at (node g); mret (node f =? left gn)) s = Ok (eqb true (on_left g), s)) as EL.
  { rewrite (run_bind _ _ _ _ _ (run_node_at _ _ _ fm_g0)). by rewrite Hgl. }
  assert ((gn ← node_at (node g); mret (node f =? right gn)) s = Ok (eqb false (on_left g), s)) as ER.
  { rewrite (run_bind _ _ _ _ _ (run_node_at _ _ _ fm_g0)). by rewrite Hgr. }
  assert (x <> NULL) as Hx0 by congruence.
  destruct (on_left f) eqn:Ef, (on_left g) eqn:Eg; cbn [eqb] in *.
  - erewrite run_bind by reflexivity. cbn iota.
    erewrite run_bind by (erewrite run_bind by exact ER; reflexivity).
    by rewrite (proj2 (Z.eqb_neq x NULL)) by done.
  - erewrite run_bind by reflexivity. cbn iota. unfold mbind at 1, M_bind at 1.
    rewrite (run_bind _ _ _ _ _ ER). cbn iota. unfold rotate, rotate_right. cbn [child]. unfold mbind, M_bind.
    destruct (rb_tree_rotate_right_side_right (node f) s) as [[[] s1]| | |]; [|done..].
    destruct (node_at x s1) as [[n s2]| | |]; [|done..]. done.
  - rewrite (run_bind _ _ _ _ _ EL). cbn iota. unfold rotate, rotate_left. cbn [child]. unfold mbind, M_bind.
    destruct (rb_tree_rotate_left_side_left (node f) s) as [[[] s1]| | |]; [|done..].
    destruct (node_at x s1) as [[n s2]| | |]; [|done..]. done.
  - rewrite (run_bind _ _ _ _ _ EL). cbn iota. erewrite run_bind by (erewrite run_bind by reflexivity; reflexivity).
    by rewrite (proj2 (Z.eqb_neq x NULL)) by done.
Qed.

(** Three nodes, the middle one on top. *)
Definition three lo mid hi : tree := Node (Node Leaf lo Leaf) mid (Node Leaf hi Leaf).

Record balanced s s' path lo mid hi col T : Prop := {
  bl_rest : s' = set_nodes (nodes s') s;
  bl_linked : linked (nodes s') path (three lo mid hi);
  bl_mid : exists col', colored (nodes s') col' T /\ col' mid = RB_COLOR_BLACK /\
    col' lo = RB_COLOR_RED /\ col' hi = RB_COLOR_RED /\ forall y, y ∉ [lo; mid; hi] -> col' y = col y;
}.

(** A red leaf [x] under a red node without other children, under one that has
    only this child: whichever side [x] and its parent are on, cases 4 and 5
    make the three a balanced subtree. *)
Lemma run_balance s f g h path x col T :
  linked (nodes s) (f :: g :: h :: path) (Node Leaf x Leaf) -> colored (nodes s) col T ->
  other f = Leaf -> other g = Leaf -> col x = RB_COLOR_RED -> col (node f) = RB_COLOR_RED ->
  on_left h = on_left g ->
  exists s' lo mid hi, rb_tree_insert_case4 x s = Ok (tt, s') /\
    inorder (three lo mid hi) = inorder (fill g (fill f (Node Leaf x Leaf))) /\
    balanced s s' (h :: path) lo mid hi col T.
Proof.
  intros Hlk Hcol Hf Hg Hx Hfc Hhg. rewrite (run_case4 s f g h path Leaf x Leaf Hlk Hf).
  destruct (path_apart _ _ (lk_nodup _ _ _ Hlk)) as (_ & Hdp & Hap).
  assert (x <> node f /\ x <> node g /\ node f <> node g) as (Hxf & Hxg & Hpg).
  { unfold path_nodes in *. simpl in *. rewrite Hf in *. simpl in *. apply NoDup_cons in Hdp as [Hdp _].
    split_and!; [intros ->; apply (Hap (node f)); set_solver|intros ->; apply (Hap (node g)); set_solver|set_solver]. }
  destruct (eqb (on_left f) (on_left g)) eqn:Eside.
  - apply eqb_prop in Eside.
    destruct (run_case5 s f g h path Leaf x Leaf col T Hlk Hcol Hf Eside Hhg) as (s' & E & Hs' & Hlk' & Hcol').
    rewrite Hg in Hlk'. exists s', (if on_left g then x else node g), (node f), (if on_left g then node g else x).
    unfold three, after in *. split_and!; [done| |].
    { unfold fill. rewrite Hf, Hg, Eside. by destruct (on_left g). }
    split; [done|by destruct (on_left g)|]. eexists. split; [exact Hcol'|].
    destruct (on_left g); (split_and!; [rewrite fn_lookup_insert_ne by congruence; apply fn_lookup_insert|..];
      first [apply fn_lookup_insert|by rewrite !fn_lookup_insert_ne by congruence|
        intros y Hy; rewrite !fn_lookup_insert_ne by set_solver; done]).
  - apply eqb_false_iff in Eside.
    set (f' := mk_frame (on_left g) x Leaf).
    assert (linked (nodes s) (g :: h :: path) (before (on_left f) Leaf x Leaf (node f) Leaf)) as Hlk1.
    { replace (before _ _ _ _ _ _) with (fill f (Node Leaf x Leaf)); [by destruct Hlk|].
      unfold fill, before. rewrite Hf. by destruct (on_left f). }
    destruct (rotate_in_place (on_left f) s g (h :: path) Leaf x (node f) Leaf Hlk1)
      as (s1 & E1 & Hs1 & Hlk2 & Hc1). rewrite (run_bind _ _ _ _ _ E1).
    assert (linked (nodes s1) (f' :: g :: h :: path) (Node Leaf (node f) Leaf)) as Hlk3.
    { replace (after _ _ _ _ _ _) with (fill f' (Node Leaf (node f) Leaf)) in Hlk2; [by destruct Hlk2|].
      unfold fill, after, f'. simpl. destruct (on_left f), (on_left g); done. }
    destruct (linked_family _ _ _ _ _ _ _ Hlk3) as (ny & nx & ng & []).
    assert (node f <> NULL) as Hp0 by (pose proof (lk_null _ _ _ Hlk3); congruence).
    rewrite (run_bind _ _ _ _ _ (run_node_at _ _ _ fm_p0)).
    change (on_left f') with (on_left g) in fm_child0. rewrite fm_child0, (proj2 (Z.eqb_neq _ _) Hp0).
    destruct (run_case5 s1 f' g h path Leaf (node f) Leaf col T Hlk3) as (s' & E & Hs' & Hlk' & Hcol'); try done.
    { by eapply same_colors_colored. }
    rewrite Hg in Hlk'. change (node f') with x in Hlk', Hcol'.
    exists s', (if on_left g then node f else node g), x, (if on_left g then node g else node f).
    unfold three, after in *. split_and!; [done| |].
    { unfold fill. rewrite Hf, Hg. by destruct (on_left f), (on_left g). }
    split; [by rewrite Hs', Hs1|by destruct (on_left g)|]. eexists. split; [exact Hcol'|].
    destruct (on_left g); (split_and!; [rewrite fn_lookup_insert_ne by congruence; apply fn_lookup_insert|..];
      first [apply fn_lookup_insert|by rewrite !fn_lookup_insert_ne by congruence|
        intros y Hy; rewrite !fn_lookup_insert_ne by set_solver; done]).
Qed.

(** The cases before: the parent is red and there is no uncle. *)
Lemma run_case1_red fuel s f g h path x col T :
  linked (nodes s) (f :: g :: h :: path) (Node Leaf x Leaf) -> colored (nodes s) col T -> node f ∈ inorder T ->
  other g = Leaf -> col (node f) = RB_COLOR_RED ->
  rb_tree_insert_case1 (S fuel) x s = rb_tree_insert_case4 x s.
Proof.
  intros Hlk Hcol HfT Hg Hfc. destruct (linked_family _ _ _ _ _ _ _ Hlk) as (nx & np & ng & []).
  pose proof (lk_null _ _ _ Hlk) as Hnull. rewrite Hg in fm_uncle0. simpl in fm_uncle0.
  cbn [rb_tree_insert_case1]. rewrite (run_bind _ _ _ _ _ (run_node_at _ _ _ fm_x0)), fm_xp0.
  rewrite (proj2 (Z.eqb_neq (node f) NULL)) by congruence. unfold rb_tree_insert_case2.
  rewrite (run_bind _ _ _ _ _ (run_node_at _ _ _ fm_x0)), fm_xp0.
  rewrite (run_bind _ _ _ _ _ (run_node_at _ _ _ fm_p0)).
  rewrite (Hcol _ _ HfT fm_p0), Hfc, bool_decide_false by done. unfold rb_tree_insert_case3.
  erewrite run_bind by (eapply (run_uncle (on_left g) x (node f) (node g)); try done; congruence).
  rewrite fm_uncle0. by erewrite run_bind by reflexivity.
Qed.
End Rotate.

Lemma top_plug f path t1 t2 : top (plug (f :: path) t1) NULL = top (plug (f :: path) t2) NULL.
Proof.
  revert f t1 t2. induction path as [|g path IH]; intros f t1 t2; cbn [plug]; [by rewrite !top_fill|].
  apply (IH g (fill f t1) (fill f t2)).
Qed.

(** ** Insertion *)
Section Insert.
Context {A : Type} `{AllocatorLaws A}.
Implicit Types (s : rb_tree_t A) (f g h : frame) (path : list frame).

(** A red node under a red one that is not the root, with no uncle: its parent has
    no other children. *)
Lemma ctx_red_parent col f g h path :
  ctx col 0 (f :: g :: h :: path) -> col (node f) = RB_COLOR_RED ->
  other f = Leaf /\ ctx col 1 (h :: path).
Proof.
  intros Hc Hf. inversion Hc as [|n1 f1 p1 _ Hu Hab Hg|n1 c1 f1 p1 Hf']; subst; [|congruence].
  simpl in Hab. inversion Hg as [|n2 f2 p2 Hg'|n2 c2 f2 p2 _ Hog Hc']; subst; [congruence|]. split; [|done].
  by inversion Hu.
Qed.

End Insert.

(** On the other side the rotated subtree takes the place of the sibling of the
    grandparent, and the pointer it should have replaced still leads to the old
    grandparent, which is now in the subtree. *)
Theorem case5_misplaces {A} `{Allocator A} (s : rb_tree_t A) f g h path l x r col T :
  linked (nodes s) (f :: g :: h :: path) (Node l x r) -> colored (nodes s) col T ->
  other f = Leaf -> on_left f = on_left g -> on_left h <> on_left g ->
  exists s' n n', rb_tree_insert_case5 x s = Ok (tt, s') /\
    shape (nodes s') NULL (after (on_left g) (Node l x r) (node f) Leaf (node g) (other g)) /\
    nodes s !! node h = Some n /\ child (on_left h) n = node g /\ child (on_left g) n = top (other h) NULL /\
    nodes s' !! node h = Some n' /\ child (on_left h) n' = node g /\ child (on_left g) n' = node f.
Proof.
  intros Hlk Hcol Hf Hfg Hhg.
  destruct (run_case5_colors s f g (h :: path) l x r col T Hlk Hcol Hf Hfg) as (s1 & E & Hs1 & Hsl & Hlk1 & _).
  destruct (rotate_under (on_left g) (on_left g) s1 h path (Node l x r) (node f) Leaf (node g) (other g) Hlk1)
    as (nq & s' & Hnq & Hc1 & Hc2 & E' & [Hord Hsh Hab _ _ _ _ _]). symmetry in Hsl.
  destruct (same_links_node _ _ _ _ Hsl Hnq) as (n & Hn & El & Er & _).
  exists s', n, (hang (on_left g) (node f) nq). rewrite E, E'. split; [done|]. split; [done|]. clear Hsh.
  destruct (on_left h), (on_left g); cbn [negb child hang] in *; try done; simpl in *; rewrite ?El, ?Er; by split_and!.
Qed.

(** ** What a stale parent pointer does

    Write the right parent pointers into the tree at [p], whose parent is [q]. *)
Fixpoint repair (fuel : nat) (q p : addr) (m : gmap addr rb_node_t) : gmap addr rb_node_t :=
  match fuel, m !! p with
  | S fuel, Some n => repair fuel p (right n) (repair fuel p (left n) (<[p := with_parent q n]> m))
  | _, _ => m
  end.

(** An empty tree, with the keys from 1 to 14 as blocks of one byte. *)
Definition demo_many : rb_tree_t arena :=
  let bs : bytes := list_to_map (((fun k => (k, [k])) <$> seqZ 1 14) ++
                                 ((fun k => (100 + k, [k; 0; 0; 0])) <$> seqZ 1 14)) in
  mk_tree NULL default_tree_ops 0 ∅ (bs, mk_arena 4000 (dom bs)) [].
Definition demo_stale : rb_tree_t arena :=
  state_after (insert_all [5; 7; 3; 1; 13; 6; 4; 2; 12; 14; 8; 11; 10]) demo_many.
Definition demo_repaired : rb_tree_t arena :=
  set_nodes (repair 20 NULL (root demo_stale) (nodes demo_stale)) demo_stale.

(** The insertion of 10 recolours, and then rotates with the side right; the subtree
    that moves keeps its old parent pointer. The keys are in order still. The
    next insertion, of 9, takes its uncle and its grandparent from that pointer:
    12, 13 and 14 are gone, and 8 is in the tree twice. With the pointers put right
    nothing is lost. *)
Example stale_parent_loses_keys :
  dump_of demo_stale = [1; 2; 3; 4; 5; 6; 7; 8; 10; 11; 12; 13; 14] /\
  dump_of (state_after (insert_all [9]) demo_stale) = [1; 2; 3; 4; 5; 6; 7; 8; 11; 8; 9; 10] /\
  dump_of (state_after (insert_all [9]) demo_repaired) = [1; 2; 3; 4; 5; 6; 7; 8; 9; 10; 11; 12; 13; 14].
Proof. split; [|split]; vm_compute; reflexivity. Qed.

(** ** Witness

    The keys 10 at 16, 5 at 32, 20 at 48 and 30 at 64, which is red. The key 25 goes
    to the left of 30: it becomes the parent of 20 and 30. *)
Definition demo_four : rb_tree_t arena :=
  demo_with [(16, demo_node RB_COLOR_BLACK 32 48 0 10); (32, demo_node RB_COLOR_BLACK 0 0 16 5);
             (48, demo_node RB_COLOR_BLACK 0 64 16 20); (64, demo_node RB_COLOR_RED 0 0 48 30)].
Definition demo_t4 : tree := Node (Node Leaf 32 Leaf) 16 (Node Leaf 48 (Node Leaf 64 Leaf)).
Definition demo_col4 (p : addr) : rb_color_t := if p =? 64 then RB_COLOR_RED else RB_COLOR_BLACK.

Lemma demo_four_ok : tree_ok (nodes demo_four) demo_t4.
Proof.
  split.
  - cbn [shape demo_t4]. split_and!; try done; (eexists; split; [vm_compute; reflexivity|done]).
  - apply NoDup_ListNoDup. cbn. repeat constructor; simpl; lia.
  - reflexivity.
Qed.

