(* ===== verification/Event.v ===== *)
(** The event interface (include/ckit/event.h): the flags, the control commands
    and [struct event], shared by its two implementations in Epoll.v and
    Kqueue.v. *)
From S2P Require Import Prelude.

Inductive event_ctl_t := EVENT_CTL_ADD | EVENT_CTL_DEL | EVENT_CTL_MOD.

(** [data] is the union as its eight bytes, the lowest first. *)
Record event := mk_event { events : Z; data : Z }.

#[export] Instance event_ctl_eq_dec : EqDecision event_ctl_t.
Proof. solve_decision. Defined.
#[export] Instance event_eq_dec : EqDecision event.
Proof. solve_decision. Defined.

Definition EVENT_IN : Z := Z.shiftl 1 0.
Definition EVENT_OUT : Z := Z.shiftl 1 1.
Definition EVENT_HUP : Z := Z.shiftl 1 2.
Definition EVENT_RDHUP : Z := Z.shiftl 1 3.
Definition EVENT_ET : Z := Z.shiftl 1 10.
Definition EVENT_ONESHOT : Z := Z.shiftl 1 11.

(** The members of the union. *)
Definition data_fd (d : Z) : Z := i32 d.
Definition set_data_fd (d fd : Z) : Z := Z.shiftl (Z.shiftr d 32) 32 + u32 fd.
Definition data_ptr (d : Z) : Z := d.
Definition set_data_ptr (d ptr : Z) : Z := u64 ptr.

(** ** Flags *)

(** [if (flags & bit)] and [if (c) flags |= bit]. *)
Definition has (flags bit : Z) : bool := negb (Z.land flags bit =? 0).
Definition raise (c : bool) (bit flags : Z) : Z := if c then Z.lor flags bit else flags.

Lemma has_pow2 flags k : 0 <= k -> has flags (2 ^ k) = Z.testbit flags k.
Proof.
  intros Hk. unfold has. destruct (Z.eqb_spec (Z.land flags (2 ^ k)) 0) as [E|E]; cbn [negb].
  - apply (f_equal (fun z => Z.testbit z k)) in E.
    by rewrite Z.land_spec, Z.pow2_bits_true, andb_true_r, Z.bits_0 in E.
  - destruct (Z.testbit flags k) eqn:Et; [done|]. exfalso. apply E, Z.bits_inj'. intros n Hn.
    rewrite Z.land_spec, Z.pow2_bits_eqb, Z.bits_0 by done.
    destruct (Z.eqb_spec k n) as [<-|]; [by rewrite Et|apply andb_false_r].
Qed.

Lemma raise_testbit c k flags n : 0 <= k ->
  Z.testbit (raise c (2 ^ k) flags) n = (c && (k =? n)) || Z.testbit flags n.
Proof.
  intros Hk. unfold raise. destruct c; [|done]. rewrite Z.lor_spec, Z.pow2_bits_eqb by done.
  apply orb_comm.
Qed.

Lemma event_bits :
  EVENT_IN = 2 ^ 0 /\ EVENT_OUT = 2 ^ 1 /\ EVENT_HUP = 2 ^ 2 /\
  EVENT_RDHUP = 2 ^ 3 /\ EVENT_ET = 2 ^ 10 /\ EVENT_ONESHOT = 2 ^ 11.
Proof. by split_and!. Qed.

(** The flags of [struct event], and the events made of no others. *)
Definition event_mask : Z :=
  Z.lor EVENT_IN (Z.lor EVENT_OUT (Z.lor EVENT_HUP (Z.lor EVENT_RDHUP (Z.lor EVENT_ET EVENT_ONESHOT)))).
Definition masked (ev : event) : event := mk_event (Z.land (events ev) event_mask) (data ev).

(** The flags of [a] are among those of [b]. *)
Definition flags_in (a b : Z) : Prop := forall k, 0 <= k -> Z.testbit a k = true -> Z.testbit b k = true.

#[export] Instance flags_in_preorder : PreOrder flags_in.
Proof. split; [by intros a k|intros a b c Hab Hbc k Hk Ha; auto]. Qed.
