(* ===== verification/Epoll.v ===== *)
(** Events over epoll (src/event_epoll.c). The constants of <sys/epoll.h> and the
    system calls are an interface: [EpollConsts] with the law that the flags are
    different bits, and [Epoll] with what epoll(7) documents of the interest
    list. *)
From S2P Require Import Prelude Event.

Record epoll_event := mk_epoll { ep_events : Z; ep_data : Z }.

Class EpollConsts := {
  EPOLLIN : Z; EPOLLOUT : Z; EPOLLHUP : Z; EPOLLRDHUP : Z; EPOLLET : Z; EPOLLONESHOT : Z;
  EPOLLERR : Z;
  EPOLL_CTL_ADD : Z; EPOLL_CTL_MOD : Z; EPOLL_CTL_DEL : Z;
}.

Class EpollBits `{EpollConsts} := {
  epoll_bits : exists a b c d e f g,
    EPOLLIN = 2 ^ a /\ EPOLLOUT = 2 ^ b /\ EPOLLHUP = 2 ^ c /\ EPOLLRDHUP = 2 ^ d /\
    EPOLLET = 2 ^ e /\ EPOLLONESHOT = 2 ^ f /\ EPOLLERR = 2 ^ g /\
    Forall (fun k => 0 <= k < 32) [a; b; c; d; e; f; g] /\ NoDup [a; b; c; d; e; f; g];
  epoll_cmds : NoDup [EPOLL_CTL_ADD; EPOLL_CTL_MOD; EPOLL_CTL_DEL];
}.

(** The system calls; [interest e efd] is the interest list of [efd]. *)
Class Epoll (E : Type) := {
  sys_epoll_create : Z -> M E Z;
  sys_close : Z -> M E unit;
  sys_epoll_ctl : Z -> Z -> Z -> epoll_event -> M E Z;
  sys_epoll_wait : Z -> Z -> Z -> M E (Z * list epoll_event);
  interest : E -> Z -> gmap Z epoll_event;
}.

(** What a control call that succeeds does to the interest list. *)
Definition ctl_allowed `{EpollConsts} (op fd : Z) (m : gmap Z epoll_event) : Prop :=
  if decide (op = EPOLL_CTL_ADD) then m !! fd = None else is_Some (m !! fd).
Definition ctl_effect `{EpollConsts} (op fd : Z) (eev : epoll_event) (m : gmap Z epoll_event) :=
  if decide (op = EPOLL_CTL_DEL) then delete fd m else <[fd := eev]> m.

Class EpollLaws (E : Type) `{Epoll E, EpollConsts} := {
  epoll_ctl_law efd op fd eev e :
    op ∈ [EPOLL_CTL_ADD; EPOLL_CTL_MOD; EPOLL_CTL_DEL] ->
    exists r e', sys_epoll_ctl efd op fd eev e = Ok (r, e') /\
      (r = 0 /\ ctl_allowed op fd (interest e efd) /\
         interest e' efd = ctl_effect op fd eev (interest e efd) \/
       r = -1 /\ interest e' efd = interest e efd);
  (** Events are reported for descriptors of the list, with the data given
      there; besides the flags asked for there may be errors and hang-ups. *)
  epoll_wait_law efd n t e : 0 < n ->
    exists r evs e', sys_epoll_wait efd n t e = Ok ((r, evs), e') /\
      interest e' efd = interest e efd /\
      (r = -1 /\ evs = [] \/ r = Z.of_nat (length evs) /\ r <= n) /\
      Forall (fun eev => exists fd reg, interest e efd !! fd = Some reg /\
        ep_data eev = ep_data reg /\
        flags_in (ep_events eev) (Z.lor (ep_events reg) (Z.lor EPOLLERR EPOLLHUP))) evs;
}.

Section Ops.
Context {E : Type} `{Epoll E, EpollConsts}.

Definition event_open : M E Z := sys_epoll_create 10.
Definition event_close (efd : Z) : M E unit := sys_close efd.

Definition epoll_cmd (ctl : event_ctl_t) : Z :=
  match ctl with
  | EVENT_CTL_ADD => EPOLL_CTL_ADD
  | EVENT_CTL_MOD => EPOLL_CTL_MOD
  | EVENT_CTL_DEL => EPOLL_CTL_DEL
  end.

Definition event_to_epoll_event (ev : event) : epoll_event :=
  let flags := 0 in
  let flags := raise (has (events ev) EVENT_IN) EPOLLIN flags in
  let flags := raise (has (events ev) EVENT_OUT) EPOLLOUT flags in
  let flags := raise (has (events ev) EVENT_HUP) EPOLLHUP flags in
  let flags := raise (has (events ev) EVENT_RDHUP) EPOLLRDHUP flags in
  let flags := raise (has (events ev) EVENT_ET) EPOLLET flags in
  let flags := raise (has (events ev) EVENT_ONESHOT) EPOLLONESHOT flags in
  mk_epoll flags (data ev).

Definition epoll_event_to_event (eev : epoll_event) : event :=
  let flags := 0 in
  let flags := raise (has (ep_events eev) EPOLLIN) EVENT_IN flags in
  let flags := raise (has (ep_events eev) EPOLLOUT) EVENT_OUT flags in
  let flags := raise (has (ep_events eev) EPOLLHUP) EVENT_HUP flags in
  let flags := raise (has (ep_events eev) EPOLLRDHUP) EVENT_RDHUP flags in
  let flags := raise (has (ep_events eev) EPOLLET) EVENT_ET flags in
  let flags := raise (has (ep_events eev) EPOLLONESHOT) EVENT_ONESHOT flags in
  mk_event flags (ep_data eev).

Definition event_ctl (efd : Z) (ctl : event_ctl_t) (fd : Z) (ev : event) : M E Z :=
  sys_epoll_ctl efd (epoll_cmd ctl) fd (event_to_epoll_event ev).

(** [for (i = 0; i < ret; i++)]: the entries of [evs] go to the front of
    [events], in which there must be room. *)
Fixpoint fill_events (evs : list epoll_event) (events : list event) : outcome (list event) :=
  match evs, events with
  | [], _ => Ok events
  | eev :: evs, _ :: events =>
      l ← fill_events evs events; mret (epoll_event_to_event eev :: l)
  | _ :: _, [] => Fault
  end.

(** The result is the return value and the content of the array [events]. An
    array of [maxevents] elements needs a positive [maxevents]. *)
Definition event_wait (efd : Z) (events : list event) (maxevents timeout : Z)
    : M E (Z * list event) :=
  if maxevents <=? 0 then fault
  else
    r ← sys_epoll_wait efd maxevents timeout;
    let (ret, evs) := (r : Z * list epoll_event) in
    if ret =? -1 then mret (ret, events)
    else if 0 <? ret then l ← lift (fill_events evs events); mret (ret, l)
    else mret (ret, events).
End Ops.

(** ** Conversion *)
Section Conversion.
Context `{EpollBits}.

(** The bits of a converted event. *)
Ltac epoll_cases :=
  destruct epoll_bits as (a & b & c & d & e & f & g & Ea & Eb & Ec & Ed & Ee & Ef & Eg & Hr & Hd);
  rewrite ?Ea, ?Eb, ?Ec, ?Ed, ?Ee, ?Ef, ?Eg;
  repeat match goal with
  | H : Forall _ (_ :: _) |- _ => apply Forall_cons in H as [? ?]
  end;
  repeat match goal with
  | H : NoDup (_ :: _) |- _ => apply NoDup_cons in H as [? ?]
  end;
  repeat match goal with
  | H : _ ∉ _ :: _ |- _ => apply not_elem_of_cons in H as [? ?]
  end.

Lemma event_to_epoll_has ev :
  let flags := ep_events (event_to_epoll_event ev) in
  has flags EPOLLIN = has (events ev) EVENT_IN /\
  has flags EPOLLOUT = has (events ev) EVENT_OUT /\
  has flags EPOLLHUP = has (events ev) EVENT_HUP /\
  has flags EPOLLRDHUP = has (events ev) EVENT_RDHUP /\
  has flags EPOLLET = has (events ev) EVENT_ET /\
  has flags EPOLLONESHOT = has (events ev) EVENT_ONESHOT.
Proof.
  cbn [event_to_epoll_event ep_events]. epoll_cases.
  rewrite !(has_pow2 (raise _ _ _)), !raise_testbit by lia. rewrite !Z.eqb_refl, !Z.bits_0.
  repeat match goal with
  | |- context [?x =? ?y] => lazymatch x with y => fail | _ => rewrite (proj2 (Z.eqb_neq x y)) by congruence end
  end.
  rewrite !andb_false_r, !andb_true_r, ?orb_false_l, ?orb_false_r. by split_and!.
Qed.

(** The bits of an event made from an epoll event. *)
Lemma epoll_to_event_testbit eev k : 0 <= k ->
  Z.testbit (events (epoll_event_to_event eev)) k =
  has (ep_events eev) EPOLLONESHOT && (11 =? k) || (has (ep_events eev) EPOLLET && (10 =? k) ||
    (has (ep_events eev) EPOLLRDHUP && (3 =? k) || (has (ep_events eev) EPOLLHUP && (2 =? k) ||
      (has (ep_events eev) EPOLLOUT && (1 =? k) || has (ep_events eev) EPOLLIN && (0 =? k))))).
Proof.
  intros Hk. cbn [epoll_event_to_event events].
  destruct event_bits as (Ei & Eo & Eh & Er & Ee & E1). rewrite ?Ei, ?Eo, ?Eh, ?Er, ?Ee, ?E1.
  rewrite !raise_testbit, Z.bits_0 by lia. by rewrite orb_false_r.
Qed.

Lemma event_mask_testbit k : 0 <= k ->
  Z.testbit event_mask k = (0 =? k) || (1 =? k) || (2 =? k) || (3 =? k) || (10 =? k) || (11 =? k).
Proof.
  intros Hk. unfold event_mask.
  destruct event_bits as (Ei & Eo & Eh & Er & Ee & E1). rewrite ?Ei, ?Eo, ?Eh, ?Er, ?Ee, ?E1.
  rewrite !Z.lor_spec, !Z.pow2_bits_eqb by lia. by rewrite !orb_assoc.
Qed.

(** An event goes through epoll and comes back. *)
Lemma epoll_to_epoll ev : epoll_event_to_event (event_to_epoll_event ev) = masked ev.
Proof.
  destruct (event_to_epoll_has ev) as (Hin & Hout & Hhup & Hrd & Het & Hone).
  unfold masked. enough (events (epoll_event_to_event (event_to_epoll_event ev)) =
    Z.land (events ev) event_mask) as E.
  { destruct ev as [fl d]. cbn in *. by rewrite <-E. }
  apply Z.bits_inj'. intros k Hk.
  rewrite epoll_to_event_testbit, Hin, Hout, Hhup, Hrd, Het, Hone, Z.land_spec, event_mask_testbit by done.
  destruct event_bits as (Ei & Eo & Eh & Er & Ee & E1). rewrite ?Ei, ?Eo, ?Eh, ?Er, ?Ee, ?E1.
  rewrite !has_pow2 by lia.
  repeat match goal with |- context [?x =? k] =>
    destruct (Z.eqb_spec x k) as [<-|]; [by rewrite ?andb_true_r, ?andb_false_r, ?orb_true_r, ?orb_false_r|] end.
  by rewrite !andb_false_r.
Qed.

(** A reported flag other than an error or a hang-up was asked for. *)
Lemma epoll_flag_asked x fl fl' :
  x ∈ [EPOLLIN; EPOLLOUT; EPOLLRDHUP; EPOLLET; EPOLLONESHOT] ->
  flags_in fl (Z.lor fl' (Z.lor EPOLLERR EPOLLHUP)) -> has fl x = true -> has fl' x = true.
Proof.
  intros Hx Hf. apply list_elem_of_In in Hx. cbn in Hx. revert Hx Hf. epoll_cases. intros Hx Hf.
  assert (exists n, 0 <= n /\ 2 ^ n = x /\ (g =? n) = false /\ (c =? n) = false) as (n & Hn & <- & Hgn & Hcn).
  { destruct Hx as [Hx|[Hx|[Hx|[Hx|[Hx|[]]]]]]; eexists; rewrite !Z.eqb_neq;
      (split; [|split; [exact Hx|split; congruence]]); lia. }
  rewrite !has_pow2 by done. intros Ha. specialize (Hf n Hn Ha).
  rewrite !Z.lor_spec, !Z.pow2_bits_eqb, Hgn, Hcn, !orb_false_r in Hf by lia. done.
Qed.

(** The flags that come back, when others than those asked for are reported. *)
Lemma epoll_to_event_flags eev reg :
  flags_in (ep_events eev) (Z.lor (ep_events reg) (Z.lor EPOLLERR EPOLLHUP)) ->
  flags_in (events (epoll_event_to_event eev)) (Z.lor (events (epoll_event_to_event reg)) EVENT_HUP).
Proof.
  intros Hf k Hk. destruct event_bits as (_ & _ & Eh & _ & _ & _).
  rewrite Z.lor_spec, !epoll_to_event_testbit, Eh, Z.pow2_bits_eqb by done.
  assert (forall x, x ∈ [EPOLLIN; EPOLLOUT; EPOLLRDHUP; EPOLLET; EPOLLONESHOT] ->
    has (ep_events eev) x = true -> has (ep_events reg) x = true) as Hask.
  { intros x Hx. by apply epoll_flag_asked. }
  rewrite !orb_true_iff, !andb_true_iff.
  intros [[H1 H2]|[[H1 H2]|[[H1 H2]|[[H1 H2]|[[H1 H2]|[H1 H2]]]]]]; [..|by right| |]; left;
    (apply Hask in H1; [|set_solver]); [|right|do 2 right|do 4 right|do 5 right]; [by left..|done].
Qed.

(** A descriptor that only reports an error gives an event without any flag. *)
Lemma epoll_error_lost dat : epoll_event_to_event (mk_epoll EPOLLERR dat) = mk_event 0 dat.
Proof.
  unfold epoll_event_to_event. cbn [ep_events ep_data].
  assert (forall x, x ∈ [EPOLLIN; EPOLLOUT; EPOLLHUP; EPOLLRDHUP; EPOLLET; EPOLLONESHOT] ->
    has EPOLLERR x = false) as Hno.
  { epoll_cases. intros x Hx. apply list_elem_of_In in Hx. cbn in Hx.
    destruct Hx as [<-|[<-|[<-|[<-|[<-|[<-|[]]]]]]]; rewrite has_pow2, Z.pow2_bits_eqb by lia;
      by apply Z.eqb_neq. }
  rewrite !Hno by set_solver. done.
Qed.

(** C38: a [struct event] that is handed to epoll and reported by it as it is comes
    back with the same data and the same flags, less bits that are not flags of
    the interface. But the interface has no flag for an error: an event that
    reports nothing else arrives without any flag. *)
Theorem epoll_conversion_roundtrip ev d :
  epoll_event_to_event (event_to_epoll_event ev) =
    mk_event (Z.land (events ev) event_mask) (data ev) /\
  epoll_event_to_event (mk_epoll EPOLLERR d) = mk_event 0 d.
Proof. split; [apply epoll_to_epoll|apply epoll_error_lost]. Qed.
End Conversion.

(** ** The table of registrations

    What the client has asked for, by descriptor, as the abstract state. *)
Section Registrations.
Context {E : Type} `{EpollLaws E, !EpollBits}.

Definition registered (e : E) (efd : Z) : gmap Z event := epoll_event_to_event <$> interest e efd.

Definition ctl_spec (ctl : event_ctl_t) (fd : Z) (ev : event) (m : gmap Z event)
    : option (gmap Z event) :=
  match ctl, m !! fd with
  | EVENT_CTL_ADD, None | EVENT_CTL_MOD, Some _ => Some (<[fd := masked ev]> m)
  | EVENT_CTL_DEL, Some _ => Some (delete fd m)
  | _, _ => None
  end.

(** C24: [event_ctl] implements the three operations on the table of registrations:
    when it returns 0 the table has changed as the operation says, which was
    allowed - adding a descriptor that is not there, changing or removing one
    that is -, and when it returns -1 the table is as it was. *)
Theorem event_ctl_refines efd ctl fd ev e :
  exists r e', event_ctl efd ctl fd ev e = Ok (r, e') /\
    (r = 0 /\ ctl_spec ctl fd ev (registered e efd) = Some (registered e' efd) \/
     r = -1 /\ registered e' efd = registered e efd).
Proof.
  destruct (epoll_ctl_law efd (epoll_cmd ctl) fd (event_to_epoll_event ev) e) as (r & e' & Er & Hr).
  { destruct ctl; cbn; set_solver. }
  exists r, e'. split; [exact Er|]. unfold registered. destruct Hr as [(-> & Hal & Heff)|(-> & ->)]; [left|by right].
  split; [done|]. rewrite Heff. pose proof epoll_cmds as Hd.
  rewrite !NoDup_cons, !not_elem_of_cons in Hd. destruct Hd as ((? & ? & _) & (? & _) & _).
  unfold ctl_allowed, ctl_effect, ctl_spec in *. rewrite lookup_fmap.
  destruct ctl; cbn [epoll_cmd] in *; repeat case_decide; try congruence.
  - by rewrite Hal, fmap_insert, epoll_to_epoll.
  - destruct Hal as [reg ->]. by rewrite fmap_delete.
  - destruct Hal as [reg ->]. by rewrite fmap_insert, epoll_to_epoll.
Qed.

Lemma epoll_fill_events evs arr :
  (length evs <= length arr)%nat ->
  fill_events evs arr = Ok ((epoll_event_to_event <$> evs) ++ drop (length evs) arr).
Proof.
  revert arr. induction evs as [|eev evs IH]; intros [|a arr] Hl; simpl in *; try done; [lia|].
  by rewrite IH by lia.
Qed.

(** [event_wait] reports at most [maxevents] events, at the front of the
    array, whose rest it leaves alone. Every event stands for a descriptor in
    the table: it carries the data given there, and no flags but those asked
    for and [EVENT_HUP]. *)
Theorem event_wait_reports efd arr timeout e :
  (0 < length arr)%nat ->
  exists r l e', event_wait efd arr (Z.of_nat (length arr)) timeout e = Ok ((r, l), e') /\
    registered e' efd = registered e efd /\
    (r = -1 /\ l = arr \/
     exists evs, r = Z.of_nat (length evs) /\ (length evs <= length arr)%nat /\
       l = evs ++ drop (length evs) arr /\
       Forall (fun ev => exists fd reg, registered e efd !! fd = Some reg /\
         data ev = data reg /\ flags_in (events ev) (Z.lor (events reg) EVENT_HUP)) evs).
Proof.
  intros Hlen. unfold event_wait. rewrite (proj2 (Z.leb_gt _ _)) by lia.
  destruct (epoll_wait_law efd (Z.of_nat (length arr)) timeout e ltac:(lia))
    as (r & evs & e' & Er & Hi & Hr & Hf).
  rewrite (run_bind _ _ _ _ _ Er). unfold registered.
  destruct Hr as [[-> ->]|[-> Hn]].
  { exists (-1), arr, e'. rewrite Hi. split_and!; [done..|by left]. }
  assert (length evs <= length arr)%nat as Hle by lia.
  exists (Z.of_nat (length evs)), ((epoll_event_to_event <$> evs) ++ drop (length evs) arr), e'.
  rewrite (proj2 (Z.eqb_neq _ (-1))), Hi by lia. split; [|split; [done|right]].
  - destruct (Z.ltb_spec 0 (Z.of_nat (length evs))).
    + unfold lift. erewrite run_bind by (by rewrite epoll_fill_events). done.
    + destruct evs; [done|simpl in *; lia].
  - exists (epoll_event_to_event <$> evs). rewrite length_fmap. split_and!; try done.
    rewrite Forall_fmap. eapply Forall_impl; [exact Hf|]. intros eev (fd & reg & Hreg & Hd & Hfl).
    exists fd, (epoll_event_to_event reg). rewrite lookup_fmap, Hreg. split_and!; [done|done|].
    by apply epoll_to_event_flags.
Qed.
End Registrations.

(** ** Linux

    The constants of Linux, and a kernel with one epoll descriptor, in whose
    interest list every descriptor that asks for input is ready. *)
#[export] Instance linux_consts : EpollConsts := {
  EPOLLIN := 1; EPOLLOUT := 4; EPOLLHUP := 16; EPOLLRDHUP := 8192; EPOLLET := 2147483648;
  EPOLLONESHOT := 1073741824; EPOLLERR := 8;
  EPOLL_CTL_ADD := 1; EPOLL_CTL_MOD := 3; EPOLL_CTL_DEL := 2;
}.

#[export] Instance linux_bits : EpollBits.
Proof.
  split.
  - exists 0, 2, 4, 13, 31, 30, 3. split_and!; try done; [repeat constructor; lia|].
    apply NoDup_ListNoDup. repeat constructor; simpl; lia.
  - apply NoDup_ListNoDup. repeat constructor; simpl; lia.
Qed.

Definition list_kernel := gmap Z epoll_event.
Definition ctl_decide (op fd : Z) (m : list_kernel) : bool :=
  if decide (op = EPOLL_CTL_ADD) then bool_decide (m !! fd = None) else bool_decide (is_Some (m !! fd)).

#[export] Instance list_epoll : Epoll list_kernel := {
  sys_epoll_create _ := mret 3;
  sys_close _ := mret tt;
  sys_epoll_ctl efd op fd eev m :=
    if (efd =? 3) && ctl_decide op fd m then Ok (0, ctl_effect op fd eev m) else Ok (-1, m);
  sys_epoll_wait efd n t m :=
    if efd =? 3 then
      let evs := take (Z.to_nat n) (filter (fun eev => has (ep_events eev) EPOLLIN = true) (map_to_list m).*2) in
      Ok ((Z.of_nat (length evs), (fun eev => mk_epoll EPOLLIN (ep_data eev)) <$> evs), m)
    else Ok ((-1, []), m);
  interest m efd := if efd =? 3 then m else ∅;
}.

#[export] Instance list_epoll_laws : EpollLaws list_kernel.
Proof.
  split.
  - intros efd op fd eev m _. cbn [sys_epoll_ctl interest list_epoll]. destruct (efd =? 3); [|eauto 8].
    cbn [andb]. destruct (ctl_decide op fd m) eqn:Ed; [|eauto 8].
    eexists _, _. split; [done|]. left. split_and!; try done.
    unfold ctl_decide, ctl_allowed in *. case_decide; by apply bool_decide_eq_true in Ed.
  - intros efd n t m Hn. cbn [sys_epoll_wait interest list_epoll]. destruct (efd =? 3).
    + eexists _, _, _. split; [done|]. split; [done|]. rewrite length_fmap. split.
      * right. split; [done|]. rewrite length_take. lia.
      * rewrite Forall_fmap. apply Forall_take, Forall_forall. intros eev Hin.
        apply list_elem_of_filter in Hin as [Hin Hm]. apply list_elem_of_fmap in Hm as ([fd reg] & -> & Hm).
        apply elem_of_map_to_list in Hm. exists fd, reg. split_and!; try done. cbn [ep_events snd] in *.
        intros k Hk Hb. rewrite Z.lor_spec. change EPOLLIN with (2 ^ 0) in *.
        rewrite Z.pow2_bits_eqb in Hb by done. apply Z.eqb_eq in Hb as <-. by rewrite <-has_pow2, Hin.
    + eexists _, _, _. split; [done|]. split_and!; try done. by left.
Qed.

(** ** Witnesses *)
Definition demo_list : list_kernel := {[5 := mk_epoll 5 77; 6 := mk_epoll 4 88]}.

Lemma epoll_conversion_roundtrip_witness :
  epoll_event_to_event (event_to_epoll_event (mk_event 3 77)) = mk_event 3 77.
Proof. apply (proj1 (epoll_conversion_roundtrip (mk_event 3 77) 0)). Defined.

Lemma event_ctl_refines_witness :
  exists e', event_ctl 3 EVENT_CTL_MOD 6 (mk_event 1 99) demo_list = Ok (0, e') /\
    registered e' 3 !! 6 = Some (mk_event 1 99).
Proof.
  destruct (event_ctl_refines 3 EVENT_CTL_MOD 6 (mk_event 1 99) demo_list) as (r & e' & E & Hr).
  destruct Hr as [(-> & Hs)|(-> & _)].
  - exists e'. split; [exact E|]. change (ctl_spec EVENT_CTL_MOD 6 (mk_event 1 99) (registered demo_list 3))
      with (Some (<[6 := mk_event 1 99]> (registered demo_list 3))) in Hs.
    injection Hs as <-. apply lookup_insert_eq.
  - vm_compute in E. discriminate.
Defined.

Lemma event_wait_reports_witness :
  exists l e', event_wait 3 [mk_event 0 0; mk_event 0 0] 2 (-1) demo_list = Ok ((1, l), e') /\
    exists ev, l = [ev; mk_event 0 0].
Proof.
  destruct (event_wait_reports 3 [mk_event 0 0; mk_event 0 0] (-1) demo_list) as (r & l & e' & E & _ & Hr).
  - simpl. lia.
  - destruct Hr as [[-> _]|(evs & -> & _ & -> & _)].
    + vm_compute in E. discriminate.
    + change (Z.of_nat (length [mk_event 0 0; mk_event 0 0])) with 2 in E.
      assert (match event_wait 3 [mk_event 0 0; mk_event 0 0] 2 (-1) demo_list with
              | Ok ((r, _), _) => r | _ => 0 end = 1) as Hr by (vm_compute; reflexivity).
      rewrite E in Hr. assert (length evs = 1%nat) as Hl by lia. clear Hr.
      rewrite Hl in E. exists (evs ++ drop 1 [mk_event 0 0; mk_event 0 0]), e'. split; [exact E|].
      destruct evs as [|ev [|]]; try discriminate. exists ev. reflexivity.
Defined.
