(* ===== verification/Kqueue.v ===== *)
(** Events over kqueue (src/event_kqueue.c). The constants of <sys/event.h> and
    the system call are an interface; [knotes] is the table of filters that
    kqueue(2) describes. *)
From S2P Require Import Prelude Time Event.

Record kevent_t := mk_kevent {
  k_ident : Z;
  k_filter : Z;
  k_flags : Z;
  k_fflags : Z;
  k_data : Z;
  k_udata : Z;
}.

Class KqueueConsts := {
  EVFILT_READ : Z; EVFILT_WRITE : Z;
  EV_ADD : Z; EV_DELETE : Z; EV_ONESHOT : Z; EV_EOF : Z; EV_ERROR : Z;
}.

Class KqueueBits `{KqueueConsts} := {
  kqueue_bits : exists a b c d e,
    EV_ADD = 2 ^ a /\ EV_DELETE = 2 ^ b /\ EV_ONESHOT = 2 ^ c /\ EV_EOF = 2 ^ d /\ EV_ERROR = 2 ^ e /\
    Forall (fun k => 0 <= k < 16) [a; b; c; d; e] /\ NoDup [a; b; c; d; e];
  kqueue_filters : EVFILT_READ <> EVFILT_WRITE;
}.

Class Kqueue (K : Type) := {
  sys_kqueue : M K Z;
  sys_close : Z -> M K unit;
  (** kevent(kq, changelist, nchanges, eventlist, nevents, timeout): the return
      value and the first entries of [eventlist]. *)
  sys_kevent : Z -> list kevent_t -> Z -> option timespec -> M K (Z * list kevent_t);
  knotes : K -> Z -> gmap (Z * Z) kevent_t;
}.

Definition note_key (kev : kevent_t) : Z * Z := (k_ident kev, k_filter kev).

(** The changes that were made to the table, in order, and whether all were. *)
Inductive applied `{KqueueConsts} : gmap (Z * Z) kevent_t -> list kevent_t -> gmap (Z * Z) kevent_t -> bool -> Prop :=
| applied_nil m : applied m [] m true
| applied_stop m kev l : applied m (kev :: l) m false
| applied_add m kev l m' b :
    has (k_flags kev) EV_ADD = true ->
    applied (<[note_key kev := kev]> m) l m' b -> applied m (kev :: l) m' b
| applied_delete m kev l m' b :
    has (k_flags kev) EV_ADD = false -> has (k_flags kev) EV_DELETE = true -> is_Some (m !! note_key kev) ->
    applied (delete (note_key kev) m) l m' b -> applied m (kev :: l) m' b.

Class KqueueLaws (K : Type) `{Kqueue K, KqueueConsts} := {
  kevent_change_law kq l k :
    exists m' (b : bool) k', sys_kevent kq l 0 None k = Ok ((if b then 0 else -1, []), k') /\
      applied (knotes k kq) l m' b /\ knotes k' kq = m';
  kevent_wait_law kq n ts k : 0 < n ->
    exists r evs k', sys_kevent kq [] n ts k = Ok ((r, evs), k') /\
      (r = -1 /\ evs = [] \/ r = Z.of_nat (length evs) /\ r <= n) /\
      Forall (fun kev => has (k_flags kev) EV_ERROR = true \/
        exists reg, knotes k kq !! note_key kev = Some reg /\ k_udata kev = k_udata reg) evs;
}.

Section Ops.
Context {K : Type} `{Kqueue K, KqueueConsts}.

Definition event_open : M K Z := sys_kqueue.
Definition event_close (efd : Z) : M K unit := sys_close efd.

(** An [unsigned short]. *)
Definition kevent_flags (ctl : event_ctl_t) (ev : event) : Z :=
  let flags := 0 in
  let flags := match ctl with
               | EVENT_CTL_ADD | EVENT_CTL_MOD => Z.lor flags EV_ADD
               | EVENT_CTL_DEL => Z.lor flags EV_DELETE
               end in
  raise (has (events ev) EVENT_ONESHOT) EV_ONESHOT flags.

(** Both assignments go to the same union. *)
Definition kevent_to_event (kev : kevent_t) : event :=
  let flags := 0 in
  let flags := raise (k_filter kev =? EVFILT_READ) EVENT_IN flags in
  let flags := raise (k_filter kev =? EVFILT_WRITE) EVENT_OUT flags in
  let flags := raise (has (k_flags kev) EV_EOF) EVENT_RDHUP flags in
  let d := 0 in
  let d := set_data_fd d (i32 (k_ident kev)) in
  let d := set_data_ptr d (k_udata kev) in
  mk_event flags d.

(** The entries of [kev[2]] that were set. *)
Definition event_changes (ctl : event_ctl_t) (fd : Z) (ev : event) : list kevent_t :=
  (if has (events ev) EVENT_IN
   then [mk_kevent fd EVFILT_READ (kevent_flags ctl ev) 0 0 (data_ptr (data ev))] else []) ++
  (if has (events ev) EVENT_OUT
   then [mk_kevent fd EVFILT_WRITE (kevent_flags ctl ev) 0 0 (data_ptr (data ev))] else []).

Definition event_ctl (efd : Z) (ctl : event_ctl_t) (fd : Z) (ev : event) : M K Z :=
  r ← sys_kevent efd (event_changes ctl fd ev) 0 None;
  mret r.1.

(** [for (i = 0; i < ret; i++)], with the early return; the result is the return
    value and the array. *)
Fixpoint fill_events (ret : Z) (evs : list kevent_t) (events : list event)
    : outcome (Z * list event) :=
  match evs, events with
  | [], _ => Ok (ret, events)
  | kev :: evs, e :: events =>
      if has (k_flags kev) EV_ERROR then Ok (-1, e :: events)
      else
        r ← fill_events ret evs events;
        let (ret, l) := (r : Z * list event) in
        mret (ret, kevent_to_event kev :: l)
  | _ :: _, [] => Fault
  end.

Definition event_wait (efd : Z) (events : list event) (maxevents timeout : Z)
    : M K (Z * list event) :=
  if maxevents <=? 0 then fault
  else
    ns ← lift (long (timeout * 1000000));
    ts ← lift (timespec_add_nsec (mk_timespec 0 0) ns);
    let ts_ptr := if timeout =? -1 then None else Some ts in
    r ← sys_kevent efd [] maxevents ts_ptr;
    let (ret, evs) := (r : Z * list kevent_t) in
    if ret =? -1 then mret (ret, events)
    else if 0 <? ret then lift (fill_events ret evs events)
    else mret (ret, events).
End Ops.

(** ** What the code does *)
Section Correct.
Context {K : Type} `{KqueueLaws K, !KqueueBits}.

(** The flags of a change: added or deleted, never both. *)
Lemma kevent_flags_has ctl ev :
  has (kevent_flags ctl ev) EV_ADD = negb (bool_decide (ctl = EVENT_CTL_DEL)) /\
  has (kevent_flags ctl ev) EV_DELETE = bool_decide (ctl = EVENT_CTL_DEL).
Proof.
  destruct kqueue_bits as (a & b & c & d & e & Ea & Eb & Ec & Ed & Ee & Hr & Hd).
  unfold kevent_flags. rewrite Ea, Eb, Ec. rewrite !Forall_cons in Hr.
  rewrite !NoDup_cons, !not_elem_of_cons in Hd.
  destruct Hr as (Ha & Hb & Hc & _), Hd as ((Hab & Hac & _) & (Hbc & _) & _).
  rewrite !has_pow2, !raise_testbit by lia.
  rewrite (proj2 (Z.eqb_neq c a)), (proj2 (Z.eqb_neq c b)), !andb_false_r, !orb_false_l by congruence.
  destruct ctl; rewrite !Z.lor_0_l, !Z.pow2_bits_eqb by lia; rewrite Z.eqb_refl, ?(proj2 (Z.eqb_neq a b)),
    ?(proj2 (Z.eqb_neq b a)) by congruence; split; reflexivity.
Qed.

(** The filters a control call is about. *)
Definition asked (ev : event) : list Z :=
  (if has (events ev) EVENT_IN then [EVFILT_READ] else []) ++
  (if has (events ev) EVENT_OUT then [EVFILT_WRITE] else []).

(** The table after a control call that succeeds. *)
Definition ctl_spec (ctl : event_ctl_t) (fd : Z) (ev : event) (m : gmap (Z * Z) kevent_t) :=
  foldl (fun m f =>
    let kev := mk_kevent fd f (kevent_flags ctl ev) 0 0 (data ev) in
    if decide (ctl = EVENT_CTL_DEL) then delete (fd, f) m else <[(fd, f) := kev]> m) m (asked ev).

Lemma applied_spec ctl fd ev m m' :
  applied m (event_changes ctl fd ev) m' true -> m' = ctl_spec ctl fd ev m.
Proof.
  destruct (kevent_flags_has ctl ev) as [Hadd Hdel].
  unfold event_changes, ctl_spec, asked, data_ptr.
  assert (forall f l m0, applied m0 (mk_kevent fd f (kevent_flags ctl ev) 0 0 (data ev) :: l) m' true ->
    applied (if decide (ctl = EVENT_CTL_DEL) then delete (fd, f) m0
             else <[(fd, f) := mk_kevent fd f (kevent_flags ctl ev) 0 0 (data ev)]> m0) l m' true) as Hstep.
  { intros f l m0 Ha. inversion Ha; subst; cbn [k_flags note_key k_ident k_filter] in *.
    - rewrite decide_False; [done|]. intros ->. by rewrite Hadd in *.
    - rewrite decide_True; [done|]. apply (bool_decide_eq_true_1 _). congruence. }
  intros Ha. destruct (has (events ev) EVENT_IN), (has (events ev) EVENT_OUT); cbn [app foldl] in *;
    repeat apply Hstep in Ha; by inversion Ha.
Qed.

(** Nothing else in the table changes, whether all the changes were made or not. *)
Lemma applied_frame m l m' b key :
  applied m l m' b -> key ∉ (note_key <$> l) -> m' !! key = m !! key.
Proof.
  induction 1 as [m|m kev l|m kev l m' b _ _ IH|m kev l m' b _ _ _ _ IH]; intros Hk; try done;
    rewrite fmap_cons in Hk; apply not_elem_of_cons in Hk as [Hne Hk]; rewrite IH by done.
  - by rewrite lookup_insert_ne.
  - by rewrite lookup_delete_ne.
Qed.

Lemma event_changes_keys ctl fd ev : note_key <$> event_changes ctl fd ev = (fun f => (fd, f)) <$> asked ev.
Proof. unfold event_changes, asked. by destruct (has _ EVENT_IN), (has _ EVENT_OUT). Qed.

(** A control call on kqueue works filter by filter: when it returns 0, the
    filters named by [EVENT_IN] and [EVENT_OUT] have been added, changed or
    deleted. No other filter of the descriptor is touched, so that changing a
    registration to fewer events does not withdraw the others, and deleting
    with no flags deletes nothing. *)
Theorem kqueue_ctl_by_filter efd ctl fd ev k :
  exists r k', event_ctl efd ctl fd ev k = Ok (r, k') /\
    (r = 0 /\ knotes k' efd = ctl_spec ctl fd ev (knotes k efd) \/ r = -1) /\
    (forall key, key ∉ ((fun f => (fd, f)) <$> asked ev) -> knotes k' efd !! key = knotes k efd !! key).
Proof.
  destruct (kevent_change_law efd (event_changes ctl fd ev) k) as (m' & b & k' & E & Ha & Hm).
  exists (if b then 0 else -1), k'. unfold event_ctl. rewrite (run_bind _ _ _ _ _ E).
  split_and!; [done| |].
  - destruct b; [left|by right]. split; [done|]. rewrite Hm. by apply applied_spec.
  - intros key Hk. rewrite Hm. eapply applied_frame; [exact Ha|]. by rewrite event_changes_keys.
Qed.

(** The loop over the reported events: an error event ends it. *)
Lemma kqueue_fill_events ret evs arr :
  (length evs <= length arr)%nat ->
  exists r l, fill_events ret evs arr = Ok (r, l) /\ length l = length arr /\
    (if existsb (fun kev => has (k_flags kev) EV_ERROR) evs then r = -1
     else r = ret /\ l = (kevent_to_event <$> evs) ++ drop (length evs) arr).
Proof.
  revert arr. induction evs as [|kev evs IH]; intros arr Hl; [by exists ret, arr|].
  destruct arr as [|e arr]; simpl in Hl; [lia|]. cbn [fill_events existsb].
  destruct (has (k_flags kev) EV_ERROR); [by exists (-1), (e :: arr)|].
  destruct (IH arr ltac:(lia)) as (r & l & E & Hll & Hr). rewrite E.
  exists r, (kevent_to_event kev :: l). split; [done|]. split; [simpl; lia|]. cbn [orb].
  destruct (existsb _ evs); [done|]. destruct Hr as [-> ->]. done.
Qed.

(** An event carries the pointer and the flags of its filter. *)
Lemma kevent_to_event_spec kev :
  data (kevent_to_event kev) = u64 (k_udata kev) /\
  has (events (kevent_to_event kev)) EVENT_IN = (k_filter kev =? EVFILT_READ) /\
  has (events (kevent_to_event kev)) EVENT_OUT = (k_filter kev =? EVFILT_WRITE) /\
  has (events (kevent_to_event kev)) EVENT_RDHUP = has (k_flags kev) EV_EOF.
Proof.
  split; [done|]. destruct event_bits as (Ei & Eo & _ & Er & _ & _). cbn [kevent_to_event events].
  rewrite Ei, Eo, Er, !has_pow2, !raise_testbit, !Z.bits_0 by lia. simpl.
  by rewrite ?andb_true_r, ?andb_false_r, ?orb_false_r.
Qed.

(** [event_wait] on kqueue asks for [timeout] milliseconds, exactly, or without
    a limit for -1, and fills the array from the front. When one of the reported
    events is an error it returns -1, however many others were reported;
    otherwise every event is of a filter in the table, has its kind as a flag,
    and carries the pointer registered with it, which has replaced the
    descriptor in the union. *)
Theorem kqueue_wait_reports efd arr timeout k :
  (0 < length arr)%nat -> - 2 ^ 31 <= timeout < 2 ^ 31 ->
  exists ts ret evs k' r l,
    0 <= tv_nsec ts < NSEC_PER_SEC /\ ns_of ts = timeout * 1000000 /\
    sys_kevent efd [] (Z.of_nat (length arr)) (if timeout =? -1 then None else Some ts) k =
      Ok ((ret, evs), k') /\
    event_wait efd arr (Z.of_nat (length arr)) timeout k = Ok ((r, l), k') /\ length l = length arr /\
    if existsb (fun kev => has (k_flags kev) EV_ERROR) evs || (ret =? -1) then r = -1
    else r = Z.of_nat (length evs) /\ l = (kevent_to_event <$> evs) ++ drop (length evs) arr /\
      Forall (fun kev => exists reg, knotes k efd !! note_key kev = Some reg /\
        data (kevent_to_event kev) = u64 (k_udata reg) /\
        has (events (kevent_to_event kev)) EVENT_IN = (k_filter kev =? EVFILT_READ) /\
        has (events (kevent_to_event kev)) EVENT_OUT = (k_filter kev =? EVFILT_WRITE)) evs.
Proof.
  intros Hlen Ht. destruct (timespec_add_nsec_spec (mk_timespec 0 0) (timeout * 1000000))
    as (ts & Ets & Hn & Hns); [time_unfold; simpl; lia|lia|].
  destruct (kevent_wait_law efd (Z.of_nat (length arr)) (if timeout =? -1 then None else Some ts) k ltac:(lia))
    as (ret & evs & k' & E & Hr & Hf).
  unfold event_wait. rewrite (proj2 (Z.leb_gt _ _)) by lia.
  assert (length evs <= length arr)%nat as Hle by (destruct Hr as [[_ ->]|[-> ?]]; simpl; lia).
  destruct (kqueue_fill_events ret evs arr Hle) as (r & l & Ef & Hll & Hrl).
  set (res := if ret =? -1 then (ret, arr) else if 0 <? ret then (r, l) else (ret, arr)).
  exists ts, ret, evs, k', res.1, res.2.
  split; [done|]. split; [rewrite Hns; time_unfold; simpl; lia|]. split; [exact E|].
  split.
  { unfold lift. rewrite long_ok by lia. erewrite run_bind by reflexivity. rewrite Ets.
    erewrite run_bind by reflexivity. rewrite (run_bind _ _ _ _ _ E), Ef. unfold res.
    destruct (ret =? -1); [done|]. by destruct (0 <? ret). }
  unfold res. destruct Hr as [[-> ->]|[-> Hrn]]; [done|].
  rewrite (proj2 (Z.eqb_neq _ (-1))), orb_false_r by lia.
  destruct evs as [|kev evs]; [done|]. rewrite (proj2 (Z.ltb_lt 0 _)) by (simpl; lia). cbn [fst snd].
  split; [done|]. destruct (existsb _ (kev :: evs)) eqn:Eerr; [done|]. destruct Hrl as [-> ->].
  split_and!; [done..|]. clear -Hf Eerr. revert Hf Eerr. generalize (kev :: evs). intros l.
  induction 1 as [|kev' l Hkev Hl IH]; intros Eerr; [constructor|]. cbn [existsb] in Eerr.
  apply orb_false_iff in Eerr as [He Hl']. constructor; [|by apply IH].
  destruct Hkev as [?|(reg & Hreg & Hu)]; [congruence|]. exists reg.
  destruct (kevent_to_event_spec kev') as (Hd & Hin & Hout & _). split_and!; try done. by rewrite Hd, Hu.
Qed.
End Correct.

(** ** BSD

    The constants of the BSDs, and a kernel with one queue, on which every filter
    is ready. *)
#[export] Instance bsd_consts : KqueueConsts := {
  EVFILT_READ := -1; EVFILT_WRITE := -2;
  EV_ADD := 1; EV_DELETE := 2; EV_ONESHOT := 16; EV_EOF := 32768; EV_ERROR := 16384;
}.

#[export] Instance bsd_bits : KqueueBits.
Proof.
  split; [|done]. exists 0, 1, 4, 15, 14. split_and!; try done; [repeat constructor; lia|].
  apply NoDup_ListNoDup. repeat constructor; simpl; lia.
Qed.

Definition note_kernel := gmap (Z * Z) kevent_t.

Fixpoint make_changes (l : list kevent_t) (m : note_kernel) : bool * note_kernel :=
  match l with
  | [] => (true, m)
  | kev :: l =>
      if has (k_flags kev) EV_ADD then make_changes l (<[note_key kev := kev]> m)
      else if has (k_flags kev) EV_DELETE && bool_decide (is_Some (m !! note_key kev))
      then make_changes l (delete (note_key kev) m)
      else (false, m)
  end.

Lemma make_changes_applied l m : applied m l (make_changes l m).2 (make_changes l m).1.
Proof.
  revert m. induction l as [|kev l IH]; intros m; [constructor|]. cbn [make_changes].
  destruct (has (k_flags kev) EV_ADD) eqn:Ea; [by apply applied_add|].
  destruct (has (k_flags kev) EV_DELETE && _) eqn:Ed; [|constructor].
  apply andb_true_iff in Ed as [? Hd]. apply bool_decide_eq_true in Hd. by apply applied_delete.
Qed.

#[export] Instance note_kqueue : Kqueue note_kernel := {
  sys_kqueue := mret 3;
  sys_close _ := mret tt;
  sys_kevent _ l n _ m :=
    if n =? 0 then Ok ((if (make_changes l m).1 then 0 else -1, []), (make_changes l m).2)
    else
      let evs := take (Z.to_nat n) (filter (fun p => note_key p.2 = p.1) (map_to_list m)).*2 in
      Ok ((Z.of_nat (length evs), evs), m);
  knotes m _ := m;
}.

#[export] Instance note_kqueue_laws : KqueueLaws note_kernel.
Proof.
  split.
  - intros kq l m. eexists _, (make_changes l m).1, _. cbn [sys_kevent note_kqueue knotes].
    split; [reflexivity|]. split; [apply make_changes_applied|done].
  - intros kq n ts m Hn. cbn [sys_kevent note_kqueue knotes].
    rewrite (proj2 (Z.eqb_neq n 0)) by lia. eexists _, _, _. split; [reflexivity|]. split.
    + right. split; [done|]. rewrite length_take. lia.
    + apply Forall_take, Forall_forall. intros kev Hk. right.
      apply list_elem_of_fmap in Hk as ([key reg] & -> & Hk). apply list_elem_of_filter in Hk as [Hkey Hk].
      apply elem_of_map_to_list in Hk. cbn in *. subst key. by exists reg.
Qed.

(** ** Witnesses

    Descriptor 5 is registered for reading and for writing. *)
Definition demo_notes : note_kernel :=
  list_to_map ((fun f => ((5, f), mk_kevent 5 f EV_ADD 0 0 77)) <$> [EVFILT_READ; EVFILT_WRITE]).

(** Changing it to reading alone leaves it registered for writing. *)
Lemma kqueue_ctl_by_filter_witness :
  exists k', event_ctl 3 EVENT_CTL_MOD 5 (mk_event EVENT_IN 99) demo_notes = Ok (0, k') /\
    k_udata <$> knotes k' 3 !! (5, EVFILT_READ) = Some 99 /\
    k_udata <$> knotes k' 3 !! (5, EVFILT_WRITE) = Some 77.
Proof.
  destruct (kqueue_ctl_by_filter 3 EVENT_CTL_MOD 5 (mk_event EVENT_IN 99) demo_notes)
    as (r & k' & E & Hr & Hf).
  destruct Hr as [[-> Hs]| ->]; [|vm_compute in E; discriminate].
  exists k'. split; [exact E|split].
  - rewrite Hs. vm_compute. reflexivity.
  - rewrite Hf; [vm_compute; reflexivity|]. intros H. apply list_elem_of_In in H. cbn in H.
    destruct H as [H|[]]. discriminate.
Defined.

Lemma kqueue_wait_reports_witness :
  exists l k', event_wait 3 (replicate 4 (mk_event 0 0)) 4 1500 demo_notes = Ok ((2, l), k') /\
    length l = 4%nat.
Proof.
  destruct (kqueue_wait_reports 3 (replicate 4 (mk_event 0 0)) 1500 demo_notes)
    as (ts & ret & evs & k' & r & l & _ & _ & Es & E & Hl & _).
  - simpl. lia.
  - lia.
  - exists l, k'. split; [|exact Hl]. change (Z.of_nat (length (replicate 4 (mk_event 0 0)))) with 4 in E.
    assert (match event_wait 3 (replicate 4 (mk_event 0 0)) 4 1500 demo_notes with
              | Ok ((r, _), _) => r | _ => 0 end = 2) as Hr by (vm_compute; reflexivity).
    rewrite E in Hr. rewrite Hr in E. exact E.
Defined.
