(* ===== verification/Log.v ===== *)
(** Logs (src/log.c, include/ckit/log.h) over the streams of the C library.

    A stream has text that has reached its file and text that is still buffered;
    what [fflush] and [fclose] are for is to move one to the other. Formatted
    text is an argument, the string that [vfprintf] produces; writing does not
    fail. Which paths can be opened and what the files hold before is part of the
    state; a file that two streams have open at once is not modelled. *)
From stdpp Require Import strings.
From S2P Require Import Prelude.

(** ** Streams *)
Record stream := mk_stream { s_file : list string; s_pending : list string }.

Record stdio := mk_stdio
  { streams : gmap addr stream; can_open : string -> bool; disk : string -> list string }.

Definition set_streams (m : gmap addr stream) (s : stdio) : stdio := mk_stdio m (can_open s) (disk s).
Definition on_streams {B} (m : M (gmap addr stream) B) : M stdio B := zoom streams set_streams m.

Definition newline : string := String (Ascii.ascii_of_nat 10) EmptyString.

Definition stdout : addr := 1.
Definition stderr : addr := 2.

Definition vfprintf (fp : addr) (text : string) : M stdio Z :=
  on_streams (update fp (fun f => mk_stream (s_file f) (s_pending f ++ [text])));;
  mret (Z.of_nat (String.length text)).
Definition fflush (fp : addr) : M stdio unit :=
  on_streams (update fp (fun f => mk_stream (s_file f ++ s_pending f) [])).
Definition fclose (fp : addr) : M stdio unit := on_streams (dealloc fp).

(** A stream that is not open yet, or [NULL]. Mode "a" keeps what is in the file
    and mode "w" drops it. *)
Definition fopen (path : string) (mode : string) : M stdio addr := fun s =>
  if can_open s path then
    let fp := fresh ({[NULL; stdout; stderr]} ∪ dom (streams s)) in
    let old := if decide (mode = "a"%string) then disk s path else [] in
    Ok (fp, set_streams (<[fp := mk_stream old []]> (streams s)) s)
  else Ok (NULL, s).

(** ** Logs *)
Inductive ck_log_mode := CK_LOG_APPEND | CK_LOG_TRUNC.
Definition CK_LOG_F_SYNC : Z := Z.shiftl 1 0.

Record ck_log := mk_log { fp : addr; flags : Z; mode : ck_log_mode }.

#[export] Instance ck_log_eq_dec : EqDecision ck_log.
Proof. unfold EqDecision, Decision. repeat decide equality. Defined.

Definition with_fp (p : addr) (l : ck_log) : ck_log := mk_log p (flags l) (mode l).
Definition with_flags (f : Z) (l : ck_log) : ck_log := mk_log (fp l) f (mode l).

(** The content of the structure and the return value. *)
Definition ck_log_init (fp : addr) (mode : ck_log_mode) : Z * ck_log := (0, mk_log fp 0 mode).

Definition ck_log_open (log : ck_log) (path : string) (mode : ck_log_mode) : M stdio (Z * ck_log) :=
  let omode := match mode with CK_LOG_APPEND => "a" | CK_LOG_TRUNC => "w" end%string in
  fp ← fopen path omode;
  if fp =? NULL then
    vfprintf stderr ("fdopen failed for " ++ path ++ newline)%string;;
    mret (-1, log)
  else mret (ck_log_init fp mode).

Definition ck_log_close (log : ck_log) : M stdio unit := fclose (fp log).

Definition ck_log_check_flag (log : ck_log) (f : Z) : Z :=
  if 0 <? Z.land (flags log) (u8 f) then 1 else 0.

Definition ck_log_print (log : ck_log) (text : string) : M stdio Z :=
  ret ← vfprintf (fp log) text;
  (if negb (ck_log_check_flag log CK_LOG_F_SYNC =? 0) then fflush (fp log) else mret tt);;
  mret ret.

Definition ck_log_vprint (log : ck_log) (text : string) : M stdio Z := vfprintf (fp log) text.

Definition ck_log_set_flag (log : ck_log) (f : Z) : ck_log :=
  with_flags (Z.lor (flags log) (u8 f)) log.
Definition ck_log_unset_flag (log : ck_log) (f : Z) : ck_log :=
  with_flags (Z.land (flags log) (Z.lnot (u8 f))) log.

(** ** What the operations do *)
Lemma set_streams_id s : set_streams (streams s) s = s.
Proof. by destruct s. Qed.

Lemma run_vfprintf p f text s : streams s !! p = Some f ->
  vfprintf p text s = Ok (Z.of_nat (String.length text),
    set_streams (<[p := mk_stream (s_file f) (s_pending f ++ [text])]> (streams s)) s).
Proof.
  intros Hp. apply wp_eq. unfold vfprintf, on_streams. rewrite wp_bind, wp_zoom, wp_update.
  exists f. by rewrite wp_ret.
Qed.

Lemma check_flag_bits log k : 0 <= flags log -> 0 <= k < 8 ->
  ck_log_check_flag log (2 ^ k) = if Z.testbit (flags log) k then 1 else 0.
Proof.
  intros Hf Hk. unfold ck_log_check_flag, u8.
  assert (2 ^ k < 2 ^ 8) by (apply Z.pow_lt_mono_r; lia). rewrite Z.mod_small by (split; [lia|done]).
  destruct (Z.testbit (flags log) k) eqn:E.
  - rewrite (proj2 (Z.ltb_lt _ _)); [done|].
    assert (Z.land (flags log) (2 ^ k) <> 0).
    { intros E0. apply (f_equal (fun z => Z.testbit z k)) in E0.
      by rewrite Z.land_spec, Z.pow2_bits_true, E, Z.bits_0 in E0 by lia. }
    pose proof (Z.land_nonneg (flags log) (2 ^ k)). lia.
  - replace (Z.land (flags log) (2 ^ k)) with 0; [done|]. symmetry. apply Z.bits_inj'. intros n Hn.
    rewrite Z.land_spec, Z.pow2_bits_eqb, Z.bits_0 by lia.
    destruct (Z.eqb_spec k n) as [<-|]; [by rewrite E|apply andb_false_r].
Qed.

(** Setting and unsetting a flag changes that flag alone. *)
Lemma flags_roundtrip log k j :
  0 <= flags log -> 0 <= k < 8 -> 0 <= j < 8 ->
  ck_log_check_flag (ck_log_set_flag log (2 ^ k)) (2 ^ j) =
    (if decide (j = k) then 1 else ck_log_check_flag log (2 ^ j)) /\
  ck_log_check_flag (ck_log_unset_flag log (2 ^ k)) (2 ^ j) =
    (if decide (j = k) then 0 else ck_log_check_flag log (2 ^ j)).
Proof.
  intros Hf Hk Hj.
  assert (u8 (2 ^ k) = 2 ^ k) as Hu.
  { unfold u8. apply Z.mod_small. split; [lia|]. apply Z.pow_lt_mono_r; lia. }
  assert (0 <= Z.lor (flags log) (2 ^ k)) by (apply Z.lor_nonneg; lia).
  assert (0 <= Z.land (flags log) (Z.lnot (2 ^ k))) by (apply Z.land_nonneg; lia).
  unfold ck_log_set_flag, ck_log_unset_flag. rewrite !Hu, !check_flag_bits by (done || lia).
  cbn [flags with_flags]. rewrite Z.lor_spec, Z.land_spec, Z.lnot_spec, !Z.pow2_bits_eqb by lia.
  case_decide as Hjk; [subst j; rewrite Z.eqb_refl, orb_true_r, andb_false_r; done|].
  rewrite (proj2 (Z.eqb_neq k j)) by congruence. by rewrite orb_false_r, andb_true_r.
Qed.

(** Opening a log: a new stream, or an error and a message. *)
Lemma run_log_open log path m s :
  is_Some (streams s !! stderr) ->
  exists r log' s', ck_log_open log path m s = Ok ((r, log'), s') /\
    (r = 0 /\ can_open s path = true /\ fp log' <> NULL /\ streams s !! fp log' = None /\
       flags log' = 0 /\ mode log' = m /\
       streams s' = <[fp log' :=
         mk_stream (match m with CK_LOG_APPEND => disk s path | CK_LOG_TRUNC => [] end) []]> (streams s) \/
     r = -1 /\ can_open s path = false /\ log' = log /\
       forall p, p <> stderr -> streams s' !! p = streams s !! p).
Proof.
  intros [fe He]. unfold ck_log_open.
  destruct (can_open s path) eqn:Ec.
  - set (fp' := fresh ({[NULL; stdout; stderr]} ∪ dom (streams s))).
    pose proof (is_fresh ({[NULL; stdout; stderr]} ∪ dom (streams s))) as Hf. fold fp' in Hf.
    apply not_elem_of_union in Hf as [Hf Hd].
    exists 0, (mk_log fp' 0 m), (set_streams (<[fp' :=
      mk_stream (match m with CK_LOG_APPEND => disk s path | CK_LOG_TRUNC => [] end) []]> (streams s)) s). split.
    + unfold fopen at 1. unfold mbind at 1, M_bind at 1. rewrite Ec. fold fp'.
      rewrite (proj2 (Z.eqb_neq fp' NULL)) by set_solver. by destruct m.
    + left. split_and!; try done; [set_solver|]. by apply not_elem_of_dom.
  - eexists _, _, _. split.
    + unfold fopen at 1. unfold mbind at 1, M_bind at 1. rewrite Ec, Z.eqb_refl.
      rewrite (run_bind _ _ _ _ _ (run_vfprintf _ _ _ _ He)). reflexivity.
    + right. split_and!; try done. intros p Hp. cbn [streams set_streams]. by rewrite lookup_insert_ne.
Qed.
