(* ===== verification/Debug.v ===== *)
(** Debug output (src/debug.c, include/ckit/debug.h): levels, the default log, and
    the hex dump. The non-Android branches are modelled. A formatted message is
    an argument, as in Log.v. *)
From stdpp Require Import strings.
From S2P Require Import Prelude Log.

Inductive ck_dbg_level := LOG_LVL_VERB | LOG_LVL_DBG | LOG_LVL_INF | LOG_LVL_WARN | LOG_LVL_ERR.

#[export] Instance ck_dbg_level_eq_dec : EqDecision ck_dbg_level.
Proof. solve_decision. Defined.

(** The value of the enumerator. *)
Definition level_value (l : ck_dbg_level) : Z :=
  match l with
  | LOG_LVL_VERB => 0 | LOG_LVL_DBG => 1 | LOG_LVL_INF => 2 | LOG_LVL_WARN => 3 | LOG_LVL_ERR => 4
  end.

Record ck_dbg := mk_dbg { log : ck_log; level : ck_dbg_level }.

Definition with_log (l : ck_log) (d : ck_dbg) : ck_dbg := mk_dbg l (level d).
Definition with_level (l : ck_dbg_level) (d : ck_dbg) : ck_dbg := mk_dbg (log d) l.

(** The structures, the variable [dbg_log], and the streams. [default_dbg] is a
    static variable with an address of its own. *)
Record debug := mk_debug { dbgs : gmap addr ck_dbg; dbg_log : addr; io : stdio }.
Definition default_dbg : addr := 4096.

Definition set_dbgs (m : gmap addr ck_dbg) (s : debug) : debug := mk_debug m (dbg_log s) (io s).
Definition set_dbg_log (p : addr) (s : debug) : debug := mk_debug (dbgs s) p (io s).
Definition set_io (x : stdio) (s : debug) : debug := mk_debug (dbgs s) (dbg_log s) x.
Definition on_dbgs {B} (m : M (gmap addr ck_dbg) B) : M debug B := zoom dbgs set_dbgs m.
Definition on_io {B} (m : M stdio B) : M debug B := zoom io set_io m.

(** What [static struct ck_dbg default_dbg] starts as. *)
Definition default_dbg_init : ck_dbg := mk_dbg (mk_log NULL 0 CK_LOG_APPEND) LOG_LVL_DBG.

Definition ck_dbg_level_to_str (lvl : ck_dbg_level) : string :=
  match lvl with
  | LOG_LVL_VERB => "VERB"
  | LOG_LVL_DBG => "DBG"
  | LOG_LVL_INF => "INF"
  | LOG_LVL_WARN => "WARN"
  | LOG_LVL_ERR => "ERR"
  end.

Definition ck_dbg_set_default_log (dbg : addr) : M debug unit := modify (set_dbg_log dbg).

Definition ck_dbg_init (dbg fp : addr) : M debug Z :=
  on_dbgs (update dbg (fun _ => mk_dbg (mk_log NULL 0 CK_LOG_APPEND) LOG_LVL_VERB));;
  on_dbgs (update dbg (with_level LOG_LVL_DBG));;
  on_dbgs (update dbg (with_log (ck_log_init fp CK_LOG_APPEND).2));;
  mret (ck_log_init fp CK_LOG_APPEND).1.

Definition ck_dbg_print (dbg : addr) (lvl : ck_dbg_level) (text : string) : M debug Z :=
  d ← on_dbgs (load dbg);
  if level_value lvl <? level_value (level d) then mret 0
  else
    (if dbg =? default_dbg then
       if decide (lvl = LOG_LVL_ERR) then on_dbgs (update dbg (fun d => with_log (with_fp stderr (log d)) d))
       else on_dbgs (update dbg (fun d => with_log (with_fp stdout (log d)) d))
     else mret tt);;
    d ← on_dbgs (load dbg);
    ret ← on_io (ck_log_vprint (log d) text);
    (if dbg =? default_dbg then on_dbgs (update dbg (fun d => with_log (with_fp NULL (log d)) d))
     else mret tt);;
    mret ret.

(** [now] is the time of day as printed. *)
Definition start_text (now : string) : string :=
  (now ++ " INF  <<<<<< Log start >>>>>>" ++ newline)%string.

Definition ck_dbg_open (now : string) (dbg : addr) (path : string) : M debug Z :=
  on_dbgs (update dbg (fun _ => mk_dbg (mk_log NULL 0 CK_LOG_APPEND) LOG_LVL_VERB));;
  on_dbgs (update dbg (with_level LOG_LVL_DBG));;
  d ← on_dbgs (load dbg);
  r ← on_io (ck_log_open (log d) path CK_LOG_APPEND);
  let (ret, l) := (r : Z * ck_log) in
  on_dbgs (update dbg (with_log l));;
  (if ret =? 0 then ck_dbg_print dbg LOG_LVL_INF (start_text now);; mret tt else mret tt);;
  mret ret.

(** The second test looks at [dbg], which is [NULL] there. *)
Definition ck_dbg_close (dbg : addr) : M debug unit :=
  s ← get;
  if negb (dbg =? NULL) then
    (if negb (dbg =? default_dbg) then d ← on_dbgs (load dbg); on_io (ck_log_close (log d))
     else mret tt);;
    s ← get;
    if dbg =? dbg_log s then modify (set_dbg_log NULL) else mret tt
  else if negb (dbg_log s =? NULL) then
    (if negb (dbg =? default_dbg) then d ← on_dbgs (load (dbg_log s)); on_io (ck_log_close (log d))
     else mret tt);;
    modify (set_dbg_log NULL)
  else mret tt.

Definition ck_dbg_is_open (dbg : addr) : M debug bool :=
  d ← on_dbgs (load dbg);
  mret (negb (fp (log d) =? NULL) || (dbg =? default_dbg)).

Definition ck_dbg_set_level (dbg : addr) (lvl : ck_dbg_level) : M debug unit :=
  on_dbgs (update dbg (with_level lvl)).
Definition DBG_SET_LEVEL (lvl : ck_dbg_level) : M debug unit :=
  s ← get; ck_dbg_set_level (dbg_log s) lvl.

Definition ck_dbg_set_sync_mode (dbg : addr) : M debug unit :=
  on_dbgs (update dbg (fun d => with_log (ck_log_set_flag (log d) CK_LOG_F_SYNC) d)).

(** [__LOG]: to the default log. *)
Definition LOG (lvl : ck_dbg_level) (text : string) : M debug Z :=
  s ← get; ck_dbg_print (dbg_log s) lvl text.

(** ** Printing *)
Section Printing.
Implicit Types s : debug.

Lemma set_dbgs_id s : set_dbgs (dbgs s) s = s.
Proof. by destruct s. Qed.
Lemma wp_dbg_load p Q s :
  wp (on_dbgs (load p)) Q s <-> exists d, dbgs s !! p = Some d /\ Q d s.
Proof. unfold on_dbgs. by rewrite wp_zoom, wp_load, set_dbgs_id. Qed.
Lemma wp_dbg_update p f Q s :
  wp (on_dbgs (update p f)) Q s <->
  exists d, dbgs s !! p = Some d /\ Q tt (set_dbgs (<[p := f d]> (dbgs s)) s).
Proof. unfold on_dbgs. by rewrite wp_zoom, wp_update. Qed.
Lemma wp_on_io {B} (m : M stdio B) Q s :
  wp (on_io m) Q s <-> wp m (fun b x => Q b (set_io x s)) (io s).
Proof. apply wp_zoom. Qed.

(** Where a message of [d] at [p] goes. *)
Definition target (p : addr) (d : ck_dbg) (lvl : ck_dbg_level) : addr :=
  if decide (p = default_dbg) then if decide (lvl = LOG_LVL_ERR) then stderr else stdout
  else fp (log d).

(** A message below the level of the log is dropped. Any other is written, once,
    to the stream of the log, or for the default log to [stderr] when it is an
    error and to [stdout] otherwise; the default log is as it was afterwards.
    The message stays in the buffer of the stream even in sync mode, which has
    an effect on [ck_log_print] only. *)
Theorem ck_dbg_print_correct s p d lvl text f :
  dbgs s !! p = Some d -> (p = default_dbg -> fp (log d) = NULL) ->
  streams (io s) !! target p d lvl = Some f ->
  exists r s', ck_dbg_print p lvl text s = Ok (r, s') /\ dbgs s' = dbgs s /\ dbg_log s' = dbg_log s /\
    if level_value lvl <? level_value (level d) then r = 0 /\ io s' = io s
    else r = Z.of_nat (String.length text) /\
      streams (io s') = <[target p d lvl := mk_stream (s_file f) (s_pending f ++ [text])]> (streams (io s)).
Proof.
  intros Hd Hdef Hf. apply wp_run. unfold ck_dbg_print. rewrite wp_bind, wp_dbg_load.
  exists d. split; [done|]. destruct (level_value lvl <? level_value (level d)).
  { rewrite wp_ret. by split_and!. }
  assert (forall p' l' (Q : Z -> debug -> Prop) s0, streams (io s0) !! p' = Some f -> fp l' = p' ->
    Q (Z.of_nat (String.length text))
      (set_io (set_streams (<[p' := mk_stream (s_file f) (s_pending f ++ [text])]> (streams (io s0))) (io s0)) s0) ->
    wp (on_io (ck_log_vprint l' text)) Q s0) as Hprint.
  { intros p' l' Q s0 Hp' <- HQ. rewrite wp_on_io. unfold wp, ck_log_vprint.
    by rewrite (run_vfprintf _ _ _ _ Hp'). }
  unfold target in *. rewrite wp_bind. destruct (Z.eqb_spec p default_dbg) as [E|E].
  - specialize (Hdef E). rewrite (decide_True _ _ E) in Hf |- *.
    set (out := if decide (lvl = LOG_LVL_ERR) then stderr else stdout) in *.
    assert (forall Q, wp (on_dbgs (update p (fun d => with_log (with_fp out (log d)) d))) Q s ->
      wp (if decide (lvl = LOG_LVL_ERR)
          then on_dbgs (update p (fun d => with_log (with_fp stderr (log d)) d))
          else on_dbgs (update p (fun d => with_log (with_fp stdout (log d)) d))) Q s) as Hset.
    { unfold out. intros Q. by destruct (decide _). }
    apply Hset. rewrite wp_dbg_update. exists d. split; [done|].
    rewrite wp_bind, wp_dbg_load. eexists. split; [apply lookup_insert_eq|].
    rewrite wp_bind. apply (Hprint out); [done..|]. rewrite wp_bind, wp_dbg_update.
    eexists. split; [apply lookup_insert_eq|]. rewrite wp_ret. split_and!; try done.
    cbn. rewrite insert_insert_eq. apply insert_id. rewrite Hd. destruct d as [[] ?]. cbn in *. by subst.
  - rewrite (decide_False _ _ E) in Hf |- *. rewrite wp_ret, wp_bind, wp_dbg_load. exists d. split; [done|].
    rewrite wp_bind. apply (Hprint (fp (log d))); [done..|]. rewrite wp_bind, !wp_ret. by split_and!.
Qed.

(** An error message goes to [stderr] by way of the default log, and a message to a
    log of its own that is in sync mode stays in the buffer. *)
Definition demo_debug : debug :=
  mk_debug {[default_dbg := default_dbg_init; 100 := mk_dbg (mk_log 7 CK_LOG_F_SYNC CK_LOG_APPEND) LOG_LVL_INF]}
    default_dbg
    (mk_stdio {[stdout := mk_stream [] []; stderr := mk_stream [] []; 7 := mk_stream [] []]} (fun _ => true) (fun _ => [])).

Lemma ck_dbg_print_correct_witness :
  (exists s', ck_dbg_print default_dbg LOG_LVL_ERR "bad" demo_debug = Ok (3, s') /\
     streams (io s') !! stderr = Some (mk_stream [] ["bad"])) /\
  (exists s', ck_dbg_print 100 LOG_LVL_INF "hello" demo_debug = Ok (5, s') /\
     streams (io s') !! 7 = Some (mk_stream [] ["hello"])) /\
  (exists s', ck_dbg_print 100 LOG_LVL_DBG "hello" demo_debug = Ok (0, s') /\ io s' = io demo_debug).
Proof.
  split_and!.
  - destruct (ck_dbg_print_correct demo_debug default_dbg default_dbg_init LOG_LVL_ERR "bad" (mk_stream [] []))
      as (r & s' & Hr & _ & _ & -> & E); [reflexivity..|].
    exists s'. split; [exact Hr|]. rewrite E. reflexivity.
  - destruct (ck_dbg_print_correct demo_debug 100 (mk_dbg (mk_log 7 CK_LOG_F_SYNC CK_LOG_APPEND) LOG_LVL_INF)
      LOG_LVL_INF "hello" (mk_stream [] [])) as (r & s' & Hr & _ & _ & -> & E); [reflexivity|discriminate|reflexivity|].
    exists s'. split; [exact Hr|]. rewrite E. reflexivity.
  - destruct (ck_dbg_print_correct demo_debug 100 (mk_dbg (mk_log 7 CK_LOG_F_SYNC CK_LOG_APPEND) LOG_LVL_INF)
      LOG_LVL_DBG "hello" (mk_stream [] [])) as (r & s' & Hr & _ & _ & -> & E); [reflexivity|discriminate|reflexivity|].
    exists s'. split; [exact Hr|exact E].
Defined.

(** In sync mode [ck_log_print] leaves nothing in the buffer. *)
Lemma ck_log_print_sync l text x f :
  streams x !! fp l = Some f -> 0 <= flags l ->
  exists x', ck_log_print (ck_log_set_flag l CK_LOG_F_SYNC) text x = Ok (Z.of_nat (String.length text), x') /\
    streams x' = <[fp l := mk_stream (s_file f ++ s_pending f ++ [text]) []]> (streams x).
Proof.
  intros Hf Hl. unfold ck_log_print.
  rewrite (run_bind _ _ _ _ _ (run_vfprintf _ _ text _ Hf)).
  destruct (flags_roundtrip l 0 0) as [Hset _]; [done|lia..|]. rewrite decide_True in Hset by done.
  change CK_LOG_F_SYNC with (2 ^ 0). rewrite Hset. cbn [negb Z.eqb].
  eexists. split.
  - erewrite run_bind; [reflexivity|]. apply wp_eq. unfold fflush, on_streams. rewrite wp_zoom, wp_update.
    eexists. split; [apply lookup_insert_eq|]. split; reflexivity.
  - cbn. by rewrite insert_insert_eq.
Qed.

(** Closing without an argument while the default log is in use closes a stream
    that is [NULL]; and once the log in use is closed there is no log, so that
    the next message goes through a null pointer. *)
Lemma ck_dbg_close_null_faults s :
  dbg_log s = default_dbg -> dbgs s !! default_dbg = Some default_dbg_init ->
  streams (io s) !! NULL = None -> ck_dbg_close NULL s = Fault.
Proof.
  intros Hl Hd Hn. unfold ck_dbg_close. erewrite run_bind by reflexivity. rewrite Hl. cbn [Z.eqb negb NULL default_dbg].
  apply run_fault. erewrite run_bind; [|apply wp_eq; rewrite wp_dbg_load; by eexists].
  unfold on_io, ck_log_close, fclose, on_streams, zoom, dealloc. cbn. by rewrite Hn.
Qed.

Lemma log_after_close_faults s p d f lvl text :
  dbg_log s = p -> p <> NULL -> p <> default_dbg -> dbgs s !! p = Some d -> dbgs s !! NULL = None ->
  streams (io s) !! fp (log d) = Some f ->
  exists s', ck_dbg_close p s = Ok (tt, s') /\ LOG lvl text s' = Fault.
Proof.
  intros Hl Hp Hdef Hd Hn Hf. exists (set_dbg_log NULL (set_io (set_streams (delete (fp (log d)) (streams (io s))) (io s)) s)).
  split.
  - apply wp_eq. unfold ck_dbg_close. rewrite wp_bind, wp_get, (proj2 (Z.eqb_neq p NULL)) by done.
    rewrite (proj2 (Z.eqb_neq p default_dbg)) by done. cbn [negb].
    rewrite !wp_bind, wp_dbg_load. exists d. split; [done|].
    rewrite wp_on_io. unfold ck_log_close, fclose, on_streams. rewrite wp_zoom, wp_dealloc. exists f.
    split; [done|]. rewrite wp_bind, wp_get. cbn [dbg_log set_io]. rewrite Hl, Z.eqb_refl.
    by rewrite wp_modify.
  - unfold LOG. erewrite run_bind by reflexivity. apply run_fault.
    unfold on_dbgs, zoom, load. cbn. by rewrite Hn.
Qed.
End Printing.

(** ** The hex dump

    Bytes and characters are numbers. *)
Definition hex_digit (d : Z) : Z := if d <? 10 then 48 + d else 87 + d.
(** The format "%02x%02x " of two bytes. *)
Definition hex_group (a b : Z) : list Z :=
  [hex_digit (a / 16); hex_digit (a mod 16); hex_digit (b / 16); hex_digit (b mod 16); 32].

(** [snprintf(buf + at, size, ...)] of a text: as much of it as there is room for
    and a terminating zero, all of which must lie in [buf]. The result is the
    length of the whole text. *)
Definition snprintf (buf : list Z) (at_ size : Z) (text : list Z) : outcome (Z * list Z) :=
  let n := Z.min (Z.of_nat (length text)) (size - 1) in
  if Z.of_nat (length buf) <? at_ then Fault
  else if size =? 0 then Ok (Z.of_nat (length text), buf)
  else if Z.of_nat (length buf) <? at_ + n + 1 then Fault
  else Ok (Z.of_nat (length text),
    take (Z.to_nat at_) buf ++ take (Z.to_nat n) text ++ [0] ++ drop (Z.to_nat (at_ + n + 1)) buf).

(** A result of type [int]. *)
Definition int_ok (z : Z) : outcome Z := if (- 2 ^ 31 <=? z) && (z <? 2 ^ 31) then Ok z else Fault.

(** [while (i < datalen)]; the difference [buflen - len] becomes a [size_t]. *)
Fixpoint hexdump_loop (fuel : nat) (h : list Z) (datalen : Z) (buf : list Z) (buflen i len : Z)
    : outcome (list Z) :=
  match fuel with
  | O => OutOfFuel
  | S fuel =>
      if i <? datalen then
        a ← match h !! Z.to_nat i with Some a => Ok a | None => Fault end;
        c ← (if i + 1 <? datalen then match h !! Z.to_nat (i + 1) with Some c => Ok c | None => Fault end
             else Ok 0);
        r ← snprintf buf len (u64 (buflen - len)) (hex_group a c);
        let (n, buf) := (r : Z * list Z) in
        len ← int_ok (len + n);
        i ← int_ok (i + 2);
        hexdump_loop fuel h datalen buf buflen i len
      else Ok buf
  end.

Definition hexdump (h : list Z) (datalen : Z) (buf : list Z) (buflen : Z) : outcome (list Z) :=
  hexdump_loop (S (Z.to_nat datalen)) h datalen buf buflen 0 0.

(** The dump of a byte string; an odd last byte is paired with 0. *)
Fixpoint hex_text (l : list Z) : list Z :=
  match l with
  | [] => []
  | [a] => hex_group a 0
  | a :: b :: l => hex_group a b ++ hex_text l
  end.

(** What is in a buffer once the text [t] was printed to it, cut to its size. *)
Definition dumped (t buf : list Z) : list Z :=
  if decide (t = []) then buf
  else take (length buf - 1) t ++ [0] ++ drop (S (length t)) buf.

Lemma length_dumped t buf : (0 < length buf)%nat -> length (dumped t buf) = length buf.
Proof. intros. unfold dumped. case_decide; [done|]. rewrite !length_app, length_take, length_drop. cbn. lia. Qed.

Lemma dumped_room t buf : t <> [] -> (length t < length buf)%nat ->
  dumped t buf = t ++ [0] ++ drop (S (length t)) buf.
Proof. intros Ht ?. unfold dumped. rewrite decide_False by done. by rewrite take_ge by lia. Qed.

(** Printing at the end of what was printed before. *)
Lemma snprintf_append t g buf :
  g <> [] -> (0 < length buf)%nat -> Z.of_nat (length buf) < 2 ^ 31 ->
  snprintf (dumped t buf) (Z.of_nat (length t)) (u64 (Z.of_nat (length buf) - Z.of_nat (length t))) g =
  if decide (length t <= length buf)%nat then Ok (Z.of_nat (length g), dumped (t ++ g) buf) else Fault.
Proof.
  intros Hg Hb Hlt. unfold snprintf. rewrite length_dumped by done.
  destruct (decide (length t <= length buf)%nat) as [Hle|Hgt].
  2: { by rewrite (proj2 (Z.ltb_lt _ _)) by lia. }
  rewrite (proj2 (Z.ltb_ge _ _)), u64_id by lia.
  assert (t ++ g <> []) as Htg by (by destruct t).
  destruct (Z.eqb_spec (Z.of_nat (length buf) - Z.of_nat (length t)) 0) as [E|E].
  { assert (t <> []) by (intros ->; cbn in *; lia). unfold dumped. rewrite !decide_False by done.
    rewrite take_app_le by lia. rewrite !drop_ge by (rewrite ?length_app; lia). done. }
  rewrite (proj2 (Z.ltb_ge _ _)) by lia. do 2 f_equal.
  set (n := Z.to_nat (Z.min (Z.of_nat (length g)) (Z.of_nat (length buf) - Z.of_nat (length t) - 1))).
  replace (Z.to_nat (Z.of_nat (length t) + _ + 1)) with (length t + S n)%nat by lia.
  rewrite Nat2Z.id.
  assert (take (length t) (dumped t buf) = t /\
          drop (length t + S n) (dumped t buf) = drop (length t + S n) buf) as [-> ->].
  { destruct (decide (t = [])) as [->|Ht]; [done|]. rewrite dumped_room by (done || lia).
    rewrite take_app_length, drop_app_ge by lia. split; [done|].
    replace (length t + S n - length t)%nat with (S n) by lia. cbn. rewrite drop_drop. f_equal. lia. }
  unfold dumped. rewrite decide_False by done. rewrite length_app.
  rewrite take_app_ge by lia. rewrite <- app_assoc.
  destruct (decide (length g <= length buf - length t - 1)%nat).
  - replace n with (length g) by lia. rewrite !take_ge by lia. do 4 f_equal. lia.
  - replace n with (length buf - 1 - length t)%nat by lia. do 2 f_equal.
    rewrite !drop_ge by lia. done.
Qed.

Lemma int_ok_id z : - 2 ^ 31 <= z < 2 ^ 31 -> int_ok z = Ok z.
Proof. intros [H1 H2]. unfold int_ok. by rewrite (proj2 (Z.leb_le _ _) H1), (proj2 (Z.ltb_lt _ _) H2). Qed.

Lemma length_hex_group a b : length (hex_group a b) = 5%nat.
Proof. done. Qed.

(** How many characters the dump has before its last group. *)
Definition last_group (data : list Z) : nat := 5 * ((length data + 1) / 2 - 1).

Lemma last_group_cons a b l : last_group (a :: b :: l) = if decide (l = []) then 0%nat else (5 + last_group l)%nat.
Proof.
  unfold last_group. cbn [length]. replace (S (S (length l)) + 1)%nat with (length l + 1 + 1 * 2)%nat by lia.
  rewrite Nat.div_add by done. case_decide as E; [by subst|].
  assert (0 < length l)%nat by (destruct l; [done|cbn; lia]).
  pose proof (Nat.Div0.div_le_mono 2 (length l + 1) 2 ltac:(lia)). change (2 / 2)%nat with 1%nat in *. lia.
Qed.

(** One round: the bytes [a] and [c] are printed after [t]. *)
Lemma hexdump_round fuel pre a rest t buf :
  (0 < length buf)%nat -> Z.of_nat (length buf) + 5 < 2 ^ 31 ->
  Z.of_nat (length (pre ++ a :: rest)) + 1 < 2 ^ 31 ->
  hexdump_loop (S fuel) (pre ++ a :: rest) (Z.of_nat (length (pre ++ a :: rest))) (dumped t buf)
    (Z.of_nat (length buf)) (Z.of_nat (length pre)) (Z.of_nat (length t)) =
  let g := hex_group a (default 0 (head rest)) in
  if decide (length t <= length buf)%nat then
    hexdump_loop fuel (pre ++ a :: rest) (Z.of_nat (length (pre ++ a :: rest))) (dumped (t ++ g) buf)
      (Z.of_nat (length buf)) (Z.of_nat (length pre) + 2) (Z.of_nat (length (t ++ g)))
  else Fault.
Proof.
  intros Hb Hlt Hh. cbn [hexdump_loop].
  rewrite Nat2Z.id, (list_lookup_middle pre rest a (length pre) eq_refl).
  set (h := pre ++ a :: rest) in *. assert (length h = length pre + S (length rest))%nat as Eh.
  { unfold h. by rewrite length_app. }
  rewrite (proj2 (Z.ltb_lt (Z.of_nat (length pre)) _)) by lia. cbn [mbind outcome_bind].
  assert ((if Z.of_nat (length pre) + 1 <? Z.of_nat (length h)
           then match h !! Z.to_nat (Z.of_nat (length pre) + 1) with Some c => Ok c | None => Fault end
           else Ok 0) = Ok (default 0 (head rest))) as ->.
  { replace (Z.to_nat (Z.of_nat (length pre) + 1)) with (length pre + 1)%nat by lia.
    assert (h !! (length pre + 1)%nat = head rest) as ->.
    { unfold h. rewrite lookup_app_r by lia. replace (length pre + 1 - length pre)%nat with 1%nat by lia.
      by destruct rest. }
    destruct rest as [|c rest]; cbn [length] in Eh.
    - by rewrite (proj2 (Z.ltb_ge _ _)) by lia.
    - by rewrite (proj2 (Z.ltb_lt _ _)) by lia. }
  cbn [mbind outcome_bind]. rewrite snprintf_append by (done || lia). cbv zeta. case_decide; [|done].
  cbn [mbind outcome_bind]. rewrite length_app, length_hex_group.
  rewrite int_ok_id by lia. cbn [mbind outcome_bind]. rewrite int_ok_id by lia. cbn [mbind outcome_bind].
  f_equal. lia.
Qed.

Lemma hexdump_loop_run fuel : forall rest pre t buf,
  (length rest < fuel)%nat -> (0 < length buf)%nat -> Z.of_nat (length buf) + 5 < 2 ^ 31 ->
  Z.of_nat (length (pre ++ rest)) + 1 < 2 ^ 31 ->
  hexdump_loop fuel (pre ++ rest) (Z.of_nat (length (pre ++ rest))) (dumped t buf)
    (Z.of_nat (length buf)) (Z.of_nat (length pre)) (Z.of_nat (length t)) =
  if decide (rest = [] \/ length t + last_group rest <= length buf)%nat
  then Ok (dumped (t ++ hex_text rest) buf) else Fault.
Proof.
  induction (lt_wf fuel) as [fuel _ IH]. intros rest pre t buf Hf Hb Hlt Hh.
  destruct fuel as [|fuel]; [lia|]. destruct rest as [|a [|b rest]].
  - rewrite decide_True by auto. cbn [hexdump_loop hex_text]. rewrite !app_nil_r, Z.ltb_irrefl. done.
  - rewrite hexdump_round by done. cbv zeta. cbn [hex_text head default]. change (last_group [a]) with 0%nat.
    case_decide; [rewrite decide_True by (right; lia)|by rewrite decide_False by (intros [|]; [done|lia])].
    destruct fuel as [|fuel]; [cbn in Hf; lia|]. cbn [hexdump_loop].
    rewrite (proj2 (Z.ltb_ge _ _)); [done|]. rewrite length_app. cbn. lia.
  - rewrite hexdump_round by done. cbv zeta. cbn [hex_text head default]. rewrite last_group_cons.
    case_decide as Ht; [|rewrite decide_False; [done|intros [|]; [done|]; case_decide; lia]].
    replace (pre ++ a :: b :: rest) with ((pre ++ [a; b]) ++ rest) in * by (by rewrite <- app_assoc).
    replace (Z.of_nat (length pre) + 2) with (Z.of_nat (length (pre ++ [a; b]))) by (rewrite length_app; cbn; lia).
    rewrite IH by (done || (cbn in Hf; lia)). rewrite <- app_assoc.
    rewrite length_app, length_hex_group.
    apply decide_ext. case_decide; [subst; split; auto; intros; right; lia|].
    split; intros [|]; try done; right; lia.
Qed.

(** C35: the hex dump of some bytes. A buffer with room for the start of the last
    group gets the text of the dump, four digits and a space for two bytes (an odd
    last byte is followed by 00), cut to its size less one, and a terminating
    zero, which for no bytes at all is not written. In a smaller one [buflen - len]
    is negative, [snprintf] is told there is no limit, and the dump goes on behind
    the end of the buffer. *)
Theorem hexdump_correct data buf :
  (0 < length buf)%nat -> Z.of_nat (length buf) + 5 < 2 ^ 31 -> Z.of_nat (length data) + 1 < 2 ^ 31 ->
  hexdump data (Z.of_nat (length data)) buf (Z.of_nat (length buf)) =
  if decide (data = []) then Ok buf
  else if decide (last_group data <= length buf)%nat
  then Ok (take (length buf - 1) (hex_text data) ++ [0] ++ drop (S (length (hex_text data))) buf)
  else Fault.
Proof.
  intros Hb Hlt Hh. unfold hexdump.
  pose proof (hexdump_loop_run (S (Z.to_nat (Z.of_nat (length data)))) data [] [] buf) as H.
  cbn [app length] in H. change (dumped [] buf) with buf in H. change (Z.of_nat 0) with 0 in H. rewrite H by (done || lia). clear H.
  assert (data <> [] -> hex_text data <> []) as Hne by (by destruct data as [|? [|]]).
  destruct (decide (data = [])) as [->|Hd]; [done|].
  destruct (decide (last_group data <= length buf)%nat).
  - rewrite decide_True by (right; lia). unfold dumped. by rewrite decide_False by auto.
  - by rewrite decide_False by (intros [|]; [done|lia]).
Qed.

(** The bytes 1, 171 and 2 in a buffer of eight characters: "01ab 02" and a zero;
    with four characters the second group is printed beyond the end. *)
Lemma hexdump_correct_witness :
  hexdump [1; 171; 2] 3 (replicate 8 7) 8 = Ok [48; 49; 97; 98; 32; 48; 50; 0] /\
  hexdump [1; 171; 2] 3 (replicate 4 7) 4 = Fault.
Proof.
  split.
  - refine (eq_trans (hexdump_correct [1; 171; 2] (replicate 8 7) _ _ _) _); [|reflexivity..]. vm_compute; lia.
  - refine (eq_trans (hexdump_correct [1; 171; 2] (replicate 4 7) _ _ _) _); [|reflexivity..]. vm_compute; lia.
Defined.
